(* ===== verification/_CoqProject ===== *)
-Q . S2P
Prelude.v
Loops.v
Linalg.v
LiDARGeometry.v
LiDAR360.v
LiDARMachine.v
LiDARWorld.v
LiDARScene.v
Featherstone.v
Completion.v
Actuation.v
Configuration.v
JointSpace.v
Lifecycle.v
Kinematics.v
Devices.v
