(* ===== verification/Prelude.v ===== *)
(** * Stonefish (vortexntnu/stonefish): a verification development

    ** The program

    Stonefish is a C++ marine-robotics simulator built on the Bullet physics
    library. The sources this development has are

    - [src/Library/src/sensors/scalar/LiDAR360.cpp]: the 360 degree LiDAR
      sensor: its constructor (the two angle tables and the distance
      buffer), [InternalUpdate] (one ray cast per layer and horizontal step,
      the measured distance written to [distances_[j * resolution_ + i]]),
      [Render] (two points per ray), [setRange], [setNoise] and three getters;
    - [src/unnamed/part_000] (FeatherstoneEntity.h): the data of the
      articulated multi-body tree, [FeatherstoneLink], [FeatherstoneJoint]
      (with its constructor) and the class [FeatherstoneEntity] (its fields
      and the signatures and contracts of its operations; the bodies are in
      FeatherstoneEntity.cpp, which is not among the sources);
    - [src/Library/include/actuators/Motor.h]: the motor actuator's fields and
      the declarations of its member functions;
    - [src/unnamed/part_001] (OpenGLPipeline.h, OpenGLSky.h): rendering
      pipeline flags and the sky cubemap enumeration (declarations only).

    The sensor reads the world through a ray test and the sensor frame, and
    hands a sample to its base class; the multi-body tree owns a Bullet
    [btMultiBody] and is driven by actuators (the motor) and read by sensors.

    ** The files

    - [Prelude] (this file): what every component shares. The [result] monad
      in which C++ undefined behaviour and the precondition failures of the
      specification are values ([Err]); [unsigned int] as [Z] with its
      wrap-around modulo [2^32] written out ([u32], [umul], [uadd], [usub]);
      [std::vector] indexing ([vec_get], [vec_set]: an index past the end is
      [Err UndefinedBehaviour], never a silent no-op); counted [for] loops
      ([for_range]) with their invariant rule; decision instances for the
      order of [Q]; the tactics and the hint database [sf].
    - [Loops]: the counted loop as the machine runs it, with an
      [unsigned int] counter whose increment wraps ([for_u32], by
      well-founded recursion on the distance to the bound), and the lemmas
      that make it the structured loop [for_range].
    - [Linalg]: the part of Bullet's scalar and vector library the sources
      call: [btScalar] as exact rationals [Q], [btClamp], [btVector3] with
      its operations and an equivalence [veq] (rational equality on each
      coordinate) under which all operations are [Proper], [btTransform]
      with its product and inverse ([xform], [transform_mul], [invXform]), and
      the interface [MathLib] for what has no rational definition ([btCos],
      [btSin], [btSqrt], the unit conversion and [BT_LARGE_FLOAT]) with the
      laws the proofs use and a rational instance that satisfies them.
    - [LiDARGeometry]: the geometry of LiDAR360.cpp, apart from the
      sensor's state: the tabulated angle [step_angle], the cast direction
      [ray_dir], the ends of a ray [ray_point], the distance reported for a
      hit [measured] and the drawn direction [render_dir]. Theorems: the
      length of the cast direction and the distance reported for a hit,
      which exceeds [rangeMax] in inclined layers; the drawn direction
      against the cast one; the range of the tabulated angles.
    - [LiDAR360]: the model of LiDAR360.cpp, function by function, on top
      of [LiDARGeometry], and its theorems: the scan never leaves its
      buffers when [resolution_ * layers_] fits 32 bits and does when it
      wraps, and so does [Render]; the buffer keeps its length; every cell
      is written once with the value the ray test determines; [setRange]
      and [setNoise] clamp; [Render] emits two points per ray. The sensor's
      life is the step relation [step] from the constructor.
    - [LiDARMachine]: the same functions with their [unsigned int] loop
      counters ([InternalUpdate_u32], [Render_u32]) and the constructor
      statement by statement ([LiDAR360_ctor_run]: the two [push_back]
      loops, the lines written to [std::cout], the buffer). Theorems: the
      loops terminate and compute what the structured loops compute; the
      constructor runs into no undefined behaviour, builds the sensor of
      [LiDAR360] and prints [report_spec].
    - [LiDARWorld]: the sensor as a client of the simulation.
      [InternalUpdate_tree] and [Render_tree] are [InternalUpdate] and
      [Render] as interaction trees (the ITree library): each call out of
      the class is an event of [simE] ([GetSensorFrame], [RayTest] with its
      [ClosestRayResultCallback] and collision filter, [AddSample],
      [SensorRender], [IsRenderable]), made in the order of the code, and a
      vector access out of range is an exception. [handle] answers the
      events from a world [Sim] and appends every call to a trace. Theorems:
      the interpreted trees are the functions of [LiDAR360], undefined
      behaviour included ([InternalUpdate_tree_run], [Render_tree_run]); a
      scan asks for the frame once, casts one ray per cell in index order
      with the filter of the code, and adds its sample last
      ([scan_calls_in_order]).
    - [LiDARScene]: the methods of the sensor together. [scan_and_draw] is
      a scan followed by [Render], [placed] where the renderer puts a drawn
      point, [moved_world] the collision world moved by a rigid motion.
      Theorems: in the level layer the drawn end point is the point that
      was hit ([horizontal_hit_drawn]); the distances do not change when
      sensor and world are moved together ([scan_rigid_motion]); a scan
      overwrites what the buffer held, and the scan after [setRange] uses
      the clamped range.
    - [Featherstone]: the multi-body tree under construction. The structs
      [FeatherstoneLink] and [FeatherstoneJoint] (with its constructor) and
      the fields of [FeatherstoneEntity] are those of the header; [Create]
      (the class's constructor), [AddLink], [AddRevoluteJoint],
      [AddPrismaticJoint], [AddFixedJoint] (all three through [add_joint]),
      [AddJointMotor] and [AddJointLimit] follow sections 3, 4.1 and 7 of the
      specification. Bullet's [btMultiBody] is the interface [MultiBody] with
      the laws [MultiBodyLaws]. What the header types [unsigned int] is
      computed as such: the constructor's [totalNumOfLinks - 1] and the
      back-end indices [child - 1] and [parent - 1] are [usub], and the
      getters return [u32] of the sizes. Theorems: the invariant [tree_wf]
      along every sequence of successful calls ([built]); fewer joints than
      links, and link count = joint count + 1 exactly when every link is
      attached; every error of every operation; the each-child-once check
      does not exclude cycles ([cycle_accepted], for any two free links of
      any well-formed tree) while adding joints parent first does
      ([grown_rooted]); the feedback torque [feedback_torque] has no
      component along the joint's axis.
    - [Completion]: the construction sequences themselves. [grow_step] is a
      successful call that adds a link or a joint, [remaining] the number of
      such calls still possible. Theorems: every sequence of growing calls
      is finite ([sn] of stdpp's [relations]) and at most
      [2 * (total - 1)] calls long; a tree refuses every growing call
      exactly when it is complete; from every tree grown parent first a
      complete, rooted tree can be reached.
    - [Actuation]: the built tree at work. [DriveJoint], [ApplyDamping],
      [ApplyGravity], [AddLinkForce], [AddLinkTorque], the motor set points,
      [setJointIC], [setJointDamping], [getJointPosition],
      [getJointVelocity], [getJointTorque] follow sections 4.2 and 4.3 of
      the specification; the back end's dynamic state is the interface
      [MultiBodyState] (a view of the per-link records and a step that
      takes the motors and limits of the joints, [constraints], and
      consumes the applied forces) with the laws [MultiBodyStateLaws] and a
      reference instance whose step is one explicit Euler step
      ([euler_step]). A link record has two accumulators: [jointTorque],
      what [DriveJoint] applied, and [jointForce], the damping force.
      Theorems: every successful call keeps the invariant [tree_ok]; no
      operation reaches the back end out of range; the round trip of
      [setJointIC]; what [ApplyDamping] and [ApplyGravity] add, link by
      link, and that [getJointTorque] does not show it.
    - [Configuration]: what moves the tree. No force injection and no
      parameter setting of [Actuation] changes a joint position or velocity
      ([forces_do_not_move]): between two solves the joint queries answer
      the same, whatever was applied. The lemmas are stated for any
      [reading] of the link records, which [JointSpace] uses again.
    - [JointSpace]: the contract of the joint-indexed interface. The
      specification is a sequence of [JointView] records (type, position,
      velocity, applied torque, damping force, damping coefficients,
      control law) with the
      operations [js_DriveJoint], [js_ApplyDamping], [js_setJointIC],
      [js_setJointDamping], [js_set_servo] and the queries on it;
      [joint_space] is the abstraction function from a tree. Theorems: every
      sequence of calls of [Actuation] commutes with the abstraction, errors
      included ([joint_space_refines]); the queries read the records
      ([joint_queries_refine]); loads on links do not show in the records
      ([link_loads_keep_joints]); a solve clears the applied forces
      ([solve_consumes]).
    - [Lifecycle]: the life cycle Unattached, Attached, Stepping of
      section 4.3. [AddToDynamicsWorld] attaches the tree once;
      [life_step] is a construction call (only while unattached), the
      attachment, an actuation call or a solve, [life_run] a sequence of
      them; [exec] and [execs] run the same calls given as data
      ([Command]). The class has no field for the phase: it is kept beside
      the tree, and the calls the specification leaves undefined are
      [UndefinedBehaviour]. Theorems: the invariant [tree_ok] in every
      world a run reaches from the constructor; the runs are the programs
      that succeed ([execs_run]); the joint records along a program of
      actuation calls ([acts_joint_space]); after any program of an
      attached tree [getJointTorque] returns the sum [ledger] of what
      [DriveJoint] applied since the last solve ([manual_torque_ledger]).
    - [Kinematics]: the tree in space. [getLink], [getLinkTransform],
      [getLinkLinearVelocity], [getLinkAngularVelocity], [setBaseTransform],
      [setSelfCollision], [getJointFeedback], the tree's [Render]
      ([FeatherstoneEntity_Render]) and [AddToDynamicsWorld] with a pose
      follow the header and sections 4.3, 6 and 7 of the specification;
      the back end's poses, velocities and reactions are the interface
      [MultiBodyKinematics] with the laws [MultiBodyKinematicsLaws], and
      [kin_multibody] is a back end that satisfies the laws of all three
      interfaces. [world_step] extends the life cycle of [Lifecycle] with
      the pose operations, [world_exec] runs them as data. Theorems: every query is checked and none
      reaches the back end out of range, in every world a run reaches; the
      round trip of the base transform; [Render] returns one drawable per
      link; the feedback of a joint is the reaction force with a torque
      orthogonal to the joint's axis ([getJointFeedback_orthogonal]); a
      joint's type, parent and child never change.
    - [Devices]: the data of the classes that the sources only declare:
      the fields of [Motor] (Motor.h), the flags of [OpenGLPipeline] and
      its colour macros, the static fields of [OpenGLSky] and the
      enumeration [SkyCubemap] with the values of its constants. No member
      function of these classes has a body among the sources, and none is
      modelled.

    ** Modelling choices

    - Floating point is idealised: [Scalar] is [Q], no rounding, no NaN.
      Theorems about values are stated with [==] (or [veq]); theorems about
      sizes and indices with [=].
    - Loops are modelled twice. [for_range] runs over a [nat] counter and a
      trip count, is structural, and carries the invariant rule that the
      theorems of [LiDAR360] use. [Loops.for_u32] is the loop as written,
      over an [unsigned int] counter; it is total by well-founded recursion
      (its measure is the distance of the counter from the bound, which
      the increment decreases because a counter below a 32-bit bound cannot
      wrap), and [LiDARMachine.machine_loops_terminate] shows that the two
      agree. No fuel is involved, and the success theorems state that the
      result is [Ok] (not only what it is when it is).
    - Integers keep the width the header gives them where the width shows.
      The constructor's [totalNumOfLinks - 1] and the back-end indices
      [child - 1], [parent - 1] are unsigned subtractions ([usub]), which
      wrap at 0: a tree declared with no link is sized for [2^32 - 1]
      joints ([Featherstone.Create_zero_wraps]), and the parent of a joint
      on the base is handed over as [2^32 - 1]. The sizes of the two
      vectors ([links_size], [joints_size]) are what the index checks
      compare with; [getNumOfLinks] and [getNumOfJoints] return them as
      [unsigned int]. The invariant bounds the declared size by [2^32], so
      that on a well-formed tree the subtractions on indices that passed
      the checks are exact ([Actuation.joint_link_exact]). Bullet takes
      these values as [int]; that conversion is not modelled.
    - The only fuel of the development is that of [reaches_base] in
      [Featherstone], the walk from a link to the base along parent joints:
      it is the length of the joint table, which a path without a repeated
      joint cannot exceed; [grown_rooted] proves that this fuel suffices.
    - Termination of construction is a theorem about the step relation
      [Completion.grow_step], not about a function: [sn] says that no
      infinite sequence of growing calls exists, and the measure
      [remaining] gives the bound.
    - What the sources call but do not define is a parameter: the collision
      world ([rayTest]), the sensor frame, the base class's state, the channel
      setter, the [MathLib] operations, and Bullet's multi-body object
      ([MultiBody], [MultiBodyState], [MultiBodyKinematics]). Each interface
      has an executable instance, on which the witnesses are evaluated.
    - A moved scene is the frame multiplied by a rigid motion [g]
      ([Linalg.transform_mul]) and the ray test precomposed with the
      inverse of [g] ([LiDARScene.moved_world]). The theorem about it asks
      of the ray test only that it respects [veq], and compares distances
      with [==]: the two scans compute the same rationals as different
      fractions.
    - The invariants are decidable where their data is ([wf] and [fits]
      of the sensor, [tree_wf] and [tree_ok] of the tree have [Decision]
      instances), so that the concrete sensors and trees of the witnesses
      are shown well-formed by evaluation.
    - The file FeatherstoneEntity.cpp is not among the sources. What the
      tree's operations do is taken from the specification and from the
      header's signatures and comments; the project's table of definitions
      and source lines marks the definitions taken from the specification.
      Indices of the tree are [Z]; an index that names no joint or link is
      the error [IndexOutOfRange], as section 4.1 requires, and the back
      end's own indexing is undefined behaviour out of range, which the
      theorems show is never reached from a well-formed tree.
    - The reaction a joint reports ([getJointFeedback]) is read from the
      back end's record of the joint's child link, with the lever arm and
      the joint's axis as [mb_setupJoint] recorded them; the
      [feedback] pointer of [FeatherstoneJoint] stays as its constructor
      leaves it, since no source says which call allocates it. The torque
      is the moment of the force less its component along the axis
      ([Linalg.vreject]): sections 4.3 and 8 of the specification require
      a torque orthogonal to the axis, which the plain cross product of
      the header's comment is not ([Featherstone.moment_along_axis]).
    - [getJointTorque] returns the manually applied torque only (the
      header's comment, section 4.3), while [ApplyDamping] adds to the
      joint's generalized force (section 4.2); the model keeps the two
      sums apart in the back end's link record, and a solve clears both.
    - Output to [std::cout] is a list of items ([LiDARMachine.OutItem]),
      one per [<<].
    - The calls of the sensor are modelled twice as well: as parameters of
      the functions of [LiDAR360] (the ray test, the frame, the items of
      the base class), and as events of the trees of [LiDARWorld], whose
      loops are structural ([for_tree]), so the trees are finite and no
      coinduction is involved; the equivalence [≈] of the theorems is the
      library's equivalence up to the silent steps the interpreter inserts.
      A collision mask [a | b] is the list of its groups, since the values
      of the mask constants are not among the sources.
    - Definitions of this file, of [Loops] and of [Linalg] are the C++ and
      Bullet semantics the components are written in; they are not in the
      map of source lines, which lists the definitions that translate
      repository code.

    ** Not modelled

    - The numerical integration of the dynamics and the forward kinematics
      (Bullet's solver): the interface promises of a step only that it
      keeps the size of the back end and consumes the applied forces, and
      of the poses only that there is one record per link. The reference
      back end integrates the applied torque, the damping force and the
      motors' commands over the step and keeps the position within the
      limits, so that the programs of the witnesses move; no theorem
      depends on that choice.
    - The conversion of the tree's [unsigned int] indices to Bullet's [int].
    - [GetAABB] of the tree (it needs the collision shapes of the bodies,
      which no source describes) and [getType].
    - The member functions of the motor actuator (Motor.h): their bodies
      are not among the sources, and neither the header nor the
      specification says what [setTorqueLimits] stores, whether the torque
      is clamped to the limits or what the watchdog resets; the tree's
      side of the actuation ([DriveJoint]) is modelled.
    - The member functions of OpenGLPipeline and OpenGLSky (declarations
      only), what they draw or allocate (rendering, GPU state), and the
      pipeline's singleton.
    - The base classes of the sensor (Sensor, LinkSensor): their sources are
      not in the repository's extract; the sensor takes its frame as an
      argument or as the answer to an event, and which link the sensor is
      mounted on, and when the base class calls [InternalUpdate], is not
      modelled.

    ** Plan (order of work)

    1. LiDAR sensor (all of LiDAR360.cpp, structured and with machine
       counters, output included, its calls as events, and its methods
       composed in a scene): done.
    2. Multi-body tree: construction and its termination, actuation,
       queries, poses, drawing and life cycle: done, from the header and the
       specification; the contract of the joint interface as an abstract
       specification with a refinement proof: done.
    3. Data of the motor actuator and of the rendering classes: done.
    4. Open: the member functions of the motor actuator and the tree's
       [GetAABB], once their behaviour has a description. *)

From Stdlib Require Import ZArith QArith Lia Lqa Psatz.
From stdpp Require Import base tactics option list relations.

(** ** Errors as values *)

(** The failures of section 7 of the specification, and C++ undefined
    behaviour (an index past the end of a [std::vector]). *)
Inductive error : Type :=
| IndexOutOfRange
| TopologyViolation
| InvalidParameter
| UndefinedBehaviour.

Inductive result (A : Type) : Type :=
| Ok (a : A)
| Err (e : error).
Arguments Ok {A} a.
Arguments Err {A} e.

#[export] Instance error_eq_dec : EqDecision error.
Proof. solve_decision. Defined.

#[export] Instance result_eq_dec `{EqDecision A} : EqDecision (result A).
Proof. solve_decision. Defined.

#[export] Instance result_ret : MRet result := @Ok.

#[export] Instance result_bind : MBind result :=
  fun A B f r => match r with Ok a => f a | Err e => Err e end.

#[export] Instance result_fmap : FMap result :=
  fun A B f r => match r with Ok a => Ok (f a) | Err e => Err e end.

Definition is_Ok {A} (r : result A) : bool :=
  match r with Ok _ => true | Err _ => false end.

Definition from_option_err {A} (e : error) (o : option A) : result A :=
  match o with Some a => Ok a | None => Err e end.

(** The call ran into no undefined behaviour. *)
Definition defined {A} (r : result A) : Prop := r <> Err UndefinedBehaviour.

(** The value of a result, or [d] for an error. *)
Definition result_get {A} (d : A) (r : result A) : A :=
  match r with Ok a => a | Err _ => d end.

(** ** [unsigned int] *)

Definition UINT_MOD : Z := 2 ^ 32.

Definition is_u32 (z : Z) : Prop := (0 <= z < UINT_MOD)%Z.

Definition u32 (z : Z) : Z := (z mod UINT_MOD)%Z.

Definition umul (a b : Z) : Z := u32 (a * b).

Definition uadd (a b : Z) : Z := u32 (a + b).

(** [a - b] on [unsigned int]: below zero it wraps to [2^32 + a - b]. *)
Definition usub (a b : Z) : Z := u32 (a - b).

#[export] Instance is_u32_dec z : Decision (is_u32 z).
Proof. unfold is_u32. apply _. Defined.

(** ** [std::vector] indexing *)

(** [v[i]] for an [unsigned int] index: past the end it is undefined
    behaviour, which the model reports instead of inventing a value. *)
Definition vec_get {A} (v : list A) (i : Z) : result A :=
  from_option_err UndefinedBehaviour (v !! Z.to_nat i).

Definition vec_set {A} (v : list A) (i : Z) (x : A) : result (list A) :=
  if decide (Z.to_nat i < length v)%nat then Ok (<[Z.to_nat i := x]> v)
  else Err UndefinedBehaviour.

(** [v.back()]: the last element; undefined behaviour on an empty vector. *)
Definition vec_back {A} (v : list A) : result A :=
  from_option_err UndefinedBehaviour (last v).

Definition vec_set_back {A} (v : list A) (x : A) : result (list A) :=
  match v with
  | [] => Err UndefinedBehaviour
  | _ => Ok (<[pred (length v) := x]> v)
  end.

(** ** Counted loops *)

(** [for (k = start; k < start + count; ++k) s = body k s], stopping at the
    first failure. *)
Fixpoint for_range {St} (start count : nat) (body : nat -> St -> result St)
    (s : St) : result St :=
  match count with
  | O => Ok s
  | S c => s' ← body start s; for_range (S start) c body s'
  end.

(** The same loop with a body that cannot fail. *)
Fixpoint iter_range {St} (start count : nat) (body : nat -> St -> St)
    (s : St) : St :=
  match count with
  | O => s
  | S c => iter_range (S start) c body (body start s)
  end.

(** ** Decidable order on [Q] *)

#[export] Instance Qeq_decision : RelDecision Qeq := Qeq_dec.

#[export] Instance Qle_decision : RelDecision Qle.
Proof. intros x y. destruct (Qlt_le_dec y x); [right; lra | left; assumption]. Defined.

#[export] Instance Qlt_decision : RelDecision Qlt.
Proof. intros x y. destruct (Qlt_le_dec x y); [left; assumption | right; lra]. Defined.

(** ** Notation *)

Declare Scope sf_scope.
Delimit Scope sf_scope with sf.
Notation "v .[ i ]" := (vec_get v i)
  (at level 1, left associativity, format "v .[ i ]") : sf_scope.
Notation "v .[ i <- x ]" := (vec_set v i x)
  (at level 1, left associativity, format "v .[ i  <-  x ]") : sf_scope.
Notation "'UNDEF'" := (Err UndefinedBehaviour) : sf_scope.

(** ** Tactics and hints *)

Create HintDb sf discriminated.
Create Rewrite HintDb sf_rw.

(** [u32_unfold]: expose the modulus for [lia]. *)
Ltac u32_unfold :=
  unfold is_u32, umul, uadd, usub, u32, UINT_MOD in *;
  change (2 ^ 32)%Z with 4294967296%Z in *.

(** * Lemmas *)

Section Result.
Context {A B : Type}.
Implicit Types (r : result A) (f : A -> result B).

Lemma bind_Ok_inv f r b :
  r ≫= f = Ok b <-> exists a, r = Ok a /\ f a = Ok b.
Proof.
  destruct r as [a|e]; simpl; split.
  - eauto.
  - intros (a' & [= ->] & Hf). exact Hf.
  - discriminate.
  - intros (a' & [=] & _).
Qed.

Lemma bind_Err_inv f r e :
  r ≫= f = Err e <-> r = Err e \/ exists a, r = Ok a /\ f a = Err e.
Proof.
  destruct r as [a|e']; simpl; split.
  - eauto.
  - intros [[=] | (a' & [= ->] & Hf)]. exact Hf.
  - intros [= ->]. by left.
  - intros [[= ->] | (a' & [=] & _)]. reflexivity.
Qed.

Lemma is_Ok_true r : is_Ok r = true <-> exists a, r = Ok a.
Proof.
  destruct r; simpl; split; eauto; try discriminate.
  intros [? [=]].
Qed.

Lemma fmap_Ok_inv (g : A -> B) r b :
  g <$> r = Ok b <-> exists a, r = Ok a /\ b = g a.
Proof.
  destruct r as [a|e]; simpl; split.
  - intros [= <-]. eauto.
  - intros (a' & [= ->] & ->). reflexivity.
  - discriminate.
  - intros (a' & [=] & _).
Qed.

End Result.

(** [simplify_result]: invert successful binds in the hypotheses. *)
Ltac simplify_result :=
  repeat match goal with
  | H : Ok _ = Ok _ |- _ => inv H
  | H : Ok _ = Err _ |- _ => discriminate H
  | H : Err _ = Ok _ |- _ => discriminate H
  | H : _ ≫= _ = Ok _ |- _ =>
      let a := fresh "a" in let Ha := fresh "Ha" in
      apply bind_Ok_inv in H; destruct H as (a & Ha & H)
  | H : _ <$> _ = Ok _ |- _ =>
      let a := fresh "a" in let Ha := fresh "Ha" in
      apply fmap_Ok_inv in H; destruct H as (a & Ha & H)
  end.

Section U32.
Local Open Scope Z_scope.

Lemma u32_range z : is_u32 (u32 z).
Proof. u32_unfold. apply Z.mod_pos_bound. lia. Qed.

Lemma u32_small z : is_u32 z -> u32 z = z.
Proof. u32_unfold. intros. apply Z.mod_small. lia. Qed.

Lemma u32_idemp z : u32 (u32 z) = u32 z.
Proof. apply u32_small, u32_range. Qed.

Lemma umul_exact a b : is_u32 (a * b) -> umul a b = a * b.
Proof. apply u32_small. Qed.

Lemma uadd_exact a b : is_u32 (a + b) -> uadd a b = a + b.
Proof. apply u32_small. Qed.

Lemma usub_exact a b : is_u32 (a - b) -> usub a b = a - b.
Proof. apply u32_small. Qed.

(** Below zero the difference wraps: [0 - 1] is the largest value. *)
Lemma usub_wraps a b : - UINT_MOD <= a - b < 0 -> usub a b = a - b + UINT_MOD.
Proof.
  intros H. u32_unfold. symmetry. apply (Z.mod_unique _ _ (-1)); lia.
Qed.

(** A difference that does not go below zero is not made larger. *)
Lemma usub_le a b : 0 <= a - b -> 0 <= usub a b <= a - b.
Proof.
  intros H. u32_unfold. pose proof (Z.mod_pos_bound (a - b) 4294967296).
  pose proof (Z.mod_le (a - b) 4294967296). lia.
Qed.

(** The flat index of cell [(j, i)] of a [rows] by [cols] grid does not wrap
    when the grid's size fits. *)
Lemma flat_index_exact rows cols j i :
  0 <= i < cols -> 0 <= j < rows -> is_u32 (rows * cols) ->
  uadd (umul j cols) i = j * cols + i /\ 0 <= j * cols + i < rows * cols.
Proof.
  intros Hi Hj Hfit.
  assert (0 <= j * cols + i < rows * cols) as Hb by nia.
  split; [|exact Hb].
  rewrite umul_exact by (u32_unfold; nia).
  apply uadd_exact. u32_unfold. lia.
Qed.

End U32.

#[export] Hint Resolve u32_range : sf.
#[export] Hint Rewrite u32_idemp : sf_rw.

Section Vec.
Context {A : Type}.
Implicit Types (v : list A) (i j : Z) (x : A).
Local Open Scope Z_scope.

Lemma vec_get_Ok v i x :
  vec_get v i = Ok x <-> v !! Z.to_nat i = Some x.
Proof.
  unfold vec_get. destruct (v !! Z.to_nat i); simpl; split; congruence.
Qed.

Lemma vec_get_nat v (k : nat) x :
  v !! k = Some x -> vec_get v (Z.of_nat k) = Ok x.
Proof. intros H. apply vec_get_Ok. by rewrite Nat2Z.id. Qed.

Lemma vec_get_in_range v i :
  (Z.to_nat i < length v)%nat -> exists x, vec_get v i = Ok x.
Proof.
  intros [x Hx]%lookup_lt_is_Some_2. exists x. by apply vec_get_Ok.
Qed.

Lemma vec_get_out_of_range v i :
  (length v <= Z.to_nat i)%nat -> vec_get v i = Err UndefinedBehaviour.
Proof. intros H. unfold vec_get. by rewrite lookup_ge_None_2. Qed.

Lemma vec_set_Ok v i x v' :
  vec_set v i x = Ok v' <->
  (Z.to_nat i < length v)%nat /\ v' = <[Z.to_nat i := x]> v.
Proof.
  unfold vec_set. case_decide; split; try intros [= <-]; try intros [? ->];
    try done; lia.
Qed.

Lemma vec_set_in_range v i x :
  (Z.to_nat i < length v)%nat -> vec_set v i x = Ok (<[Z.to_nat i := x]> v).
Proof. intros. by apply vec_set_Ok. Qed.

Lemma vec_set_out_of_range v i x :
  (length v <= Z.to_nat i)%nat -> vec_set v i x = Err UndefinedBehaviour.
Proof. intros. unfold vec_set. case_decide; [lia | done]. Qed.

Lemma vec_set_length v i x v' :
  vec_set v i x = Ok v' -> length v' = length v.
Proof. intros [_ ->]%vec_set_Ok. apply length_insert. Qed.

Lemma vec_get_set_eq v i x v' :
  vec_set v i x = Ok v' -> vec_get v' i = Ok x.
Proof.
  intros [Hlt ->]%vec_set_Ok. apply vec_get_Ok.
  by apply list_lookup_insert_eq.
Qed.

Lemma vec_get_set_ne v i j x v' :
  vec_set v i x = Ok v' -> Z.to_nat i <> Z.to_nat j ->
  vec_get v' j = vec_get v j.
Proof.
  intros [Hlt ->]%vec_set_Ok Hne. unfold vec_get.
  by rewrite list_lookup_insert_ne.
Qed.

End Vec.

#[export] Hint Resolve vec_set_length vec_get_set_eq : sf.

Section ForRange.
Context {St : Type}.
Implicit Types (body : nat -> St -> result St) (s : St).

Lemma for_range_app start c1 c2 body s :
  for_range start (c1 + c2) body s =
  for_range start c1 body s ≫= for_range (start + c1) c2 body.
Proof.
  revert start s. induction c1 as [|c IH]; intros start s; cbn [for_range Nat.add].
  - by rewrite Nat.add_0_r.
  - destruct (body start s) as [s'|e]; cbn [mbind result_bind]; [|done].
    rewrite IH. by rewrite Nat.add_succ_r.
Qed.

Lemma for_range_snoc start count body s :
  for_range start (S count) body s =
  for_range start count body s ≫= body (start + count)%nat.
Proof.
  replace (S count) with (count + 1)%nat by lia. rewrite for_range_app.
  destruct (for_range start count body s) as [s'|e]; cbn; [|done].
  by destruct (body (start + count)%nat s').
Qed.

(** The invariant rule: a body that keeps [I] and never fails under it makes
    the loop succeed, with [I] at the exit index. *)
Lemma for_range_inv (I : nat -> St -> Prop) start count body s :
  I start s ->
  (forall k t, (start <= k < start + count)%nat -> I k t ->
     exists t', body k t = Ok t' /\ I (S k) t') ->
  exists s', for_range start count body s = Ok s' /\ I (start + count)%nat s'.
Proof.
  revert start s. induction count as [|c IH]; intros start s Hs Hbody.
  - exists s. rewrite Nat.add_0_r. done.
  - destruct (Hbody start s) as (t & Ht & HI); [lia | done |].
    destruct (IH (S start) t) as (s' & Hs' & HI'); [done | |].
    + intros k u Hk. apply Hbody. lia.
    + exists s'. simpl. rewrite Ht. simpl.
      by replace (start + S c)%nat with (S start + c)%nat by lia.
Qed.

(** Partial correctness: what a step that succeeds preserves holds at the
    exit of a loop that succeeded. *)
Lemma for_range_Ok_inv (I : nat -> St -> Prop) start count body s s' :
  for_range start count body s = Ok s' ->
  I start s ->
  (forall k t t', (start <= k < start + count)%nat -> I k t ->
     body k t = Ok t' -> I (S k) t') ->
  I (start + count)%nat s'.
Proof.
  revert start s. induction count as [|c IH]; intros start s Hrun Hs Hstep.
  - cbn in Hrun. simplify_result. by rewrite Nat.add_0_r.
  - cbn [for_range] in Hrun. simplify_result.
    rewrite Nat.add_succ_r. apply (IH (S start) a); [done | |].
    + apply (Hstep start s); [lia | done | done].
    + intros k t t' Hk. apply Hstep. lia.
Qed.

(** A loop that succeeded ran its body successfully at every index: what
    each successful step shows ([P]), given what the steps preserve ([J]),
    holds of every index of the range. *)
Lemma for_range_Ok_all (J : St -> Prop) (P : nat -> Prop) start count body s s' :
  for_range start count body s = Ok s' ->
  J s ->
  (forall k t t', (start <= k < start + count)%nat -> J t ->
     body k t = Ok t' -> J t' /\ P k) ->
  J s' /\ forall k, (start <= k < start + count)%nat -> P k.
Proof.
  intros Hrun Hs Hstep.
  apply (for_range_Ok_inv
    (fun n t => J t /\ forall k, (start <= k < n)%nat -> P k) _ _ _ _ _ Hrun).
  - split; [done | lia].
  - intros k t t' Hk [Ht Hall] Hbody.
    destruct (Hstep k t t' Hk Ht Hbody) as [Ht' HPk]. split; [done|].
    intros k' Hk'. destruct (decide (k' = k)) as [->|]; [done | apply Hall; lia].
Qed.

(** A failed loop failed in its body, at an index of the range. *)
Lemma for_range_Err_inv start count body s e :
  for_range start count body s = Err e ->
  exists k t, (start <= k < start + count)%nat /\ body k t = Err e.
Proof.
  revert start s. induction count as [|c IH]; intros start s Hrun; [done|].
  cbn [for_range] in Hrun. apply bind_Err_inv in Hrun as [Hrun | (t & Ht & Hrun)].
  - exists start, s. split; [lia | done].
  - destruct (IH _ _ Hrun) as (k & u & Hk & Hu). exists k, u. split; [lia | done].
Qed.

(** A loop whose body fails at its first index fails with that error. *)
Lemma for_range_fail_first start count body s e :
  body start s = Err e -> for_range start (S count) body s = Err e.
Proof. intros H. simpl. by rewrite H. Qed.

(** Bodies that agree on the range give the same loop. *)
Lemma for_range_ext start count body1 body2 s :
  (forall k t, (start <= k < start + count)%nat -> body1 k t = body2 k t) ->
  for_range start count body1 s = for_range start count body2 s.
Proof.
  revert start s. induction count as [|c IH]; intros start s H; [done|].
  simpl. rewrite H by lia. destruct (body2 start s); simpl; [|done].
  apply IH. intros. apply H. lia.
Qed.

End ForRange.

Section IterRange.
Context {St : Type}.
Implicit Types (body : nat -> St -> St) (s : St).

Lemma iter_range_snoc start count body s :
  iter_range start (S count) body s =
  body (start + count)%nat (iter_range start count body s).
Proof.
  revert start s. induction count as [|c IH]; intros start s.
  - cbn. by rewrite Nat.add_0_r.
  - cbn [iter_range] in *. rewrite IH. by rewrite Nat.add_succ_r.
Qed.

(** A total body makes [for_range] the pure loop. *)
Lemma for_range_pure start count body s :
  for_range start count (fun k t => Ok (body k t)) s =
  Ok (iter_range start count body s).
Proof.
  revert start s. induction count as [|c IH]; intros start s; [done|].
  cbn. apply IH.
Qed.

End IterRange.

(** A loop that pushes [f k] at each step builds [map f] of the indices. *)
Lemma iter_range_push {A} (f : nat -> A) start count (l : list A) :
  iter_range start count (fun k acc => acc ++ [f k]) l =
  l ++ map f (seq start count).
Proof.
  revert start l. induction count as [|c IH]; intros start l; cbn.
  - by rewrite app_nil_r.
  - rewrite IH. by rewrite <- app_assoc.
Qed.

(** A loop that appends a rendering of every element of a vector. *)
Lemma for_range_flat_map {A B} (g : A -> list B) (v : list A) (out : list B) :
  for_range 0 (length v)
    (fun k acc => a ← vec_get v (Z.of_nat k); Ok (acc ++ g a)) out =
  Ok (out ++ flat_map g v).
Proof.
  destruct (for_range_inv (fun k acc => acc = out ++ flat_map g (take k v))
    0 (length v) (fun k acc => a ← vec_get v (Z.of_nat k); Ok (acc ++ g a)) out)
    as (acc & -> & ->).
  - cbn. by rewrite app_nil_r.
  - intros k t [_ Hk] ->. destruct (lookup_lt_is_Some_2 v k Hk) as [a Ha].
    exists ((out ++ flat_map g (take k v)) ++ g a). split.
    + by rewrite (vec_get_nat v k a Ha).
    + rewrite (take_S_r _ _ _ Ha), flat_map_app, <- app_assoc. cbn.
      by rewrite app_nil_r.
  - cbn. by rewrite firstn_all.
Qed.

(** A loop that appends one element [g i] per index builds [omap g] of the
    indices. *)
Lemma for_range_omap {A} (g : nat -> option A)
    (body : nat -> list A -> result (list A)) start count (out : list A) :
  (forall i, (start <= i < start + count)%nat ->
     exists d, g i = Some d /\ forall acc, body i acc = Ok (acc ++ [d])) ->
  for_range start count body out = Ok (out ++ omap g (seq start count)).
Proof.
  revert start out. induction count as [|c IH]; intros start out Hbody; cbn.
  - by rewrite app_nil_r.
  - destruct (Hbody start) as (d & -> & ->); [lia|]. cbn.
    rewrite IH by (intros i Hi; apply Hbody; lia). by rewrite <- app_assoc.
Qed.

(** [omap] over indices on which the function is defined. *)
Lemma omap_seq_Some {A} (g : nat -> option A) a n :
  (forall i, (a <= i < a + n)%nat -> is_Some (g i)) ->
  Some <$> omap g (seq a n) = g <$> seq a n.
Proof.
  revert a. induction n as [|n IH]; intros a Hg; [done|]. cbn.
  destruct (Hg a) as [d Hd]; [lia|]. rewrite Hd. cbn.
  by rewrite IH by (intros i Hi; apply Hg; lia).
Qed.

Lemma omap_seq_length {A} (g : nat -> option A) a n :
  (forall i, (a <= i < a + n)%nat -> is_Some (g i)) ->
  length (omap g (seq a n)) = n.
Proof.
  intros Hg%omap_seq_Some. apply (f_equal length) in Hg.
  by rewrite !length_fmap, length_seq in Hg.
Qed.

Lemma omap_seq_lookup {A} (g : nat -> option A) a n k :
  (forall i, (a <= i < a + n)%nat -> is_Some (g i)) -> (k < n)%nat ->
  omap g (seq a n) !! k = g (a + k)%nat.
Proof.
  intros Hg%omap_seq_Some Hk. apply (f_equal (.!! k)) in Hg.
  rewrite !list_lookup_fmap, lookup_seq_lt in Hg by done. cbn in Hg.
  destruct (omap g (seq a n) !! k); cbn in Hg; [by inv Hg | done].
Qed.

Section VecBack.
Context {A : Type}.
Implicit Types (v : list A) (x : A).

Lemma vec_set_back_Ok v x v' :
  vec_set_back v x = Ok v' <-> v <> [] /\ v' = <[pred (length v) := x]> v.
Proof.
  destruct v; cbn; split; try done.
  - intros [[] _]. done.
  - intros [= <-]. done.
  - intros [_ ->]. done.
Qed.

Lemma vec_set_back_length v x v' :
  vec_set_back v x = Ok v' -> length v' = length v.
Proof. intros [_ ->]%vec_set_back_Ok. apply length_insert. Qed.

Lemma vec_back_set_back v x v' :
  vec_set_back v x = Ok v' -> vec_back v' = Ok x.
Proof.
  intros [Hne ->]%vec_set_back_Ok. unfold vec_back.
  rewrite last_lookup, length_insert, list_lookup_insert_eq; [done|].
  destruct v; [done | cbn; lia].
Qed.

(** With exactly one element, [back()] and [[0]] are the same cell. *)
Lemma vec_set_back_singleton v x :
  length v = 1%nat -> vec_set_back v x = vec_set v 0 x.
Proof. destruct v as [|y [|]]; done. Qed.

End VecBack.

(** ** Termination from a measure *)

(** A relation that decreases a measure bounded below, on the states of an
    invariant, has no infinite path from them. *)
Lemma sn_measure {A} (R : relation A) (P : A -> Prop) (m : A -> Z) :
  (forall x y, P x -> R x y -> P y /\ (0 <= m y < m x)%Z) ->
  forall x, P x -> sn R x.
Proof.
  intros Hdec.
  assert (forall n x, P x -> (m x < Z.of_nat n)%Z -> sn R x) as Hn.
  { induction n as [|n IH]; intros x Hx Hm; constructor; intros y Hxy;
      destruct (Hdec x y Hx Hxy) as [Hy Hmy]; [lia|]. apply IH; [done | lia]. }
  intros x Hx. apply (Hn (Z.to_nat (m x + 1)%Z) x Hx). lia.
Qed.
