(* ===== verification/Loops.v ===== *)
(** * Loops: counted loops with an [unsigned int] counter

    The loops of the sources are all of the form
    [for (unsigned int i = 0; i < n; ++i) body], with [n] an [unsigned int]
    as well. [Prelude.for_range] runs such a loop over a [nat] counter and a
    trip count. This file has the loop as the machine runs it: the counter is
    a 32-bit value, [++i] wraps modulo [2^32], and the loop ends when the
    comparison [i < n] fails. The recursion is not structural; it is defined
    by well-founded recursion on the distance of the counter from the bound
    ([for_u32]), so the function is total: it returns on every input. The
    lemmas show that it is the structured loop with [n] turns, which carries
    every theorem about [for_range] over to the loop as written. *)

From Stdlib Require Import ZArith Lia.
From stdpp Require Import base tactics option list.
From Equations Require Import Equations.
From S2P Require Import Prelude.

#[local] Open Scope Z_scope.

Section Loop.
Context {St : Type}.

(** [for (unsigned int i = start; i < bound; ++i) s = body i s], stopping at
    the first failure. The bound is an [unsigned int]: the comparison sees
    its value modulo [2^32]. *)
Equations? for_u32 (i bound : Z) (body : Z -> St -> result St) (s : St) :
    result St by wf (Z.to_nat (u32 bound - i)) lt :=
for_u32 i bound body s with decide (i < u32 bound) := {
  | left Hlt with body i s := {
      | Ok s' => for_u32 (u32 (i + 1)) bound body s'
      | Err e => Err e };
  | right _ => Ok s }.
Proof.
  assert (i < u32 (i + 1)); [|lia]. revert Hlt. u32_unfold. intros Hlt.
  pose proof (Z.mod_pos_bound bound 4294967296 ltac:(lia)).
  destruct (decide (0 <= i)) as [Hpos|Hneg].
  - rewrite (Z.mod_small (i + 1)) by lia. lia.
  - pose proof (Z.mod_pos_bound (i + 1) 4294967296 ltac:(lia)). lia.
Defined.

(** One turn of the loop. *)
Lemma for_u32_step i bound body s :
  for_u32 i bound body s =
  if decide (i < u32 bound) then body i s ≫= for_u32 (u32 (i + 1)) bound body
  else Ok s.
Proof.
  funelim (for_u32 i bound body s); simp for_u32; rewrite Heq; cbn;
    try rewrite Heq0; try done.
  all: destruct (decide _); try done; try lia.
Qed.

(** The loop is over when the counter has reached the bound. *)
Lemma for_u32_exit i bound body s :
  u32 bound <= i -> for_u32 i bound body s = Ok s.
Proof. intros Hi. rewrite for_u32_step. by rewrite decide_False by lia. Qed.

(** Below the bound the increment does not wrap. *)
Lemma for_u32_turn i bound body s :
  0 <= i < u32 bound ->
  for_u32 i bound body s = body i s ≫= for_u32 (i + 1) bound body.
Proof.
  intros Hi. rewrite for_u32_step, decide_True by lia.
  pose proof (u32_range bound) as Hb. rewrite (u32_small (i + 1)); [done|].
  unfold is_u32 in *. lia.
Qed.

(** From counter [i] the loop makes [bound - i] turns, those of the
    structured loop. *)
Lemma for_u32_count (n : nat) i bound body s :
  0 <= i -> n = Z.to_nat (u32 bound - i) ->
  for_u32 i bound body s =
  for_range (Z.to_nat i) n (fun k => body (Z.of_nat k)) s.
Proof.
  revert i s. induction n as [|n IH]; intros i s Hi Hn; cbn [for_range].
  - apply for_u32_exit. lia.
  - rewrite for_u32_turn by lia. rewrite Z2Nat.id by done.
    destruct (body i s) as [s'|e]; cbn; [|done].
    rewrite IH by lia. f_equal. lia.
Qed.

(** The loop as written is the structured loop with [bound] turns. *)
Lemma for_u32_for_range bound body s :
  is_u32 bound ->
  for_u32 0 bound body s =
  for_range 0 (Z.to_nat bound) (fun k => body (Z.of_nat k)) s.
Proof.
  intros Hb. rewrite (for_u32_count (Z.to_nat bound) 0); [done | done |].
  rewrite u32_small by done. f_equal. lia.
Qed.

(** A bound that does not fit is seen modulo [2^32]. *)
Lemma for_u32_wrapped_bound i bound body s :
  for_u32 i (u32 bound) body s = for_u32 i bound body s.
Proof.
  destruct (decide (0 <= i)) as [Hi|Hi].
  - rewrite !(for_u32_count (Z.to_nat (u32 bound - i)) i); try done.
    by rewrite u32_idemp.
  - pose proof (u32_range bound). unfold is_u32 in *.
    rewrite (for_u32_step i), (for_u32_step i bound), u32_idemp.
    repeat case_decide; try lia. destruct (body i s) as [s'|e]; cbn; [|done].
    pose proof (u32_range (i + 1)). unfold is_u32 in *.
    rewrite !(for_u32_count (Z.to_nat (u32 bound - u32 (i + 1)))); try done; try lia.
    by rewrite u32_idemp.
Qed.

End Loop.

(** A body that cannot fail: the loop is the pure iteration. *)
Lemma for_u32_pure {St} bound (body : Z -> St -> St) (s : St) :
  is_u32 bound ->
  for_u32 0 bound (fun k t => Ok (body k t)) s =
  Ok (iter_range 0 (Z.to_nat bound) (fun k => body (Z.of_nat k)) s).
Proof.
  intros Hb. rewrite for_u32_for_range by done.
  apply (for_range_pure 0 (Z.to_nat bound) (fun k => body (Z.of_nat k))).
Qed.

(** A body indexed by the counter as a [nat]. *)
Lemma for_u32_nat {St} bound (body : nat -> St -> result St) (s : St) :
  is_u32 bound ->
  for_u32 0 bound (fun i => body (Z.to_nat i)) s =
  for_range 0 (Z.to_nat bound) body s.
Proof.
  intros Hb. rewrite for_u32_for_range by done.
  apply for_range_ext. intros k u _. by rewrite Nat2Z.id.
Qed.

#[export] Hint Rewrite @for_u32_for_range @for_u32_pure using done : sf_rw.
