(* ===== verification/Linalg.v ===== *)
(** * Linalg: the scalar and vector library the sources are written in

    Bullet's [btScalar], [btClamp], [btVector3], [btMatrix3x3] and
    [btTransform], as far as LiDAR360.cpp and FeatherstoneEntity.h use them,
    with the product and the inverse of transforms that the theorems about
    moved scenes need.
    [btScalar] is idealised as the rationals; vectors are compared with
    [veq], rational equality of the coordinates, and every operation is
    [Proper] for it, so that [rewrite] works under the operations.

    What has no rational definition ([btCos], [btSin], [btSqrt], the degree
    to radian conversion of [UnitSystem::Angle], the constant
    [BT_LARGE_FLOAT]) is the interface [MathLib]; [MathLibLaws] states the
    laws the proofs rely on, and [rational_math] is an instance that
    satisfies them (a rational parametrisation of the circle and a square
    root that is exact on squares), used to run the model on concrete
    inputs. *)

From Stdlib Require Import ZArith QArith Qabs Qreduction Znumtheory Lia Lqa Psatz.
From Stdlib Require Import Morphisms Setoid.
From stdpp Require Import base tactics option list.
From S2P Require Import Prelude.

Local Open Scope Q_scope.

Abbreviation Scalar := Q.

(** ** Scalars *)

(** [btClamp(a, lb, ub)]: clamps [a] in place; the model returns the new
    value of [a]. *)
Definition btClamp (a lb ub : Scalar) : Scalar :=
  if decide (a < lb) then lb else if decide (ub < a) then ub else a.

(** ** Vectors *)

Record Vector3 : Type := mkVector3 { vx : Scalar; vy : Scalar; vz : Scalar }.

Definition veq (u v : Vector3) : Prop :=
  vx u == vx v /\ vy u == vy v /\ vz u == vz v.

Definition vzero : Vector3 := mkVector3 0 0 0.

Definition vadd (u v : Vector3) : Vector3 :=
  mkVector3 (vx u + vx v) (vy u + vy v) (vz u + vz v).

Definition vsub (u v : Vector3) : Vector3 :=
  mkVector3 (vx u - vx v) (vy u - vy v) (vz u - vz v).

Definition vscale (u : Vector3) (s : Scalar) : Vector3 :=
  mkVector3 (vx u * s) (vy u * s) (vz u * s).

Definition dot (u v : Vector3) : Scalar :=
  vx u * vx v + vy u * vy v + vz u * vz v.

Definition cross (u v : Vector3) : Vector3 :=
  mkVector3 (vy u * vz v - vz u * vy v)
            (vz u * vx v - vx u * vz v)
            (vx u * vy v - vy u * vx v).

Definition length2 (u : Vector3) : Scalar := dot u u.

(** [t] less its component along [a]; all of [t] when [a] is zero. *)
Definition vreject (t a : Vector3) : Vector3 :=
  vsub t (vscale a (dot t a / dot a a)).

(** [u.lerp(v, t)]: Bullet computes [u + (v - u) * t] per coordinate. *)
Definition lerp (u v : Vector3) (t : Scalar) : Vector3 :=
  mkVector3 (vx u + (vx v - vx u) * t)
            (vy u + (vy v - vy u) * t)
            (vz u + (vz v - vz u) * t).

(** ** Matrices and transforms *)

Record Matrix3x3 : Type := mkMatrix3x3 { col0 : Vector3; col1 : Vector3; col2 : Vector3 }.

Record Transform : Type := mkTransform { getBasis : Matrix3x3; getOrigin : Vector3 }.

Definition getColumn (m : Matrix3x3) (k : nat) : Vector3 :=
  match k with O => col0 m | S O => col1 m | _ => col2 m end.

Definition identity_basis : Matrix3x3 :=
  mkMatrix3x3 (mkVector3 1 0 0) (mkVector3 0 1 0) (mkVector3 0 0 1).

Definition identity_transform : Transform := mkTransform identity_basis vzero.

(** [m * v] *)
Definition mat_apply (m : Matrix3x3) (v : Vector3) : Vector3 :=
  vadd (vadd (vscale (col0 m) (vx v)) (vscale (col1 m) (vy v)))
       (vscale (col2 m) (vz v)).

(** [m.transpose() * v] *)
Definition mat_transpose_apply (m : Matrix3x3) (v : Vector3) : Vector3 :=
  mkVector3 (dot (col0 m) v) (dot (col1 m) v) (dot (col2 m) v).

(** [a * b] *)
Definition mat_mul (a b : Matrix3x3) : Matrix3x3 :=
  mkMatrix3x3 (mat_apply a (col0 b)) (mat_apply a (col1 b)) (mat_apply a (col2 b)).

(** [t(v)]: [btTransform::operator()]. *)
Definition xform (t : Transform) (v : Vector3) : Vector3 :=
  vadd (mat_apply (getBasis t) v) (getOrigin t).

(** [t.invXform(v)]: the transposed basis applied to [v - origin]. *)
Definition invXform (t : Transform) (v : Vector3) : Vector3 :=
  mat_transpose_apply (getBasis t) (vsub v (getOrigin t)).

(** [a * b] on transforms: the basis of the product and [a(b.origin)]. *)
Definition transform_mul (a b : Transform) : Transform :=
  mkTransform (mat_mul (getBasis a) (getBasis b)) (xform a (getOrigin b)).

(** A rotation: unit columns, pairwise orthogonal. *)
Definition orthonormal (m : Matrix3x3) : Prop :=
  dot (col0 m) (col0 m) == 1 /\ dot (col1 m) (col1 m) == 1 /\
  dot (col2 m) (col2 m) == 1 /\ dot (col0 m) (col1 m) == 0 /\
  dot (col0 m) (col2 m) == 0 /\ dot (col1 m) (col2 m) == 0.

(** ** The math library *)

Class MathLib : Type := {
  btCos : Scalar -> Scalar;
  btSin : Scalar -> Scalar;
  btSqrt : Scalar -> Scalar;
  UnitSystem_Angle : bool -> Scalar -> Scalar;
  BT_LARGE_FLOAT : Scalar
}.

Class MathLibLaws (M : MathLib) : Prop := {
  btCos_proper :: Proper (Qeq ==> Qeq) btCos;
  btSin_proper :: Proper (Qeq ==> Qeq) btSin;
  btSqrt_proper :: Proper (Qeq ==> Qeq) btSqrt;
  Angle_proper :: Proper (eq ==> Qeq ==> Qeq) UnitSystem_Angle;
  sin2_cos2 : forall a, btSin a * btSin a + btCos a * btCos a == 1;
  btSqrt_nonneg : forall x, 0 <= btSqrt x;
  btSqrt_square : forall x, btSqrt (x * x) == Qabs x;
  Angle_pos : forall d, 0 < d -> 0 < UnitSystem_Angle true d;
  BT_LARGE_FLOAT_pos : 0 < BT_LARGE_FLOAT
}.

(** [v.length()] *)
Definition vlength `{MathLib} (u : Vector3) : Scalar := btSqrt (length2 u).

(** ** A rational instance *)

(** The point of the unit circle with half-angle tangent [t]. *)
Definition cos_q (t : Q) : Q := (1 - t * t) / (1 + t * t).

Definition sin_q (t : Q) : Q := (2 * t) / (1 + t * t).

(** Exact on squares of rationals, the integer square roots of the reduced
    numerator and denominator otherwise. *)
Definition sqrt_q (q : Q) : Q :=
  let r := Qred q in
  inject_Z (Z.sqrt (Qnum r)) / inject_Z (Z.sqrt (Zpos (Qden r))).

Definition angle_q (degToRad : bool) (x : Q) : Q :=
  if degToRad then x * (355 # 20340) else x * (20340 # 355).

#[export] Instance rational_math : MathLib := {|
  btCos := cos_q;
  btSin := sin_q;
  btSqrt := sqrt_q;
  UnitSystem_Angle := angle_q;
  BT_LARGE_FLOAT := 1000000000000000000000000000000
|}.

(** * Lemmas *)

(** ** Scalars *)

Lemma btClamp_range a lb ub : lb <= ub -> lb <= btClamp a lb ub <= ub.
Proof. intros H. unfold btClamp. repeat case_decide; lra. Qed.

Lemma btClamp_id a lb ub : lb <= a <= ub -> btClamp a lb ub = a.
Proof. intros H. unfold btClamp. repeat case_decide; try reflexivity; lra. Qed.

Lemma btClamp_idemp a lb ub :
  lb <= ub -> btClamp (btClamp a lb ub) lb ub = btClamp a lb ub.
Proof. intros H. apply btClamp_id, btClamp_range, H. Qed.

#[export] Instance btClamp_proper : Proper (Qeq ==> Qeq ==> Qeq ==> Qeq) btClamp.
Proof.
  intros a a' Ha l l' Hl u u' Hu. unfold btClamp.
  repeat case_decide; lra.
Qed.

(** ** Vectors *)

(** [vec_simpl]: expose the coordinates of a goal about vectors. *)
Ltac vec_simpl :=
  unfold veq, length2, vadd, vsub, vscale, dot, cross, lerp, vzero in *;
  cbn [vx vy vz] in *.

(** [vec_ring]: coordinate-wise equations between polynomial vector
    expressions. *)
Ltac vec_ring :=
  repeat match goal with v : Vector3 |- _ => destruct v end;
  vec_simpl; repeat split; ring.

(** [mat_ring]: the same for expressions with matrices and transforms. *)
Ltac mat_ring :=
  repeat match goal with
         | t : Transform |- _ =>
             let b := fresh "b" in let o := fresh "o" in
             destruct t as [b o]; assert_fails (is_var t)
         | m : Matrix3x3 |- _ =>
             let c := fresh "c" in let d := fresh "d" in let e := fresh "e" in
             destruct m as [c d e]; assert_fails (is_var m)
         end;
  unfold transform_mul, xform, invXform, mat_mul, mat_apply, mat_transpose_apply;
  cbn [getBasis getOrigin col0 col1 col2 getColumn];
  repeat match goal with
         | v : Vector3 |- _ =>
             let x := fresh "x" in let y := fresh "y" in let z := fresh "z" in
             destruct v as [x y z]; assert_fails (is_var v)
         end;
  vec_simpl; cbn [getBasis getOrigin col0 col1 col2 vx vy vz]; repeat split; ring.

#[export] Instance veq_equivalence : Equivalence veq.
Proof.
  split.
  - intros u. unfold veq. repeat split; reflexivity.
  - intros u v (H1 & H2 & H3). unfold veq. repeat split; symmetry; assumption.
  - intros u v w (H1 & H2 & H3) (K1 & K2 & K3). unfold veq.
    repeat split; etransitivity; eassumption.
Qed.

#[export] Instance mkVector3_proper : Proper (Qeq ==> Qeq ==> Qeq ==> veq) mkVector3.
Proof. intros x x' Hx y y' Hy z z' Hz. unfold veq. cbn. auto. Qed.

#[export] Instance vx_proper : Proper (veq ==> Qeq) vx.
Proof. intros u v (H & _ & _). exact H. Qed.

#[export] Instance vy_proper : Proper (veq ==> Qeq) vy.
Proof. intros u v (_ & H & _). exact H. Qed.

#[export] Instance vz_proper : Proper (veq ==> Qeq) vz.
Proof. intros u v (_ & _ & H). exact H. Qed.

(** [vec_proper]: a vector operation respects [veq], by rewriting in each
    coordinate. *)
Ltac vec_proper :=
  repeat (let u := fresh "u" in let v := fresh "v" in let H := fresh "H" in
          intros u v H);
  vec_simpl;
  repeat match goal with H : _ /\ _ |- _ => destruct H end;
  repeat split;
  repeat match goal with H : _ == _ |- _ => rewrite H; clear H end;
  reflexivity.

#[export] Instance vadd_proper : Proper (veq ==> veq ==> veq) vadd.
Proof. vec_proper. Qed.

#[export] Instance vsub_proper : Proper (veq ==> veq ==> veq) vsub.
Proof. vec_proper. Qed.

#[export] Instance vscale_proper : Proper (veq ==> Qeq ==> veq) vscale.
Proof. vec_proper. Qed.

#[export] Instance dot_proper : Proper (veq ==> veq ==> Qeq) dot.
Proof. vec_proper. Qed.

#[export] Instance cross_proper : Proper (veq ==> veq ==> veq) cross.
Proof. vec_proper. Qed.

#[export] Instance length2_proper : Proper (veq ==> Qeq) length2.
Proof. vec_proper. Qed.

#[export] Instance lerp_proper : Proper (veq ==> veq ==> Qeq ==> veq) lerp.
Proof. vec_proper. Qed.

Lemma lerp_as_add u v t : veq (lerp u v t) (vadd u (vscale (vsub v u) t)).
Proof. vec_ring. Qed.

Lemma dot_comm u v : dot u v == dot v u.
Proof. vec_ring. Qed.

Lemma dot_vadd_l u v w : dot (vadd u v) w == dot u w + dot v w.
Proof. vec_ring. Qed.

Lemma dot_vscale_l u s w : dot (vscale u s) w == s * dot u w.
Proof. vec_ring. Qed.

Lemma length2_vscale u s : length2 (vscale u s) == s * s * length2 u.
Proof. vec_ring. Qed.

Lemma length2_nonneg u : 0 <= length2 u.
Proof. destruct u. vec_simpl. nra. Qed.

Lemma vadd_vsub_cancel o d : veq (vsub (vadd o d) o) d.
Proof. vec_ring. Qed.

Lemma vadd_vsub_cancel_r d o : veq (vsub (vadd d o) o) d.
Proof. vec_ring. Qed.

(** The cross product is orthogonal to both of its arguments. *)
Lemma cross_orthogonal_l u v : dot (cross u v) u == 0.
Proof. vec_ring. Qed.

Lemma cross_orthogonal_r u v : dot (cross u v) v == 0.
Proof. vec_ring. Qed.

(** A vector of length zero is zero: the coordinates are rationals. *)
Lemma dot_self_zero a : dot a a == 0 -> veq a vzero.
Proof.
  destruct a as [x y z]. unfold dot, veq. cbn. intros H. repeat split; nra.
Qed.

#[export] Instance vreject_proper : Proper (veq ==> veq ==> veq) vreject.
Proof. intros t t' Ht a a' Ha. unfold vreject. by rewrite Ht, Ha. Qed.

(** What is left of [t] has no component along [a]. *)
Lemma vreject_orthogonal t a : dot (vreject t a) a == 0.
Proof.
  destruct (Qeq_dec (dot a a) 0) as [H0|H0].
  - rewrite (dot_self_zero a H0). vec_ring.
  - unfold vreject.
    assert (dot (vsub t (vscale a (dot t a / dot a a))) a ==
            dot t a - (dot t a / dot a a) * dot a a) as -> by vec_ring.
    by field.
Qed.

(** Nothing is taken from a vector that is orthogonal to [a] already. *)
Lemma vreject_id t a : dot t a == 0 -> veq (vreject t a) t.
Proof.
  intros H. unfold vreject. rewrite H. unfold Qdiv. rewrite Qmult_0_l. vec_ring.
Qed.

Lemma orthonormal_identity : orthonormal identity_basis.
Proof. unfold orthonormal. cbn. repeat split; reflexivity. Qed.

(** ** Matrices and rigid motions *)

#[export] Instance mat_apply_proper m : Proper (veq ==> veq) (mat_apply m).
Proof. intros u v Huv. unfold mat_apply. by rewrite Huv. Qed.

#[export] Instance mat_transpose_apply_proper m :
  Proper (veq ==> veq) (mat_transpose_apply m).
Proof. intros u v Huv. unfold mat_transpose_apply. by rewrite Huv. Qed.

#[export] Instance xform_proper t : Proper (veq ==> veq) (xform t).
Proof. intros u v Huv. unfold xform. by rewrite Huv. Qed.

#[export] Instance invXform_proper t : Proper (veq ==> veq) (invXform t).
Proof. intros u v Huv. unfold invXform. by rewrite Huv. Qed.

Lemma mat_apply_vadd m u v :
  veq (mat_apply m (vadd u v)) (vadd (mat_apply m u) (mat_apply m v)).
Proof. mat_ring. Qed.

Lemma mat_apply_vscale m u s :
  veq (mat_apply m (vscale u s)) (vscale (mat_apply m u) s).
Proof. mat_ring. Qed.

Lemma xform_vsub t u v :
  veq (vsub (xform t u) (xform t v)) (mat_apply (getBasis t) (vsub u v)).
Proof. mat_ring. Qed.

Lemma xform_lerp t u v s :
  veq (lerp (xform t u) (xform t v) s) (xform t (lerp u v s)).
Proof. mat_ring. Qed.

Lemma xform_mul a b v : veq (xform (transform_mul a b) v) (xform a (xform b v)).
Proof. mat_ring. Qed.

(** The squared length of a combination of the columns of a rotation. *)
Lemma length2_columns (m : Matrix3x3) (a b c : Scalar) :
  orthonormal m ->
  length2 (vadd (vadd (vscale (col0 m) a) (vscale (col1 m) b)) (vscale (col2 m) c))
  == a * a + b * b + c * c.
Proof.
  intros (H00 & H11 & H22 & H01 & H02 & H12).
  transitivity (a * a * dot (col0 m) (col0 m) + b * b * dot (col1 m) (col1 m)
                + c * c * dot (col2 m) (col2 m) + 2 * a * b * dot (col0 m) (col1 m)
                + 2 * a * c * dot (col0 m) (col2 m) + 2 * b * c * dot (col1 m) (col2 m)).
  - destruct m as [[x0 y0 z0] [x1 y1 z1] [x2 y2 z2]]. vec_simpl. cbn. ring.
  - rewrite H00, H11, H22, H01, H02, H12. ring.
Qed.

(** A rotation keeps lengths. *)
Lemma length2_mat_apply m v : orthonormal m -> length2 (mat_apply m v) == length2 v.
Proof.
  intros Hm. unfold mat_apply. rewrite length2_columns by done.
  destruct v. vec_simpl. ring.
Qed.

(** The transpose of a rotation undoes it. *)
Lemma mat_transpose_apply_apply m v :
  orthonormal m -> veq (mat_transpose_apply m (mat_apply m v)) v.
Proof.
  intros (H00 & H11 & H22 & H01 & H02 & H12).
  assert (dot (col1 m) (col0 m) == 0) as H10 by (by rewrite dot_comm).
  assert (dot (col2 m) (col0 m) == 0) as H20 by (by rewrite dot_comm).
  assert (dot (col2 m) (col1 m) == 0) as H21 by (by rewrite dot_comm).
  unfold mat_transpose_apply, mat_apply, veq. cbn [vx vy vz].
  rewrite !dot_comm with (v := vadd _ _), !dot_vadd_l, !dot_vscale_l.
  rewrite H00, H11, H22, H01, H02, H12, H10, H20, H21. repeat split; ring.
Qed.

Lemma invXform_xform t v : orthonormal (getBasis t) -> veq (invXform t (xform t v)) v.
Proof.
  intros Ht. unfold invXform, xform.
  rewrite vadd_vsub_cancel_r. by apply mat_transpose_apply_apply.
Qed.

(** ** The generic consequences of the laws *)

Section MathLibFacts.
Context `{MathLibLaws}.

Lemma btSin_bound a : btSin a * btSin a <= 1.
Proof. pose proof (sin2_cos2 a). nra. Qed.

Lemma btCos_bound a : btCos a * btCos a <= 1.
Proof. pose proof (sin2_cos2 a). nra. Qed.

#[export] Instance vlength_proper : Proper (veq ==> Qeq) vlength.
Proof. intros u v Huv. unfold vlength. by rewrite Huv. Qed.

Lemma vlength_nonneg u : 0 <= vlength u.
Proof. apply btSqrt_nonneg. Qed.

(** The length of a multiple of a vector whose squared length is a square. *)
Lemma vlength_of_square u s : length2 u == s * s -> vlength u == Qabs s.
Proof. intros Hu. unfold vlength. rewrite Hu. apply btSqrt_square. Qed.

End MathLibFacts.

(** ** The rational instance satisfies the laws *)

Lemma den_nonzero t : ~ 1 + t * t == 0.
Proof. nra. Qed.

Lemma sin_q_cos_q t : sin_q t * sin_q t + cos_q t * cos_q t == 1.
Proof. unfold sin_q, cos_q. field. apply den_nonzero. Qed.

#[export] Instance cos_q_proper : Proper (Qeq ==> Qeq) cos_q.
Proof. intros x y Hxy. unfold cos_q. by rewrite Hxy. Qed.
#[export] Instance sin_q_proper : Proper (Qeq ==> Qeq) sin_q.
Proof. intros x y Hxy. unfold sin_q. by rewrite Hxy. Qed.
#[export] Instance sqrt_q_proper : Proper (Qeq ==> Qeq) sqrt_q.
Proof. intros x y Hxy. unfold sqrt_q. by rewrite (Qred_complete _ _ Hxy). Qed.
#[export] Instance angle_q_proper : Proper (eq ==> Qeq ==> Qeq) angle_q.
Proof. intros b ? <- x y Hxy. unfold angle_q. destruct b; by rewrite Hxy. Qed.

(** The square of a reduced fraction is reduced. *)
Lemma Qred_square_reduced r : Qred r = r -> Qred (r * r) = r * r.
Proof.
  intros Hr%Qcanon.Qred_iff. apply Qcanon.Qred_iff.
  destruct r as [a b]. cbn [Qmult Qnum Qden] in *.
  rewrite Pos2Z.inj_mul.
  apply Z.coprime_mul_l; apply Z.coprime_mul_r; exact Hr.
Qed.

Lemma sqrt_q_reduced_square r : Qred r = r -> sqrt_q (r * r) == Qabs r.
Proof.
  intros Hr. unfold sqrt_q. cbv zeta. rewrite (Qred_square_reduced r Hr).
  destruct r as [a b]. cbn [Qmult Qnum Qden].
  rewrite Pos2Z.inj_mul, (Z.sqrt_square (Z.pos b)) by lia.
  rewrite <- Z.abs_square, Z.sqrt_square by lia.
  rewrite <- Zabs_Qabs. symmetry. apply Qmake_Qdiv.
Qed.

Lemma sqrt_q_square x : sqrt_q (x * x) == Qabs x.
Proof.
  rewrite <- (Qred_correct x) at 3.
  rewrite <- (sqrt_q_reduced_square (Qred x)) by apply Qcanon.Qred_involutive.
  apply sqrt_q_proper. by rewrite Qred_correct.
Qed.

Lemma sqrt_q_nonneg x : 0 <= sqrt_q x.
Proof.
  unfold sqrt_q. cbv zeta.
  apply Qle_shift_div_l.
  - change 0 with (inject_Z 0). rewrite <- Zlt_Qlt. apply Z.sqrt_pos. lia.
  - rewrite Qmult_0_l. change 0 with (inject_Z 0). rewrite <- Zle_Qle. apply Z.sqrt_nonneg.
Qed.

#[export] Instance rational_math_laws : MathLibLaws rational_math.
Proof.
  split; try apply _.
  - apply sin_q_cos_q.
  - apply sqrt_q_nonneg.
  - apply sqrt_q_square.
  - intros d Hd. cbn. nra.
  - reflexivity.
Qed.
