(* ===== verification/LiDARGeometry.v ===== *)
(** * LiDARGeometry: the rays of the LiDAR sensor

    The geometry of [src/Library/src/sensors/scalar/LiDAR360.cpp], apart
    from the sensor's state: the angles the constructor tabulates
    ([step_angle]), the direction [InternalUpdate] casts along ([ray_dir]),
    the two ends of a ray ([ray_point]), the distance it reports for a hit
    ([measured]) and the direction [Render] draws along ([render_dir]).
    [LiDAR360] builds the sensor's methods from these.

    The theorems are stated over any math library that satisfies
    [MathLibLaws] and any sensor frame with an orthonormal basis. They show
    that the cast direction has length [sqrt (1 + sin^2 v)], so that a ray
    reaches beyond [rangeMax] in every inclined layer; that the drawn
    direction is a unit vector and differs from the cast one unless
    [cos v = 1]; and that the tabulated angles cover [[-range/2, range/2)]
    and never reach the upper end. *)

From Stdlib Require Import ZArith QArith Qabs Lia Lqa Psatz.
From Stdlib Require Import Morphisms Setoid.
From stdpp Require Import base tactics option list.
From S2P Require Import Prelude Linalg.

Local Open Scope Q_scope.

(** * Definitions *)

Section Rays.
Context `{ML : MathLib}.
Implicit Types (mbTrans : Transform).

(** ** The constructor's angles *)

(** [i / (Scalar)resolution_ * ang_range_hori_ - Scalar(0.5) * ang_range_hori_]
    and the same expression for the layers. *)
Definition step_angle (count : Z) (range : Scalar) (k : nat) : Scalar :=
  inject_Z (Z.of_nat k) / inject_Z count * range - (1 # 2) * range.

(** ** The ray of [InternalUpdate] *)

(** The direction of the ray at horizontal angle [hAngle] in the layer at
    [vAngle]. *)
Definition ray_dir mbTrans (hAngle vAngle : Scalar) : Vector3 :=
  vadd (vadd (vscale (getColumn (getBasis mbTrans) 0) (btCos hAngle))
             (vscale (getColumn (getBasis mbTrans) 1) (btSin hAngle)))
       (vscale (getColumn (getBasis mbTrans) 2) (btSin vAngle)).

(** [from] and [to]: the point of the ray at parameter [range]. *)
Definition ray_point mbTrans (dir : Vector3) (range : Scalar) : Vector3 :=
  vadd (getOrigin mbTrans) (vscale dir range).

(** The value stored for a ray: the distance of the hit point from the
    sensor origin, or 0 without a hit. *)
Definition measured mbTrans (from to : Vector3) (hit : option Scalar) : Scalar :=
  match hit with
  | Some closestHitFraction =>
      vlength (vsub (lerp from to closestHitFraction) (getOrigin mbTrans))
  | None => 0
  end.

(** ** The ray of [Render] *)

(** The direction [Render] draws: spherical coordinates in the sensor
    frame. *)
Definition render_dir (vAngle hAngle : Scalar) : Vector3 :=
  mkVector3 (btCos vAngle * btCos hAngle)
            (btCos vAngle * btSin hAngle)
            (btSin vAngle).

End Rays.

(** * Theorems *)

(** ** Geometry of a ray *)

Section Geometry.
Context `{MLL : MathLibLaws}.
Implicit Types (mbTrans : Transform) (h v f rmin rmax : Scalar).

#[export] Instance ray_dir_proper mbTrans : Proper (Qeq ==> Qeq ==> veq) (ray_dir mbTrans).
Proof. intros h h' Hh v v' Hv. unfold ray_dir. by rewrite Hh, Hv. Qed.

#[export] Instance ray_point_proper mbTrans :
  Proper (veq ==> Qeq ==> veq) (ray_point mbTrans).
Proof. intros d d' Hd r r' Hr. unfold ray_point. by rewrite Hd, Hr. Qed.

#[export] Instance measured_proper mbTrans :
  Proper (veq ==> veq ==> option_Forall2 Qeq ==> Qeq) (measured mbTrans).
Proof.
  intros a a' Ha b b' Hb hit hit' [f f' Hf|]; cbn; [|done]. by rewrite Ha, Hb, Hf.
Qed.

(** The ray is not of unit length outside the horizontal layer. *)
Lemma ray_dir_length2 mbTrans h v :
  orthonormal (getBasis mbTrans) ->
  length2 (ray_dir mbTrans h v) == 1 + btSin v * btSin v.
Proof.
  intros Hrot. unfold ray_dir. cbn [getColumn].
  rewrite length2_columns by done. pose proof (sin2_cos2 h). lra.
Qed.

(** The hit point, seen from the sensor origin, is the ray scaled by the
    interpolated range. *)
Lemma hit_point_offset mbTrans (dir : Vector3) rmin rmax f :
  veq (vsub (lerp (ray_point mbTrans dir rmin) (ray_point mbTrans dir rmax) f)
            (getOrigin mbTrans))
      (vscale dir (rmin + (rmax - rmin) * f)).
Proof.
  unfold ray_point. destruct mbTrans as [b [ox oy oz]], dir as [dx dy dz].
  vec_simpl. cbn. repeat split; ring.
Qed.

(** C16. The squared distance reported for a hit at fraction [f] is
    [(1 + sin^2 v)] times the square of the interpolated range: rays outside
    the horizontal layer are longer than the range they are cast with. *)
Theorem hit_distance_squared mbTrans h v rmin rmax f :
  orthonormal (getBasis mbTrans) ->
  length2 (vsub (lerp (ray_point mbTrans (ray_dir mbTrans h v) rmin)
                      (ray_point mbTrans (ray_dir mbTrans h v) rmax) f)
                (getOrigin mbTrans))
  == (1 + btSin v * btSin v)
     * ((rmin + (rmax - rmin) * f) * (rmin + (rmax - rmin) * f)).
Proof.
  intros Hrot. rewrite hit_point_offset, length2_vscale.
  rewrite ray_dir_length2 by done. ring.
Qed.

(** C23. In a layer with [sin v <> 0] a hit at the far end of the ray lies
    farther from the sensor than [rangeMax]. *)
Theorem hit_beyond_rangeMax mbTrans h v rmin rmax :
  orthonormal (getBasis mbTrans) ->
  ~ btSin v == 0 -> 0 < rmax ->
  rmax * rmax <
  length2 (vsub (lerp (ray_point mbTrans (ray_dir mbTrans h v) rmin)
                      (ray_point mbTrans (ray_dir mbTrans h v) rmax) 1)
                (getOrigin mbTrans)).
Proof.
  intros Hrot Hv Hr. rewrite hit_distance_squared by done.
  assert (0 < btSin v * btSin v) by nra.
  assert (0 < rmax * rmax) by nra.
  nra.
Qed.

End Geometry.

(** ** The drawn direction *)

Section RenderDir.
Context `{MLL : MathLibLaws}.
Implicit Types (h v : Scalar).

(** The direction [Render] draws is a unit vector. *)
Lemma render_dir_unit v h : length2 (render_dir v h) == 1.
Proof.
  unfold render_dir. vec_simpl.
  pose proof (sin2_cos2 h) as Hh. pose proof (sin2_cos2 v) as Hv.
  transitivity (btCos v * btCos v * (btSin h * btSin h + btCos h * btCos h)
                + btSin v * btSin v); [ring|].
  rewrite Hh. lra.
Qed.

(** In the sensor's own frame the cast ray is [(cos h, sin h, sin v)]. *)
Lemma ray_dir_identity h v :
  veq (ray_dir identity_transform h v) (mkVector3 (btCos h) (btSin h) (btSin v)).
Proof. unfold ray_dir. cbn. vec_simpl. repeat split; ring. Qed.

(** C24. The direction along which [InternalUpdate] casts a ray and the
    direction along which [Render] draws its measure agree only in a layer
    with [cos v = 1]. *)
Theorem cast_and_drawn_directions h v :
  veq (ray_dir identity_transform h v) (render_dir v h) <-> btCos v == 1.
Proof.
  rewrite ray_dir_identity. unfold render_dir, veq. cbn [vx vy vz].
  pose proof (sin2_cos2 h) as Hh. split.
  - intros (Hx & Hy & _).
    assert ((1 - btCos v) * (btSin h * btSin h + btCos h * btCos h) == 0) as H0.
    { transitivity (btSin h * (btSin h - btCos v * btSin h)
                    + btCos h * (btCos h - btCos v * btCos h)); [ring|].
      rewrite <- Hx, <- Hy. ring. }
    rewrite Hh in H0. lra.
  - intros Hv. rewrite Hv. repeat split; ring.
Qed.

End RenderDir.

(** ** The angle tables *)

Section Angles.
Implicit Types (count : Z) (range : Scalar) (k : nat).

Lemma step_fraction_range count k :
  (k < Z.to_nat count)%nat ->
  0 <= inject_Z (Z.of_nat k) / inject_Z count < 1.
Proof.
  intros Hk.
  assert (0 < inject_Z count) as Hc by (change 0 with (inject_Z 0); rewrite <- Zlt_Qlt; lia).
  split.
  - apply Qle_shift_div_l; [done|]. rewrite Qmult_0_l.
    change 0 with (inject_Z 0). rewrite <- Zle_Qle. lia.
  - apply Qlt_shift_div_r; [done|]. rewrite Qmult_1_l. rewrite <- Zlt_Qlt. lia.
Qed.

(** C32. Every entry of an angle table lies in [[-range/2, range/2)]: the
    upper end of the field of view is never reached. *)
Theorem step_angle_range count range k :
  0 < range -> (k < Z.to_nat count)%nat ->
  - (1 # 2) * range <= step_angle count range k < (1 # 2) * range.
Proof.
  intros Hr Hk. unfold step_angle.
  pose proof (step_fraction_range count k Hk). nra.
Qed.

(** The entries of an angle table increase strictly. *)
Theorem step_angle_increasing count range k k' :
  0 < range -> (k < k')%nat -> (k' < Z.to_nat count)%nat ->
  step_angle count range k < step_angle count range k'.
Proof.
  intros Hr Hkk Hk. unfold step_angle.
  assert (0 < inject_Z count) as Hc by (change 0 with (inject_Z 0); rewrite <- Zlt_Qlt; lia).
  assert (inject_Z (Z.of_nat k) < inject_Z (Z.of_nat k')) as Hlt by (rewrite <- Zlt_Qlt; lia).
  assert (inject_Z (Z.of_nat k) / inject_Z count < inject_Z (Z.of_nat k') / inject_Z count).
  { unfold Qdiv. apply Qmult_lt_compat_r; [by apply Qinv_lt_0_compat | done]. }
  nra.
Qed.

(** The first entry is the lower end of the field of view. *)
Lemma step_angle_first count range :
  step_angle count range 0 == - (1 # 2) * range.
Proof. unfold step_angle. cbn [Z.of_nat]. unfold Qdiv. ring. Qed.

End Angles.

Section RenderGeometry.
Context `{MLL : MathLibLaws}.

(** C35. The end point [Render] draws for a ray lies at the stored distance
    from the sensor origin. *)
Theorem render_point_distance (v h dist : Scalar) :
  length2 (vscale (render_dir v h) dist) == dist * dist.
Proof. rewrite length2_vscale, render_dir_unit. ring. Qed.

End RenderGeometry.

(** * The theorems at concrete inputs *)

Lemma hit_distance_squared_witness :
  length2 (vsub (lerp (ray_point identity_transform (ray_dir identity_transform 0 1) 0)
                      (ray_point identity_transform (ray_dir identity_transform 0 1) 10)
                      (1 # 2))
                (getOrigin identity_transform))
  == (1 + btSin 1 * btSin 1) * ((0 + (10 - 0) * (1 # 2)) * (0 + (10 - 0) * (1 # 2))).
Proof.
  exact (hit_distance_squared identity_transform 0 1 0 10 (1 # 2) orthonormal_identity).
Defined.

Lemma hit_beyond_rangeMax_witness :
  10 * 10 <
  length2 (vsub (lerp (ray_point identity_transform (ray_dir identity_transform 0 1) 0)
                      (ray_point identity_transform (ray_dir identity_transform 0 1) 10) 1)
                (getOrigin identity_transform)).
Proof.
  apply (hit_beyond_rangeMax identity_transform 0 1 0 10);
    [exact orthonormal_identity | by vm_compute..].
Defined.

Lemma cast_and_drawn_directions_witness :
  veq (ray_dir identity_transform 0 1) (render_dir 1 0) <-> btCos 1 == 1.
Proof. exact (cast_and_drawn_directions 0 1). Defined.

Lemma step_angle_range_witness :
  - (1 # 2) * 360 <= step_angle 4 360 3 < (1 # 2) * 360.
Proof. apply (step_angle_range 4 360 3); [by vm_compute | vm_compute; lia]. Defined.

Lemma step_angle_increasing_witness : step_angle 4 360 1 < step_angle 4 360 3.
Proof.
  apply (step_angle_increasing 4 360 1 3); [by vm_compute | lia | vm_compute; lia].
Defined.

Lemma render_point_distance_witness :
  length2 (vscale (render_dir 1 0) 5) == 5 * 5.
Proof. exact (render_point_distance 1 0 5). Defined.
