(* ===== verification/LiDAR360.v ===== *)
(** * LiDAR360: the 360 degree LiDAR sensor

    Model of [src/Library/src/sensors/scalar/LiDAR360.cpp], one definition
    per function and per statement group, in the order of the file. The
    expressions that do not touch the sensor's state (the tabulated angle,
    the direction and the ends of a ray, the distance of a hit, the drawn
    direction) are the definitions of [LiDARGeometry].

    The sensor's own fields are the record [LiDAR360]; the fields it inherits
    and uses ([channels], the sample history) are part of the same record.
    What the file calls in other classes is the interface [SensorBase] (the
    history and the channel's noise setter) or an argument: the sensor frame
    [mbTrans], the world's ray test [rayTest] (the fraction of the closest
    hit, if any), the base class's renderables and the [isRenderable] flag.

    [InternalUpdate] and [Render] index three vectors with [unsigned int]
    arithmetic; the model keeps both, so a wrapped index or a short buffer
    shows as [Err UndefinedBehaviour]. *)

From Stdlib Require Import ZArith QArith Qabs Lia Lqa Psatz.
From Stdlib Require Import Morphisms Setoid String.
From stdpp Require Import base tactics option list.
From S2P Require Import Prelude Linalg LiDARGeometry.

Local Open Scope Q_scope.

(** * Data *)

(** The quantity and sensor tags this file names. *)
Variant QuantityType : Type := LENGTH.

Variant ScalarSensorType : Type := ScalarSensorType_LiDAR360.

Variant RenderableType : Type := SENSOR_LINES.

(** A measurement channel, as far as this file touches it. *)
Record SensorChannel : Type := mkSensorChannel {
  channel_name : string;
  channel_type : QuantityType;
  rangeMin : Scalar;
  rangeMax : Scalar
}.

(** [Sample s(n, data)]: [n] values copied from [data]. *)
Record Sample : Type := mkSample { nDim : Z; sample_data : list Scalar }.

Record Renderable : Type := mkRenderable {
  renderable_type : RenderableType;
  renderable_model : Transform;
  renderable_points : list Vector3
}.

(** What the base classes provide. *)
Class SensorBase : Type := {
  History : Type;
  emptyHistory : History;
  AddSampleToHistory : Sample -> History -> History;
  setStdDev : Scalar -> SensorChannel -> SensorChannel
}.

Record LiDAR360 `{SensorBase} : Type := mkLiDAR360 {
  ang_range_hori_ : Scalar;
  ang_range_vert_ : Scalar;
  resolution_ : Z;
  layers_ : Z;
  angles_hori_ : list Scalar;
  angles_vert_ : list Scalar;
  distances_ : list Scalar;
  max_range_ : option Scalar;
  min_range_ : option Scalar;
  channels : list SensorChannel;
  history : History
}.

Section Model.
Context `{ML : MathLib} `{SB : SensorBase}.
Implicit Types (s : LiDAR360) (mbTrans : Transform) (d : list Scalar).

(** * The constructor *)

(** The two [push_back] loops. *)
Definition precompute_angles (count : Z) (range : Scalar) : list Scalar :=
  iter_range 0 (Z.to_nat count)
    (fun k acc => acc ++ [step_angle count range k]) [].

Definition distance_channel : SensorChannel :=
  {| channel_name := "Distance"; channel_type := LENGTH;
     rangeMin := 0; rangeMax := BT_LARGE_FLOAT |}.

(** [LiDAR360::LiDAR360]. The base constructor leaves [channels] and the
    history empty; [max_range_] and [min_range_] are not initialised. *)
Definition LiDAR360_ctor (resolution layers : Z) : LiDAR360 :=
  let hori := UnitSystem_Angle true 360 in
  let vert := UnitSystem_Angle true (424 # 10) in
  {| ang_range_hori_ := hori;
     ang_range_vert_ := vert;
     resolution_ := resolution;
     layers_ := layers;
     channels := [] ++ [distance_channel];
     angles_hori_ := precompute_angles resolution hori;
     angles_vert_ := precompute_angles layers vert;
     distances_ := replicate (Z.to_nat (umul resolution layers)) 0;
     max_range_ := None;
     min_range_ := None;
     history := emptyHistory |}.

(** * InternalUpdate *)

(** [unsigned int index = j * (resolution_) + i]. *)
Definition cell_index (resolution : Z) (j i : nat) : Z :=
  uadd (umul (Z.of_nat j) resolution) (Z.of_nat i).

(** What one ray measures: the direction, the two end points, the ray test
    and the distance of the hit. *)
Definition ray_measure (rayTest : Vector3 -> Vector3 -> option Scalar)
    mbTrans (ch : SensorChannel) (hAngle vAngle : Scalar) : Scalar :=
  let dir := ray_dir mbTrans hAngle vAngle in
  let from := ray_point mbTrans dir (rangeMin ch) in
  let to := ray_point mbTrans dir (rangeMax ch) in
  measured mbTrans from to (rayTest from to).

(** The body of the inner loop. *)
Definition scan_cell (rayTest : Vector3 -> Vector3 -> option Scalar)
    s mbTrans (vAngle : Scalar) (j i : nat) d : result (list Scalar) :=
  hAngle ← vec_get (angles_hori_ s) (Z.of_nat i);
  ch ← vec_get (channels s) 0;
  vec_set d (cell_index (resolution_ s) j i)
    (ray_measure rayTest mbTrans ch hAngle vAngle).

(** The body of the outer loop. *)
Definition scan_layer (rayTest : Vector3 -> Vector3 -> option Scalar)
    s mbTrans (j : nat) d : result (list Scalar) :=
  vAngle ← vec_get (angles_vert_ s) (Z.of_nat j);
  for_range 0 (Z.to_nat (resolution_ s)) (scan_cell rayTest s mbTrans vAngle j) d.

(** [Sample s(resolution_ * layers_, distances_.data())]. *)
Definition make_sample (n : Z) d : result Sample :=
  if decide (Z.to_nat n <= length d)%nat
  then Ok (mkSample n (take (Z.to_nat n) d))
  else Err UndefinedBehaviour.

Definition set_scan s d (h : History) : LiDAR360 :=
  {| ang_range_hori_ := ang_range_hori_ s;
     ang_range_vert_ := ang_range_vert_ s;
     resolution_ := resolution_ s;
     layers_ := layers_ s;
     angles_hori_ := angles_hori_ s;
     angles_vert_ := angles_vert_ s;
     distances_ := d;
     max_range_ := max_range_ s;
     min_range_ := min_range_ s;
     channels := channels s;
     history := h |}.

(** [LiDAR360::InternalUpdate]. [dt] is not used by the function. *)
Definition InternalUpdate (rayTest : Vector3 -> Vector3 -> option Scalar)
    (dt : Scalar) mbTrans s : result LiDAR360 :=
  d ← for_range 0 (Z.to_nat (layers_ s)) (scan_layer rayTest s mbTrans)
        (distances_ s);
  smp ← make_sample (umul (resolution_ s) (layers_ s)) d;
  Ok (set_scan s d (AddSampleToHistory smp (history s))).

(** * Render *)

(** The body of the inner loop: the origin and the measured point. *)
Definition render_cell s (raysPerLayer : Z) (vAngle : Scalar) (j i : nat)
    (points : list Vector3) : result (list Vector3) :=
  hAngle ← vec_get (angles_hori_ s) (Z.of_nat i);
  let dir := render_dir vAngle hAngle in
  let index := cell_index raysPerLayer j i in
  dist ← vec_get (distances_ s) index;
  Ok (points ++ [mkVector3 0 0 0;
                 mkVector3 (vx dir * dist) (vy dir * dist) (vz dir * dist)]).

Definition render_layer s (raysPerLayer : Z) (j : nat)
    (points : list Vector3) : result (list Vector3) :=
  vAngle ← vec_get (angles_vert_ s) (Z.of_nat j);
  for_range 0 (Z.to_nat (resolution_ s)) (render_cell s raysPerLayer vAngle j)
    points.

(** [LiDAR360::Render]. [items] is what [Sensor::Render()] returned. *)
Definition Render (items : list Renderable) (isRenderable : bool)
    mbTrans s : result (list Renderable) :=
  if isRenderable then
    let raysPerLayer := resolution_ s in
    points ← for_range 0 (Z.to_nat (layers_ s)) (render_layer s raysPerLayer) [];
    Ok (items ++ [mkRenderable SENSOR_LINES mbTrans points])
  else Ok items.

(** * Setters and getters *)

Definition set_range_fields s (chs : list SensorChannel)
    (rmin rmax : Scalar) : LiDAR360 :=
  {| ang_range_hori_ := ang_range_hori_ s;
     ang_range_vert_ := ang_range_vert_ s;
     resolution_ := resolution_ s;
     layers_ := layers_ s;
     angles_hori_ := angles_hori_ s;
     angles_vert_ := angles_vert_ s;
     distances_ := distances_ s;
     max_range_ := Some rmax;
     min_range_ := Some rmin;
     channels := chs;
     history := history s |}.

Definition set_channel_range (c : SensorChannel) (rmin rmax : Scalar) : SensorChannel :=
  {| channel_name := channel_name c; channel_type := channel_type c;
     rangeMin := rmin; rangeMax := rmax |}.

(** [LiDAR360::setRange]. *)
Definition setRange (rangeMin0 rangeMax0 : Scalar) s : result LiDAR360 :=
  let rmin := btClamp rangeMin0 0 BT_LARGE_FLOAT in
  let rmax := btClamp rangeMax0 0 BT_LARGE_FLOAT in
  c ← vec_back (channels s);
  chs ← vec_set_back (channels s) (set_channel_range c rmin (rangeMax c));
  c' ← vec_back chs;
  chs' ← vec_set_back chs (set_channel_range c' (rangeMin c') rmax);
  Ok (set_range_fields s chs' rmin rmax).

Definition set_channels s (chs : list SensorChannel) : LiDAR360 :=
  {| ang_range_hori_ := ang_range_hori_ s;
     ang_range_vert_ := ang_range_vert_ s;
     resolution_ := resolution_ s;
     layers_ := layers_ s;
     angles_hori_ := angles_hori_ s;
     angles_vert_ := angles_vert_ s;
     distances_ := distances_ s;
     max_range_ := max_range_ s;
     min_range_ := min_range_ s;
     channels := chs;
     history := history s |}.

(** [LiDAR360::setNoise]. *)
Definition setNoise (rangeStdDev : Scalar) s : result LiDAR360 :=
  let sd := btClamp rangeStdDev 0 BT_LARGE_FLOAT in
  c ← vec_get (channels s) 0;
  chs ← vec_set (channels s) 0 (setStdDev sd c);
  Ok (set_channels s chs).

Definition getScalarSensorType s : ScalarSensorType := ScalarSensorType_LiDAR360.

Definition getAngleRangeHori s : Scalar := ang_range_hori_ s.

Definition getAngleRangeVert s : Scalar := ang_range_vert_ s.

(** * Well-formedness *)

(** The shape the constructor establishes and every operation keeps: the
    tables have one entry per step, the buffer one cell per ray, and there is
    exactly the distance channel. *)
Record wf s : Prop := mkWf {
  wf_resolution : is_u32 (resolution_ s);
  wf_layers : is_u32 (layers_ s);
  wf_hori : length (angles_hori_ s) = Z.to_nat (resolution_ s);
  wf_vert : length (angles_vert_ s) = Z.to_nat (layers_ s);
  wf_distances :
    length (distances_ s) = Z.to_nat (umul (resolution_ s) (layers_ s));
  wf_channels : length (channels s) = 1%nat
}.

(** The grid of rays fits the index type. *)
Definition fits s : Prop := is_u32 (resolution_ s * layers_ s).

(** * The scan as a function of the inputs *)

(** The value of cell [k] of the buffer after a scan: the measure of the ray
    of layer [k / resolution_] and horizontal step [k mod resolution_]. *)
Definition cell_spec (rayTest : Vector3 -> Vector3 -> option Scalar)
    s mbTrans (k : nat) : Scalar :=
  let res := Z.to_nat (resolution_ s) in
  ray_measure rayTest mbTrans
    (default distance_channel (channels s !! 0%nat))
    (default 0 (angles_hori_ s !! (k mod res)%nat))
    (default 0 (angles_vert_ s !! (k / res)%nat)).

Definition scan_spec (rayTest : Vector3 -> Vector3 -> option Scalar)
    s mbTrans : list Scalar :=
  map (cell_spec rayTest s mbTrans)
      (seq 0 (Z.to_nat (resolution_ s * layers_ s))).

(** The first [n] cells hold the scan, and the buffer has its length. *)
Definition scanned (rayTest : Vector3 -> Vector3 -> option Scalar)
    s mbTrans (n : nat) d : Prop :=
  length d = Z.to_nat (resolution_ s * layers_ s) /\
  forall k, (k < n)%nat -> d !! k = Some (cell_spec rayTest s mbTrans k).

End Model.

(** Both conditions can be checked on a sensor. *)
#[export] Instance wf_dec `{SB : SensorBase} (s : LiDAR360) : Decision (wf s).
Proof.
  refine (cast_if (decide (is_u32 (resolution_ s) /\ is_u32 (layers_ s) /\
    length (angles_hori_ s) = Z.to_nat (resolution_ s) /\
    length (angles_vert_ s) = Z.to_nat (layers_ s) /\
    length (distances_ s) = Z.to_nat (umul (resolution_ s) (layers_ s)) /\
    length (channels s) = 1%nat)));
    [destruct_and!; by split | intros []; naive_solver].
Defined.

#[export] Instance fits_dec `{SB : SensorBase} (s : LiDAR360) : Decision (fits s).
Proof. unfold fits. apply _. Defined.

(** * Specifications *)

Section Specification.
Context `{ML : MathLib} `{SB : SensorBase}.
Implicit Types (s : LiDAR360) (c : SensorChannel).

(** ** The drawing as a function of the sensor *)
(** The end point drawn for cell [k]. *)
Definition render_point s (k : nat) : Vector3 :=
  let res := Z.to_nat (resolution_ s) in
  let dir := render_dir (default 0 (angles_vert_ s !! (k / res)%nat))
                        (default 0 (angles_hori_ s !! (k mod res)%nat)) in
  let dist := default 0 (distances_ s !! k) in
  mkVector3 (vx dir * dist) (vy dir * dist) (vz dir * dist).

(** The points of the first [n] rays: for each, the origin and the end. *)
Definition render_points s (n : nat) : list Vector3 :=
  flat_map (fun k => [mkVector3 0 0 0; render_point s k]) (seq 0 n).

Definition render_spec s : list Vector3 :=
  render_points s (Z.to_nat (resolution_ s * layers_ s)).

(** ** The setters *)

(** The channel [setRange] leaves behind. *)
Definition ranged_channel c (a b : Scalar) : SensorChannel :=
  set_channel_range c (btClamp a 0 BT_LARGE_FLOAT) (btClamp b 0 BT_LARGE_FLOAT).

(** ** The life of a sensor *)

(** One call of a state-changing method that returned. *)
Inductive step : LiDAR360 -> LiDAR360 -> Prop :=
| step_update rayTest dt mbTrans s s' :
    InternalUpdate rayTest dt mbTrans s = Ok s' -> step s s'
| step_setRange a b s s' :
    setRange a b s = Ok s' -> step s s'
| step_setNoise sd s s' :
    setNoise sd s = Ok s' -> step s s'.

(** The states a sensor built with [resolution] and [layers] can be in. *)
Inductive reachable (resolution layers : Z) : LiDAR360 -> Prop :=
| reach_ctor : reachable resolution layers (LiDAR360_ctor resolution layers)
| reach_step s s' :
    reachable resolution layers s -> step s s' -> reachable resolution layers s'.

(** Well-formed with the grid it was built with. *)
Definition built_as (resolution layers : Z) s : Prop :=
  wf s /\ resolution_ s = resolution /\ layers_ s = layers.

End Specification.

(** * Concrete inputs *)

(** A base class that keeps every sample and has no noise model, a world
    with one wall at [x = 5], a sensor of four steps in two layers, and a
    sensor whose grid does not fit [unsigned int]: the inputs at which the
    theorems below are applied. *)
#[export] Instance demo_history : SensorBase := {|
  History := list Sample;
  emptyHistory := [];
  AddSampleToHistory smp h := h ++ [smp];
  setStdDev sd c := c
|}.

Definition demo_wall (from to : Vector3) : option Scalar :=
  if decide (vx from < 5 /\ 5 <= vx to)
  then Some ((5 - vx from) / (vx to - vx from))
  else None.

Definition demo_sensor : LiDAR360 := LiDAR360_ctor 4 2.

Definition huge_sensor : LiDAR360 := LiDAR360_ctor 65536 65536.

Definition demo_channel : SensorChannel := mkSensorChannel "Distance" LENGTH 0 10.

(** The fraction at which the horizontal ray at angle 0 meets the wall. *)
Definition demo_fraction : Scalar :=
  Eval vm_compute in
    default 0 (demo_wall
      (ray_point identity_transform (ray_dir identity_transform 0 0) 0)
      (ray_point identity_transform (ray_dir identity_transform 0 0) 10)).

(** * Theorems *)

(** ** Index arithmetic *)

Section Index.
Local Open Scope Z_scope.

(** Within a grid that fits, the flat index of a cell is exact, in range, and
    determines the cell. *)
Lemma cell_index_exact res layers (j i : nat) :
  is_u32 (res * layers) -> (i < Z.to_nat res)%nat -> (j < Z.to_nat layers)%nat ->
  Z.to_nat (cell_index res j i) = (j * Z.to_nat res + i)%nat /\
  (j * Z.to_nat res + i < Z.to_nat (res * layers))%nat.
Proof.
  intros Hfit Hi Hj. unfold cell_index.
  destruct (flat_index_exact layers res (Z.of_nat j) (Z.of_nat i)) as [-> Hb];
    [lia | lia | by rewrite Z.mul_comm |].
  split; nia.
Qed.

Lemma flat_div_mod (r j i : nat) :
  (i < r)%nat -> ((j * r + i) / r = j /\ (j * r + i) mod r = i)%nat.
Proof.
  intros Hi. split.
  - symmetry. apply (Nat.div_unique _ r j i); lia.
  - symmetry. apply (Nat.mod_unique _ r j i); lia.
Qed.

End Index.

Section Measure.
Context `{MLL : MathLibLaws}.
Implicit Types (mbTrans : Transform) (ch : SensorChannel) (h v f : Scalar).

(** What [InternalUpdate] stores for a ray that hits at fraction [f]. *)
Lemma ray_measure_hit rayTest mbTrans ch h v f :
  rayTest (ray_point mbTrans (ray_dir mbTrans h v) (rangeMin ch))
          (ray_point mbTrans (ray_dir mbTrans h v) (rangeMax ch)) = Some f ->
  ray_measure rayTest mbTrans ch h v ==
  vlength (vscale (ray_dir mbTrans h v)
                  (rangeMin ch + (rangeMax ch - rangeMin ch) * f)).
Proof.
  intros Hhit. unfold ray_measure, measured. cbv zeta. rewrite Hhit.
  by rewrite hit_point_offset.
Qed.

Lemma ray_measure_miss rayTest mbTrans ch h v :
  rayTest (ray_point mbTrans (ray_dir mbTrans h v) (rangeMin ch))
          (ray_point mbTrans (ray_dir mbTrans h v) (rangeMax ch)) = None ->
  ray_measure rayTest mbTrans ch h v = 0.
Proof. intros Hmiss. unfold ray_measure, measured. cbv zeta. by rewrite Hmiss. Qed.

(** Every value [InternalUpdate] stores is non-negative. *)
Theorem ray_measure_nonneg rayTest mbTrans ch h v :
  0 <= ray_measure rayTest mbTrans ch h v.
Proof.
  unfold ray_measure, measured. cbv zeta.
  case_match; [apply vlength_nonneg | lra].
Qed.

(** In a layer with [sin v = 0] a hit between the two ends of the ray is
    reported at its interpolated range, which lies between [rangeMin] and
    [rangeMax]. *)
Theorem ray_measure_horizontal rayTest mbTrans ch h v f :
  orthonormal (getBasis mbTrans) ->
  btSin v == 0 ->
  0 <= rangeMin ch <= rangeMax ch -> 0 <= f <= 1 ->
  rayTest (ray_point mbTrans (ray_dir mbTrans h v) (rangeMin ch))
          (ray_point mbTrans (ray_dir mbTrans h v) (rangeMax ch)) = Some f ->
  ray_measure rayTest mbTrans ch h v == rangeMin ch + (rangeMax ch - rangeMin ch) * f /\
  rangeMin ch <= ray_measure rayTest mbTrans ch h v <= rangeMax ch.
Proof.
  intros Hrot Hv Hr Hf Hhit.
  assert (ray_measure rayTest mbTrans ch h v
          == rangeMin ch + (rangeMax ch - rangeMin ch) * f) as Heq.
  { rewrite ray_measure_hit by done.
    rewrite vlength_of_square with (s := rangeMin ch + (rangeMax ch - rangeMin ch) * f).
    - apply Qabs_pos. nra.
    - rewrite length2_vscale, ray_dir_length2, Hv by done. ring. }
  split; [done|]. rewrite Heq. nra.
Qed.

End Measure.

Section Scan.
Context `{ML : MathLib} `{SB : SensorBase}.
Context (rayTest : Vector3 -> Vector3 -> option Scalar) (mbTrans : Transform).
Implicit Types (s : LiDAR360) (d : list Scalar).

Lemma cell_spec_at s (j i : nat) (h v : Scalar) (ch : SensorChannel) :
  (i < Z.to_nat (resolution_ s))%nat ->
  angles_hori_ s !! i = Some h -> angles_vert_ s !! j = Some v ->
  channels s !! 0%nat = Some ch ->
  cell_spec rayTest s mbTrans (j * Z.to_nat (resolution_ s) + i) =
  ray_measure rayTest mbTrans ch h v.
Proof.
  intros Hi Hh Hv Hch. unfold cell_spec. cbv zeta.
  destruct (flat_div_mod (Z.to_nat (resolution_ s)) j i Hi) as [-> ->].
  by rewrite Hh, Hv, Hch.
Qed.

(** Writing the next cell extends the scanned prefix by one. *)
Lemma scanned_step s (n : nat) d x :
  scanned rayTest s mbTrans n d ->
  (n < Z.to_nat (resolution_ s * layers_ s))%nat ->
  x = cell_spec rayTest s mbTrans n ->
  scanned rayTest s mbTrans (S n) (<[n := x]> d).
Proof.
  intros [Hlen Hpre] Hn ->. split; [by rewrite length_insert|].
  intros k Hk. destruct (decide (k = n)) as [->|Hne].
  - apply list_lookup_insert_eq. lia.
  - rewrite list_lookup_insert_ne by done. apply Hpre. lia.
Qed.

(** One iteration of the inner loop. *)
Lemma scan_cell_correct s (v : Scalar) (j i : nat) d :
  wf s -> fits s ->
  (j < Z.to_nat (layers_ s))%nat -> (i < Z.to_nat (resolution_ s))%nat ->
  angles_vert_ s !! j = Some v ->
  scanned rayTest s mbTrans (j * Z.to_nat (resolution_ s) + i) d ->
  exists d', scan_cell rayTest s mbTrans v j i d = Ok d' /\
    scanned rayTest s mbTrans (j * Z.to_nat (resolution_ s) + S i) d'.
Proof.
  intros Hwf Hfit Hj Hi Hv Hsc. unfold scan_cell.
  destruct (lookup_lt_is_Some_2 (angles_hori_ s) i) as [h Hh];
    [rewrite (wf_hori _ Hwf); lia|].
  destruct (lookup_lt_is_Some_2 (channels s) 0) as [ch Hch];
    [rewrite (wf_channels _ Hwf); lia|].
  destruct (cell_index_exact _ _ j i Hfit Hi Hj) as [Hidx Hlt].
  rewrite (vec_get_nat _ _ _ Hh), (proj2 (vec_get_Ok _ 0%Z ch) Hch).
  cbn [mbind result_bind].
  rewrite vec_set_in_range by (rewrite Hidx, (proj1 Hsc); lia).
  eexists; split; [done|]. rewrite Hidx, Nat.add_succ_r.
  apply scanned_step; [done | done |].
  symmetry. by apply cell_spec_at.
Qed.

(** One iteration of the outer loop: a whole layer. *)
Lemma scan_layer_correct s (j : nat) d :
  wf s -> fits s -> (j < Z.to_nat (layers_ s))%nat ->
  scanned rayTest s mbTrans (j * Z.to_nat (resolution_ s)) d ->
  exists d', scan_layer rayTest s mbTrans j d = Ok d' /\
    scanned rayTest s mbTrans (S j * Z.to_nat (resolution_ s)) d'.
Proof.
  intros Hwf Hfit Hj Hsc. unfold scan_layer.
  destruct (lookup_lt_is_Some_2 (angles_vert_ s) j) as [v Hv];
    [rewrite (wf_vert _ Hwf); lia|].
  rewrite (vec_get_nat _ _ _ Hv). cbn [mbind result_bind].
  destruct (for_range_inv
    (fun i d => scanned rayTest s mbTrans (j * Z.to_nat (resolution_ s) + i) d)
    0 (Z.to_nat (resolution_ s)) (scan_cell rayTest s mbTrans v j) d)
    as (d' & Hd' & Hsc').
  - by rewrite Nat.add_0_r.
  - intros i t Hi Ht. apply scan_cell_correct; [done..| lia | done | done].
  - exists d'. split; [done|]. by replace (S j * Z.to_nat (resolution_ s))%nat
      with (j * Z.to_nat (resolution_ s) + (0 + Z.to_nat (resolution_ s)))%nat by lia.
Qed.

(** A buffer whose cells are all scanned is the specified scan. *)
Lemma scanned_all s d :
  scanned rayTest s mbTrans (Z.to_nat (resolution_ s * layers_ s)) d ->
  d = scan_spec rayTest s mbTrans.
Proof.
  intros [Hlen Hpre]. apply list_eq. intros k. unfold scan_spec.
  destruct (decide (k < Z.to_nat (resolution_ s * layers_ s))%nat) as [Hk|Hk].
  - rewrite Hpre by done. rewrite list_lookup_fmap, lookup_seq_lt by done. done.
  - rewrite !lookup_ge_None_2; [done | rewrite length_map, length_seq; lia | lia].
Qed.

(** The two loops of [InternalUpdate] compute the specified scan, whatever
    the buffer held before. *)
Lemma scan_loops_correct s :
  wf s -> fits s ->
  for_range 0 (Z.to_nat (layers_ s)) (scan_layer rayTest s mbTrans) (distances_ s)
  = Ok (scan_spec rayTest s mbTrans).
Proof.
  intros Hwf Hfit.
  destruct (for_range_inv
    (fun j d => scanned rayTest s mbTrans (j * Z.to_nat (resolution_ s)) d)
    0 (Z.to_nat (layers_ s)) (scan_layer rayTest s mbTrans) (distances_ s))
    as (d' & Hd' & Hsc').
  - split; [|intros k Hk; lia].
    rewrite (wf_distances _ Hwf). by rewrite umul_exact.
  - intros j t Hj Ht. apply scan_layer_correct; [done | done | lia | done].
  - rewrite Hd'. f_equal. apply scanned_all.
    pose proof (wf_resolution _ Hwf) as [? _]. pose proof (wf_layers _ Hwf) as [? _].
    by replace (Z.to_nat (resolution_ s * layers_ s))
      with ((0 + Z.to_nat (layers_ s)) * Z.to_nat (resolution_ s))%nat by lia.
Qed.

Lemma scan_spec_length s :
  length (scan_spec rayTest s mbTrans) = Z.to_nat (resolution_ s * layers_ s).
Proof. unfold scan_spec. by rewrite length_map, length_seq. Qed.

(** [InternalUpdate] on a well-formed sensor whose grid fits the index type:
    the buffer becomes the specified scan and the scan is appended to the
    history as one sample of [resolution_ * layers_] values. *)
Lemma InternalUpdate_run s (dt : Scalar) :
  wf s -> fits s ->
  InternalUpdate rayTest dt mbTrans s =
  Ok (set_scan s (scan_spec rayTest s mbTrans)
        (AddSampleToHistory
           (mkSample (resolution_ s * layers_ s) (scan_spec rayTest s mbTrans))
           (history s))).
Proof.
  intros Hwf Hfit. unfold InternalUpdate.
  rewrite scan_loops_correct by done. cbn [mbind result_bind].
  unfold make_sample. rewrite umul_exact by done.
  rewrite decide_True by (by rewrite scan_spec_length).
  cbn [mbind result_bind].
  by rewrite take_ge by (by rewrite scan_spec_length).
Qed.

End Scan.

Section Ctor.
Context `{ML : MathLib} `{SB : SensorBase}.
Implicit Types (s : LiDAR360).

(** The [push_back] loop builds the table of the step angles. *)
Lemma precompute_angles_closed count range :
  precompute_angles count range =
  map (step_angle count range) (seq 0 (Z.to_nat count)).
Proof. unfold precompute_angles. by rewrite iter_range_push. Qed.

Lemma precompute_angles_length count range :
  length (precompute_angles count range) = Z.to_nat count.
Proof. by rewrite precompute_angles_closed, length_map, length_seq. Qed.

Lemma precompute_angles_lookup count range (k : nat) :
  (k < Z.to_nat count)%nat ->
  precompute_angles count range !! k = Some (step_angle count range k).
Proof.
  intros Hk. rewrite precompute_angles_closed, list_lookup_fmap.
  by rewrite lookup_seq_lt.
Qed.

Lemma ctor_wf resolution layers :
  is_u32 resolution -> is_u32 layers -> wf (LiDAR360_ctor resolution layers).
Proof.
  intros Hr Hl. split; cbn; try done.
  - apply precompute_angles_length.
  - apply precompute_angles_length.
  - apply length_replicate.
Qed.

End Ctor.

Section Preservation.
Context `{ML : MathLib} `{SB : SensorBase}.
Implicit Types (s : LiDAR360).

Lemma wf_set_scan s d h :
  wf s -> length d = length (distances_ s) -> wf (set_scan s d h).
Proof. intros [] Hd. split; cbn; congruence. Qed.

Lemma scan_cell_length rayTest s mbTrans v j i d d' :
  scan_cell rayTest s mbTrans v j i d = Ok d' -> length d' = length d.
Proof. unfold scan_cell. intros H. simplify_result. by eapply vec_set_length. Qed.

Lemma scan_layer_length rayTest s mbTrans j d d' :
  scan_layer rayTest s mbTrans j d = Ok d' -> length d' = length d.
Proof.
  unfold scan_layer. intros H. simplify_result.
  apply (for_range_Ok_inv (fun _ t => length t = length d) _ _ _ _ _ H); [done|].
  intros k t t' _ <-. apply scan_cell_length.
Qed.

(** [InternalUpdate] changes the buffer and the history and nothing else. *)
Lemma InternalUpdate_frame rayTest dt mbTrans s s' :
  InternalUpdate rayTest dt mbTrans s = Ok s' ->
  exists d h, s' = set_scan s d h /\ length d = length (distances_ s).
Proof.
  unfold InternalUpdate. intros H. simplify_result.
  unfold make_sample in Ha0. case_decide; [|done]. simplify_result.
  eexists _, _. split; [done|].
  apply (for_range_Ok_inv (fun _ t => length t = length (distances_ s)) _ _ _ _ _ Ha); [done|].
  intros k t t' _ <-. apply scan_layer_length.
Qed.

(** [InternalUpdate] keeps the sensor well-formed, whenever it returns. *)
Lemma InternalUpdate_wf rayTest dt mbTrans s s' :
  wf s -> InternalUpdate rayTest dt mbTrans s = Ok s' -> wf s'.
Proof.
  intros Hwf (d & h & -> & Hd)%InternalUpdate_frame. by apply wf_set_scan.
Qed.

End Preservation.

Section Overflow.
Context `{ML : MathLib} `{SB : SensorBase}.
Context (rayTest : Vector3 -> Vector3 -> option Scalar) (mbTrans : Transform).
Implicit Types (s : LiDAR360) (d : list Scalar).

(** When the product wraps, some ray of the grid has the flat index
    [umul res layers], the first one past the buffer. *)
Lemma wrapped_index_hits_length (res layers : Z) :
  is_u32 res -> is_u32 layers -> ~ is_u32 (res * layers) ->
  exists j i : nat, (j < Z.to_nat layers)%nat /\ (i < Z.to_nat res)%nat /\
    cell_index res j i = umul res layers.
Proof.
  intros Hr Hl Hwrap. u32_unfold.
  set (L := ((res * layers) mod 4294967296)%Z).
  assert (0 <= L < 4294967296)%Z as HL by (apply Z.mod_pos_bound; lia).
  assert (0 < res)%Z as Hres by nia.
  assert (0 <= L mod res < res)%Z as Hmod by (apply Z.mod_pos_bound; lia).
  assert (0 <= L / res < layers)%Z as Hdiv.
  { split; [apply Z.div_pos; lia | apply Z.div_lt_upper_bound; nia]. }
  exists (Z.to_nat (L / res)), (Z.to_nat (L mod res)).
  split; [lia | split; [lia|]].
  unfold cell_index. u32_unfold. rewrite !Z2Nat.id by lia.
  rewrite Zplus_mod_idemp_l.
  replace (L / res * res + L mod res)%Z with L
    by (rewrite (Z.div_mod L res) at 1; lia).
  apply Z.mod_small. lia.
Qed.

(** The only failure of the scan is undefined behaviour. *)
Lemma scan_cell_Err s v j i d e :
  scan_cell rayTest s mbTrans v j i d = Err e -> e = UndefinedBehaviour.
Proof.
  unfold scan_cell, vec_get, vec_set, from_option_err.
  repeat (case_match || case_decide); cbn; congruence.
Qed.

Lemma scan_layer_Err s j d e :
  scan_layer rayTest s mbTrans j d = Err e -> e = UndefinedBehaviour.
Proof.
  unfold scan_layer. intros [H | (v & _ & H)]%bind_Err_inv.
  - unfold vec_get, from_option_err in H. case_match; congruence.
  - apply for_range_Err_inv in H as (k & t & _ & H). by eapply scan_cell_Err.
Qed.

Lemma InternalUpdate_Err dt s e :
  InternalUpdate rayTest dt mbTrans s = Err e -> e = UndefinedBehaviour.
Proof.
  unfold InternalUpdate. intros [H | (d & _ & [H | (smp & _ & H)]%bind_Err_inv)]%bind_Err_inv.
  - apply for_range_Err_inv in H as (k & t & _ & H). by eapply scan_layer_Err.
  - unfold make_sample in H. case_decide; congruence.
  - done.
Qed.

(** A scan that returned wrote every cell of the grid inside the buffer. *)
Lemma scan_loops_in_bounds s d' :
  for_range 0 (Z.to_nat (layers_ s)) (scan_layer rayTest s mbTrans) (distances_ s)
    = Ok d' ->
  forall j i : nat, (j < Z.to_nat (layers_ s))%nat -> (i < Z.to_nat (resolution_ s))%nat ->
    (Z.to_nat (cell_index (resolution_ s) j i) < length (distances_ s))%nat.
Proof.
  intros Hrun j i Hj Hi.
  set (inb := fun j i => (Z.to_nat (cell_index (resolution_ s) j i) < length (distances_ s))%nat).
  set (J := fun t : list Scalar => length t = length (distances_ s)).
  destruct (for_range_Ok_all J
    (fun j => forall i, (i < Z.to_nat (resolution_ s))%nat -> inb j i)
    _ _ _ _ _ Hrun) as [_ Hall]; [done | | apply Hall; lia].
  intros k t t' _ Ht Hk. unfold scan_layer in Hk. simplify_result.
  destruct (for_range_Ok_all J (inb k) _ _ _ _ _ Hk) as [Ht' Hin]; [done | |].
  - intros i' u u' _ Hu Hcell. unfold scan_cell in Hcell. simplify_result.
    apply vec_set_Ok in Hcell as [Hlt ->]. unfold J, inb in *.
    rewrite length_insert. split; [done | lia].
  - split; [done|]. intros i' Hi'. apply Hin. lia.
Qed.

(** C3. When [resolution_ * layers_] does not fit [unsigned int], the buffer
    the constructor allocated is shorter than the grid and [InternalUpdate]
    writes past its end. *)
Theorem InternalUpdate_overflow s (dt : Scalar) :
  wf s -> ~ fits s ->
  InternalUpdate rayTest dt mbTrans s = Err UndefinedBehaviour.
Proof.
  intros Hwf Hwrap.
  destruct (InternalUpdate rayTest dt mbTrans s) as [s'|e] eqn:Hrun;
    [|by rewrite (InternalUpdate_Err _ _ _ Hrun)].
  exfalso. unfold InternalUpdate in Hrun. simplify_result.
  destruct (wrapped_index_hits_length (resolution_ s) (layers_ s))
    as (j & i & Hj & Hi & Hidx); [apply Hwf.. | done |].
  pose proof (scan_loops_in_bounds s _ Ha j i Hj Hi) as Hlt.
  rewrite Hidx, (wf_distances _ Hwf) in Hlt. lia.
Qed.

End Overflow.

Section RenderProofs.
Context `{ML : MathLib} `{SB : SensorBase}.
Implicit Types (s : LiDAR360) (mbTrans : Transform).

Lemma render_points_S s n :
  render_points s (S n) = render_points s n ++ [mkVector3 0 0 0; render_point s n].
Proof. unfold render_points. by rewrite seq_S, flat_map_app. Qed.

Lemma render_points_length s n : length (render_points s n) = (2 * n)%nat.
Proof.
  induction n as [|n IH]; [done|].
  rewrite render_points_S, length_app, IH. cbn. lia.
Qed.

Lemma render_cell_correct s (v : Scalar) (j i : nat) :
  wf s -> fits s ->
  (j < Z.to_nat (layers_ s))%nat -> (i < Z.to_nat (resolution_ s))%nat ->
  angles_vert_ s !! j = Some v ->
  render_cell s (resolution_ s) v j i
    (render_points s (j * Z.to_nat (resolution_ s) + i))
  = Ok (render_points s (j * Z.to_nat (resolution_ s) + S i)).
Proof.
  intros Hwf Hfit Hj Hi Hv. unfold render_cell.
  destruct (lookup_lt_is_Some_2 (angles_hori_ s) i) as [h Hh];
    [rewrite (wf_hori _ Hwf); lia|].
  destruct (cell_index_exact _ _ j i Hfit Hi Hj) as [Hidx Hlt].
  destruct (lookup_lt_is_Some_2 (distances_ s) (j * Z.to_nat (resolution_ s) + i))
    as [dist Hdist]; [rewrite (wf_distances _ Hwf), umul_exact by done; lia|].
  rewrite (vec_get_nat _ _ _ Hh). cbn [mbind result_bind].
  rewrite (proj2 (vec_get_Ok _ _ dist)) by (by rewrite Hidx).
  cbn [mbind result_bind]. f_equal.
  rewrite Nat.add_succ_r, render_points_S. do 3 f_equal.
  unfold render_point. cbv zeta.
  destruct (flat_div_mod (Z.to_nat (resolution_ s)) j i Hi) as [-> ->].
  by rewrite Hh, Hv, Hdist.
Qed.

Lemma render_layer_correct s (j : nat) :
  wf s -> fits s -> (j < Z.to_nat (layers_ s))%nat ->
  render_layer s (resolution_ s) j (render_points s (j * Z.to_nat (resolution_ s)))
  = Ok (render_points s (S j * Z.to_nat (resolution_ s))).
Proof.
  intros Hwf Hfit Hj. unfold render_layer.
  destruct (lookup_lt_is_Some_2 (angles_vert_ s) j) as [v Hv];
    [rewrite (wf_vert _ Hwf); lia|].
  rewrite (vec_get_nat _ _ _ Hv). cbn [mbind result_bind].
  destruct (for_range_inv
    (fun i pts => pts = render_points s (j * Z.to_nat (resolution_ s) + i))
    0 (Z.to_nat (resolution_ s)) (render_cell s (resolution_ s) v j)
    (render_points s (j * Z.to_nat (resolution_ s)))) as (pts & Hrun & ->).
  - by rewrite Nat.add_0_r.
  - intros i t Hi ->. eexists. split; [|done].
    apply render_cell_correct; [done | done | done | lia | done].
  - rewrite Hrun. do 2 f_equal. lia.
Qed.

(** [Render] on a well-formed sensor whose grid fits: the base class's items
    and, when renderable, one item with the specified points. *)
Lemma Render_run s (items : list Renderable) (isRenderable : bool) mbTrans :
  wf s -> fits s ->
  Render items isRenderable mbTrans s =
  Ok (if isRenderable
      then items ++ [mkRenderable SENSOR_LINES mbTrans (render_spec s)]
      else items).
Proof.
  intros Hwf Hfit. unfold Render. destruct isRenderable; [|done].
  destruct (for_range_inv
    (fun j pts => pts = render_points s (j * Z.to_nat (resolution_ s)))
    0 (Z.to_nat (layers_ s)) (render_layer s (resolution_ s)) [])
    as (pts & Hrun & ->).
  - done.
  - intros j t Hj ->. eexists. split; [|done].
    apply render_layer_correct; [done | done | lia].
  - rewrite Hrun. cbn [mbind result_bind]. do 4 f_equal. unfold render_spec.
    pose proof (wf_resolution _ Hwf) as [? _]. pose proof (wf_layers _ Hwf) as [? _].
    f_equal. lia.
Qed.

End RenderProofs.

Section RenderOverflow.
Context `{ML : MathLib} `{SB : SensorBase}.
Implicit Types (s : LiDAR360) (mbTrans : Transform).

(** The only failure of the drawing is undefined behaviour. *)
Lemma Render_Err items b mbTrans s e :
  Render items b mbTrans s = Err e -> e = UndefinedBehaviour.
Proof.
  unfold Render. destruct b; [|done]. intros [H | (pts & _ & H)]%bind_Err_inv; [|done].
  apply for_range_Err_inv in H as (j & t & _ & H). unfold render_layer in H.
  apply bind_Err_inv in H as [H | (v & _ & H)].
  - unfold vec_get, from_option_err in H. case_match; congruence.
  - apply for_range_Err_inv in H as (i & u & _ & H).
    unfold render_cell, vec_get, from_option_err in H.
    repeat (case_match || case_decide); cbn in H; congruence.
Qed.

(** A drawing that returned read every cell of the grid inside the buffer. *)
Lemma render_loops_in_bounds s pts :
  for_range 0 (Z.to_nat (layers_ s)) (render_layer s (resolution_ s)) [] = Ok pts ->
  forall j i : nat, (j < Z.to_nat (layers_ s))%nat -> (i < Z.to_nat (resolution_ s))%nat ->
    (Z.to_nat (cell_index (resolution_ s) j i) < length (distances_ s))%nat.
Proof.
  intros Hrun j i Hj Hi.
  set (inb := fun j i => (Z.to_nat (cell_index (resolution_ s) j i) < length (distances_ s))%nat).
  destruct (for_range_Ok_all (fun _ => True)
    (fun j => forall i, (i < Z.to_nat (resolution_ s))%nat -> inb j i)
    _ _ _ _ _ Hrun) as [_ Hall]; [done | | apply Hall; lia].
  intros k t t' _ _ Hk. unfold render_layer in Hk. simplify_result.
  destruct (for_range_Ok_all (fun _ => True) (inb k) _ _ _ _ _ Hk) as [_ Hin]; [done | |].
  - intros i' u u' _ _ Hcell. unfold render_cell in Hcell. simplify_result.
    split; [done|].
    match goal with
    | H : vec_get (distances_ s) _ = Ok _ |- _ => by apply vec_get_Ok, lookup_lt_Some in H
    end.
  - split; [done|]. intros i' Hi'. apply Hin. lia.
Qed.

(** When [resolution_ * layers_] does not fit [unsigned int], [Render] reads
    past the end of the buffer as well. *)
Lemma Render_overflow items mbTrans s :
  wf s -> ~ fits s -> Render items true mbTrans s = Err UndefinedBehaviour.
Proof.
  intros Hwf Hwrap.
  destruct (Render items true mbTrans s) as [r|e] eqn:Hrun;
    [|by rewrite (Render_Err _ _ _ _ _ Hrun)].
  exfalso. unfold Render in Hrun. simplify_result.
  destruct (wrapped_index_hits_length (resolution_ s) (layers_ s))
    as (j & i & Hj & Hi & Hidx); [apply Hwf.. | done |].
  pose proof (render_loops_in_bounds s _ Ha j i Hj Hi) as Hlt.
  rewrite Hidx, (wf_distances _ Hwf) in Hlt. lia.
Qed.
End RenderOverflow.

Section Setters.
Context `{ML : MathLib} `{SB : SensorBase}.
Implicit Types (s : LiDAR360) (c : SensorChannel).

Lemma wf_single_channel s : wf s -> exists c, channels s = [c].
Proof.
  intros Hwf. pose proof (wf_channels _ Hwf) as Hlen.
  destruct (channels s) as [|c [|]]; try done. by exists c.
Qed.

(** [setRange] with the distance channel in place: both ends clamped, stored
    in the channel and in the two range fields. *)
Lemma setRange_single s c (a b : Scalar) :
  channels s = [c] ->
  setRange a b s =
  Ok (set_range_fields s [ranged_channel c a b]
        (btClamp a 0 BT_LARGE_FLOAT) (btClamp b 0 BT_LARGE_FLOAT)).
Proof. intros Hc. unfold setRange. rewrite Hc. done. Qed.

Lemma setNoise_single s c (sd : Scalar) :
  channels s = [c] ->
  setNoise sd s =
  Ok (set_channels s [setStdDev (btClamp sd 0 BT_LARGE_FLOAT) c]).
Proof. intros Hc. unfold setNoise. rewrite Hc. done. Qed.

Lemma setRange_wf s s' (a b : Scalar) : wf s -> setRange a b s = Ok s' -> wf s'.
Proof.
  intros Hwf Hset. destruct (wf_single_channel s Hwf) as [c Hc].
  rewrite (setRange_single s c) in Hset by done. simplify_result.
  destruct Hwf. by split.
Qed.

Lemma setNoise_wf s s' (sd : Scalar) : wf s -> setNoise sd s = Ok s' -> wf s'.
Proof.
  intros Hwf Hset. destruct (wf_single_channel s Hwf) as [c Hc].
  rewrite (setNoise_single s c) in Hset by done. simplify_result.
  destruct Hwf. by split.
Qed.

(** [setRange] without a channel is undefined behaviour
    ([channels.back()] of an empty vector). *)
Theorem setRange_no_channel s (a b : Scalar) :
  channels s = [] -> setRange a b s = Err UndefinedBehaviour.
Proof. intros Hc. unfold setRange. by rewrite Hc. Qed.

End Setters.

Section SetterBounds.
Context `{MLL : MathLibLaws} `{SB : SensorBase}.
Implicit Types (s : LiDAR360) (c : SensorChannel).

Lemma clamp_to_large a : 0 <= btClamp a 0 BT_LARGE_FLOAT <= BT_LARGE_FLOAT.
Proof. apply btClamp_range. pose proof BT_LARGE_FLOAT_pos. lra. Qed.

(** C29. After [setRange] on a well-formed sensor, the channel read by
    [InternalUpdate] holds both arguments clamped to [[0, BT_LARGE_FLOAT]],
    [min_range_] and [max_range_] hold the same two values, and the sensor
    is still well-formed. *)
Theorem setRange_correct s (a b : Scalar) :
  wf s ->
  exists s' c', setRange a b s = Ok s' /\ wf s' /\ channels s' = [c'] /\
    rangeMin c' = btClamp a 0 BT_LARGE_FLOAT /\
    rangeMax c' = btClamp b 0 BT_LARGE_FLOAT /\
    min_range_ s' = Some (rangeMin c') /\ max_range_ s' = Some (rangeMax c') /\
    0 <= rangeMin c' <= BT_LARGE_FLOAT /\ 0 <= rangeMax c' <= BT_LARGE_FLOAT.
Proof.
  intros Hwf. destruct (wf_single_channel s Hwf) as [c Hc].
  eexists _, (ranged_channel c a b).
  split; [by apply setRange_single|].
  split; [by eapply setRange_wf, setRange_single|].
  cbn. repeat split; apply clamp_to_large.
Qed.

(** C30. [setRange] does not order its arguments: called with
    [rangeMax < rangeMin] (both within [[0, BT_LARGE_FLOAT]]) it leaves a
    channel whose [rangeMax] is below its [rangeMin]. *)
Theorem setRange_inverted s (a b : Scalar) :
  wf s -> 0 <= b -> b < a -> a <= BT_LARGE_FLOAT ->
  exists s' c', setRange a b s = Ok s' /\ channels s' = [c'] /\
    rangeMax c' < rangeMin c'.
Proof.
  intros Hwf Hb Hba Ha. destruct (wf_single_channel s Hwf) as [c Hc].
  eexists _, (ranged_channel c a b).
  split; [by apply setRange_single|]. split; [done|].
  cbn. rewrite !btClamp_id by lra. done.
Qed.

(** C36. [setNoise] hands the channel's noise setter the standard deviation
    clamped to [[0, BT_LARGE_FLOAT]], and changes nothing else. *)
Theorem setNoise_correct s (sd : Scalar) :
  wf s ->
  exists c x, channels s = [c] /\ 0 <= x <= BT_LARGE_FLOAT /\
    (0 <= sd <= BT_LARGE_FLOAT -> x = sd) /\
    setNoise sd s = Ok (set_channels s [setStdDev x c]).
Proof.
  intros Hwf. destruct (wf_single_channel s Hwf) as [c Hc].
  exists c, (btClamp sd 0 BT_LARGE_FLOAT).
  split; [done|]. split; [apply clamp_to_large|].
  split; [apply btClamp_id | by apply setNoise_single].
Qed.

End SetterBounds.

(** ** Invariant and safety *)

Section Lifecycle.
Context `{ML : MathLib} `{SB : SensorBase}.
Implicit Types (s : LiDAR360).

(** No method changes the grid. *)
Lemma step_grid s s' :
  wf s -> step s s' ->
  resolution_ s' = resolution_ s /\ layers_ s' = layers_ s.
Proof.
  intros Hwf Hstep.
  destruct Hstep as [rayTest dt mbTrans s s' H | a b s s' H | sd s s' H].
  - apply InternalUpdate_frame in H as (d & h & -> & _). done.
  - destruct (wf_single_channel s Hwf) as [c Hc].
    rewrite (setRange_single s c) in H by done. by simplify_result.
  - destruct (wf_single_channel s Hwf) as [c Hc].
    rewrite (setNoise_single s c) in H by done. by simplify_result.
Qed.

Lemma step_wf s s' : wf s -> step s s' -> wf s'.
Proof.
  intros Hwf Hstep.
  destruct Hstep as [rayTest dt mbTrans s s' H | a b s s' H | sd s s' H].
  - by eapply InternalUpdate_wf.
  - by eapply setRange_wf.
  - by eapply setNoise_wf.
Qed.

(** The invariant rule of the step relation. *)
Lemma reachable_invariant (P : LiDAR360 -> Prop) resolution layers :
  P (LiDAR360_ctor resolution layers) ->
  (forall s s', P s -> step s s' -> P s') ->
  forall s, reachable resolution layers s -> P s.
Proof. intros Hinit Hstep s. induction 1; eauto. Qed.

Lemma step_built_as resolution layers s s' :
  built_as resolution layers s -> step s s' -> built_as resolution layers s'.
Proof.
  intros (Hwf & <- & <-) Hstep. unfold built_as.
  destruct (step_grid s s' Hwf Hstep) as [-> ->].
  split; [by eapply step_wf | done].
Qed.

(** C4. Well-formedness is an invariant of the sensor: the constructor
    establishes it and [InternalUpdate], [setRange] and [setNoise] keep it,
    together with the grid's dimensions. *)
Theorem reachable_wf resolution layers s :
  is_u32 resolution -> is_u32 layers -> reachable resolution layers s ->
  wf s /\ resolution_ s = resolution /\ layers_ s = layers.
Proof.
  intros Hr Hl. apply (reachable_invariant (built_as resolution layers)).
  - split; [by apply ctor_wf | done].
  - apply step_built_as.
Qed.

End Lifecycle.

Section Safety.
Context `{MLL : MathLibLaws} `{SB : SensorBase}.
Implicit Types (s : LiDAR360).

(** C2. A sensor whose grid fits [unsigned int] never runs into undefined
    behaviour: in every state reachable from the constructor, each of
    [InternalUpdate], [Render], [setRange] and [setNoise] returns normally,
    whatever its arguments. *)
Theorem reachable_safe resolution layers s :
  is_u32 resolution -> is_u32 layers -> is_u32 (resolution * layers) ->
  reachable resolution layers s ->
  (forall rayTest dt mbTrans, is_Ok (InternalUpdate rayTest dt mbTrans s) = true) /\
  (forall items b mbTrans, is_Ok (Render items b mbTrans s) = true) /\
  (forall a b, is_Ok (setRange a b s) = true) /\
  (forall sd, is_Ok (setNoise sd s) = true).
Proof.
  intros Hr Hl Hfit Hreach.
  assert (built_as resolution layers s) as (Hwf & Hres & Hlay).
  { revert s Hreach. apply reachable_invariant; [|apply step_built_as].
    split; [by apply ctor_wf | done]. }
  assert (fits s) as Hfits by (unfold fits; by rewrite Hres, Hlay).
  destruct (wf_single_channel s Hwf) as [c Hc].
  repeat split; intros.
  - by rewrite InternalUpdate_run.
  - by rewrite Render_run.
  - by rewrite (setRange_single s c).
  - by rewrite (setNoise_single s c).
Qed.

End Safety.

(** ** The contracts of the two loops, cell by cell *)

Section Contracts.
Context `{ML : MathLib} `{SB : SensorBase}.
Context (rayTest : Vector3 -> Vector3 -> option Scalar) (mbTrans : Transform).
Implicit Types (s : LiDAR360).

Lemma scan_spec_lookup s (k : nat) :
  (k < Z.to_nat (resolution_ s * layers_ s))%nat ->
  scan_spec rayTest s mbTrans !! k = Some (cell_spec rayTest s mbTrans k).
Proof.
  intros Hk. unfold scan_spec. by rewrite list_lookup_fmap, lookup_seq_lt.
Qed.

(** A cell named by two table entries is a cell of the grid. *)
Lemma grid_cell_in_range s (j i : nat) (h v : Scalar) :
  wf s -> angles_vert_ s !! j = Some v -> angles_hori_ s !! i = Some h ->
  (i < Z.to_nat (resolution_ s))%nat /\
  (j * Z.to_nat (resolution_ s) + i < Z.to_nat (resolution_ s * layers_ s))%nat.
Proof.
  intros Hwf Hv%lookup_lt_Some Hh%lookup_lt_Some.
  rewrite (wf_vert _ Hwf) in Hv. rewrite (wf_hori _ Hwf) in Hh.
  pose proof (wf_resolution _ Hwf) as [? _]. pose proof (wf_layers _ Hwf) as [? _].
  split; [done | nia].
Qed.

(** C1. [InternalUpdate] on a well-formed sensor whose grid fits
    [unsigned int] returns normally. Afterwards cell
    [j * resolution_ + i] of [distances_] holds the measure of the ray cast
    at the [i]-th horizontal and the [j]-th vertical angle with the range of
    channel 0, the buffer has kept its length, the history has received one
    sample holding the whole buffer, and nothing else has changed. *)
Theorem InternalUpdate_correct s (dt : Scalar) :
  wf s -> fits s ->
  exists s', InternalUpdate rayTest dt mbTrans s = Ok s' /\
    length (distances_ s') = Z.to_nat (resolution_ s * layers_ s) /\
    (forall (j i : nat) (h v : Scalar) (ch : SensorChannel),
       angles_vert_ s !! j = Some v -> angles_hori_ s !! i = Some h ->
       channels s !! 0%nat = Some ch ->
       distances_ s' !! (j * Z.to_nat (resolution_ s) + i)%nat
       = Some (ray_measure rayTest mbTrans ch h v)) /\
    s' = set_scan s (distances_ s')
           (AddSampleToHistory
              (mkSample (resolution_ s * layers_ s) (distances_ s')) (history s)).
Proof.
  intros Hwf Hfit. eexists. split; [by apply InternalUpdate_run|].
  cbn [set_scan distances_]. split; [apply scan_spec_length|]. split; [|done].
  intros j i h v ch Hv Hh Hch.
  destruct (grid_cell_in_range s j i h v Hwf Hv Hh) as [Hi Hk].
  rewrite scan_spec_lookup by done. f_equal. by apply cell_spec_at.
Qed.

Lemma render_points_lookup s (n k : nat) :
  (k < n)%nat ->
  render_points s n !! (2 * k)%nat = Some (mkVector3 0 0 0) /\
  render_points s n !! (2 * k + 1)%nat = Some (render_point s k).
Proof.
  induction n as [|n IH]; [lia|]. intros Hk. rewrite render_points_S.
  destruct (decide (k = n)) as [->|Hne].
  - rewrite !lookup_app_r by (rewrite render_points_length; lia).
    rewrite render_points_length.
    replace (2 * n - 2 * n)%nat with 0%nat by lia.
    by replace (2 * n + 1 - 2 * n)%nat with 1%nat by lia.
  - rewrite !lookup_app_l by (rewrite render_points_length; lia).
    apply IH. lia.
Qed.

(** C5. [Render] on a well-formed sensor whose grid fits returns normally.
    When the sensor is renderable it appends to the base class's items one
    [SENSOR_LINES] item at the sensor frame holding two points per ray, in
    scan order: the origin, then the point at the stored distance along the
    drawn direction of the ray's two angles. Otherwise it returns the base
    class's items. *)
Theorem Render_correct s (items : list Renderable) :
  wf s -> fits s ->
  Render items false mbTrans s = Ok items /\
  exists points,
    Render items true mbTrans s =
      Ok (items ++ [mkRenderable SENSOR_LINES mbTrans points]) /\
    length points = (2 * Z.to_nat (resolution_ s * layers_ s))%nat /\
    forall (j i : nat) (h v dist : Scalar),
      angles_vert_ s !! j = Some v -> angles_hori_ s !! i = Some h ->
      distances_ s !! (j * Z.to_nat (resolution_ s) + i)%nat = Some dist ->
      points !! (2 * (j * Z.to_nat (resolution_ s) + i))%nat
        = Some (mkVector3 0 0 0) /\
      points !! (2 * (j * Z.to_nat (resolution_ s) + i) + 1)%nat
        = Some (vscale (render_dir v h) dist).
Proof.
  intros Hwf Hfit. split; [done|].
  exists (render_spec s). split; [by rewrite Render_run|].
  split; [apply render_points_length|].
  intros j i h v dist Hv Hh Hd.
  destruct (grid_cell_in_range s j i h v Hwf Hv Hh) as [Hi Hk].
  unfold render_spec. destruct (render_points_lookup s _ _ Hk) as [-> ->].
  split; [done|].
  f_equal. unfold render_point. cbv zeta.
  destruct (flat_div_mod (Z.to_nat (resolution_ s)) j i Hi) as [-> ->].
  by rewrite Hh, Hv, Hd.
Qed.

(** C31. The constructor's tables in closed form: [resolution_] horizontal
    and [layers_] vertical angles (not one more), the [k]-th being
    [k / count * range - range / 2]; a buffer of
    [resolution_ * layers_ mod 2^32] zeros; and the single distance channel
    with range [[0, BT_LARGE_FLOAT]]. *)
Theorem LiDAR360_ctor_tables (resolution layers : Z) :
  angles_hori_ (LiDAR360_ctor resolution layers)
    = map (step_angle resolution (UnitSystem_Angle true 360))
          (seq 0 (Z.to_nat resolution)) /\
  angles_vert_ (LiDAR360_ctor resolution layers)
    = map (step_angle layers (UnitSystem_Angle true (424 # 10)))
          (seq 0 (Z.to_nat layers)) /\
  length (angles_hori_ (LiDAR360_ctor resolution layers)) = Z.to_nat resolution /\
  length (angles_vert_ (LiDAR360_ctor resolution layers)) = Z.to_nat layers /\
  distances_ (LiDAR360_ctor resolution layers)
    = replicate (Z.to_nat ((resolution * layers) mod 2 ^ 32)) 0 /\
  channels (LiDAR360_ctor resolution layers)
    = [mkSensorChannel "Distance" LENGTH 0 BT_LARGE_FLOAT].
Proof.
  cbn [LiDAR360_ctor angles_hori_ angles_vert_ distances_ channels].
  rewrite !precompute_angles_closed, !length_map, !length_seq. done.
Qed.

End Contracts.

(** * The theorems at concrete inputs *)

Lemma demo_sensor_wf : wf demo_sensor.
Proof. by apply (bool_decide_unpack _). Qed.

Lemma demo_sensor_fits : fits demo_sensor.
Proof. by apply (bool_decide_unpack _). Qed.

Lemma huge_sensor_wf : wf huge_sensor.
Proof. apply ctor_wf; by vm_compute. Qed.

Lemma huge_sensor_wraps : ~ fits huge_sensor.
Proof.
  unfold fits, huge_sensor, LiDAR360_ctor. cbn [resolution_ layers_].
  u32_unfold. lia.
Qed.

Lemma demo_reachable : reachable 4 2 demo_sensor.
Proof. apply reach_ctor. Qed.

Lemma InternalUpdate_correct_witness :
  exists s', InternalUpdate demo_wall 0 identity_transform demo_sensor = Ok s' /\
    length (distances_ s') = Z.to_nat (resolution_ demo_sensor * layers_ demo_sensor) /\
    (forall (j i : nat) (h v : Scalar) (ch : SensorChannel),
       angles_vert_ demo_sensor !! j = Some v ->
       angles_hori_ demo_sensor !! i = Some h ->
       channels demo_sensor !! 0%nat = Some ch ->
       distances_ s' !! (j * Z.to_nat (resolution_ demo_sensor) + i)%nat
       = Some (ray_measure demo_wall identity_transform ch h v)) /\
    s' = set_scan demo_sensor (distances_ s')
           (AddSampleToHistory
              (mkSample (resolution_ demo_sensor * layers_ demo_sensor)
                        (distances_ s'))
              (history demo_sensor)).
Proof.
  exact (InternalUpdate_correct demo_wall identity_transform demo_sensor 0
           demo_sensor_wf demo_sensor_fits).
Defined.

Lemma reachable_safe_witness :
  (forall rayTest dt mbTrans,
     is_Ok (InternalUpdate rayTest dt mbTrans demo_sensor) = true) /\
  (forall items b mbTrans, is_Ok (Render items b mbTrans demo_sensor) = true) /\
  (forall a b, is_Ok (setRange a b demo_sensor) = true) /\
  (forall sd, is_Ok (setNoise sd demo_sensor) = true).
Proof.
  apply (reachable_safe 4 2 demo_sensor); [by vm_compute.. | exact demo_reachable].
Defined.

Lemma InternalUpdate_overflow_witness :
  InternalUpdate demo_wall 0 identity_transform huge_sensor = Err UndefinedBehaviour.
Proof.
  exact (InternalUpdate_overflow demo_wall identity_transform huge_sensor 0
           huge_sensor_wf huge_sensor_wraps).
Defined.

Lemma reachable_wf_witness :
  wf demo_sensor /\ resolution_ demo_sensor = 4%Z /\ layers_ demo_sensor = 2%Z.
Proof.
  apply (reachable_wf 4 2 demo_sensor); [by vm_compute.. | exact demo_reachable].
Defined.

Lemma Render_correct_witness :
  Render [] false identity_transform demo_sensor = Ok [] /\
  exists points,
    Render [] true identity_transform demo_sensor =
      Ok ([] ++ [mkRenderable SENSOR_LINES identity_transform points]) /\
    length points = (2 * Z.to_nat (resolution_ demo_sensor * layers_ demo_sensor))%nat /\
    forall (j i : nat) (h v dist : Scalar),
      angles_vert_ demo_sensor !! j = Some v ->
      angles_hori_ demo_sensor !! i = Some h ->
      distances_ demo_sensor !! (j * Z.to_nat (resolution_ demo_sensor) + i)%nat
        = Some dist ->
      points !! (2 * (j * Z.to_nat (resolution_ demo_sensor) + i))%nat
        = Some (mkVector3 0 0 0) /\
      points !! (2 * (j * Z.to_nat (resolution_ demo_sensor) + i) + 1)%nat
        = Some (vscale (render_dir v h) dist).
Proof.
  exact (Render_correct identity_transform demo_sensor []
           demo_sensor_wf demo_sensor_fits).
Defined.

Lemma setRange_correct_witness :
  exists s' c', setRange (-1) 10 demo_sensor = Ok s' /\ wf s' /\ channels s' = [c'] /\
    rangeMin c' = btClamp (-1) 0 BT_LARGE_FLOAT /\
    rangeMax c' = btClamp 10 0 BT_LARGE_FLOAT /\
    min_range_ s' = Some (rangeMin c') /\ max_range_ s' = Some (rangeMax c') /\
    0 <= rangeMin c' <= BT_LARGE_FLOAT /\ 0 <= rangeMax c' <= BT_LARGE_FLOAT.
Proof. exact (setRange_correct demo_sensor (-1) 10 demo_sensor_wf). Defined.

Lemma setRange_inverted_witness :
  exists s' c', setRange 10 1 demo_sensor = Ok s' /\ channels s' = [c'] /\
    rangeMax c' < rangeMin c'.
Proof.
  apply (setRange_inverted demo_sensor 10 1); [exact demo_sensor_wf | by vm_compute..].
Defined.

Lemma setNoise_correct_witness :
  exists c x, channels demo_sensor = [c] /\ 0 <= x <= BT_LARGE_FLOAT /\
    (0 <= 2 <= BT_LARGE_FLOAT -> x = 2) /\
    setNoise 2 demo_sensor = Ok (set_channels demo_sensor [setStdDev x c]).
Proof. exact (setNoise_correct demo_sensor 2 demo_sensor_wf). Defined.

Lemma setRange_no_channel_witness :
  setRange 0 10 (set_channels demo_sensor []) = Err UndefinedBehaviour.
Proof. exact (setRange_no_channel (set_channels demo_sensor []) 0 10 eq_refl). Defined.

Lemma ray_measure_horizontal_witness :
  ray_measure demo_wall identity_transform demo_channel 0 0
    == rangeMin demo_channel
       + (rangeMax demo_channel - rangeMin demo_channel) * demo_fraction /\
  rangeMin demo_channel <= ray_measure demo_wall identity_transform demo_channel 0 0
    <= rangeMax demo_channel.
Proof.
  apply (ray_measure_horizontal demo_wall identity_transform demo_channel 0 0
           demo_fraction);
    [exact orthonormal_identity | by vm_compute..].
Defined.

Lemma ray_measure_nonneg_witness :
  0 <= ray_measure demo_wall identity_transform demo_channel 0 1.
Proof. exact (ray_measure_nonneg demo_wall identity_transform demo_channel 0 1). Defined.
