(* ===== verification/LiDARMachine.v ===== *)
(** * LiDARMachine: the sensor's loops as the machine runs them

    [LiDAR360] models the loops of LiDAR360.cpp as structured loops over a
    trip count. This file has them with their [unsigned int] counters
    ([Loops.for_u32]: the increment wraps, the loop ends when the comparison
    fails), and the constructor as it is executed: the two [push_back] loops,
    the report it writes to [std::cout] (which reads [channels[0]] and
    [angles_vert_[j]] for every layer) and the allocation of the buffer.

    The theorems show that every loop returns, after as many turns as its
    bound, what the structured model computes, so that the theorems of
    [LiDAR360] are theorems about the code as written; and that the
    constructor runs into no undefined behaviour and what it prints. *)

From Stdlib Require Import ZArith QArith Lia String.
From stdpp Require Import base tactics option list.
From S2P Require Import Prelude Loops Linalg LiDARGeometry LiDAR360.

#[local] Open Scope Z_scope.

(** * Data *)

(** What one [<<] sends to [std::cout]. *)
Inductive OutItem : Type :=
| OutText (t : string)
| OutUInt (n : Z)
| OutSize (n : nat)
| OutScalar (x : Scalar)
| OutEndl.

Section Machine.
Context `{ML : MathLib} `{SB : SensorBase}.
Implicit Types (s : LiDAR360) (mbTrans : Transform) (d : list Scalar).

(** * The constructor *)

(** [for (unsigned int i = 0; i < resolution_; ++i)
       angles_hori_.push_back(...)], and the same loop for the layers. *)
Definition push_angles (count : Z) (range : Scalar) : result (list Scalar) :=
  for_u32 0 count
    (fun k acc => Ok (acc ++ [step_angle count range (Z.to_nat k)])) [].

(** [std::cout << angles_vert_[j] << " "]. *)
Definition report_angle s (j : Z) (out : list OutItem) : result (list OutItem) :=
  a ← vec_get (angles_vert_ s) j;
  Ok (out ++ [OutScalar a; OutText " "]).

(** The five lines the constructor prints. *)
Definition ctor_report s : result (list OutItem) :=
  c ← vec_get (channels s) 0;
  out ← for_u32 0 (layers_ s) (report_angle s)
    [OutText "LiDAR360: resolution: "; OutUInt (resolution_ s);
     OutText ", layers: "; OutUInt (layers_ s); OutEndl;
     OutText "LiDAR360: horizontal FOV: "; OutScalar (ang_range_hori_ s);
     OutText ", vertical FOV: "; OutScalar (ang_range_vert_ s); OutEndl;
     OutText "LiDAR360: horizontal steps: "; OutSize (length (angles_hori_ s));
     OutText ", vertical steps: "; OutSize (length (angles_vert_ s)); OutEndl;
     OutText "LiDAR360: range: ["; OutScalar (rangeMin c); OutText ", ";
     OutScalar (rangeMax c); OutText "]"; OutEndl;
     OutText "vertical angles: "];
  Ok (out ++ [OutEndl]).

(** [LiDAR360::LiDAR360], statement by statement: the sensor and what was
    printed. The buffer is allocated after the report. *)
Definition LiDAR360_ctor_run (resolution layers : Z) :
    result (LiDAR360 * list OutItem) :=
  let hori := UnitSystem_Angle true 360 in
  let vert := UnitSystem_Angle true (424 # 10) in
  hs ← push_angles resolution hori;
  vs ← push_angles layers vert;
  let s := {| ang_range_hori_ := hori;
              ang_range_vert_ := vert;
              resolution_ := resolution;
              layers_ := layers;
              channels := [] ++ [distance_channel];
              angles_hori_ := hs;
              angles_vert_ := vs;
              distances_ := [];
              max_range_ := None;
              min_range_ := None;
              history := emptyHistory |} in
  out ← ctor_report s;
  Ok (set_scan s (replicate (Z.to_nat (umul resolution layers)) 0%Q) (history s),
      out).

(** * InternalUpdate *)

(** The body of the loop over the layers, with the loop over the steps. *)
Definition scan_layer_u32 (rayTest : Vector3 -> Vector3 -> option Scalar)
    s mbTrans (j : Z) d : result (list Scalar) :=
  vAngle ← vec_get (angles_vert_ s) j;
  for_u32 0 (resolution_ s)
    (fun i => scan_cell rayTest s mbTrans vAngle (Z.to_nat j) (Z.to_nat i)) d.

(** [LiDAR360::InternalUpdate] with its two [unsigned int] counters. *)
Definition InternalUpdate_u32 (rayTest : Vector3 -> Vector3 -> option Scalar)
    (dt : Scalar) mbTrans s : result LiDAR360 :=
  d ← for_u32 0 (layers_ s) (scan_layer_u32 rayTest s mbTrans) (distances_ s);
  smp ← make_sample (umul (resolution_ s) (layers_ s)) d;
  Ok (set_scan s d (AddSampleToHistory smp (history s))).

(** * Render *)

Definition render_layer_u32 s (raysPerLayer : Z) (j : Z)
    (points : list Vector3) : result (list Vector3) :=
  vAngle ← vec_get (angles_vert_ s) j;
  for_u32 0 (resolution_ s)
    (fun i => render_cell s raysPerLayer vAngle (Z.to_nat j) (Z.to_nat i))
    points.

(** [LiDAR360::Render] with its two [unsigned int] counters. *)
Definition Render_u32 (items : list Renderable) (isRenderable : bool)
    mbTrans s : result (list Renderable) :=
  if isRenderable then
    let raysPerLayer := resolution_ s in
    points ← for_u32 0 (layers_ s) (render_layer_u32 s raysPerLayer) [];
    Ok (items ++ [mkRenderable SENSOR_LINES mbTrans points])
  else Ok items.

(** * Specifications *)

(** What the constructor prints, as a function of the sensor it built. *)
Definition report_spec s : list OutItem :=
  [OutText "LiDAR360: resolution: "; OutUInt (resolution_ s);
   OutText ", layers: "; OutUInt (layers_ s); OutEndl;
   OutText "LiDAR360: horizontal FOV: "; OutScalar (ang_range_hori_ s);
   OutText ", vertical FOV: "; OutScalar (ang_range_vert_ s); OutEndl;
   OutText "LiDAR360: horizontal steps: "; OutSize (Z.to_nat (resolution_ s));
   OutText ", vertical steps: "; OutSize (Z.to_nat (layers_ s)); OutEndl;
   OutText "LiDAR360: range: ["; OutScalar 0%Q; OutText ", ";
   OutScalar BT_LARGE_FLOAT; OutText "]"; OutEndl;
   OutText "vertical angles: "]
  ++ flat_map (fun a => [OutScalar a; OutText " "]) (angles_vert_ s)
  ++ [OutEndl].

End Machine.

(** * Theorems *)

Section Equivalence.
Context `{ML : MathLib} `{SB : SensorBase}.
Implicit Types (s : LiDAR360) (mbTrans : Transform) (d : list Scalar).

(** The [push_back] loop builds the table of the structured model. *)
Lemma push_angles_run count range :
  is_u32 count -> push_angles count range = Ok (precompute_angles count range).
Proof.
  intros Hc. unfold push_angles, precompute_angles.
  rewrite <- for_range_pure.
  exact (for_u32_nat count (fun k acc => Ok (acc ++ [step_angle count range k])) [] Hc).
Qed.

(** The inner loops, layer by layer. *)
Lemma scan_layer_u32_run rayTest s mbTrans (j : nat) d :
  is_u32 (resolution_ s) ->
  scan_layer_u32 rayTest s mbTrans (Z.of_nat j) d = scan_layer rayTest s mbTrans j d.
Proof.
  intros Hr. unfold scan_layer_u32, scan_layer. rewrite Nat2Z.id.
  destruct (vec_get _ _) as [v|e]; cbn; [|done].
  exact (for_u32_nat _ (scan_cell rayTest s mbTrans v j) d Hr).
Qed.

Lemma render_layer_u32_run s r (j : nat) pts :
  is_u32 (resolution_ s) ->
  render_layer_u32 s r (Z.of_nat j) pts = render_layer s r j pts.
Proof.
  intros Hr. unfold render_layer_u32, render_layer. rewrite Nat2Z.id.
  destruct (vec_get _ _) as [v|e]; cbn; [|done].
  exact (for_u32_nat _ (render_cell s r v j) pts Hr).
Qed.

Lemma InternalUpdate_u32_run rayTest dt mbTrans s :
  is_u32 (resolution_ s) -> is_u32 (layers_ s) ->
  InternalUpdate_u32 rayTest dt mbTrans s = InternalUpdate rayTest dt mbTrans s.
Proof.
  intros Hr Hl. unfold InternalUpdate_u32, InternalUpdate.
  rewrite for_u32_for_range by done.
  erewrite for_range_ext; [done|]. intros k t _. by apply scan_layer_u32_run.
Qed.

Lemma Render_u32_run items b mbTrans s :
  is_u32 (resolution_ s) -> is_u32 (layers_ s) ->
  Render_u32 items b mbTrans s = Render items b mbTrans s.
Proof.
  intros Hr Hl. unfold Render_u32, Render. destruct b; [|done].
  rewrite for_u32_for_range by done.
  erewrite for_range_ext; [done|]. intros k t _. by apply render_layer_u32_run.
Qed.

(** The loops as the machine runs them return: with [unsigned int]
    counters that wrap modulo [2^32], the nested loops of [InternalUpdate]
    and of [Render] end after [layers_] times [resolution_] turns, and each
    call yields what the structured model yields, errors included. *)
Theorem machine_loops_terminate rayTest dt items b mbTrans s :
  is_u32 (resolution_ s) -> is_u32 (layers_ s) ->
  InternalUpdate_u32 rayTest dt mbTrans s = InternalUpdate rayTest dt mbTrans s /\
  Render_u32 items b mbTrans s = Render items b mbTrans s.
Proof. intros Hr Hl. split; [by apply InternalUpdate_u32_run | by apply Render_u32_run]. Qed.

(** The report of a sensor with full tables and the distance channel. *)
Lemma ctor_report_run s :
  is_u32 (layers_ s) ->
  length (angles_hori_ s) = Z.to_nat (resolution_ s) ->
  length (angles_vert_ s) = Z.to_nat (layers_ s) ->
  channels s = [distance_channel] ->
  ctor_report s = Ok (report_spec s).
Proof.
  intros Hl Hh Hv Hc. unfold ctor_report, report_spec, report_angle.
  rewrite Hc. change (vec_get [distance_channel] 0) with (Ok distance_channel).
  cbn [mbind result_bind]. rewrite for_u32_for_range by done. rewrite <- Hv at 1.
  rewrite (for_range_flat_map (fun a => [OutScalar a; OutText " "])).
  cbn [mbind result_bind rangeMin rangeMax distance_channel].
  rewrite Hh, Hv. by rewrite <- app_assoc.
Qed.

(** C28. The constructor, statement by statement, runs into no undefined
    behaviour: its two [push_back] loops end, every [angles_vert_[j]] and
    [channels[0]] it prints exists, it builds the sensor of the structured
    model, and it prints the five lines of [report_spec]. *)
Theorem LiDAR360_ctor_run_correct (resolution layers : Z) :
  is_u32 resolution -> is_u32 layers ->
  LiDAR360_ctor_run resolution layers =
  Ok (LiDAR360_ctor resolution layers,
      report_spec (LiDAR360_ctor resolution layers)).
Proof.
  intros Hr Hl. unfold LiDAR360_ctor_run.
  rewrite !push_angles_run by done. cbn [mbind result_bind].
  rewrite ctor_report_run; [done | done | ..]; cbn.
  - apply precompute_angles_length.
  - apply precompute_angles_length.
  - done.
Qed.

End Equivalence.

(** * Concrete inputs *)

Lemma machine_loops_terminate_witness :
  InternalUpdate_u32 demo_wall 0 identity_transform demo_sensor =
    InternalUpdate demo_wall 0 identity_transform demo_sensor /\
  Render_u32 [] true identity_transform demo_sensor =
    Render [] true identity_transform demo_sensor.
Proof. apply machine_loops_terminate; by vm_compute. Defined.

Lemma LiDAR360_ctor_run_correct_witness :
  LiDAR360_ctor_run 4 2 = Ok (LiDAR360_ctor 4 2, report_spec (LiDAR360_ctor 4 2)).
Proof. apply LiDAR360_ctor_run_correct; by vm_compute. Defined.
