(* ===== verification/LiDARWorld.v ===== *)
(** * LiDARWorld: the sensor as a client of the simulation

    [LiDAR360::InternalUpdate] and [LiDAR360::Render] call out of the class:
    to the base classes ([getSensorFrame], [AddSampleToHistory],
    [Sensor::Render], [isRenderable]) and to the collision world
    ([rayTest] with a [ClosestRayResultCallback] that carries the end points
    and the collision filter). [LiDAR360.v] has the two functions with the
    answers of these calls as parameters. This file has them as interaction
    trees: every call is an event, in the order in which the code makes it,
    and a vector access out of range is an exception. A handler answers the
    events from a world (a ray test and a frame) and records every call in a
    trace. The theorems show that the interpreted trees are the functions of
    [LiDAR360.v], and which calls a scan makes, in which order. *)

From Stdlib Require Import ZArith QArith List Lia.
From stdpp Require Import base tactics option list.
From ITree Require Import ITree ITreeFacts Events.State Events.StateFacts
  Events.Exception.
From S2P Require Import Prelude Linalg LiDARGeometry LiDAR360.

Declare Scope tree_scope.
Delimit Scope tree_scope with tree.
Notation "'do' x <- t ; k" := (ITree.bind t (fun x => k))
  (at level 10, x name, t at level 100, k at level 200,
   format "'[v' 'do'  x  <-  t ; '/' k ']'") : tree_scope.
#[local] Open Scope tree_scope.

(** * Data *)

(** The collision groups the filter of the ray names. *)
Variant CollisionMask : Type :=
  MASK_STATIC | MASK_DYNAMIC | MASK_ANIMATED_COLLIDING.

#[export] Instance CollisionMask_eq_dec : EqDecision CollisionMask.
Proof. solve_decision. Defined.

(** [btCollisionWorld::ClosestRayResultCallback], as far as the sensor sets
    it: the end points and the filter. [a | b] on masks is the list of the
    groups. *)
Record ClosestRayResultCallback : Type := mkClosest {
  m_rayFromWorld : Vector3;
  m_rayToWorld : Vector3;
  m_collisionFilterGroup : list CollisionMask;
  m_collisionFilterMask : list CollisionMask
}.

(** The calls out of the class. The answer of [RayTest] is
    [closest.m_closestHitFraction] when [closest.hasHit()]. *)
Variant simE : Type -> Type :=
| GetSensorFrame : simE Transform
| RayTest (from to : Vector3) (closest : ClosestRayResultCallback) :
    simE (option Scalar)
| AddSample (smp : Sample) : simE unit
| SensorRender : simE (list Renderable)
| IsRenderable : simE bool.

(** A call as the trace records it. *)
Variant Call : Type :=
| CallFrame
| CallRay (closest : ClosestRayResultCallback)
| CallSample (smp : Sample)
| CallRender
| CallRenderable.

(** The events of the program: the calls, and undefined behaviour. *)
Definition progE : Type -> Type := exceptE error +' simE.

(** A fallible pure step inside a tree. *)
Definition lift {E} `{exceptE error -< E} {A} (r : result A) : itree E A :=
  match r with
  | Ok a => Ret a
  | Err e => throw e
  end.

(** [for (unsigned int i = start; i < start + count; ++i) s = body i s]. *)
Fixpoint for_tree {E St} (start count : nat) (body : nat -> St -> itree E St)
    (s : St) : itree E St :=
  match count with
  | O => Ret s
  | S n => do s' <- body start s; for_tree (S start) n body s'
  end.

Section Model.
Context `{ML : MathLib} `{SB : SensorBase}.
Implicit Types (s : LiDAR360) (mbTrans : Transform) (d : list Scalar).

(** * The programs *)

(** The callback of one ray. *)
Definition closest_callback (from to : Vector3) : ClosestRayResultCallback :=
  {| m_rayFromWorld := from;
     m_rayToWorld := to;
     m_collisionFilterGroup := [MASK_DYNAMIC];
     m_collisionFilterMask :=
       [MASK_STATIC; MASK_DYNAMIC; MASK_ANIMATED_COLLIDING] |}.

(** One ray: the end points, the test, the distance of the hit. *)
Definition cast_ray mbTrans (ch : SensorChannel) (hAngle vAngle : Scalar) :
    itree progE Scalar :=
  let dir := ray_dir mbTrans hAngle vAngle in
  let from := ray_point mbTrans dir (rangeMin ch) in
  let to := ray_point mbTrans dir (rangeMax ch) in
  do hit <- trigger (RayTest from to (closest_callback from to));
  Ret (measured mbTrans from to hit).

(** The body of the inner loop. *)
Definition scan_cell_tree s mbTrans (vAngle : Scalar) (j i : nat) d :
    itree progE (list Scalar) :=
  do hAngle <- lift (vec_get (angles_hori_ s) (Z.of_nat i));
  do ch <- lift (vec_get (channels s) 0);
  do v <- cast_ray mbTrans ch hAngle vAngle;
  lift (vec_set d (cell_index (resolution_ s) j i) v).

(** The body of the outer loop. *)
Definition scan_layer_tree s mbTrans (j : nat) d : itree progE (list Scalar) :=
  do vAngle <- lift (vec_get (angles_vert_ s) (Z.of_nat j));
  for_tree 0 (Z.to_nat (resolution_ s)) (scan_cell_tree s mbTrans vAngle j) d.

(** [LiDAR360::InternalUpdate]: the new contents of [distances_]. *)
Definition InternalUpdate_tree (dt : Scalar) s : itree progE (list Scalar) :=
  do mbTrans <- trigger GetSensorFrame;
  do d <- for_tree 0 (Z.to_nat (layers_ s)) (scan_layer_tree s mbTrans)
            (distances_ s);
  do smp <- lift (make_sample (umul (resolution_ s) (layers_ s)) d);
  do _ <- trigger (AddSample smp);
  Ret d.

(** [LiDAR360::Render]. The loops make no call. *)
Definition Render_tree s : itree progE (list Renderable) :=
  do items <- trigger SensorRender;
  do b <- trigger IsRenderable;
  if b : bool then
    do mbTrans <- trigger GetSensorFrame;
    let raysPerLayer := resolution_ s in
    do points <- lift (for_range 0 (Z.to_nat (layers_ s))
                         (render_layer s raysPerLayer) []);
    Ret (items ++ [mkRenderable SENSOR_LINES mbTrans points])
  else Ret items.

(** * The simulation that answers *)

(** What the calls act on: the history of the base class, and the trace of
    the calls made so far. *)
Record SimState : Type := mkSimState {
  sim_history : History;
  sim_trace : list Call
}.

Definition called (c : Call) (st : SimState) : SimState :=
  mkSimState (sim_history st) (sim_trace st ++ [c]).

Definition sampled (smp : Sample) (st : SimState) : SimState :=
  mkSimState (AddSampleToHistory smp (sim_history st))
             (sim_trace st ++ [CallSample smp]).

(** The world: the ray test of the collision world, the frame of the link
    the sensor is attached to, what [Sensor::Render] returns and whether the
    sensor is renderable. *)
Record Sim : Type := mkSim {
  sim_rayTest : Vector3 -> Vector3 -> option Scalar;
  sim_frame : Transform;
  sim_items : list Renderable;
  sim_renderable : bool
}.

Definition handle (w : Sim) :
    simE ~> Monads.stateT SimState (itree (exceptE error)) :=
  fun _ e st =>
    match e with
    | GetSensorFrame => Ret (called CallFrame st, sim_frame w)
    | RayTest from to closest =>
        Ret (called (CallRay closest) st, sim_rayTest w from to)
    | AddSample smp => Ret (sampled smp st, tt)
    | SensorRender => Ret (called CallRender st, sim_items w)
    | IsRenderable => Ret (called CallRenderable st, sim_renderable w)
    end.

(** A program run in a world: the calls are answered, undefined behaviour
    stays an exception. *)
Definition run (w : Sim) {A} (t : itree progE A) (st : SimState) :
    itree (exceptE error) (SimState * A) :=
  interp_state (M := itree (exceptE error))
    (case_ (bif := sum1) pure_state (handle w)) t st.

(** * The calls of a scan *)

(** The callback of the ray of step [i] in a layer at [vAngle]. *)
Definition ray_query_at s mbTrans (vAngle : Scalar) (i : nat) :
    ClosestRayResultCallback :=
  let ch := default distance_channel (channels s !! 0%nat) in
  let dir := ray_dir mbTrans (default 0%Q (angles_hori_ s !! i)) vAngle in
  closest_callback (ray_point mbTrans dir (rangeMin ch))
                   (ray_point mbTrans dir (rangeMax ch)).

(** The callback of the ray of layer [j] and step [i]. *)
Definition ray_query s mbTrans (j i : nat) : ClosestRayResultCallback :=
  ray_query_at s mbTrans (default 0%Q (angles_vert_ s !! j)) i.

Definition layer_rays s mbTrans (j : nat) : list Call :=
  List.map (fun i => CallRay (ray_query s mbTrans j i))
      (seq 0 (Z.to_nat (resolution_ s))).

(** The rays of a scan: layer by layer, step by step. *)
Definition scan_rays s mbTrans : list Call :=
  flat_map (layer_rays s mbTrans) (seq 0 (Z.to_nat (layers_ s))).

(** The calls of one [InternalUpdate] that returns the sample [smp]. *)
Definition scan_calls s mbTrans (smp : Sample) : list Call :=
  [CallFrame] ++ scan_rays s mbTrans ++ [CallSample smp].

Definition traced (cs : list Call) (st : SimState) : SimState :=
  mkSimState (sim_history st) (sim_trace st ++ cs).

(** The sample a scan that ended in [s] has recorded. *)
Definition scan_sample s : Sample :=
  let n := umul (resolution_ s) (layers_ s) in
  mkSample n (take (Z.to_nat n) (distances_ s)).

(** What the ray of a callback measures in a world. *)
Definition answer (rayTest : Vector3 -> Vector3 -> option Scalar) mbTrans
    (c : ClosestRayResultCallback) : Scalar :=
  measured mbTrans (m_rayFromWorld c) (m_rayToWorld c)
    (rayTest (m_rayFromWorld c) (m_rayToWorld c)).

(** The calls of [Render]. *)
Definition render_calls (renderable : bool) : list Call :=
  [CallRender; CallRenderable] ++ (if renderable then [CallFrame] else []).

End Model.

(** * Concrete inputs *)

(** The wall of [LiDAR360.demo_wall] seen from the identity frame, a base
    class without items and a renderable sensor. *)
Definition demo_sim : Sim := mkSim demo_wall identity_transform [] true.

(** * Theorems *)

Section Trees.
Context {E : Type -> Type} `{exceptE error -< E}.

Lemma bind_throw {A B} e (k : A -> itree E B) :
  ITree.bind (throw e) k ≅ throw e.
Proof. unfold throw. rewrite bind_vis. apply eqit_Vis. intros []. Qed.

Lemma lift_bind {A B} (r : result A) (f : A -> result B) :
  lift (E:=E) (r ≫= f) ≅ ITree.bind (lift r) (fun a => lift (f a)).
Proof.
  destruct r as [a|e]; cbn; [by rewrite bind_ret_l | by rewrite bind_throw].
Qed.

End Trees.

Section Runs.
Context `{ML : MathLib} `{SB : SensorBase}.
Context (w : Sim).
Implicit Types (s : LiDAR360) (st : SimState).

Lemma run_ret {A} (a : A) st : run w (Ret a) st ≅ Ret (st, a).
Proof. apply interp_state_ret. Qed.

Lemma run_throw {A} e st : run w (throw (X:=A) e) st ≈ throw e.
Proof.
  unfold run, throw. rewrite interp_state_vis. cbn.
  unfold pure_state. rewrite bind_vis. apply eqit_Vis. intros [].
Qed.

Lemma run_lift {A} (r : result A) st :
  run w (lift r) st ≈ lift (a ← r; Ok (st, a)).
Proof. destruct r as [a|e]; cbn; [by rewrite run_ret | apply run_throw]. Qed.

Lemma run_bind {A B} (t : itree progE A) (k : A -> itree progE B) st :
  run w (ITree.bind t k) st
  ≅ ITree.bind (run w t st) (fun sa => run w (k sa.2) sa.1).
Proof. apply interp_state_bind. Qed.

Lemma run_trigger {A} (e : simE A) st :
  run w (trigger e) st ≈ handle w _ e st.
Proof. unfold run. rewrite interp_state_trigger. reflexivity. Qed.

(** ** The trace *)

Lemma traced_nil st : traced [] st = st.
Proof. destruct st. unfold traced. cbn. by rewrite app_nil_r. Qed.

Lemma traced_app cs cs' st : traced (cs ++ cs') st = traced cs' (traced cs st).
Proof. unfold traced. cbn. by rewrite app_assoc. Qed.

Lemma called_traced c st : called c st = traced [c] st.
Proof. done. Qed.

(** ** Loops *)

(** A loop whose turns are those of a fallible function and make the calls
    [g k]: the run of the loop is the loop of the function, and its calls
    are those of its turns in order. *)
Lemma run_for_tree {St} (body : nat -> St -> itree progE St)
    (f : nat -> St -> result St) (g : nat -> list Call) :
  (forall k a st,
     run w (body k a) st ≈ lift (a' ← f k a; Ok (traced (g k) st, a'))) ->
  forall n i a st,
    run w (for_tree i n body a) st
    ≈ lift (a' ← for_range i n f a; Ok (traced (flat_map g (seq i n)) st, a')).
Proof.
  intros Hbody. induction n as [|n IH]; intros i a st.
  - cbn. by rewrite run_ret, traced_nil.
  - cbn [for_tree for_range seq flat_map]. rewrite run_bind, Hbody.
    destruct (f i a) as [a1|e]; cbn; [|by rewrite bind_throw].
    rewrite bind_ret_l. cbn. by rewrite IH, traced_app.
Qed.

Lemma flat_map_singleton {A B} (f : A -> B) (l : list A) :
  flat_map (fun x => [f x]) l = List.map f l.
Proof. induction l as [|x l IH]; cbn; [done | by rewrite IH]. Qed.

(** A list built row by row is the list of its cells by index. *)
Lemma flat_map_grid {A} (f : nat -> nat -> A) (rows cols : nat) :
  flat_map (fun j => List.map (f j) (seq 0 cols)) (seq 0 rows) =
  List.map (fun k => f (k / cols)%nat (k mod cols)%nat) (seq 0 (rows * cols)).
Proof.
  induction rows as [|n IH]; [done|].
  rewrite seq_S, flat_map_app, IH. cbn [flat_map]. rewrite app_nil_r.
  replace (S n * cols)%nat with (n * cols + cols)%nat by lia.
  rewrite seq_app, map_app. f_equal. cbn [plus].
  replace (seq (n * cols) cols) with (seq (n * cols + 0) cols)
    by (by rewrite Nat.add_0_r).
  rewrite <- (fmap_add_seq (n * cols) 0 cols).
  change (@fmap list _) with (@List.map). rewrite List.map_map.
  apply List.map_ext_in. intros i Hi%in_seq.
  rewrite (Nat.add_comm (n * cols)), Nat.div_add, Nat.Div0.mod_add by lia.
  by rewrite Nat.div_small, Nat.mod_small by lia.
Qed.

(** ** The scan *)

Lemma run_cast_ray mbTrans ch hAngle vAngle st :
  let dir := ray_dir mbTrans hAngle vAngle in
  let from := ray_point mbTrans dir (rangeMin ch) in
  let to := ray_point mbTrans dir (rangeMax ch) in
  run w (cast_ray mbTrans ch hAngle vAngle) st
  ≈ Ret (called (CallRay (closest_callback from to)) st,
         ray_measure (sim_rayTest w) mbTrans ch hAngle vAngle).
Proof.
  cbn zeta. unfold cast_ray. rewrite run_bind, run_trigger. cbn.
  rewrite bind_ret_l. cbn. by rewrite run_ret.
Qed.

Lemma run_scan_cell s mbTrans vAngle j i d st :
  run w (scan_cell_tree s mbTrans vAngle j i d) st
  ≈ lift (d' ← scan_cell (sim_rayTest w) s mbTrans vAngle j i d;
          Ok (traced [CallRay (ray_query_at s mbTrans vAngle i)] st, d')).
Proof.
  unfold scan_cell_tree, scan_cell, ray_query_at. rewrite run_bind, run_lift.
  destruct (vec_get (angles_hori_ s) _) as [h|e] eqn:Hh; cbn;
    [|by rewrite bind_throw].
  apply vec_get_Ok in Hh. rewrite Nat2Z.id in Hh. rewrite Hh.
  rewrite bind_ret_l. cbn. rewrite run_bind, run_lift.
  destruct (vec_get (channels s) 0) as [ch|e] eqn:Hch; cbn;
    [|by rewrite bind_throw].
  apply vec_get_Ok in Hch. change (Z.to_nat 0) with 0%nat in Hch. rewrite Hch.
  rewrite bind_ret_l. cbn. rewrite run_bind, run_cast_ray, bind_ret_l. cbn.
  by rewrite run_lift.
Qed.

Lemma run_scan_layer s mbTrans j d st :
  run w (scan_layer_tree s mbTrans j d) st
  ≈ lift (d' ← scan_layer (sim_rayTest w) s mbTrans j d;
          Ok (traced (layer_rays s mbTrans j) st, d')).
Proof.
  unfold scan_layer_tree, scan_layer, layer_rays, ray_query.
  rewrite run_bind, run_lift.
  destruct (vec_get (angles_vert_ s) _) as [v|e] eqn:Hv; cbn;
    [|by rewrite bind_throw].
  apply vec_get_Ok in Hv. rewrite Nat2Z.id in Hv. rewrite Hv.
  rewrite bind_ret_l. cbn.
  rewrite (run_for_tree _ _ (fun i => [CallRay (ray_query_at s mbTrans v i)]))
    by apply run_scan_cell.
  by rewrite flat_map_singleton.
Qed.

Lemma make_sample_Ok n d smp :
  make_sample n d = Ok smp -> smp = mkSample n (take (Z.to_nat n) d).
Proof. unfold make_sample. case_decide; [by intros [= <-] | done]. Qed.

(** [InternalUpdate] as a client of the simulation is the function
    [InternalUpdate] of the ray test and the frame the simulation answers
    with: it fails when the function fails, and otherwise returns the buffer
    of the function, leaves the history of the function, and has made the
    calls of a scan: the frame once, the rays layer by layer, the sample
    last. *)
Theorem InternalUpdate_tree_run s (dt : Scalar) (cs : list Call) :
  run w (InternalUpdate_tree dt s) (mkSimState (history s) cs)
  ≈ lift (s' ← InternalUpdate (sim_rayTest w) dt (sim_frame w) s;
          Ok (mkSimState (history s')
                (cs ++ scan_calls s (sim_frame w) (scan_sample s')),
              distances_ s')).
Proof.
  unfold InternalUpdate_tree, InternalUpdate.
  rewrite run_bind, run_trigger. cbn. rewrite bind_ret_l. cbn.
  rewrite run_bind, (run_for_tree _ _ _ (fun j d st => run_scan_layer s _ j d st)).
  destruct (for_range _ _ _ _) as [d|e]; cbn; [|by rewrite bind_throw].
  rewrite bind_ret_l. cbn. rewrite run_bind, run_lift.
  destruct (make_sample _ d) as [smp|e] eqn:Hsmp; cbn; [|by rewrite bind_throw].
  apply make_sample_Ok in Hsmp as ->.
  rewrite bind_ret_l. cbn. rewrite run_bind, run_trigger. cbn.
  rewrite bind_ret_l, run_ret. cbn.
  unfold sampled, traced, called, scan_calls, scan_rays, scan_sample. cbn.
  by rewrite <- !app_assoc.
Qed.

(** [Render] as a client of the simulation is the function [Render] of
    what the simulation answers; it asks for the items of the base class and
    whether the sensor is renderable, for the frame only when it is, and
    leaves the history alone. *)
Lemma Render_tree_run s st :
  run w (Render_tree s) st
  ≈ lift (items ← Render (sim_items w) (sim_renderable w) (sim_frame w) s;
          Ok (traced (render_calls (sim_renderable w)) st, items)).
Proof.
  unfold Render_tree, Render, render_calls.
  rewrite run_bind, run_trigger. cbn. rewrite bind_ret_l. cbn.
  rewrite run_bind, run_trigger. cbn. rewrite bind_ret_l. cbn.
  destruct (sim_renderable w).
  - rewrite run_bind, run_trigger. cbn. rewrite bind_ret_l. cbn.
    rewrite run_bind, run_lift.
    destruct (for_range _ _ _ _) as [points|e]; cbn; [|by rewrite bind_throw].
    rewrite bind_ret_l, run_ret. cbn. unfold traced, called. cbn.
    by rewrite <- !app_assoc.
  - rewrite run_ret. unfold traced, called. cbn. by rewrite <- !app_assoc.
Qed.

End Runs.

Section Rays.
Context `{ML : MathLib} `{SB : SensorBase}.
Implicit Types (s : LiDAR360) (mbTrans : Transform).

(** The rays of a scan by the index of their cell. *)
Lemma scan_rays_cells s mbTrans :
  scan_rays s mbTrans =
  List.map (fun k => CallRay (ray_query s mbTrans
                           (k / Z.to_nat (resolution_ s))
                           (k mod Z.to_nat (resolution_ s))))
      (seq 0 (Z.to_nat (layers_ s) * Z.to_nat (resolution_ s))).
Proof.
  unfold scan_rays, layer_rays.
  apply (flat_map_grid (fun j i => CallRay (ray_query s mbTrans j i))).
Qed.

Lemma scan_rays_length s mbTrans :
  (0 <= resolution_ s)%Z -> (0 <= layers_ s)%Z ->
  length (scan_rays s mbTrans) = Z.to_nat (resolution_ s * layers_ s).
Proof.
  intros Hr Hl. rewrite scan_rays_cells, length_map, length_seq. lia.
Qed.

(** The value of a cell is the measure of the ray of its callback. *)
Lemma cell_spec_answer rayTest s mbTrans (k : nat) :
  cell_spec rayTest s mbTrans k =
  answer rayTest mbTrans
    (ray_query s mbTrans (k / Z.to_nat (resolution_ s))
                         (k mod Z.to_nat (resolution_ s))).
Proof. done. Qed.

End Rays.

Section Order.
Context `{ML : MathLib} `{SB : SensorBase}.
Context (w : Sim).
Implicit Types (s : LiDAR360).

Lemma scan_sample_run s (d : list Scalar) (h : History) :
  fits s -> length d = Z.to_nat (resolution_ s * layers_ s) ->
  scan_sample (set_scan s d h) = mkSample (resolution_ s * layers_ s) d.
Proof.
  intros Hfit Hd. unfold scan_sample. cbn [set_scan resolution_ layers_ distances_].
  rewrite umul_exact by done. by rewrite take_ge by lia.
Qed.

(** C6. The calls of a scan. [InternalUpdate] on a well-formed sensor whose
    grid fits [unsigned int] asks for the sensor frame once, then casts one
    ray per cell, layer by layer and step by step, each from the point at
    [rangeMin] to the point at [rangeMax] of channel 0 along the direction
    of its cell, with the filter group [MASK_DYNAMIC] and the mask of the
    three groups, and adds the sample last. The buffer it returns holds in
    cell [k] the measure of the [k]-th ray. *)
Theorem scan_calls_in_order s (dt : Scalar) (cs : list Call) :
  wf s -> fits s ->
  let d := scan_spec (sim_rayTest w) s (sim_frame w) in
  let smp := mkSample (resolution_ s * layers_ s) d in
  run w (InternalUpdate_tree dt s) (mkSimState (history s) cs)
  ≈ Ret (mkSimState (AddSampleToHistory smp (history s))
           (cs ++ [CallFrame] ++ scan_rays s (sim_frame w) ++ [CallSample smp]),
         d) /\
  length (scan_rays s (sim_frame w)) = Z.to_nat (resolution_ s * layers_ s) /\
  forall k : nat, (k < Z.to_nat (resolution_ s * layers_ s))%nat ->
    let q := ray_query s (sim_frame w) (k / Z.to_nat (resolution_ s))
                                       (k mod Z.to_nat (resolution_ s)) in
    scan_rays s (sim_frame w) !! k = Some (CallRay q) /\
    d !! k = Some (answer (sim_rayTest w) (sim_frame w) q) /\
    m_collisionFilterGroup q = [MASK_DYNAMIC] /\
    m_collisionFilterMask q = [MASK_STATIC; MASK_DYNAMIC; MASK_ANIMATED_COLLIDING].
Proof.
  intros Hwf Hfit d smp.
  pose proof (wf_resolution _ Hwf) as [Hr _].
  pose proof (wf_layers _ Hwf) as [Hl _]. split; [|split].
  - rewrite InternalUpdate_tree_run, InternalUpdate_run by done. cbn.
    rewrite scan_sample_run by (done || apply scan_spec_length).
    reflexivity.
  - by apply scan_rays_length.
  - intros k Hk q. split; [|split; [|done]].
    + rewrite scan_rays_cells, list_lookup_fmap, lookup_seq_lt by lia. done.
    + subst d. by rewrite scan_spec_lookup.
Qed.

End Order.

Lemma scan_calls_in_order_witness :
  let s := demo_sensor in
  let d := scan_spec demo_wall s identity_transform in
  let smp := mkSample 8 d in
  run demo_sim (InternalUpdate_tree 0 s) (mkSimState [] [])
  ≈ Ret (mkSimState [smp]
           ([CallFrame] ++ scan_rays s identity_transform ++ [CallSample smp]),
         d) /\
  length (scan_rays s identity_transform) = 8%nat /\
  forall k : nat, (k < 8)%nat ->
    let q := ray_query s identity_transform (k / 4) (k mod 4) in
    scan_rays s identity_transform !! k = Some (CallRay q) /\
    d !! k = Some (answer demo_wall identity_transform q) /\
    m_collisionFilterGroup q = [MASK_DYNAMIC] /\
    m_collisionFilterMask q = [MASK_STATIC; MASK_DYNAMIC; MASK_ANIMATED_COLLIDING].
Proof.
  exact (scan_calls_in_order demo_sim demo_sensor 0 []
           demo_sensor_wf demo_sensor_fits).
Defined.
