(* ===== verification/LiDARScene.v ===== *)
(** * LiDARScene: the sensor in a scene

    [LiDAR360] states what each method of the sensor does; this file states
    what they do together and what the result means in the scene.
    [scan_and_draw] is a tick of the sensor followed by [Render] in the same
    frame, [placed] the world point at which a renderer puts a point of an
    item (the item's model matrix applied to it), and [moved_world] the
    collision world moved by a rigid motion.

    Theorems: in a layer with [sin v = 0] and [cos v = 1] the end point
    drawn for a ray is the point the ray hit ([horizontal_hit_drawn]; in
    the other layers it is not, see [LiDARGeometry]); a scan measures the
    same distances when the sensor and the world are moved together
    ([scan_rigid_motion]); a scan overwrites what the buffer held, two
    scans of the same world agree, the scan after [setRange] measures
    against the clamped range, and a sensor with an empty grid scans and
    draws nothing. *)

From Stdlib Require Import ZArith QArith Qabs Lia Lqa Psatz.
From Stdlib Require Import Morphisms Setoid String.
From stdpp Require Import base tactics option list.
From S2P Require Import Prelude Linalg LiDARGeometry LiDAR360.
Local Open Scope Q_scope.

Section Scene.
Context `{ML : MathLib} `{SB : SensorBase}.
Implicit Types (s : LiDAR360) (mbTrans g : Transform)
  (rayTest : Vector3 -> Vector3 -> option Scalar).

(** The world moved by [g]: a ray hits where its preimage did. *)
Definition moved_world g rayTest : Vector3 -> Vector3 -> option Scalar :=
  fun from to => rayTest (invXform g from) (invXform g to).

(** A tick of the sensor and the drawing that follows it, in the same
    frame. *)
Definition scan_and_draw rayTest (dt : Scalar) mbTrans (items : list Renderable) s
  : result (LiDAR360 * list Renderable) :=
  s' ← InternalUpdate rayTest dt mbTrans s;
  drawn ← Render items true mbTrans s';
  Ok (s', drawn).

(** Where the renderer puts the [k]-th point of an item: its model matrix
    applied to the point. *)
Definition placed (item : Renderable) (k : nat) : option Vector3 :=
  xform (renderable_model item) <$> renderable_points item !! k.

End Scene.

(** A quarter turn about the vertical axis followed by a translation. *)
Definition demo_turn : Transform :=
  mkTransform (mkMatrix3x3 (mkVector3 0 1 0) (mkVector3 (-1) 0 0) (mkVector3 0 0 1))
              (mkVector3 1 2 3).

(** The ray of [demo_sensor] that looks along [x] in the level layer (layer
    1, step 2), and the fraction at which it meets the wall. *)
Definition demo_level_v : Scalar :=
  Eval vm_compute in default 0 (angles_vert_ demo_sensor !! 1%nat).

Definition demo_level_h : Scalar :=
  Eval vm_compute in default 0 (angles_hori_ demo_sensor !! 2%nat).

Definition demo_level_hit : Scalar :=
  Eval vm_compute in
    default 0 (demo_wall
      (ray_point identity_transform
         (ray_dir identity_transform demo_level_h demo_level_v) 0)
      (ray_point identity_transform
         (ray_dir identity_transform demo_level_h demo_level_v) BT_LARGE_FLOAT)).

(** * Theorems *)

(** ** Frames *)

Section Frames.
Context `{ML : MathLib}.
Implicit Types (g m : Transform) (h v r : Scalar).

Lemma ray_dir_moved g m h v :
  veq (ray_dir (transform_mul g m) h v) (mat_apply (getBasis g) (ray_dir m h v)).
Proof. unfold ray_dir. generalize (btCos h) (btSin h) (btSin v). intros. mat_ring. Qed.

Lemma ray_point_moved g m (dir dir' : Vector3) r :
  veq dir' (mat_apply (getBasis g) dir) ->
  veq (ray_point (transform_mul g m) dir' r) (xform g (ray_point m dir r)).
Proof. intros ->. unfold ray_point. mat_ring. Qed.

Lemma lerp_ray_point m (dir : Vector3) (a b f : Scalar) :
  veq (lerp (ray_point m dir a) (ray_point m dir b) f)
      (ray_point m dir (a + (b - a) * f)).
Proof. unfold ray_point. mat_ring. Qed.

(** In a layer with [sin v = 0] and [cos v = 1] the drawn direction, placed
    by the model matrix, is the cast one. *)
Lemma horizontal_drawn_point m h v r :
  btSin v == 0 -> btCos v == 1 ->
  veq (xform m (vscale (render_dir v h) r))
      (ray_point m (ray_dir m h v) r).
Proof.
  intros Hs Hc. unfold render_dir, ray_dir, ray_point. rewrite Hs, Hc.
  generalize (btCos h) (btSin h). intros. mat_ring.
Qed.

End Frames.

(** ** Moving the scene *)

Section Motion.
Context `{MLL : MathLibLaws} `{SB : SensorBase}.
Context (rayTest : Vector3 -> Vector3 -> option Scalar)
  (Hray : Proper (veq ==> veq ==> option_Forall2 Qeq) rayTest).
Context (g : Transform) (Hg : orthonormal (getBasis g)).
Implicit Types (s : LiDAR360) (m : Transform) (h v r : Scalar).

Lemma measured_moved m (a b : Vector3) hit :
  measured (transform_mul g m) (xform g a) (xform g b) hit == measured m a b hit.
Proof.
  destruct hit as [f|]; cbn; [|done]. unfold vlength.
  by rewrite xform_lerp, xform_vsub, length2_mat_apply.
Qed.

(** One ray: moving the sensor and the world together keeps its measure. *)
Lemma ray_measure_moved m ch h v :
  ray_measure (moved_world g rayTest) (transform_mul g m) ch h v
  == ray_measure rayTest m ch h v.
Proof.
  unfold ray_measure, moved_world. cbv zeta.
  pose proof (ray_dir_moved g m h v) as Hdir.
  pose proof (ray_point_moved g m _ _ (rangeMin ch) Hdir) as Hfrom.
  pose proof (ray_point_moved g m _ _ (rangeMax ch) Hdir) as Hto.
  etransitivity; [|apply measured_moved].
  apply measured_proper; [exact Hfrom | exact Hto |].
  apply Hray; [rewrite Hfrom | rewrite Hto]; by apply invXform_xform.
Qed.

Lemma scan_spec_moved s m :
  Forall2 Qeq (scan_spec (moved_world g rayTest) s (transform_mul g m))
              (scan_spec rayTest s m).
Proof.
  unfold scan_spec. apply Forall2_fmap, Forall_Forall2_diag, Forall_forall.
  intros k _. apply ray_measure_moved.
Qed.

(** C7. The scan does not depend on where the scene is: for a ray test that
    respects the equality of points, a sensor and a world moved by the same
    rigid motion [g] (a rotation and a translation) both scan without error
    and measure the same distance in every cell. *)
Theorem scan_rigid_motion s (dt : Scalar) m :
  wf s -> fits s ->
  exists s1 s2,
    InternalUpdate rayTest dt m s = Ok s1 /\
    InternalUpdate (moved_world g rayTest) dt (transform_mul g m) s = Ok s2 /\
    Forall2 Qeq (distances_ s2) (distances_ s1).
Proof.
  intros Hwf Hfit. eexists _, _.
  split; [by apply InternalUpdate_run|]. split; [by apply InternalUpdate_run|].
  apply scan_spec_moved.
Qed.

End Motion.

(** ** Scan, then draw *)

Section Drawing.
Context `{MLL : MathLibLaws} `{SB : SensorBase}.
Context (rayTest : Vector3 -> Vector3 -> option Scalar) (mbTrans : Transform).
Implicit Types (s : LiDAR360) (h v f : Scalar).

Lemma scan_and_draw_run s (dt : Scalar) items :
  wf s -> fits s ->
  scan_and_draw rayTest dt mbTrans items s =
  let d := scan_spec rayTest s mbTrans in
  let s' := set_scan s d (AddSampleToHistory
                            (mkSample (resolution_ s * layers_ s) d) (history s)) in
  Ok (s', items ++ [mkRenderable SENSOR_LINES mbTrans (render_spec s')]).
Proof.
  intros Hwf Hfit. unfold scan_and_draw.
  rewrite InternalUpdate_run by done. cbn [mbind result_bind].
  rewrite Render_run; [done| |done].
  apply wf_set_scan; [done|]. rewrite scan_spec_length, (wf_distances _ Hwf).
  by rewrite umul_exact.
Qed.

(** What is drawn after a scan: for each ray the origin and, along the drawn
    direction, the distance just measured. *)
Lemma scan_and_draw_points s (dt : Scalar) items :
  wf s -> fits s ->
  exists s' points,
    scan_and_draw rayTest dt mbTrans items s
      = Ok (s', items ++ [mkRenderable SENSOR_LINES mbTrans points]) /\
    InternalUpdate rayTest dt mbTrans s = Ok s' /\
    length points = (2 * Z.to_nat (resolution_ s * layers_ s))%nat /\
    forall (j i : nat) h v (ch : SensorChannel),
      angles_vert_ s !! j = Some v -> angles_hori_ s !! i = Some h ->
      channels s !! 0%nat = Some ch ->
      points !! (2 * (j * Z.to_nat (resolution_ s) + i))%nat
        = Some (mkVector3 0 0 0) /\
      points !! (2 * (j * Z.to_nat (resolution_ s) + i) + 1)%nat
        = Some (vscale (render_dir v h) (ray_measure rayTest mbTrans ch h v)).
Proof.
  intros Hwf Hfit.
  set (d := scan_spec rayTest s mbTrans).
  set (s' := set_scan s d (AddSampleToHistory
                             (mkSample (resolution_ s * layers_ s) d) (history s))).
  exists s', (render_spec s'). split; [by apply scan_and_draw_run|].
  split; [by apply InternalUpdate_run|]. split; [apply render_points_length|].
  intros j i h v ch Hv Hh Hch.
  destruct (grid_cell_in_range s j i h v Hwf Hv Hh) as [Hi Hk].
  unfold render_spec.
  change (resolution_ s' * layers_ s')%Z with (resolution_ s * layers_ s)%Z.
  destruct (render_points_lookup s' _ _ Hk) as [-> ->].
  split; [done|]. f_equal. unfold render_point, s', d. cbv zeta.
  cbn [set_scan resolution_ angles_vert_ angles_hori_ distances_].
  rewrite (scan_spec_lookup rayTest mbTrans) by done.
  rewrite (cell_spec_at rayTest mbTrans s j i h v ch) by done.
  destruct (flat_div_mod (Z.to_nat (resolution_ s)) j i Hi) as [-> ->].
  by rewrite Hh, Hv.
Qed.

(** C17. Scan, then draw: in a layer with [sin v = 0] and [cos v = 1], for a
    ray that hit at fraction [f] of a range with
    [0 <= rangeMin <= rangeMax], the end point drawn for the ray, placed by
    the item's model matrix, is the point that was hit. *)
Theorem horizontal_hit_drawn s (dt : Scalar) items (j i : nat) h v ch f :
  wf s -> fits s -> orthonormal (getBasis mbTrans) ->
  angles_vert_ s !! j = Some v -> angles_hori_ s !! i = Some h ->
  channels s !! 0%nat = Some ch ->
  btSin v == 0 -> btCos v == 1 ->
  0 <= rangeMin ch <= rangeMax ch -> 0 <= f <= 1 ->
  let from := ray_point mbTrans (ray_dir mbTrans h v) (rangeMin ch) in
  let to := ray_point mbTrans (ray_dir mbTrans h v) (rangeMax ch) in
  rayTest from to = Some f ->
  exists s' item p,
    scan_and_draw rayTest dt mbTrans items s = Ok (s', items ++ [item]) /\
    placed item (2 * (j * Z.to_nat (resolution_ s) + i) + 1) = Some p /\
    veq p (lerp from to f).
Proof.
  intros Hwf Hfit Hrot Hv Hh Hch Hs Hc Hr Hf from to Hhit.
  destruct (scan_and_draw_points s dt items Hwf Hfit)
    as (s' & points & Hrun & _ & _ & Hpts).
  destruct (Hpts j i h v ch Hv Hh Hch) as [_ Hp].
  eexists s', _, _. split; [exact Hrun|].
  unfold placed. cbn [renderable_points renderable_model]. rewrite Hp.
  split; [done|].
  destruct (ray_measure_horizontal rayTest mbTrans ch h v f Hrot Hs Hr Hf Hhit)
    as [-> _].
  rewrite (horizontal_drawn_point mbTrans) by done. unfold from, to.
  by rewrite lerp_ray_point.
Qed.

(** With the constructor's [rangeMin = 0], a hit at the sensor origin is
    stored as 0, the value stored for a ray that hit nothing. *)
Lemma hit_at_origin_reads_as_miss h v ch :
  rangeMin ch == 0 ->
  rayTest (ray_point mbTrans (ray_dir mbTrans h v) (rangeMin ch))
          (ray_point mbTrans (ray_dir mbTrans h v) (rangeMax ch)) = Some 0 ->
  ray_measure rayTest mbTrans ch h v == 0.
Proof.
  intros Hmin Hhit. rewrite ray_measure_hit by done.
  rewrite (vlength_of_square _ 0); [done|].
  rewrite length2_vscale, Hmin. ring.
Qed.

End Drawing.

(** ** Scans in sequence *)

Section Sequence.
Context `{ML : MathLib} `{SB : SensorBase}.
Context (rayTest : Vector3 -> Vector3 -> option Scalar) (mbTrans : Transform).
Implicit Types (s : LiDAR360).

(** A scan overwrites every cell: the buffer and the history the sensor held
    before do not show in the buffer it holds afterwards. *)
Lemma InternalUpdate_overwrites s d h (dt : Scalar) :
  wf s -> fits s -> length d = length (distances_ s) ->
  distances_ <$> InternalUpdate rayTest dt mbTrans (set_scan s d h)
  = distances_ <$> InternalUpdate rayTest dt mbTrans s.
Proof.
  intros Hwf Hfit Hd.
  rewrite !InternalUpdate_run by (done || by apply wf_set_scan). done.
Qed.

(** Two scans of the same world leave the same buffer; the second appends
    one more sample of it to the history. *)
Lemma InternalUpdate_twice s (dt dt' : Scalar) :
  wf s -> fits s ->
  exists s1 s2,
    InternalUpdate rayTest dt mbTrans s = Ok s1 /\
    InternalUpdate rayTest dt' mbTrans s1 = Ok s2 /\
    distances_ s2 = distances_ s1 /\
    history s2 = AddSampleToHistory
                   (mkSample (resolution_ s * layers_ s) (distances_ s1)) (history s1).
Proof.
  intros Hwf Hfit. rewrite InternalUpdate_run by done.
  eexists _, _. split; [done|].
  split; [apply InternalUpdate_run; [|done]|done].
  eapply InternalUpdate_wf; [done|]. by apply (InternalUpdate_run _ _ s dt).
Qed.

(** The setter and the scan compose: after [setRange a b] every cell of the
    next scan is measured against the clamped range, whatever the range was
    before. *)
Lemma setRange_then_scan s (a b dt : Scalar) :
  wf s -> fits s ->
  exists s1 s2 c,
    channels s = [c] /\ setRange a b s = Ok s1 /\
    InternalUpdate rayTest dt mbTrans s1 = Ok s2 /\
    length (distances_ s2) = Z.to_nat (resolution_ s * layers_ s) /\
    forall (j i : nat) (h v : Scalar),
      angles_vert_ s !! j = Some v -> angles_hori_ s !! i = Some h ->
      distances_ s2 !! (j * Z.to_nat (resolution_ s) + i)%nat
      = Some (ray_measure rayTest mbTrans (ranged_channel c a b) h v).
Proof.
  intros Hwf Hfit. destruct (wf_single_channel s Hwf) as [c Hc].
  pose proof (setRange_single s c a b Hc) as Hset.
  pose proof (setRange_wf _ _ _ _ Hwf Hset) as Hwf'.
  eexists _, _, c. split; [done|]. split; [done|].
  split; [by apply InternalUpdate_run|].
  cbn [set_scan distances_]. split; [by rewrite scan_spec_length|].
  intros j i h v Hv Hh.
  destruct (grid_cell_in_range s j i h v Hwf Hv Hh) as [Hi Hk].
  rewrite (scan_spec_lookup rayTest mbTrans) by done. f_equal.
  by apply (cell_spec_at rayTest mbTrans (set_range_fields s _ _ _) j i h v).
Qed.

(** ** The empty grid *)

(** A sensor built with no horizontal step or no layer casts no ray: a scan
    leaves an empty buffer and adds a sample without values, and [Render]
    draws an item without points. *)
Lemma InternalUpdate_empty_grid s (dt : Scalar) :
  wf s -> (resolution_ s * layers_ s = 0)%Z ->
  InternalUpdate rayTest dt mbTrans s =
  Ok (set_scan s [] (AddSampleToHistory (mkSample 0 []) (history s))).
Proof.
  intros Hwf H0. rewrite InternalUpdate_run; [|done|by unfold fits; rewrite H0].
  unfold scan_spec. by rewrite H0.
Qed.

Lemma Render_empty_grid s (items : list Renderable) :
  wf s -> (resolution_ s * layers_ s = 0)%Z ->
  Render items true mbTrans s = Ok (items ++ [mkRenderable SENSOR_LINES mbTrans []]).
Proof.
  intros Hwf H0. rewrite Render_run; [|done|by unfold fits; rewrite H0].
  unfold render_spec. by rewrite H0.
Qed.

End Sequence.

(** * The theorems at concrete inputs *)

(** The wall of [LiDAR360.demo_wall] respects the equality of points. *)
#[export] Instance demo_wall_proper :
  Proper (veq ==> veq ==> option_Forall2 Qeq) demo_wall.
Proof.
  intros a a' (Ha & _ & _) b b' (Hb & _ & _). unfold demo_wall.
  repeat case_decide; try (constructor; by rewrite Ha, Hb);
    exfalso; rewrite ?Ha, ?Hb in *; tauto.
Qed.

Lemma demo_turn_orthonormal : orthonormal (getBasis demo_turn).
Proof. by vm_compute. Qed.

Lemma scan_rigid_motion_witness :
  exists s1 s2,
    InternalUpdate demo_wall 0 identity_transform demo_sensor = Ok s1 /\
    InternalUpdate (moved_world demo_turn demo_wall) 0
      (transform_mul demo_turn identity_transform) demo_sensor = Ok s2 /\
    Forall2 Qeq (distances_ s2) (distances_ s1).
Proof.
  apply (scan_rigid_motion demo_wall demo_wall_proper demo_turn
           demo_turn_orthonormal demo_sensor 0 identity_transform);
    [apply demo_sensor_wf | apply demo_sensor_fits].
Defined.

Lemma horizontal_hit_drawn_witness :
  exists s' item p,
    scan_and_draw demo_wall 0 identity_transform [] demo_sensor
      = Ok (s', [] ++ [item]) /\
    placed item (2 * (1 * Z.to_nat (resolution_ demo_sensor) + 2) + 1) = Some p /\
    veq p (lerp
             (ray_point identity_transform
                (ray_dir identity_transform demo_level_h demo_level_v)
                (rangeMin distance_channel))
             (ray_point identity_transform
                (ray_dir identity_transform demo_level_h demo_level_v)
                (rangeMax distance_channel))
             demo_level_hit).
Proof.
  apply (horizontal_hit_drawn demo_wall identity_transform demo_sensor 0 [] 1 2
           demo_level_h demo_level_v distance_channel demo_level_hit);
    [apply demo_sensor_wf | apply demo_sensor_fits | exact orthonormal_identity
    | by vm_compute..].
Defined.
