(* ===== verification/Featherstone.v ===== *)
(** * Featherstone: the articulated multi-body tree, data and construction

    The data are those of [src/unnamed/part_000] (FeatherstoneEntity.h):
    [FeatherstoneLink], [FeatherstoneJoint] with its constructor, and the
    fields of the class [FeatherstoneEntity]. The bodies of the class's
    operations are in FeatherstoneEntity.cpp, which is not among the
    sources: [Create], [AddLink], the three [Add...Joint], [AddJointMotor]
    and [AddJointLimit] are modelled from sections 3, 4.1 and 7 of the
    specification (their signatures are the header's), and so are the
    getters and the reaction torque of [getJointFeedback], which sections
    4.3 and 8 require to be orthogonal to the joint's axis.

    Indices and counts are [Z] with the width written out where the header
    types them [unsigned int]: [usub] for the subtractions that can wrap,
    [u32] for what the getters return. [links_size] and [joints_size] are
    the sizes of the two vectors, which the index checks compare with.

    Bullet's [btMultiBody], which the tree owns, is the interface
    [MultiBody]; the tree's theorems are proved from [MultiBodyLaws], and
    [simple_multibody] is an instance that satisfies them. The abstract
    tree is a number of links and a finite map from a link to its parent
    ([AbsTree]); the joint table refines it. *)

From Stdlib Require Import ZArith QArith Lia Lqa Psatz String.
From stdpp Require Import base tactics option list gmap.
From S2P Require Import Prelude Linalg.

Local Open Scope Z_scope.

(** * Data *)

(** The joint types the class creates. *)
Variant eFeatherstoneJointType : Type := eRevolute | ePrismatic | eFixed.

#[export] Instance eFeatherstoneJointType_eq_dec : EqDecision eFeatherstoneJointType.
Proof. solve_decision. Defined.

(** A rigid body, as far as the tree reads it. *)
Record SolidEntity : Type := mkSolidEntity { solid_name : string; solid_mass : Scalar }.

Record FeatherstoneLink : Type := mkFeatherstoneLink {
  solid : SolidEntity;
  trans : Transform
}.

(** The reaction the back end leaves in a joint's feedback slot. *)
Record btMultiBodyJointFeedback : Type := mkJointFeedback {
  reactionForce : Vector3;
  reactionTorque : Vector3
}.

Record btMultiBodyJointLimitConstraint : Type := mkJointLimit {
  limit_lower : Scalar;
  limit_upper : Scalar
}.

(** The control law of a motor: none yet, a position servo or a velocity
    servo, each a set point and a gain. *)
Variant ServoLaw : Type :=
| NoServo
| PositionServo (target kp : Scalar)
| VelocityServo (target kd : Scalar).

Record btMultiBodyJointMotor : Type := mkJointMotor { servo : ServoLaw }.

(** [parent] and [child] are [unsigned int]: integers that the invariant
    keeps below the link count, itself below [2^32] ([twf_width]); what is
    computed from them is computed modulo [2^32] ([usub]). *)
Record FeatherstoneJoint : Type := mkFeatherstoneJoint {
  type : eFeatherstoneJointType;
  feedback : option btMultiBodyJointFeedback;
  limit : option btMultiBodyJointLimitConstraint;
  motor : option btMultiBodyJointMotor;
  parent : Z;
  child : Z;
  sigDamping : Scalar;
  velDamping : Scalar
}.

(** The struct's constructor: no feedback, limit or motor, no damping. *)
Definition FeatherstoneJoint_ctor (t : eFeatherstoneJointType) (p c : Z)
  : FeatherstoneJoint :=
  {| type := t; feedback := None; limit := None; motor := None;
     parent := p; child := c; sigDamping := 0%Q; velDamping := 0%Q |}.

(** ** The back end *)

(** What the construction of a tree asks of [btMultiBody]: an object sized
    for a number of links (the base apart), and the set-up of the joint that
    attaches a link to its parent. *)
Class MultiBody : Type := {
  btMultiBody : Type;
  mb_new : Z -> SolidEntity -> bool -> btMultiBody;
  mb_getNumLinks : btMultiBody -> Z;
  mb_hasFixedBase : btMultiBody -> bool;
  mb_setupJoint :
    eFeatherstoneJointType -> Z -> Z -> Vector3 -> Vector3 -> bool ->
    btMultiBody -> btMultiBody
}.

Class MultiBodyLaws (M : MultiBody) : Prop := {
  mb_new_numLinks : forall n base fixed, mb_getNumLinks (mb_new n base fixed) = n;
  mb_new_fixedBase : forall n base fixed, mb_hasFixedBase (mb_new n base fixed) = fixed;
  mb_setupJoint_numLinks : forall t c p pivot axis coll b,
    mb_getNumLinks (mb_setupJoint t c p pivot axis coll b) = mb_getNumLinks b;
  mb_setupJoint_fixedBase : forall t c p pivot axis coll b,
    mb_hasFixedBase (mb_setupJoint t c p pivot axis coll b) = mb_hasFixedBase b
}.

(** The class's fields. *)
Record FeatherstoneEntity `{MultiBody} : Type := mkFeatherstoneEntity {
  multiBody : btMultiBody;
  links : list FeatherstoneLink;
  joints : list FeatherstoneJoint;
  baseRenderable : bool
}.

(** * Construction *)

Section Construction.
Context `{MB : MultiBody}.
Implicit Types (fe : FeatherstoneEntity) (j : FeatherstoneJoint).

(** [links.size()] and [joints.size()], which the checks of the
    operations compare indices with. *)
Definition links_size fe : Z := Z.of_nat (length (links fe)).

Definition joints_size fe : Z := Z.of_nat (length (joints fe)).

(** The two getters return the sizes as [unsigned int]. *)
Definition getNumOfLinks fe : Z := u32 (links_size fe).

Definition getNumOfJoints fe : Z := u32 (joints_size fe).

Definition getMultiBody fe : btMultiBody := multiBody fe.

Definition set_links fe (ls : list FeatherstoneLink) : FeatherstoneEntity :=
  {| multiBody := multiBody fe; links := ls; joints := joints fe;
     baseRenderable := baseRenderable fe |}.

Definition set_joints fe (b : btMultiBody) (js : list FeatherstoneJoint)
  : FeatherstoneEntity :=
  {| multiBody := b; links := links fe; joints := js;
     baseRenderable := baseRenderable fe |}.

Definition setBaseRenderable (render : bool) fe : FeatherstoneEntity :=
  {| multiBody := multiBody fe; links := links fe; joints := joints fe;
     baseRenderable := render |}.

(** [FeatherstoneEntity(name, totalNumOfLinks, baseSolid, world, fixedBase)]:
    a back end sized for [totalNumOfLinks - 1] joints, and the base as link
    0. [totalNumOfLinks] is an [unsigned int], so for 0 the difference
    wraps to [2^32 - 1] ([Create_zero_wraps]). The theorems take
    [totalNumOfLinks >= 1]; the specification gives no meaning to a tree
    declared with no link. *)
Definition Create (totalNumOfLinks : Z) (baseSolid : SolidEntity)
    (fixedBase : bool) : FeatherstoneEntity :=
  {| multiBody := mb_new (usub totalNumOfLinks 1) baseSolid fixedBase;
     links := [mkFeatherstoneLink baseSolid identity_transform];
     joints := [];
     baseRenderable := true |}.

(** [AddLink]: one more link, unless the declared total, which counts the
    base, is reached. *)
Definition AddLink (s : SolidEntity) (transform : Transform) fe
  : result FeatherstoneEntity :=
  if decide (links_size fe < mb_getNumLinks (multiBody fe) + 1)
  then Ok (set_links fe (links fe ++ [mkFeatherstoneLink s transform]))
  else Err TopologyViolation.

(** The link has a parent joint already. *)
Definition has_parent_joint fe (c : Z) : bool :=
  bool_decide (c ∈ map child (joints fe)).

(** What the three [Add...Joint] share: both indices name links, the child
    is not the base and has no parent joint yet (section 9 of the
    specification: "each child index used once", checked when the joint is
    added); the joint takes the next index, which is returned. The back end
    does not count the base: it is told link [child - 1] and parent
    [parent - 1], computed on [unsigned int], so the base as a parent is
    [2^32 - 1] (Bullet's [int] parameter reads it as -1). *)
Definition add_joint (t : eFeatherstoneJointType) (p c : Z)
    (pivot axis : Vector3) (collisionBetweenJointLinks : bool) fe
  : result (Z * FeatherstoneEntity) :=
  if decide (0 <= p < links_size fe /\ 0 <= c < links_size fe) then
    if decide (c = 0 \/ has_parent_joint fe c = true) then Err TopologyViolation
    else
      let b := mb_setupJoint t (usub c 1) (usub p 1) pivot axis
                 collisionBetweenJointLinks (multiBody fe) in
      Ok (joints_size fe,
          set_joints fe b (joints fe ++ [FeatherstoneJoint_ctor t p c]))
  else Err IndexOutOfRange.

Definition AddRevoluteJoint (p c : Z) (pivot axis : Vector3)
    (collisionBetweenJointLinks : bool) fe : result (Z * FeatherstoneEntity) :=
  add_joint eRevolute p c pivot axis collisionBetweenJointLinks fe.

Definition AddPrismaticJoint (p c : Z) (axis : Vector3)
    (collisionBetweenJointLinks : bool) fe : result (Z * FeatherstoneEntity) :=
  add_joint ePrismatic p c vzero axis collisionBetweenJointLinks fe.

Definition AddFixedJoint (p c : Z) fe : result (Z * FeatherstoneEntity) :=
  add_joint eFixed p c vzero vzero false fe.

(** [joints[index]] for the operations that take a joint index: checked. *)
Definition joint_at fe (index : Z) : result FeatherstoneJoint :=
  if decide (0 <= index < joints_size fe)
  then from_option_err IndexOutOfRange (joints fe !! Z.to_nat index)
  else Err IndexOutOfRange.

Definition set_joint fe (index : Z) (j : FeatherstoneJoint) : FeatherstoneEntity :=
  set_joints fe (multiBody fe) (<[Z.to_nat index := j]> (joints fe)).

Definition with_motor j (m : option btMultiBodyJointMotor) : FeatherstoneJoint :=
  {| type := type j; feedback := feedback j; limit := limit j; motor := m;
     parent := parent j; child := child j;
     sigDamping := sigDamping j; velDamping := velDamping j |}.

Definition with_limit j (l : option btMultiBodyJointLimitConstraint)
  : FeatherstoneJoint :=
  {| type := type j; feedback := feedback j; limit := l; motor := motor j;
     parent := parent j; child := child j;
     sigDamping := sigDamping j; velDamping := velDamping j |}.

(** [AddJointMotor]: not on a fixed joint, not twice. *)
Definition AddJointMotor (index : Z) fe : result FeatherstoneEntity :=
  j ← joint_at fe index;
  match type j, motor j with
  | eFixed, _ => Err TopologyViolation
  | _, Some _ => Err TopologyViolation
  | _, None => Ok (set_joint fe index (with_motor j (Some (mkJointMotor NoServo))))
  end.

(** [AddJointLimit]: not on a fixed joint, and [lower <= upper]. *)
Definition AddJointLimit (index : Z) (lower upper : Scalar) fe
  : result FeatherstoneEntity :=
  j ← joint_at fe index;
  match type j with
  | eFixed => Err TopologyViolation
  | _ =>
      if decide (upper < lower)%Q then Err InvalidParameter
      else Ok (set_joint fe index (with_limit j (Some (mkJointLimit lower upper))))
  end.

(** * Joint feedback *)

(** The torque [getJointFeedback] reports (section 4.3 of the
    specification): the cross product of the vector from the child link's
    centre of gravity to the joint pivot with the reaction force, less any
    component along the joint's own motion axis. A fixed joint has no axis
    (the zero vector), and nothing is taken from its torque. *)
Definition feedback_torque (cogToPivot force axis : Vector3) : Vector3 :=
  vreject (cross cogToPivot force) axis.

(** * Invariant and construction sequences *)

Definition children fe : list Z := map child (joints fe).

(** A joint record is sound for a tree of [n] links: its indices name
    links, its child is not the base, a fixed joint carries neither motor
    nor limit, and a limit is not inverted. *)
Record joint_ok (n : Z) j : Prop := mk_joint_ok {
  jok_parent : 0 <= parent j < n;
  jok_child : 0 < child j < n;
  jok_fixed : type j = eFixed -> motor j = None /\ limit j = None;
  jok_limit : forall l, limit j = Some l -> (limit_lower l <= limit_upper l)%Q
}.

(** The tree invariant: the base exists, no more links than declared, the
    declared number is an [unsigned int], every joint sound, no link the
    child of two joints. *)
Record tree_wf fe : Prop := mk_tree_wf {
  twf_base : 0 < links_size fe;
  twf_declared : links_size fe <= mb_getNumLinks (multiBody fe) + 1;
  twf_width : mb_getNumLinks (multiBody fe) < UINT_MOD;
  twf_joints : Forall (joint_ok (links_size fe)) (joints fe);
  twf_children : NoDup (children fe)
}.

(** The limit of a joint, if it has one, is not inverted. *)
Definition limit_ordered j : Prop :=
  from_option (fun l => (limit_lower l <= limit_upper l)%Q) True (limit j).

(** One call of the construction interface that succeeds. *)
Inductive build_step : FeatherstoneEntity -> FeatherstoneEntity -> Prop :=
| build_AddLink s t fe fe' :
    AddLink s t fe = Ok fe' -> build_step fe fe'
| build_AddRevoluteJoint p c pivot axis coll k fe fe' :
    AddRevoluteJoint p c pivot axis coll fe = Ok (k, fe') -> build_step fe fe'
| build_AddPrismaticJoint p c axis coll k fe fe' :
    AddPrismaticJoint p c axis coll fe = Ok (k, fe') -> build_step fe fe'
| build_AddFixedJoint p c k fe fe' :
    AddFixedJoint p c fe = Ok (k, fe') -> build_step fe fe'
| build_AddJointMotor index fe fe' :
    AddJointMotor index fe = Ok fe' -> build_step fe fe'
| build_AddJointLimit index lower upper fe fe' :
    AddJointLimit index lower upper fe = Ok fe' -> build_step fe fe'
| build_setBaseRenderable render fe :
    build_step fe (setBaseRenderable render fe).

(** The trees a program can build from [Create total base fixed]. *)
Inductive built (total : Z) (base : SolidEntity) (fixed : bool)
  : FeatherstoneEntity -> Prop :=
| built_Create : built total base fixed (Create total base fixed)
| built_step fe fe' :
    built total base fixed fe -> build_step fe fe' -> built total base fixed fe'.

(** Construction is complete: every declared link is there, and attached. *)
Definition complete fe : Prop :=
  links_size fe = mb_getNumLinks (multiBody fe) + 1 /\
  forall c, 0 < c < links_size fe -> c ∈ children fe.

(** The parent of link [c], read from the joint table: that of the first
    joint whose child is [c]. *)
Fixpoint find_parent (js : list FeatherstoneJoint) (c : Z) : option Z :=
  match js with
  | [] => None
  | j :: js' => if decide (child j = c) then Some (parent j) else find_parent js' c
  end.

Definition parent_of fe (c : Z) : option Z := find_parent (joints fe) c.

(** Link [c] reaches the base by at most [fuel] parent joints. *)
Fixpoint reaches_base (fuel : nat) fe (c : Z) : bool :=
  if decide (c = 0) then true
  else match fuel with
       | O => false
       | S fuel' =>
           match parent_of fe c with
           | Some p => reaches_base fuel' fe p
           | None => false
           end
       end.

(** Link [c] hangs from the base. A path without a cycle has at most as
    many joints as the table, which is the fuel. *)
Definition attached fe (c : Z) : Prop :=
  reaches_base (length (joints fe)) fe c = true.

(** Every link hangs from the base: the joint table is a tree. *)
Definition rooted fe : Prop :=
  forall c, 0 <= c < links_size fe -> attached fe c.

(** Every link that has a parent joint hangs from the base. *)
Definition joined_attached fe : Prop :=
  forall c, c ∈ children fe -> attached fe c.

(** Two trees with the same joint topology. *)
Definition same_topology fe fe' : Prop :=
  children fe' = children fe /\
  length (joints fe') = length (joints fe) /\
  forall x, parent_of fe' x = parent_of fe x.

(** The two ways a joint is refused. *)
Definition joint_refused fe (p c : Z) (e : error) : Prop :=
  (e = IndexOutOfRange /\
     ~ (0 <= p < links_size fe /\ 0 <= c < links_size fe)) \/
  (e = TopologyViolation /\
     (0 <= p < links_size fe /\ 0 <= c < links_size fe) /\
     (c = 0 \/ c ∈ children fe)).

(** The discipline of section 3's life cycle read strictly: a joint is
    added to a parent that hangs from the base already. *)
Definition parent_first fe fe' : Prop :=
  forall j, joints fe' = joints fe ++ [j] -> attached fe (parent j).

Inductive grown (total : Z) (base : SolidEntity) (fixed : bool)
  : FeatherstoneEntity -> Prop :=
| grown_Create : grown total base fixed (Create total base fixed)
| grown_step fe fe' :
    grown total base fixed fe -> build_step fe fe' -> parent_first fe fe' ->
    grown total base fixed fe'.

(** ** The tree as a finite map *)

(** What a tree is, abstractly: a number of links and a partial map from a
    link to its parent. *)
Record AbsTree : Type := mkAbsTree { abs_links : Z; abs_parent : gmap Z Z }.

(** The edges of the joint table, child first. *)
Definition edges fe : list (Z * Z) :=
  map (fun j => (child j, parent j)) (joints fe).

Definition abstraction fe : AbsTree :=
  mkAbsTree (links_size fe) (list_to_map (edges fe)).

(** The steps of the abstract tree: one more link, a parent for a link that
    has none, or nothing. *)
Inductive abs_step : AbsTree -> AbsTree -> Prop :=
| abs_link n m : abs_step (mkAbsTree n m) (mkAbsTree (n + 1) m)
| abs_joint n m p c :
    0 <= p < n -> 0 < c < n -> m !! c = None ->
    abs_step (mkAbsTree n m) (mkAbsTree n (<[c := p]> m))
| abs_stutter a : abs_step a a.

(** The abstract invariant: the map is defined on links other than the base
    only, and sends them to links. *)
Definition abs_wf (a : AbsTree) : Prop :=
  forall c p, abs_parent a !! c = Some p ->
    0 < c < abs_links a /\ 0 <= p < abs_links a.

End Construction.

(** * A reference back end *)

(** The least [btMultiBody] the construction needs: its size, its base and
    the joints set up so far, as (type, link, parent). *)
Record SimpleMultiBody : Type := mkSimpleMultiBody {
  smb_numLinks : Z;
  smb_base : SolidEntity;
  smb_fixedBase : bool;
  smb_setup : list (eFeatherstoneJointType * Z * Z)
}.

#[export] Instance simple_multibody : MultiBody := {|
  btMultiBody := SimpleMultiBody;
  mb_new n base fixed := mkSimpleMultiBody n base fixed [];
  mb_getNumLinks := smb_numLinks;
  mb_hasFixedBase := smb_fixedBase;
  mb_setupJoint t c p _ _ _ b :=
    mkSimpleMultiBody (smb_numLinks b) (smb_base b) (smb_fixedBase b)
      (smb_setup b ++ [(t, c, p)])
|}.

(** ** Concrete trees *)

Definition demo_solid (name : string) : SolidEntity := mkSolidEntity name 1%Q.

Definition demo_base : FeatherstoneEntity := Create 3 (demo_solid "base") true.

(** A base and two links, no joint yet. *)
Definition demo_links : FeatherstoneEntity :=
  Eval vm_compute in
    result_get demo_base
      (fe ← AddLink (demo_solid "upper") identity_transform demo_base;
       AddLink (demo_solid "lower") identity_transform fe).

(** The first joint of the arm: link 1 turns on the base about z. *)
Definition demo_shoulder : Z * FeatherstoneEntity :=
  Eval vm_compute in
    result_get (0, demo_links)
      (AddRevoluteJoint 0 1 vzero (mkVector3 0 0 1) false demo_links).

(** The arm: link 2 slides on link 1 along x. *)
Definition demo_arm : FeatherstoneEntity :=
  Eval vm_compute in
    (result_get demo_shoulder
       (AddPrismaticJoint 1 2 (mkVector3 1 0 0) false demo_shoulder.2)).2.

(** The arm with a motor on its first joint. *)
Definition demo_motor : FeatherstoneEntity :=
  Eval vm_compute in result_get demo_arm (AddJointMotor 0 demo_arm).

Ltac crush_iff :=
  split; intros ?; simplify_eq; intuition (simplify_eq; auto; try lia).

(** * Theorems *)

(** ** The invariant can be checked *)

Section Decide.
Context `{MB : MultiBody}.
Implicit Types (fe : FeatherstoneEntity) (j : FeatherstoneJoint).

#[export] Instance limit_ordered_dec j : Decision (limit_ordered j).
Proof. unfold limit_ordered. destruct (limit j); cbn; apply _. Defined.

Lemma joint_ok_checked n j :
  joint_ok n j <->
  0 <= parent j < n /\ 0 < child j < n /\
  (type j = eFixed -> motor j = None /\ limit j = None) /\ limit_ordered j.
Proof.
  unfold limit_ordered. split.
  - intros [Hp Hc Hf Hl]. do 3 (split; [done|]).
    destruct (limit j) as [l|]; cbn; [by apply Hl | done].
  - intros (Hp & Hc & Hf & Hl). split; try done.
    intros l Hj. by rewrite Hj in Hl.
Qed.

#[export] Instance joint_ok_dec n j : Decision (joint_ok n j).
Proof.
  refine (cast_if (decide (0 <= parent j < n /\ 0 < child j < n /\
    (type j = eFixed -> motor j = None /\ limit j = None) /\ limit_ordered j)));
    by rewrite joint_ok_checked.
Defined.

Lemma tree_wf_checked fe :
  tree_wf fe <->
  0 < links_size fe /\ links_size fe <= mb_getNumLinks (multiBody fe) + 1 /\
  mb_getNumLinks (multiBody fe) < UINT_MOD /\
  Forall (joint_ok (links_size fe)) (joints fe) /\ NoDup (children fe).
Proof. split; [by intros [] | by intros (? & ? & ? & ? & ?)]. Qed.

#[export] Instance tree_wf_dec fe : Decision (tree_wf fe).
Proof.
  refine (cast_if (decide (0 < links_size fe /\
    links_size fe <= mb_getNumLinks (multiBody fe) + 1 /\
    mb_getNumLinks (multiBody fe) < UINT_MOD /\
    Forall (joint_ok (links_size fe)) (joints fe) /\ NoDup (children fe))));
    by rewrite tree_wf_checked.
Defined.

End Decide.

Section Results.
Context `{MB : MultiBody}.
Implicit Types (fe : FeatherstoneEntity) (j : FeatherstoneJoint).

Lemma has_parent_joint_spec fe c :
  has_parent_joint fe c = true <-> c ∈ children fe.
Proof. unfold has_parent_joint, children. by rewrite bool_decide_eq_true. Qed.

Lemma add_joint_Ok t p c pivot axis coll fe k fe' :
  add_joint t p c pivot axis coll fe = Ok (k, fe') <->
  (0 <= p < links_size fe /\ 0 < c < links_size fe) /\
  (c ∉ children fe) /\
  k = joints_size fe /\
  fe' = set_joints fe
          (mb_setupJoint t (usub c 1) (usub p 1) pivot axis coll (multiBody fe))
          (joints fe ++ [FeatherstoneJoint_ctor t p c]).
Proof.
  unfold add_joint. rewrite <- has_parent_joint_spec.
  repeat case_decide; crush_iff.
Qed.

Lemma add_joint_Err t p c pivot axis coll fe e :
  add_joint t p c pivot axis coll fe = Err e <-> joint_refused fe p c e.
Proof.
  unfold add_joint, joint_refused. rewrite <- has_parent_joint_spec.
  repeat case_decide; crush_iff.
Qed.

Lemma joint_at_Ok fe index j :
  joint_at fe index = Ok j <-> 0 <= index /\ joints fe !! Z.to_nat index = Some j.
Proof.
  unfold joint_at, joints_size. case_decide as Hi.
  - destruct (joints fe !! Z.to_nat index) eqn:E; simpl; crush_iff.
  - split; [done|]. intros [? Hl]. apply lookup_lt_Some in Hl. lia.
Qed.

Lemma joint_at_Err fe index e :
  joint_at fe index = Err e <->
  e = IndexOutOfRange /\ ~ (0 <= index < joints_size fe).
Proof.
  unfold joint_at, joints_size. case_decide as Hi.
  - destruct (lookup_lt_is_Some_2 (joints fe) (Z.to_nat index)) as [j Hj]; [lia|].
    rewrite Hj. simpl. split; intros H'; [done | tauto].
  - crush_iff.
Qed.

(** ** The invariant is established and kept *)

Context {MBL : MultiBodyLaws MB}.

Lemma joint_ok_mono n m j : n <= m -> joint_ok n j -> joint_ok m j.
Proof. intros Hnm [? ? ? ?]. split; auto; lia. Qed.

Lemma joint_ok_ctor t p c n :
  0 <= p < n -> 0 < c < n -> joint_ok n (FeatherstoneJoint_ctor t p c).
Proof. intros. split; simpl; auto; discriminate. Qed.

(** The size declared to the back end: [total - 1] for a total that is an
    [unsigned int] other than 0. *)
Lemma Create_declared total base fixed :
  mb_getNumLinks (multiBody (Create total base fixed)) = usub total 1.
Proof. apply mb_new_numLinks. Qed.

Lemma Create_declared_exact total base fixed :
  1 <= total <= UINT_MOD ->
  mb_getNumLinks (multiBody (Create total base fixed)) = total - 1.
Proof.
  intros. rewrite Create_declared. apply usub_exact. u32_unfold. lia.
Qed.

(** The constructor establishes the invariant, whatever the total. *)
Lemma Create_wf total base fixed : tree_wf (Create total base fixed).
Proof.
  pose proof (u32_range (total - 1)) as Hu. fold (usub total 1) in Hu.
  split; simpl; rewrite ?mb_new_numLinks; unfold links_size, children;
    simpl; try (u32_unfold; lia); constructor.
Qed.

(** A tree declared with no link at all: the subtraction wraps, and the
    back end is sized for [2^32 - 1] joints. *)
Lemma Create_zero_wraps base fixed :
  mb_getNumLinks (multiBody (Create 0 base fixed)) = UINT_MOD - 1.
Proof. rewrite Create_declared. by rewrite usub_wraps. Qed.

Lemma AddLink_Ok s t fe fe' :
  AddLink s t fe = Ok fe' <->
  links_size fe < mb_getNumLinks (multiBody fe) + 1 /\
  fe' = set_links fe (links fe ++ [mkFeatherstoneLink s t]).
Proof. unfold AddLink. case_decide; crush_iff. Qed.

Lemma links_size_set_links fe ls :
  links_size (set_links fe ls) = Z.of_nat (length ls).
Proof. done. Qed.

Lemma AddLink_wf s t fe fe' :
  tree_wf fe -> AddLink s t fe = Ok fe' -> tree_wf fe'.
Proof.
  intros [Hb Hd Hw Hj Hc] [Hlt ->]%AddLink_Ok. unfold links_size in *.
  split; unfold links_size; simpl; rewrite ?length_app; simpl; try lia; [|done].
  eapply Forall_impl; [exact Hj|]. intros j. apply joint_ok_mono. lia.
Qed.

Lemma add_joint_wf t p c pivot axis coll fe k fe' :
  tree_wf fe -> add_joint t p c pivot axis coll fe = Ok (k, fe') -> tree_wf fe'.
Proof.
  intros [Hb Hd Hw Hj Hc] (Hr & Hnew & -> & ->)%add_joint_Ok.
  split; unfold children, links_size in *; simpl;
    rewrite ?mb_setupJoint_numLinks; try done.
  - apply Forall_app. split; [done|].
    apply Forall_singleton, joint_ok_ctor; lia.
  - rewrite map_app. simpl. apply NoDup_app. split_and!; [done| |apply NoDup_singleton].
    intros x Hx ->%list_elem_of_singleton. done.
Qed.

(** Replacing a joint record by one with the same child keeps the children. *)
Lemma children_set_joint fe index j j' :
  joints fe !! Z.to_nat index = Some j -> child j' = child j ->
  children (set_joint fe index j') = children fe.
Proof.
  intros Hj Hc. unfold children, set_joint. simpl.
  rewrite list_fmap_insert, Hc. apply list_insert_id.
  by rewrite list_lookup_fmap, Hj.
Qed.

Lemma set_joint_wf fe index j j' :
  tree_wf fe -> joints fe !! Z.to_nat index = Some j ->
  child j' = child j -> joint_ok (links_size fe) j' ->
  tree_wf (set_joint fe index j').
Proof.
  intros [Hb Hd Hw Hjs Hc] Hj Hch Hok. split; try done.
  - by apply Forall_insert.
  - by rewrite (children_set_joint fe index j j').
Qed.

Lemma AddJointMotor_Ok index fe fe' :
  AddJointMotor index fe = Ok fe' <->
  exists j, joint_at fe index = Ok j /\ type j <> eFixed /\ motor j = None /\
    fe' = set_joint fe index (with_motor j (Some (mkJointMotor NoServo))).
Proof.
  unfold AddJointMotor. split.
  - intros (j & Hj & Hk)%bind_Ok_inv. exists j.
    destruct (type j), (motor j); simplify_eq; done.
  - intros (j & -> & Ht & Hm & ->). simpl. rewrite Hm. by destruct (type j).
Qed.

Lemma AddJointLimit_Ok index lower upper fe fe' :
  AddJointLimit index lower upper fe = Ok fe' <->
  exists j, joint_at fe index = Ok j /\ type j <> eFixed /\ (lower <= upper)%Q /\
    fe' = set_joint fe index (with_limit j (Some (mkJointLimit lower upper))).
Proof.
  unfold AddJointLimit. split.
  - intros (j & Hj & Hk)%bind_Ok_inv. exists j.
    destruct (type j); try case_decide; simplify_eq; split_and!; try done; lra.
  - intros (j & -> & Ht & Hm & ->). simpl.
    destruct (type j); try done; case_decide; try done; lra.
Qed.

Lemma AddJointMotor_wf index fe fe' :
  tree_wf fe -> AddJointMotor index fe = Ok fe' -> tree_wf fe'.
Proof.
  intros Hwf (j & [_ Hj]%joint_at_Ok & Ht & _ & ->)%AddJointMotor_Ok.
  apply (set_joint_wf fe index j); [done..|].
  destruct (Forall_lookup_1 _ _ _ _ (twf_joints _ Hwf) Hj). by split.
Qed.

Lemma AddJointLimit_wf index lower upper fe fe' :
  tree_wf fe -> AddJointLimit index lower upper fe = Ok fe' -> tree_wf fe'.
Proof.
  intros Hwf (j & [_ Hj]%joint_at_Ok & Ht & Hle & ->)%AddJointLimit_Ok.
  apply (set_joint_wf fe index j); [done..|].
  destruct (Forall_lookup_1 _ _ _ _ (twf_joints _ Hwf) Hj).
  split; simpl; try done. by intros l [= <-].
Qed.

#[local] Hint Resolve AddLink_wf add_joint_wf AddJointMotor_wf AddJointLimit_wf
  Create_wf : sf.

Lemma build_step_wf fe fe' : tree_wf fe -> build_step fe fe' -> tree_wf fe'.
Proof.
  intros Hwf Hstep.
  destruct Hstep; eauto with sf.
  by destruct Hwf.
Qed.

#[local] Hint Resolve build_step_wf : sf.
#[local] Hint Constructors built grown abs_step : sf.

Lemma built_invariant total base fixed (P : FeatherstoneEntity -> Prop) :
  P (Create total base fixed) ->
  (forall fe fe', built total base fixed fe -> P fe -> build_step fe fe' -> P fe') ->
  forall fe, built total base fixed fe -> P fe.
Proof. intros H0 Hs fe Hb. induction Hb; eauto. Qed.

Lemma built_tree_wf total base fixed fe :
  built total base fixed fe -> tree_wf fe.
Proof. apply built_invariant; [by apply Create_wf|]. eauto with sf. Qed.

(** ** Counting joints *)

#[local] Hint Resolve built_tree_wf : sf.

Lemma length_children fe : Z.of_nat (length (children fe)) = joints_size fe.
Proof. unfold children, joints_size. by rewrite length_map. Qed.

Lemma children_in_range fe c :
  tree_wf fe -> c ∈ children fe -> 0 < c < links_size fe.
Proof.
  intros Hwf (j & -> & Hj)%list_elem_of_fmap.
  by destruct (proj1 (Forall_forall _ _) (twf_joints _ Hwf) j Hj).
Qed.

Lemma children_submseteq fe :
  tree_wf fe -> children fe ⊆+ seqZ 1 (links_size fe - 1).
Proof.
  intros Hwf. apply NoDup_submseteq; [by destruct Hwf|].
  intros c Hc%children_in_range; [|done]. apply elem_of_seqZ. lia.
Qed.

Lemma joint_count_le fe :
  tree_wf fe -> joints_size fe + 1 <= links_size fe.
Proof.
  intros Hwf. pose proof (submseteq_length _ _ (children_submseteq fe Hwf)) as Hl.
  rewrite length_seqZ in Hl. rewrite <- length_children.
  pose proof (twf_base _ Hwf). lia.
Qed.

Lemma attached_count fe :
  tree_wf fe ->
  (forall c, 0 < c < links_size fe -> c ∈ children fe) <->
  links_size fe = joints_size fe + 1.
Proof.
  intros Hwf. pose proof (twf_base _ Hwf) as Hb.
  pose proof (children_submseteq fe Hwf) as Hsub. split.
  - intros Hall. apply Z.le_antisymm; [|by apply joint_count_le].
    assert (seqZ 1 (links_size fe - 1) ⊆+ children fe) as Hl%submseteq_length.
    { apply NoDup_submseteq; [apply NoDup_seqZ|].
      intros c Hc%elem_of_seqZ. apply Hall. lia. }
    rewrite length_seqZ in Hl. rewrite <- length_children. lia.
  - intros Heq c Hc.
    rewrite (submseteq_length_Permutation _ _ Hsub).
    + apply elem_of_seqZ. lia.
    + rewrite length_seqZ. rewrite <- length_children in Heq. lia.
Qed.

(** ** Reaching the base *)

Lemma find_parent_None js c : find_parent js c = None <-> c ∉ map child js.
Proof.
  induction js as [|j js IH]; simpl.
  - split; [intros _ []%elem_of_nil | done].
  - rewrite not_elem_of_cons. case_decide; [crush_iff | rewrite IH; crush_iff].
Qed.

Lemma find_parent_app js js' c :
  find_parent (js ++ js') c =
  match find_parent js c with Some p => Some p | None => find_parent js' c end.
Proof. induction js as [|j js IH]; simpl; [done|]. by case_decide. Qed.

Lemma find_parent_insert js i j j' c :
  js !! i = Some j -> child j' = child j -> parent j' = parent j ->
  find_parent (<[i:=j']> js) c = find_parent js c.
Proof.
  revert i. induction js as [|j0 js IH]; intros [|i] Hj Hc Hp; simplify_eq/=;
    [by rewrite Hc, Hp | by rewrite (IH i)].
Qed.

Lemma reaches_base_S fuel fe c :
  reaches_base fuel fe c = true -> reaches_base (S fuel) fe c = true.
Proof.
  revert c. induction fuel as [|fuel IH]; intros c; simpl; case_decide; try done.
  destruct (parent_of fe c) as [p|]; [|done]. intros H'. apply IH in H'.
  simpl in H'. done.
Qed.

Lemma reaches_base_le fuel fuel' fe c :
  (fuel <= fuel')%nat -> reaches_base fuel fe c = true ->
  reaches_base fuel' fe c = true.
Proof. induction 1; auto using reaches_base_S. Qed.

(** Reaching the base depends on the parents only. *)
Lemma reaches_base_ext fuel fe fe' c :
  (forall x p, parent_of fe x = Some p -> parent_of fe' x = Some p) ->
  reaches_base fuel fe c = true -> reaches_base fuel fe' c = true.
Proof.
  intros Hp. revert c. induction fuel as [|fuel IH]; intros c; simpl;
    case_decide; try done.
  destruct (parent_of fe c) as [p|] eqn:E; [|done].
  rewrite (Hp _ _ E). apply IH.
Qed.

Lemma attached_ext fe fe' c :
  (forall x p, parent_of fe x = Some p -> parent_of fe' x = Some p) ->
  (length (joints fe) <= length (joints fe'))%nat ->
  attached fe c -> attached fe' c.
Proof.
  unfold attached. intros Hp Hl H'.
  eapply reaches_base_le; [exact Hl|]. by apply (reaches_base_ext _ fe).
Qed.

Lemma attached_base fe : attached fe 0.
Proof. unfold attached. by destruct (length (joints fe)). Qed.

Lemma parent_of_set_joints_app fe b j x p :
  parent_of fe x = Some p ->
  parent_of (set_joints fe b (joints fe ++ [j])) x = Some p.
Proof. unfold parent_of. simpl. rewrite find_parent_app. by intros ->. Qed.

Lemma parent_of_new fe b j :
  child j ∉ children fe ->
  parent_of (set_joints fe b (joints fe ++ [j])) (child j) = Some (parent j).
Proof.
  intros Hn%find_parent_None. unfold parent_of. simpl.
  rewrite find_parent_app, Hn. simpl. by case_decide.
Qed.

(** A joint on an attached parent attaches its child and detaches nothing. *)
Lemma add_joint_attached t p c pivot axis coll fe k fe' :
  add_joint t p c pivot axis coll fe = Ok (k, fe') -> attached fe p ->
  attached fe' c /\ forall x, attached fe x -> attached fe' x.
Proof.
  intros (Hr & Hnew & -> & ->)%add_joint_Ok Hp.
  set (j := FeatherstoneJoint_ctor t p c).
  assert (forall x, attached fe x -> attached (set_joints fe
            (mb_setupJoint t (usub c 1) (usub p 1) pivot axis coll (multiBody fe))
            (joints fe ++ [j])) x) as Hkeep.
  { intros x. apply attached_ext; [apply parent_of_set_joints_app|].
    simpl. rewrite length_app. lia. }
  split; [|done]. unfold attached in *. simpl.
  rewrite length_app, Nat.add_1_r. simpl. case_decide; [done|].
  rewrite (parent_of_new fe _ j Hnew).
  apply (reaches_base_ext _ fe); [apply parent_of_set_joints_app | done].
Qed.

Lemma same_topology_set_joint fe index j j' :
  joints fe !! Z.to_nat index = Some j ->
  child j' = child j -> parent j' = parent j ->
  same_topology fe (set_joint fe index j').
Proof.
  intros Hj Hc Hp. split_and!.
  - by apply (children_set_joint fe index j).
  - simpl. apply length_insert.
  - intros x. by apply (find_parent_insert _ _ j).
Qed.

Lemma same_topology_attached fe fe' c :
  same_topology fe fe' -> attached fe c -> attached fe' c.
Proof.
  intros (_ & Hl & Hp). apply attached_ext; [|lia].
  intros x p. by rewrite Hp.
Qed.

(** A construction step adds a joint or keeps the topology. *)
Lemma build_step_cases fe fe' :
  build_step fe fe' ->
  (exists t p c pivot axis coll k,
      add_joint t p c pivot axis coll fe = Ok (k, fe')) \/
  same_topology fe fe'.
Proof.
  intros Hstep. destruct Hstep as
    [s t fe fe' [_ ->]%AddLink_Ok | | |
    | index fe fe' (j & [_ Hj]%joint_at_Ok & _ & _ & ->)%AddJointMotor_Ok
    | index lower upper fe fe' (j & [_ Hj]%joint_at_Ok & _ & _ & ->)%AddJointLimit_Ok
    | ]; eauto 10 using same_topology_set_joint; right; by split_and!.
Qed.

Lemma build_step_joined fe fe' :
  build_step fe fe' -> parent_first fe fe' ->
  joined_attached fe -> joined_attached fe'.
Proof.
  intros [(t & p & c & pivot & axis & coll & k & Hadd) | Hsame]%build_step_cases
    Hfirst Hall x.
  - pose proof Hadd as (_ & _ & _ & Hfe')%add_joint_Ok.
    assert (attached fe p) as Hp.
    { apply (Hfirst (FeatherstoneJoint_ctor t p c)). by subst fe'. }
    destruct (add_joint_attached _ _ _ _ _ _ _ _ _ Hadd Hp) as [Hc Hkeep].
    subst fe'. unfold children. simpl. rewrite map_app.
    intros [Hx | ->%list_elem_of_singleton]%elem_of_app; [by apply Hkeep, Hall | exact Hc].
  - rewrite (proj1 Hsame). eauto using same_topology_attached.
Qed.

Lemma grown_built total base fixed fe :
  grown total base fixed fe -> built total base fixed fe.
Proof. induction 1; eauto with sf. Qed.

Lemma grown_joined total base fixed fe :
  grown total base fixed fe -> joined_attached fe.
Proof.
  induction 1 as [|fe fe' _ IH Hstep Hfirst]; [|by eapply build_step_joined].
  intros c []%elem_of_nil.
Qed.


(** ** The declared size *)

Lemma build_step_numLinks fe fe' :
  build_step fe fe' ->
  mb_getNumLinks (multiBody fe') = mb_getNumLinks (multiBody fe).
Proof.
  intros Hstep. destruct Hstep as
    [s t fe fe' [_ ->]%AddLink_Ok
    | p c pivot axis coll k fe fe' (_ & _ & _ & ->)%add_joint_Ok
    | p c axis coll k fe fe' (_ & _ & _ & ->)%add_joint_Ok
    | p c k fe fe' (_ & _ & _ & ->)%add_joint_Ok
    | index fe fe' (j & _ & _ & _ & ->)%AddJointMotor_Ok
    | index lower upper fe fe' (j & _ & _ & _ & ->)%AddJointLimit_Ok
    | ]; simpl; by rewrite ?mb_setupJoint_numLinks.
Qed.

Lemma built_declared total base fixed fe :
  built total base fixed fe -> mb_getNumLinks (multiBody fe) = usub total 1.
Proof.
  revert fe. apply (built_invariant _ _ _
    (fun fe => mb_getNumLinks (multiBody fe) = usub total 1)); [apply mb_new_numLinks|].
  intros fe1 fe2 _ <-. apply build_step_numLinks.
Qed.

(** For a total that is an [unsigned int] other than 0 the subtraction does
    not wrap. *)
Lemma built_declared_exact total base fixed fe :
  1 <= total < UINT_MOD -> built total base fixed fe ->
  mb_getNumLinks (multiBody fe) = total - 1.
Proof.
  intros Ht Hb. rewrite (built_declared _ _ _ _ Hb).
  apply usub_exact. u32_unfold. lia.
Qed.

(** C8. Whatever sequence of successful construction calls follows
    [Create total base fixed] with [total >= 1], the tree satisfies
    [tree_wf], has at most [total] links, and has fewer joints than links. *)
Theorem construction_invariant total base fixed fe :
  1 <= total -> built total base fixed fe ->
  tree_wf fe /\ links_size fe <= total /\
  joints_size fe + 1 <= links_size fe.
Proof.
  intros Ht Hb. pose proof (built_tree_wf _ _ _ _ Hb) as Hwf.
  pose proof (twf_declared _ Hwf). rewrite (built_declared _ _ _ _ Hb) in *.
  pose proof (usub_le total 1).
  split_and!; [done | lia | by apply joint_count_le].
Qed.

(** C10. When construction is complete (every declared link added, every
    link but the base the child of a joint), the link count is the declared
    total and equals the joint count plus one. The declared total is what
    the constructor's unsigned subtraction leaves of [totalNumOfLinks]:
    the argument itself whenever it is an [unsigned int] (and at 2^32). *)
Theorem complete_link_count total base fixed fe :
  1 <= total -> built total base fixed fe -> complete fe ->
  links_size fe = usub total 1 + 1 /\ links_size fe = joints_size fe + 1 /\
  (total <= UINT_MOD -> links_size fe = total).
Proof.
  intros Ht Hb [Hn Hall]. rewrite (built_declared _ _ _ _ Hb) in Hn.
  split_and!; [lia | apply attached_count; eauto with sf |].
  intros Hu. rewrite usub_exact in Hn by (u32_unfold; lia). lia.
Qed.

(** C9. A tree grown parent first, whose link count is its joint count plus
    one, is rooted: every link reaches the base through parent joints, so
    the joint table has no cycle. *)
Theorem grown_rooted total base fixed fe :
  1 <= total -> grown total base fixed fe ->
  links_size fe = joints_size fe + 1 -> rooted fe.
Proof.
  intros Ht Hg Hcount c Hc.
  destruct (decide (c = 0)) as [->|]; [apply attached_base|].
  apply (grown_joined _ _ _ _ Hg).
  apply attached_count; [|done|lia].
  eauto using grown_built with sf.
Qed.

(** Joint indices are assigned in call order: a successful
    [add_joint] returns the previous joint count, the table grows by one,
    and the new joint, as the struct's constructor leaves it, is found at
    the returned index. *)
Theorem add_joint_index t p c pivot axis coll fe k fe' :
  add_joint t p c pivot axis coll fe = Ok (k, fe') ->
  k = joints_size fe /\ joints_size fe' = k + 1 /\
  joint_at fe' k = Ok (FeatherstoneJoint_ctor t p c) /\
  links fe' = links fe.
Proof.
  intros (_ & _ & -> & ->)%add_joint_Ok. split_and!; try done.
  - unfold joints_size. simpl. rewrite length_app. simpl. lia.
  - apply joint_at_Ok. unfold joints_size. simpl. split; [lia|].
    rewrite Nat2Z.id. apply list_lookup_middle. done.
Qed.

(** Each of the three joint-adding operations fails exactly in two
    ways: with an out-of-range error when the parent or the child index
    names no link, and with a topology violation when both do but the child
    is the base or has a parent joint already. *)
Theorem AddJoint_errors p c pivot axis coll fe e :
  (AddRevoluteJoint p c pivot axis coll fe = Err e <-> joint_refused fe p c e) /\
  (AddPrismaticJoint p c axis coll fe = Err e <-> joint_refused fe p c e) /\
  (AddFixedJoint p c fe = Err e <-> joint_refused fe p c e).
Proof. split_and!; apply add_joint_Err. Qed.

(** No link gets two parent joints: once a joint with child [c] is
    added, every later [add_joint] with child [c] and a parent in range is
    refused as a topology violation. *)
Theorem second_parent_rejected t p c pivot axis coll fe k fe' t' p' pivot' axis' coll' :
  add_joint t p c pivot axis coll fe = Ok (k, fe') ->
  0 <= p' < links_size fe' ->
  add_joint t' p' c pivot' axis' coll' fe' = Err TopologyViolation.
Proof.
  intros (Hr & _ & _ & ->)%add_joint_Ok Hp'. apply add_joint_Err. right.
  split; [done|]. split; [unfold links_size in *; simpl in *; lia|].
  right. unfold children. simpl. rewrite map_app. apply elem_of_app. right.
  by apply list_elem_of_singleton.
Qed.

(** [AddLink] succeeds exactly while fewer links exist than were
    declared; once the declared total is reached it reports a topology
    violation and the tree is as it was. *)
Theorem AddLink_total total base fixed fe s t :
  1 <= total < UINT_MOD -> built total base fixed fe ->
  (links_size fe < total ->
     AddLink s t fe = Ok (set_links fe (links fe ++ [mkFeatherstoneLink s t]))) /\
  (total <= links_size fe -> AddLink s t fe = Err TopologyViolation).
Proof.
  intros Ht Hd%(built_declared_exact _ _ _ _ Ht). unfold AddLink. rewrite Hd.
  split; intros; case_decide; done || lia.
Qed.

(** ** Motors and limits *)

Lemma joint_at_total fe index :
  0 <= index < joints_size fe -> exists j, joint_at fe index = Ok j.
Proof.
  intros Hi. unfold joints_size in Hi.
  destruct (lookup_lt_is_Some_2 (joints fe) (Z.to_nat index)) as [j Hj]; [lia|].
  exists j. apply joint_at_Ok. split; [lia | done].
Qed.

Lemma joint_at_set_joint fe index j j' :
  joint_at fe index = Ok j -> joint_at (set_joint fe index j') index = Ok j'.
Proof.
  intros [Hi Hj]%joint_at_Ok. apply joint_at_Ok. split; [done|]. simpl.
  apply list_lookup_insert_eq. by eapply lookup_lt_Some.
Qed.

(** [AddJointMotor] attaches a motor with no control law to a joint
    that is not fixed and has none, and changes nothing else; it reports an
    out-of-range error for an index that names no joint and a topology
    violation for a fixed joint or a joint that has a motor. *)
Theorem AddJointMotor_correct index fe :
  match AddJointMotor index fe with
  | Ok fe' =>
      exists j, joint_at fe index = Ok j /\ type j <> eFixed /\ motor j = None /\
        fe' = set_joint fe index (with_motor j (Some (mkJointMotor NoServo)))
  | Err e =>
      (e = IndexOutOfRange /\ ~ (0 <= index < joints_size fe)) \/
      (e = TopologyViolation /\ exists j, joint_at fe index = Ok j /\
         (type j = eFixed \/ motor j <> None))
  end.
Proof.
  destruct (AddJointMotor index fe) as [fe'|e] eqn:E.
  - by apply AddJointMotor_Ok.
  - unfold AddJointMotor in E.
    apply bind_Err_inv in E as [E%joint_at_Err | (j & Hj & E)]; [tauto|].
    right. destruct (type j) eqn:Ht, (motor j) eqn:Hm; simplify_eq;
      (split; [done|]); exists j; rewrite Ht, Hm; split; auto.
Qed.

(** A joint gets one motor: after a successful [AddJointMotor], the
    same call on the same joint is a topology violation. *)
Theorem AddJointMotor_twice index fe fe' :
  AddJointMotor index fe = Ok fe' ->
  AddJointMotor index fe' = Err TopologyViolation.
Proof.
  intros (j & Hj & Ht & Hm & ->)%AddJointMotor_Ok. unfold AddJointMotor.
  rewrite (joint_at_set_joint _ _ _ _ Hj). simpl. by destruct (type j).
Qed.

(** [AddJointLimit] stores the limit on a joint that is not fixed when
    [lower <= upper], and changes nothing else; it reports an out-of-range
    error for an index that names no joint, a topology violation for a
    fixed joint, and an invalid parameter for [lower > upper]. *)
Theorem AddJointLimit_correct index lower upper fe :
  match AddJointLimit index lower upper fe with
  | Ok fe' =>
      exists j, joint_at fe index = Ok j /\ type j <> eFixed /\
        (lower <= upper)%Q /\
        fe' = set_joint fe index (with_limit j (Some (mkJointLimit lower upper)))
  | Err e =>
      (e = IndexOutOfRange /\ ~ (0 <= index < joints_size fe)) \/
      (exists j, joint_at fe index = Ok j /\
         ((e = TopologyViolation /\ type j = eFixed) \/
          (e = InvalidParameter /\ type j <> eFixed /\ (upper < lower)%Q)))
  end.
Proof.
  destruct (AddJointLimit index lower upper fe) as [fe'|e] eqn:E.
  - by apply AddJointLimit_Ok.
  - unfold AddJointLimit in E.
    apply bind_Err_inv in E as [E%joint_at_Err | (j & Hj & E)]; [tauto|].
    right. exists j. split; [done|].
    destruct (type j) eqn:Ht; try case_decide; simplify_eq; auto.
Qed.

(** A limit with [lower == upper] is legal: on any joint that is not
    fixed, [AddJointLimit index v v] succeeds and stores the limit [v, v]. *)
Theorem AddJointLimit_locked index v fe j :
  joint_at fe index = Ok j -> type j <> eFixed ->
  exists fe', AddJointLimit index v v fe = Ok fe' /\
    joint_at fe' index = Ok (with_limit j (Some (mkJointLimit v v))).
Proof.
  intros Hj Ht. eexists. split.
  - apply AddJointLimit_Ok. exists j. split_and!; try done. lra.
  - by apply (joint_at_set_joint fe index j).
Qed.

(** ** The joint table refines a finite map *)

Lemma edges_children fe : (edges fe).*1 = children fe.
Proof. unfold edges, children. by rewrite <- list_fmap_compose. Qed.

Lemma find_parent_lookup (js : list FeatherstoneJoint) c :
  find_parent js c =
  (list_to_map (map (fun j => (child j, parent j)) js) : gmap Z Z) !! c.
Proof.
  induction js as [|j js IH]; simpl; [done|]. case_decide as Hc.
  - subst c. by rewrite lookup_insert_eq.
  - by rewrite lookup_insert_ne.
Qed.

Lemma abstraction_add_joint t p c pivot axis coll fe k fe' :
  add_joint t p c pivot axis coll fe = Ok (k, fe') ->
  abs_parent (abstraction fe) !! c = None /\
  abstraction fe' =
  mkAbsTree (links_size fe) (<[c := p]> (abs_parent (abstraction fe))).
Proof.
  intros (_ & Hnew & _ & ->)%add_joint_Ok. rewrite <- edges_children in Hnew.
  pose proof (not_elem_of_list_to_map_1 (M := gmap Z) _ _ Hnew) as Hnone.
  split; [done|]. unfold abstraction, edges. simpl. f_equal.
  rewrite map_app, list_to_map_app. simpl.
  rewrite insert_empty, <- insert_union_singleton_r; done.
Qed.

Lemma abstraction_set_joint fe index j j' :
  joints fe !! Z.to_nat index = Some j ->
  child j' = child j -> parent j' = parent j ->
  abstraction (set_joint fe index j') = abstraction fe.
Proof.
  intros Hj Hc Hp. unfold abstraction, edges. simpl. f_equal. f_equal.
  rewrite list_fmap_insert, Hc, Hp. apply list_insert_id.
  by rewrite list_lookup_fmap, Hj.
Qed.

Lemma abs_step_add_joint t p c pivot axis coll fe k fe' :
  add_joint t p c pivot axis coll fe = Ok (k, fe') ->
  abs_step (abstraction fe) (abstraction fe').
Proof.
  intros H. destruct (abstraction_add_joint _ _ _ _ _ _ _ _ _ H) as [Hnone ->].
  apply add_joint_Ok in H as ([Hp Hc] & _). by apply abs_joint.
Qed.

(** C11. The joint table implements a finite map from a link to its parent:
    looking up the parent of a link in the table is the lookup in the map,
    and every successful construction call is a step of the abstract tree,
    one more link, a parent for a link that had none, or no change. *)
Theorem construction_refines fe fe' :
  build_step fe fe' ->
  (forall c, parent_of fe' c = abs_parent (abstraction fe') !! c) /\
  abs_step (abstraction fe) (abstraction fe').
Proof.
  intros Hstep. split; [intros c; apply find_parent_lookup|].
  destruct Hstep as
    [s t fe fe' [_ ->]%AddLink_Ok | p c pivot axis coll k fe fe' H
    | p c axis coll k fe fe' H | p c k fe fe' H
    | index fe fe' (j & [_ Hj]%joint_at_Ok & _ & _ & ->)%AddJointMotor_Ok
    | index lower upper fe fe' (j & [_ Hj]%joint_at_Ok & _ & _ & ->)%AddJointLimit_Ok
    | ]; eauto using abs_step_add_joint with sf.
  - unfold abstraction, links_size. simpl. rewrite length_app, Nat2Z.inj_add.
    apply abs_link.
  - rewrite (abstraction_set_joint fe index j); [apply abs_stutter|done..].
  - rewrite (abstraction_set_joint fe index j); [apply abs_stutter|done..].
Qed.

Lemma abs_step_wf a a' : abs_wf a -> abs_step a a' -> abs_wf a'.
Proof.
  intros Hwf Hstep. destruct Hstep as [n m | n m p c Hp Hc Hnone | a]; [| |done].
  - intros c p Hcp. destruct (Hwf c p Hcp). simpl in *. lia.
  - intros c' p' Hcp. simpl in *.
    apply lookup_insert_Some in Hcp as [[-> ->] | [_ Hcp]]; [done|].
    exact (Hwf c' p' Hcp).
Qed.

(** ** Derived construction rules *)

Lemma parent_first_same fe fe' :
  length (joints fe') = length (joints fe) -> parent_first fe fe'.
Proof. intros Hl j Hj. rewrite Hj, length_app in Hl. simpl in Hl. lia. Qed.

Lemma grown_same total base fixed fe fe' :
  grown total base fixed fe -> build_step fe fe' ->
  length (joints fe') = length (joints fe) -> grown total base fixed fe'.
Proof. eauto using parent_first_same with sf. Qed.

Lemma grown_joint total base fixed fe fe' j :
  grown total base fixed fe -> build_step fe fe' ->
  joints fe' = joints fe ++ [j] -> attached fe (parent j) ->
  grown total base fixed fe'.
Proof.
  intros Hg Hstep Hj Hp. apply (grown_step _ _ _ fe); [done..|].
  intros j' Hj'. rewrite Hj in Hj'. by apply app_inj_tail in Hj' as [_ <-].
Qed.

(** ** The reaction torque *)

(** The vector triple product. *)
Lemma cross_cross (u v w : Vector3) :
  veq (cross (cross u v) w) (vsub (vscale v (dot u w)) (vscale u (dot v w))).
Proof. vec_ring. Qed.


(** The torque [getJointFeedback] reports has no component along the
    joint's motion axis (section 8 of the specification). *)
Lemma feedback_torque_axis (r F axis : Vector3) :
  dot (feedback_torque r F axis) axis == 0.
Proof. apply vreject_orthogonal. Qed.

(** It is the moment of the force when that is orthogonal to the axis
    already, and for a fixed joint, which has no axis. *)
Lemma feedback_torque_cross (r F axis : Vector3) :
  dot (cross r F) axis == 0 -> veq (feedback_torque r F axis) (cross r F).
Proof. apply vreject_id. Qed.

Lemma feedback_torque_fixed (r F : Vector3) :
  veq (feedback_torque r F vzero) (cross r F).
Proof. apply vreject_id. vec_ring. Qed.

(** The cross product of the header's comment alone is not orthogonal to
    the axis: when lever arm and force both lie in the plane normal to the
    axis, as for a revolute joint loaded in its plane of motion, the whole
    moment is along the axis, and the reported torque is zero. *)
Lemma moment_along_axis (r F axis : Vector3) :
  dot r axis == 0 -> dot F axis == 0 -> veq (cross (cross r F) axis) vzero.
Proof. intros Hr HF. rewrite cross_cross, Hr, HF. vec_ring. Qed.

(** ** The getters *)

(** Within the range of [unsigned int] the getters return the sizes. *)
Lemma getNumOf_exact fe :
  tree_wf fe -> links_size fe < UINT_MOD ->
  getNumOfLinks fe = links_size fe /\ getNumOfJoints fe = joints_size fe.
Proof.
  intros Hwf Hn. pose proof (joint_count_le fe Hwf). pose proof (twf_base _ Hwf).
  unfold getNumOfLinks, getNumOfJoints.
  split; apply u32_small; unfold links_size, joints_size in *; u32_unfold; lia.
Qed.

Lemma built_getNumOf total base fixed fe :
  1 <= total < UINT_MOD -> built total base fixed fe ->
  getNumOfLinks fe = links_size fe /\ getNumOfJoints fe = joints_size fe.
Proof.
  intros Ht Hb. pose proof (built_tree_wf _ _ _ _ Hb) as Hwf.
  pose proof (twf_declared _ Hwf) as Hd.
  rewrite (built_declared_exact _ _ _ _ Ht Hb) in Hd.
  apply getNumOf_exact; [done | lia].
Qed.

(** ** A cycle that the check accepts *)

(** Two links that are each other's parent never reach the base. *)
Lemma two_cycle_unreachable fe a b fuel :
  a <> 0 -> b <> 0 -> parent_of fe a = Some b -> parent_of fe b = Some a ->
  reaches_base fuel fe a = false /\ reaches_base fuel fe b = false.
Proof.
  intros Ha Hb Hab Hba. induction fuel as [|fuel [IHa IHb]]; simpl;
    rewrite !decide_False by done; [done|]. by rewrite Hab, Hba.
Qed.

Lemma add_joint_free t p c pivot axis coll fe :
  0 <= p < links_size fe -> 0 < c < links_size fe -> c ∉ children fe ->
  exists fe', add_joint t p c pivot axis coll fe = Ok (joints_size fe, fe') /\
    links fe' = links fe /\
    joints fe' = joints fe ++ [FeatherstoneJoint_ctor t p c].
Proof.
  intros Hp Hc Hn. eexists. split; [apply add_joint_Ok|]; split_and!; done || lia.
Qed.

(** C27. The check that each child index is used once (section 9 of the
    specification) does not make the joint table a tree (section 3): on
    any well-formed tree, for any two distinct links other than the base
    that have no parent joint yet, joining the first under the second and
    then the second under the first is accepted; the invariant is kept,
    the two joints are counted, and neither link reaches the base. *)
Theorem cycle_accepted fe a b :
  tree_wf fe -> 0 < a < links_size fe -> 0 < b < links_size fe -> a <> b ->
  a ∉ children fe -> b ∉ children fe ->
  exists k fe1 k' fe2,
    AddFixedJoint b a fe = Ok (k, fe1) /\ AddFixedJoint a b fe1 = Ok (k', fe2) /\
    tree_wf fe2 /\ links fe2 = links fe /\ joints_size fe2 = joints_size fe + 2 /\
    ~ attached fe2 a /\ ~ attached fe2 b.
Proof.
  intros Hwf Ha Hb Hab Hna Hnb.
  destruct (add_joint_free eFixed b a vzero vzero false fe)
    as (fe1 & H1 & Hl1 & Hj1); [lia | done | done |].
  assert (links_size fe1 = links_size fe) as Hs1 by (unfold links_size; by rewrite Hl1).
  destruct (add_joint_free eFixed a b vzero vzero false fe1)
    as (fe2 & H2 & Hl2 & Hj2); [lia | lia | |].
  { unfold children. rewrite Hj1, map_app.
    intros [?|?%list_elem_of_singleton]%elem_of_app; [done | simpl in *; lia]. }
  assert (parent_of fe2 a = Some b /\ parent_of fe2 b = Some a) as [Pa Pb].
  { unfold parent_of. rewrite Hj2, Hj1, !find_parent_app.
    apply find_parent_None in Hna as ->, Hnb as ->. simpl.
    repeat case_decide; by simplify_eq. }
  destruct (two_cycle_unreachable fe2 a b (length (joints fe2))) as [Ra Rb];
    [lia | lia | done | done |].
  exists (joints_size fe), fe1, (joints_size fe1), fe2. unfold attached.
  rewrite Ra, Rb. split_and!; try done.
  - eauto using add_joint_wf.
  - congruence.
  - unfold joints_size. rewrite Hj2, Hj1, !length_app. simpl. lia.
Qed.

End Results.

#[export] Hint Resolve Create_wf build_step_wf built_tree_wf grown_built : sf.
#[export] Hint Constructors built grown abs_step : sf.

(** * The reference back end and the concrete trees *)

#[export] Instance simple_multibody_laws : MultiBodyLaws simple_multibody.
Proof. by split. Qed.

Lemma demo_links_grown : grown 3 (demo_solid "base") true demo_links.
Proof.
  eapply grown_same; [eapply grown_same; [apply grown_Create | |] | |].
  - by apply (build_AddLink (demo_solid "upper") identity_transform).
  - reflexivity.
  - by apply (build_AddLink (demo_solid "lower") identity_transform).
  - reflexivity.
Qed.

Lemma demo_shoulder_grown : grown 3 (demo_solid "base") true demo_shoulder.2.
Proof.
  apply (grown_joint _ _ _ demo_links _ (FeatherstoneJoint_ctor eRevolute 0 1));
    [apply demo_links_grown | | reflexivity..].
  by apply (build_AddRevoluteJoint 0 1 vzero (mkVector3 0 0 1) false 0).
Qed.

Lemma demo_arm_grown : grown 3 (demo_solid "base") true demo_arm.
Proof.
  apply (grown_joint _ _ _ demo_shoulder.2 _ (FeatherstoneJoint_ctor ePrismatic 1 2));
    [apply demo_shoulder_grown | | reflexivity..].
  by apply (build_AddPrismaticJoint 1 2 (mkVector3 1 0 0) false 1).
Qed.

Lemma demo_arm_complete : complete demo_arm.
Proof.
  split; [reflexivity|]. intros c Hc. change (c ∈ [1; 2]).
  assert (c = 1 \/ c = 2) as [-> | ->] by (change (links_size demo_arm) with 3 in Hc; lia);
    repeat constructor.
Qed.


(** * Witnesses *)

Lemma construction_invariant_witness :
  tree_wf demo_arm /\ links_size demo_arm <= 3 /\
  joints_size demo_arm + 1 <= links_size demo_arm.
Proof.
  apply (construction_invariant 3 (demo_solid "base") true);
    [lia | apply grown_built, demo_arm_grown].
Defined.

Lemma complete_link_count_witness :
  links_size demo_arm = usub 3 1 + 1 /\
  links_size demo_arm = joints_size demo_arm + 1 /\
  (3 <= UINT_MOD -> links_size demo_arm = 3).
Proof.
  apply (complete_link_count 3 (demo_solid "base") true);
    [lia | apply grown_built, demo_arm_grown | apply demo_arm_complete].
Defined.

Lemma grown_rooted_witness : rooted demo_arm.
Proof.
  apply (grown_rooted 3 (demo_solid "base") true);
    [lia | apply demo_arm_grown | reflexivity].
Defined.

Lemma add_joint_index_witness :
  0 = joints_size demo_links /\ joints_size demo_shoulder.2 = 0 + 1 /\
  joint_at demo_shoulder.2 0 = Ok (FeatherstoneJoint_ctor eRevolute 0 1) /\
  links demo_shoulder.2 = links demo_links.
Proof.
  apply (add_joint_index eRevolute 0 1 vzero (mkVector3 0 0 1) false demo_links).
  reflexivity.
Defined.

Lemma second_parent_rejected_witness :
  add_joint eFixed 2 1 vzero vzero false demo_shoulder.2 = Err TopologyViolation.
Proof.
  apply (second_parent_rejected eRevolute 0 1 vzero (mkVector3 0 0 1) false
           demo_links 0);
    [reflexivity | change (0 <= 2 < 3); lia].
Defined.

Lemma AddLink_total_witness :
  (links_size demo_arm < 3 ->
     AddLink (demo_solid "hand") identity_transform demo_arm =
     Ok (set_links demo_arm
           (links demo_arm ++
              [mkFeatherstoneLink (demo_solid "hand") identity_transform]))) /\
  (3 <= links_size demo_arm ->
     AddLink (demo_solid "hand") identity_transform demo_arm =
     Err TopologyViolation).
Proof.
  apply (AddLink_total 3 (demo_solid "base") true);
    [u32_unfold; lia | apply grown_built, demo_arm_grown].
Defined.

Lemma AddJointMotor_twice_witness :
  AddJointMotor 0 demo_motor = Err TopologyViolation.
Proof. apply (AddJointMotor_twice 0 demo_arm). reflexivity. Defined.

Lemma AddJointLimit_locked_witness :
  exists fe', AddJointLimit 0 (1 # 2) (1 # 2) demo_arm = Ok fe' /\
    joint_at fe' 0 =
    Ok (with_limit (FeatherstoneJoint_ctor eRevolute 0 1)
          (Some (mkJointLimit (1 # 2) (1 # 2)))).
Proof.
  apply (AddJointLimit_locked 0 (1 # 2) demo_arm); [reflexivity | discriminate].
Defined.


Lemma cycle_accepted_witness :
  exists k fe1 k' fe2,
    AddFixedJoint 2 1 demo_links = Ok (k, fe1) /\
    AddFixedJoint 1 2 fe1 = Ok (k', fe2) /\
    tree_wf fe2 /\ links fe2 = links demo_links /\
    joints_size fe2 = joints_size demo_links + 2 /\
    ~ attached fe2 1 /\ ~ attached fe2 2.
Proof.
  apply (cycle_accepted demo_links 1 2);
    by apply (bool_decide_unpack _).
Defined.

Lemma construction_refines_witness :
  (forall c, parent_of demo_shoulder.2 c =
             abs_parent (abstraction demo_shoulder.2) !! c) /\
  abs_step (abstraction demo_links) (abstraction demo_shoulder.2).
Proof.
  apply (construction_refines demo_links demo_shoulder.2).
  by apply (build_AddRevoluteJoint 0 1 vzero (mkVector3 0 0 1) false 0).
Defined.
