(* ===== verification/Completion.v ===== *)
(** * Completion: construction of the multi-body tree ends, and can be ended

    [Featherstone] shows what every sequence of construction calls keeps.
    This file is about the sequences themselves. [grow_step] is a call that
    succeeds and extends the topology ([AddLink] or one of the three
    [Add...Joint]); [remaining] counts the calls still to make. The theorems:
    every sequence of growing calls is finite, with the bound
    [2 * (total - 1)]; a tree refuses every growing call exactly when it is
    complete; from every tree grown parent first some sequence of calls
    leads to a complete, rooted tree; and a construction is complete after
    exactly [2 * (total - 1)] growing calls.

    Finiteness is [sn] of stdpp's [relations] (every path is finite), shown
    from the measure [remaining]; no fuel is involved. *)

From Stdlib Require Import ZArith QArith Lia String.
From stdpp Require Import base tactics option list relations.
From S2P Require Import Prelude Linalg Featherstone.

#[local] Open Scope Z_scope.

Section Growth.
Context `{MB : MultiBody}.
Implicit Types (fe : FeatherstoneEntity).

(** A call that succeeds and extends the topology: one more link or one
    more joint. *)
Inductive grow_step : FeatherstoneEntity -> FeatherstoneEntity -> Prop :=
| grow_AddLink s t fe fe' :
    AddLink s t fe = Ok fe' -> grow_step fe fe'
| grow_AddRevoluteJoint p c pivot axis coll k fe fe' :
    AddRevoluteJoint p c pivot axis coll fe = Ok (k, fe') -> grow_step fe fe'
| grow_AddPrismaticJoint p c axis coll k fe fe' :
    AddPrismaticJoint p c axis coll fe = Ok (k, fe') -> grow_step fe fe'
| grow_AddFixedJoint p c k fe fe' :
    AddFixedJoint p c fe = Ok (k, fe') -> grow_step fe fe'.

(** The calls still to make: two for every link not yet added (the link and
    its joint), one for every link without a parent joint. *)
Definition remaining fe : Z :=
  2 * mb_getNumLinks (multiBody fe) + 1 - links_size fe - joints_size fe.

(** The links other than the base. *)
Definition link_indices fe : list Z := seqZ 1 (links_size fe - 1).

(** The links that have no parent joint yet, in index order. *)
Definition unattached fe : list Z :=
  filter (fun c => c ∉ children fe) (link_indices fe).

End Growth.

(** * Theorems *)

Section GrowthResults.
Context `{MB : MultiBody} {MBL : MultiBodyLaws MB}.
Implicit Types (fe : FeatherstoneEntity).

(** A growing call is a construction call. *)
Lemma grow_step_build fe fe' : grow_step fe fe' -> build_step fe fe'.
Proof. destruct 1; eauto using build_step. Qed.

(** What a growing call does to the counts. *)
Lemma grow_step_cases fe fe' :
  grow_step fe fe' ->
  mb_getNumLinks (multiBody fe') = mb_getNumLinks (multiBody fe) /\
  ((links_size fe' = links_size fe + 1 /\
    joints_size fe' = joints_size fe) \/
   (links_size fe' = links_size fe /\
    joints_size fe' = joints_size fe + 1)).
Proof.
  intros Hstep. split; [by apply build_step_numLinks, grow_step_build|].
  destruct Hstep as
    [s t fe fe' [_ ->]%AddLink_Ok
    | p c pivot axis coll k fe fe' (_ & _ & _ & ->)%add_joint_Ok
    | p c axis coll k fe fe' (_ & _ & _ & ->)%add_joint_Ok
    | p c k fe fe' (_ & _ & _ & ->)%add_joint_Ok];
    unfold links_size, joints_size; simpl; rewrite length_app; simpl; lia.
Qed.

Lemma grow_step_remaining fe fe' :
  grow_step fe fe' -> remaining fe' = remaining fe - 1.
Proof. intros [HN Hc]%grow_step_cases. unfold remaining. lia. Qed.

Lemma remaining_nonneg fe : tree_wf fe -> 0 <= remaining fe.
Proof.
  intros Hwf. pose proof (twf_declared _ Hwf). pose proof (joint_count_le _ Hwf).
  unfold remaining. lia.
Qed.

(** Nothing remains exactly when the construction is complete. *)
Lemma remaining_complete fe : tree_wf fe -> remaining fe = 0 <-> complete fe.
Proof.
  intros Hwf. pose proof (twf_declared _ Hwf). pose proof (joint_count_le _ Hwf).
  unfold remaining, complete. rewrite (attached_count fe Hwf).
  lia.
Qed.

(** The list of the links without a parent joint. *)
Lemma unattached_spec fe c :
  c ∈ unattached fe <-> 0 < c < links_size fe /\ c ∉ children fe.
Proof.
  unfold unattached, link_indices. rewrite list_elem_of_filter, elem_of_seqZ.
  intuition lia.
Qed.

Lemma unattached_nil fe :
  unattached fe = [] <-> forall c, 0 < c < links_size fe -> c ∈ children fe.
Proof.
  split.
  - intros Hnil c Hc. destruct (decide (c ∈ children fe)) as [|Hn]; [done|].
    assert (c ∈ unattached fe) as Hin by by apply unattached_spec.
    rewrite Hnil in Hin. by apply elem_of_nil in Hin.
  - intros Hall. destruct (unattached fe) as [|c l] eqn:E; [done|].
    assert (c ∈ unattached fe) as [Hc Hn]%unattached_spec by (rewrite E; left).
    destruct Hn. by apply Hall.
Qed.

(** Progress: an incomplete tree accepts a call, and one that keeps the
    parent-first discipline: the next link, or a fixed joint from the base
    to the first link without a parent. *)
Lemma grow_progress fe :
  tree_wf fe -> ~ complete fe ->
  exists fe', grow_step fe fe' /\ parent_first fe fe'.
Proof.
  intros Hwf Hnc. pose proof (twf_base _ Hwf) as Hb.
  destruct (decide (links_size fe < mb_getNumLinks (multiBody fe) + 1)) as [Hlt|Hge].
  - exists (set_links fe (links fe ++ [mkFeatherstoneLink (mkSolidEntity "" 0%Q) identity_transform])).
    split; [eapply grow_AddLink; by apply AddLink_Ok|].
    intros j Hj. simpl in Hj. apply (f_equal length) in Hj.
    rewrite length_app in Hj. simpl in Hj. lia.
  - destruct (unattached fe) as [|c l] eqn:E.
    + destruct Hnc. split; [pose proof (twf_declared _ Hwf); lia|].
      by apply unattached_nil.
    + assert (c ∈ unattached fe) as [Hc Hn]%unattached_spec by (rewrite E; left).
      eexists. split.
      * eapply (grow_AddFixedJoint 0 c). apply add_joint_Ok.
        split_and!; try done; lia.
      * intros j Hj. simpl in Hj. apply app_inv_head in Hj. inv Hj. simpl.
        apply attached_base.
Qed.

(** A complete tree accepts no growing call. *)
Lemma complete_nf fe : tree_wf fe -> complete fe -> nf grow_step fe.
Proof.
  intros Hwf Hc%remaining_complete [fe' Hstep]; [|done].
  pose proof (grow_step_remaining _ _ Hstep).
  assert (tree_wf fe') as Hwf' by eauto using grow_step_build with sf.
  pose proof (remaining_nonneg _ Hwf'). lia.
Qed.

(** Growing calls keep the invariant. *)
Lemma grow_step_wf fe fe' : tree_wf fe -> grow_step fe fe' -> tree_wf fe'.
Proof. eauto using grow_step_build with sf. Qed.

#[local] Hint Resolve grow_step_wf : sf.

Lemma grow_steps_wf n fe fe' : tree_wf fe -> nsteps grow_step n fe fe' -> tree_wf fe'.
Proof. induction 2; eauto with sf. Qed.

(** [n] growing calls leave [n] fewer to make. *)
Lemma grow_steps_remaining n fe fe' :
  nsteps grow_step n fe fe' -> remaining fe' = remaining fe - Z.of_nat n.
Proof.
  induction 1 as [|n fe1 fe2 fe3 Hstep _ IH]; [lia|].
  rewrite IH, (grow_step_remaining _ _ Hstep). lia.
Qed.

(** Every sequence of growing calls from a well-formed tree is finite. *)
Lemma grow_sn fe : tree_wf fe -> sn grow_step fe.
Proof.
  apply (sn_measure grow_step tree_wf remaining). intros x y Hx Hxy.
  assert (tree_wf y) as Hy by eauto with sf. split; [done|].
  pose proof (remaining_nonneg _ Hy). rewrite (grow_step_remaining _ _ Hxy) in *. lia.
Qed.

Lemma remaining_Create total base fixed :
  remaining (Create total base fixed) = 2 * usub total 1.
Proof.
  unfold remaining, links_size, joints_size. cbn.
  rewrite mb_new_numLinks. lia.
Qed.

(** A complete tree grown parent first is rooted. *)
Lemma grown_complete_rooted total base fixed fe :
  grown total base fixed fe -> complete fe -> rooted fe.
Proof.
  intros Hg [_ Hall] c Hc.
  destruct (decide (c = 0)) as [->|]; [apply attached_base|].
  apply (grown_joined _ _ _ _ Hg), Hall. lia.
Qed.

(** C20. Construction terminates: from a tree built by successful calls,
    every sequence of calls that add a link or a joint is finite ([sn]), and
    after [n] of them at most [2 * (total - 1) - n] remain possible. *)
Theorem growth_terminates total base fixed fe :
  1 <= total -> built total base fixed fe ->
  sn grow_step fe /\
  forall n fe', nsteps grow_step n fe fe' ->
    Z.of_nat n + links_size fe + joints_size fe <= 2 * total - 1.
Proof.
  intros Ht Hb. assert (tree_wf fe) as Hwf by eauto with sf.
  split; [by apply grow_sn|]. intros n fe' Hn.
  pose proof (remaining_nonneg _ (grow_steps_wf _ _ _ Hwf Hn)) as Hpos.
  rewrite (grow_steps_remaining _ _ _ Hn) in Hpos. unfold remaining in Hpos.
  rewrite (built_declared _ _ _ _ Hb) in Hpos.
  pose proof (usub_le total 1). lia.
Qed.

(** C33. A construction is stuck only when it is complete: a well-formed
    tree accepts another link or joint exactly when a declared link is
    missing or a link has no parent joint. *)
Theorem growth_stuck_complete fe :
  tree_wf fe -> nf grow_step fe <-> complete fe.
Proof.
  intros Hwf. split; [|by apply complete_nf].
  intros Hnf. destruct (decide (remaining fe = 0)) as [H0|H0].
  - by apply remaining_complete.
  - destruct (grow_progress fe Hwf) as (fe' & Hstep & _).
    + by rewrite <- remaining_complete.
    + destruct Hnf. by exists fe'.
Qed.

(** C21. Construction can always be finished: from every tree grown parent
    first there is a sequence of successful calls to a tree that is
    complete and rooted. *)
Theorem construction_completes total base fixed fe :
  1 <= total -> grown total base fixed fe ->
  exists fe', rtc grow_step fe fe' /\ grown total base fixed fe' /\
    complete fe' /\ rooted fe'.
Proof.
  intros Ht Hg. assert (sn grow_step fe) as Hsn by eauto using grow_sn with sf.
  induction Hsn as [fe _ IH].
  assert (tree_wf fe) as Hwf by eauto with sf.
  destruct (decide (remaining fe = 0)) as [H0|H0].
  - apply remaining_complete in H0; [|done].
    exists fe. split_and!; [done | done | done | by eapply grown_complete_rooted].
  - destruct (grow_progress fe Hwf) as (fe1 & Hstep & Hfirst).
    { by rewrite <- remaining_complete. }
    destruct (IH fe1 Hstep) as (fe' & Hrun & Hfe'); [eauto using grow_step_build with sf|].
    exists fe'. split; [by eapply rtc_l|done].
Qed.

(** C34. What a construction costs: a tree declared with [total] links is
    complete after exactly [2 * (total - 1)] successful calls that add a
    link or a joint, and no sequence of such calls is longer. *)
Theorem construction_length total base fixed n fe :
  1 <= total < UINT_MOD -> nsteps grow_step n (Create total base fixed) fe ->
  Z.of_nat n <= 2 * (total - 1) /\
  (complete fe <-> Z.of_nat n = 2 * (total - 1)).
Proof.
  intros Ht Hn.
  assert (tree_wf fe) as Hwf by eauto using grow_steps_wf with sf.
  pose proof (remaining_nonneg _ Hwf) as Hpos.
  rewrite <- (remaining_complete fe Hwf).
  rewrite (grow_steps_remaining _ _ _ Hn), remaining_Create in *.
  rewrite usub_exact in * by (u32_unfold; lia). lia.
Qed.

End GrowthResults.

(** * Concrete trees *)

Lemma demo_links_wf : tree_wf demo_links.
Proof. apply (built_tree_wf 3 (demo_solid "base") true), grown_built, demo_links_grown. Qed.

Lemma growth_terminates_witness :
  sn grow_step demo_links /\
  forall n fe', nsteps grow_step n demo_links fe' ->
    Z.of_nat n + links_size demo_links + joints_size demo_links <= 2 * 3 - 1.
Proof.
  apply (growth_terminates 3 (demo_solid "base") true demo_links);
    [lia | apply grown_built, demo_links_grown].
Defined.

Lemma growth_stuck_complete_witness :
  nf grow_step demo_links <-> complete demo_links.
Proof. exact (growth_stuck_complete demo_links demo_links_wf). Defined.

Lemma construction_completes_witness :
  exists fe', rtc grow_step demo_links fe' /\
    grown 3 (demo_solid "base") true fe' /\ complete fe' /\ rooted fe'.
Proof.
  apply (construction_completes 3 (demo_solid "base") true demo_links);
    [lia | apply demo_links_grown].
Defined.

Lemma demo_arm_steps : nsteps grow_step 4 (Create 3 (demo_solid "base") true) demo_arm.
Proof.
  eapply nsteps_l; [by apply (grow_AddLink (demo_solid "upper") identity_transform)|].
  eapply nsteps_l; [by apply (grow_AddLink (demo_solid "lower") identity_transform)|].
  eapply nsteps_l;
    [by apply (grow_AddRevoluteJoint 0 1 vzero (mkVector3 0 0 1) false 0)|].
  eapply nsteps_l;
    [by apply (grow_AddPrismaticJoint 1 2 (mkVector3 1 0 0) false 1)|].
  apply nsteps_O.
Qed.

Lemma construction_length_witness :
  (4 <= 2 * (3 - 1)) /\ (complete demo_arm <-> 4 = 2 * (3 - 1)).
Proof.
  exact (construction_length 3 (demo_solid "base") true 4 demo_arm
           ltac:(u32_unfold; lia) demo_arm_steps).
Defined.
