(* ===== verification/Actuation.v ===== *)
(** * Actuation: forces, set points and queries of the tree

    The operations of [FeatherstoneEntity] that act on a built tree
    ([src/unnamed/part_000], sections "Multibody control", "Joints" and
    "Common" of the class): [DriveJoint], [ApplyDamping], [ApplyGravity],
    [AddLinkForce], [AddLinkTorque], the motor set points, [setJointIC],
    [setJointDamping] and the joint queries. Their bodies are not among the
    sources: they are modelled from sections 4.2 and 4.3 of the
    specification, with the header's signatures and its comment on
    [getJointTorque]. The life cycle of the tree is in [Lifecycle].

    The dynamic state of Bullet's [btMultiBody] (per link: joint position,
    velocity, the torque applied by [DriveJoint], the damping force, applied
    force and torque) is reached through the interface [MultiBodyState]: a
    view of the state, its update, and the step of the simulation, which
    takes the motors and limits of the joints ([constraints]) and of which
    the tree only knows that it consumes what was applied. The torque of
    [DriveJoint] and the damping force are kept apart because
    [getJointTorque] shows the first and not the second (the header's
    comment; section 4.3 of the specification). The reference back end
    [dyn_multibody] makes one explicit Euler step ([euler_step]) with the
    applied torque, the damping force and the motors' commands
    ([motor_command]), and keeps the position within the limits. *)

From Stdlib Require Import ZArith QArith Qabs Lia Lqa Psatz String.
From stdpp Require Import base tactics option list.
From S2P Require Import Prelude Linalg Featherstone.

Local Open Scope Z_scope.

(** * The back end's dynamic state *)

(** What [btMultiBody] holds for link [i] (the tree's link [i + 1]): the
    coordinate and the velocity of its joint, and what was applied to it
    since the last step. The generalized force of the joint is kept in two
    parts, as section 4.3 of the specification requires of
    [getJointTorque]: [jointTorque] is the sum of the manually applied
    torques ([DriveJoint]), [jointForce] the rest of the joint's
    generalized force for the step (damping). *)
Record LinkDyn : Type := mkLinkDyn {
  jointPos : Scalar;
  jointVel : Scalar;
  jointTorque : Scalar;
  jointForce : Scalar;
  linkForce : Vector3;
  linkTorque : Vector3
}.

Record DynState : Type := mkDynState {
  dyn_links : list LinkDyn;
  baseForce : Vector3;
  baseTorque : Vector3
}.

Definition rest_link : LinkDyn := mkLinkDyn 0 0 0 0 vzero vzero.

(** Nothing is applied to the link. *)
Definition unloaded (l : LinkDyn) : Prop :=
  jointTorque l = 0%Q /\ jointForce l = 0%Q /\
  linkForce l = vzero /\ linkTorque l = vzero.

(** What the world solves together with the multi-body: the motor and the
    limit of the joint of a link of the back end. *)
Record JointConstraint : Type := mkJointConstraint {
  jc_link : Z;
  jc_motor : option btMultiBodyJointMotor;
  jc_limit : option btMultiBodyJointLimitConstraint
}.

Class MultiBodyState (M : MultiBody) : Type := {
  mb_dyn : btMultiBody -> DynState;
  mb_set_dyn : DynState -> btMultiBody -> btMultiBody;
  mb_stepSimulation :
    Scalar -> list JointConstraint -> btMultiBody -> btMultiBody
}.

Class MultiBodyStateLaws (M : MultiBody) (S : MultiBodyState M) : Prop := {
  mb_dyn_set : forall d b, mb_dyn (mb_set_dyn d b) = d;
  mb_set_dyn_numLinks : forall d b,
    mb_getNumLinks (mb_set_dyn d b) = mb_getNumLinks b;
  mb_dyn_new : forall n base fixed,
    mb_dyn (mb_new n base fixed) =
    mkDynState (replicate (Z.to_nat n) rest_link) vzero vzero;
  mb_dyn_setupJoint : forall t c p pivot axis coll b,
    mb_dyn (mb_setupJoint t c p pivot axis coll b) = mb_dyn b;
  mb_step_numLinks : forall dt cs b,
    mb_getNumLinks (mb_stepSimulation dt cs b) = mb_getNumLinks b;
  mb_step_length : forall dt cs b,
    length (dyn_links (mb_dyn (mb_stepSimulation dt cs b))) =
    length (dyn_links (mb_dyn b));
  mb_step_consumes : forall dt cs b,
    Forall unloaded (dyn_links (mb_dyn (mb_stepSimulation dt cs b))) /\
    baseForce (mb_dyn (mb_stepSimulation dt cs b)) = vzero /\
    baseTorque (mb_dyn (mb_stepSimulation dt cs b)) = vzero
}.

(** ** Bullet's accessors, on the view *)

Definition with_jointPos (q : Scalar) (l : LinkDyn) : LinkDyn :=
  mkLinkDyn q (jointVel l) (jointTorque l) (jointForce l)
    (linkForce l) (linkTorque l).

Definition with_jointVel (q : Scalar) (l : LinkDyn) : LinkDyn :=
  mkLinkDyn (jointPos l) q (jointTorque l) (jointForce l)
    (linkForce l) (linkTorque l).

Definition add_jointTorque (tau : Scalar) (l : LinkDyn) : LinkDyn :=
  mkLinkDyn (jointPos l) (jointVel l) (jointTorque l + tau)%Q (jointForce l)
    (linkForce l) (linkTorque l).

Definition add_jointForce (f : Scalar) (l : LinkDyn) : LinkDyn :=
  mkLinkDyn (jointPos l) (jointVel l) (jointTorque l) (jointForce l + f)%Q
    (linkForce l) (linkTorque l).

Definition add_linkForce (F : Vector3) (l : LinkDyn) : LinkDyn :=
  mkLinkDyn (jointPos l) (jointVel l) (jointTorque l) (jointForce l)
    (vadd (linkForce l) F) (linkTorque l).

Definition add_linkTorque (tau : Vector3) (l : LinkDyn) : LinkDyn :=
  mkLinkDyn (jointPos l) (jointVel l) (jointTorque l) (jointForce l)
    (linkForce l) (vadd (linkTorque l) tau).

Definition set_dyn_links (d : DynState) (ls : list LinkDyn) : DynState :=
  mkDynState ls (baseForce d) (baseTorque d).

Section BackEnd.
Context `{MS : MultiBodyState}.

(** [m_links[i]], read. The index is an [int]; a negative one or one past
    the end is undefined behaviour. *)
Definition mb_link (i : Z) (b : btMultiBody) : result LinkDyn :=
  if decide (0 <= i) then vec_get (dyn_links (mb_dyn b)) i
  else Err UndefinedBehaviour.

(** [m_links[i]], updated by [f]. *)
Definition mb_update_link (f : LinkDyn -> LinkDyn) (i : Z) (b : btMultiBody)
  : result btMultiBody :=
  l ← mb_link i b;
  ls ← vec_set (dyn_links (mb_dyn b)) i (f l);
  Ok (mb_set_dyn (set_dyn_links (mb_dyn b) ls) b).

Definition mb_getJointPos (i : Z) b : result Scalar := jointPos <$> mb_link i b.
Definition mb_getJointVel (i : Z) b : result Scalar := jointVel <$> mb_link i b.
Definition mb_getJointTorque (i : Z) b : result Scalar := jointTorque <$> mb_link i b.
Definition mb_setJointPos (i : Z) (q : Scalar) := mb_update_link (with_jointPos q) i.
Definition mb_setJointVel (i : Z) (q : Scalar) := mb_update_link (with_jointVel q) i.
Definition mb_addJointTorque (i : Z) (tau : Scalar) := mb_update_link (add_jointTorque tau) i.
Definition mb_addJointForce (i : Z) (f : Scalar) := mb_update_link (add_jointForce f) i.
Definition mb_addLinkForce (i : Z) (F : Vector3) := mb_update_link (add_linkForce F) i.
Definition mb_addLinkTorque (i : Z) (tau : Vector3) := mb_update_link (add_linkTorque tau) i.

Definition mb_addBaseForce (F : Vector3) (b : btMultiBody) : btMultiBody :=
  mb_set_dyn (mkDynState (dyn_links (mb_dyn b)) (vadd (baseForce (mb_dyn b)) F)
                (baseTorque (mb_dyn b))) b.

Definition mb_addBaseTorque (tau : Vector3) (b : btMultiBody) : btMultiBody :=
  mb_set_dyn (mkDynState (dyn_links (mb_dyn b)) (baseForce (mb_dyn b))
                (vadd (baseTorque (mb_dyn b)) tau)) b.

End BackEnd.

(** * The tree's operations *)

(** The sign of a scalar: -1, 0 or 1. *)
Definition Qsgn (v : Scalar) : Scalar :=
  if decide (0 < v)%Q then 1%Q else if decide (v < 0)%Q then (-1)%Q else 0%Q.

(** The damping force of a joint at velocity [v]:
    [- sign(v) * static - v * viscous]. *)
Definition damping_force (static viscous v : Scalar) : Scalar :=
  (- Qsgn v * static - v * viscous)%Q.

(** The torque a motor commands, from its control law and the joint's
    state. *)
Definition motor_command (m : btMultiBodyJointMotor) (l : LinkDyn) : Scalar :=
  match servo m with
  | NoServo => 0%Q
  | PositionServo targetPos kp => (kp * (targetPos - jointPos l))%Q
  | VelocityServo targetVel kd => (kd * (targetVel - jointVel l))%Q
  end.

Definition with_damping (j : FeatherstoneJoint) (static viscous : Scalar)
  : FeatherstoneJoint :=
  {| type := type j; feedback := feedback j; limit := limit j; motor := motor j;
     parent := parent j; child := child j;
     sigDamping := static; velDamping := viscous |}.

Section Tree.
Context `{MS : MultiBodyState}.
Implicit Types (fe : FeatherstoneEntity) (j : FeatherstoneJoint).

Definition set_multiBody fe (b : btMultiBody) : FeatherstoneEntity :=
  set_joints fe b (joints fe).

(** The back end's link of a joint: that of its child, the base apart;
    [child - 1] on [unsigned int]. *)
Definition joint_link j : Z := usub (child j) 1.

(** ** Actuation *)

Definition DriveJoint (index : Z) (forceTorque : Scalar) fe
  : result FeatherstoneEntity :=
  j ← joint_at fe index;
  b ← mb_addJointTorque (joint_link j) forceTorque (multiBody fe);
  Ok (set_multiBody fe b).

(** The body of the loop of [ApplyDamping], for joint [k]. *)
Definition apply_joint_damping fe (k : nat) (b : btMultiBody)
  : result btMultiBody :=
  j ← vec_get (joints fe) (Z.of_nat k);
  v ← mb_getJointVel (joint_link j) b;
  mb_addJointForce (joint_link j)
    (damping_force (sigDamping j) (velDamping j) v) b.

Definition ApplyDamping fe : result FeatherstoneEntity :=
  b ← for_range 0 (length (joints fe)) (apply_joint_damping fe) (multiBody fe);
  Ok (set_multiBody fe b).

(** The body of the loop of [ApplyGravity], for link [k + 1]. *)
Definition apply_link_gravity (g : Vector3) fe (k : nat) (b : btMultiBody)
  : result btMultiBody :=
  l ← vec_get (links fe) (Z.of_nat k + 1);
  mb_addLinkForce (Z.of_nat k) (vscale g (solid_mass (solid l))) b.

Definition ApplyGravity (g : Vector3) fe : result FeatherstoneEntity :=
  base ← vec_get (links fe) 0;
  b ← for_range 0 (length (links fe) - 1) (apply_link_gravity g fe)
        (mb_addBaseForce (vscale g (solid_mass (solid base))) (multiBody fe));
  Ok (set_multiBody fe b).

Definition AddLinkForce (index : Z) (F : Vector3) fe
  : result FeatherstoneEntity :=
  if decide (0 <= index < links_size fe) then
    if decide (index = 0)
    then Ok (set_multiBody fe (mb_addBaseForce F (multiBody fe)))
    else b ← mb_addLinkForce (index - 1) F (multiBody fe);
         Ok (set_multiBody fe b)
  else Err IndexOutOfRange.

Definition AddLinkTorque (index : Z) (tau : Vector3) fe
  : result FeatherstoneEntity :=
  if decide (0 <= index < links_size fe) then
    if decide (index = 0)
    then Ok (set_multiBody fe (mb_addBaseTorque tau (multiBody fe)))
    else b ← mb_addLinkTorque (index - 1) tau (multiBody fe);
         Ok (set_multiBody fe b)
  else Err IndexOutOfRange.

(** The set points need a motor on the joint. *)
Definition set_servo (index : Z) (law : ServoLaw) fe
  : result FeatherstoneEntity :=
  j ← joint_at fe index;
  match motor j with
  | Some _ => Ok (set_joint fe index (with_motor j (Some (mkJointMotor law))))
  | None => Err TopologyViolation
  end.

Definition MotorPositionSetpoint (index : Z) (pos kp : Scalar) fe
  : result FeatherstoneEntity :=
  set_servo index (PositionServo pos kp) fe.

Definition MotorVelocitySetpoint (index : Z) (vel kd : Scalar) fe
  : result FeatherstoneEntity :=
  set_servo index (VelocityServo vel kd) fe.

(** The torque the motor of joint [index] commands in the current state. *)
Definition getMotorCommand (index : Z) fe : result Scalar :=
  j ← joint_at fe index;
  l ← mb_link (joint_link j) (multiBody fe);
  Ok (from_option (fun m => motor_command m l) 0%Q (motor j)).

(** ** Joint state *)

Definition setJointIC (index : Z) (position velocity : Scalar) fe
  : result FeatherstoneEntity :=
  j ← joint_at fe index;
  b ← mb_setJointPos (joint_link j) position (multiBody fe);
  b' ← mb_setJointVel (joint_link j) velocity b;
  Ok (set_multiBody fe b').

Definition setJointDamping (index : Z) (constantFactor viscousFactor : Scalar) fe
  : result FeatherstoneEntity :=
  j ← joint_at fe index;
  if decide (constantFactor < 0 \/ viscousFactor < 0)%Q then Err InvalidParameter
  else Ok (set_joint fe index (with_damping j constantFactor viscousFactor)).

Definition getJointPosition (index : Z) fe
  : result (Scalar * eFeatherstoneJointType) :=
  j ← joint_at fe index;
  position ← mb_getJointPos (joint_link j) (multiBody fe);
  Ok (position, type j).

Definition getJointVelocity (index : Z) fe
  : result (Scalar * eFeatherstoneJointType) :=
  j ← joint_at fe index;
  velocity ← mb_getJointVel (joint_link j) (multiBody fe);
  Ok (velocity, type j).

(** [getJointTorque]: the sum of the torques applied manually to the joint
    since the last step, and nothing else (section 4.3 of the
    specification; the header says "only shows sum of manually applied
    torques"). *)
Definition getJointTorque (index : Z) fe : result Scalar :=
  j ← joint_at fe index;
  mb_getJointTorque (joint_link j) (multiBody fe).

(** ** The solve *)

(** The motors and limits of the tree, as the world solves them: each
    with the back end's link of its joint. *)
Definition constraints fe : list JointConstraint :=
  map (fun j => mkJointConstraint (joint_link j) (motor j) (limit j)) (joints fe).

(** One step of the simulation: the back end integrates the multi-body
    under the tree's motors and limits, and consumes what was applied. *)
Definition StepSimulation (dt : Scalar) fe : FeatherstoneEntity :=
  set_multiBody fe (mb_stepSimulation dt (constraints fe) (multiBody fe)).

(** * Invariant and runs *)

(** The back end holds one dynamic record per link it was sized for. *)
Definition dyn_wf fe : Prop :=
  Z.of_nat (length (dyn_links (mb_dyn (multiBody fe)))) =
  mb_getNumLinks (multiBody fe).

Definition tree_ok fe : Prop := tree_wf fe /\ dyn_wf fe.

(** The dynamic record of the link a joint moves. *)
Definition joint_dyn fe (index : Z) : result LinkDyn :=
  j ← joint_at fe index;
  mb_link (joint_link j) (multiBody fe).

(** A successful call that injects a force or sets a parameter. *)
Inductive act_step : FeatherstoneEntity -> FeatherstoneEntity -> Prop :=
| act_DriveJoint index forceTorque fe fe' :
    DriveJoint index forceTorque fe = Ok fe' -> act_step fe fe'
| act_ApplyDamping fe fe' :
    ApplyDamping fe = Ok fe' -> act_step fe fe'
| act_ApplyGravity g fe fe' :
    ApplyGravity g fe = Ok fe' -> act_step fe fe'
| act_AddLinkForce index F fe fe' :
    AddLinkForce index F fe = Ok fe' -> act_step fe fe'
| act_AddLinkTorque index tau fe fe' :
    AddLinkTorque index tau fe = Ok fe' -> act_step fe fe'
| act_MotorPositionSetpoint index pos kp fe fe' :
    MotorPositionSetpoint index pos kp fe = Ok fe' -> act_step fe fe'
| act_MotorVelocitySetpoint index vel kd fe fe' :
    MotorVelocitySetpoint index vel kd fe = Ok fe' -> act_step fe fe'
| act_setJointIC index position velocity fe fe' :
    setJointIC index position velocity fe = Ok fe' -> act_step fe fe'
| act_setJointDamping index constantFactor viscousFactor fe fe' :
    setJointDamping index constantFactor viscousFactor fe = Ok fe' ->
    act_step fe fe'.

(** What a joint-index or link-index call cannot change once the tree is
    attached: the links and the shape of the joint table. *)
Definition topology fe : list FeatherstoneLink * list (eFeatherstoneJointType * Z * Z) :=
  (links fe, map (fun j => (type j, parent j, child j)) (joints fe)).

(** ** Notions of the proofs *)

(** What [DriveJoint] and [setJointIC] share: the dynamic record of the
    link a joint moves, updated by [f]. *)
Definition update_joint_link (f : LinkDyn -> LinkDyn) (index : Z)
    (fe : FeatherstoneEntity) : result FeatherstoneEntity :=
  j ← joint_at fe index;
  b ← mb_update_link f (joint_link j) (multiBody fe);
  Ok (set_multiBody fe b).

(** A sequence of [DriveJoint] calls on one joint. *)
Fixpoint DriveJoints (index : Z) (taus : list Scalar) (fe : FeatherstoneEntity)
  : result FeatherstoneEntity :=
  match taus with
  | [] => Ok fe
  | tau :: taus' => fe' ← DriveJoint index tau fe; DriveJoints index taus' fe'
  end.

(** The dynamic record of a joint's link after the joint's damping force
    is applied. *)
Definition damped (j : FeatherstoneJoint) (l : LinkDyn) : LinkDyn :=
  add_jointForce (damping_force (sigDamping j) (velDamping j) (jointVel l)) l.

(** The state of the loop of [ApplyDamping] before joint [k]: the back end
    [b] has the size of [b0], and the records of the joints before [k] are
    damped. *)
Definition damping_upto (fe : FeatherstoneEntity) (b0 : btMultiBody) (k : nat)
    (b : btMultiBody) : Prop :=
  mb_getNumLinks b = mb_getNumLinks b0 /\
  length (dyn_links (mb_dyn b)) = length (dyn_links (mb_dyn b0)) /\
  forall index j, joint_at fe index = Ok j ->
    mb_link (joint_link j) b =
    if decide (index < Z.of_nat k) then damped j <$> mb_link (joint_link j) b0
    else mb_link (joint_link j) b0.

(** The state of the loop of [ApplyGravity] before link [k + 1]: the
    back end [b] has the size and the base loads of [b0], and the weights
    of the links up to [k] are applied. *)
Definition gravity_upto (g : Vector3) (fe : FeatherstoneEntity)
    (b0 : btMultiBody) (k : nat) (b : btMultiBody) : Prop :=
  mb_getNumLinks b = mb_getNumLinks b0 /\
  length (dyn_links (mb_dyn b)) = length (dyn_links (mb_dyn b0)) /\
  baseForce (mb_dyn b) = baseForce (mb_dyn b0) /\
  baseTorque (mb_dyn b) = baseTorque (mb_dyn b0) /\
  forall (i : nat) lk, links fe !! S i = Some lk ->
    mb_link (Z.of_nat i) b =
    if decide (i < k)%nat
    then add_linkForce (vscale g (solid_mass (solid lk))) <$> mb_link (Z.of_nat i) b0
    else mb_link (Z.of_nat i) b0.

(** Two back ends of the same size. *)
Definition same_size (b b0 : btMultiBody) : Prop :=
  mb_getNumLinks b = mb_getNumLinks b0 /\
  length (dyn_links (mb_dyn b)) = length (dyn_links (mb_dyn b0)).

(** The two shapes of the result of an actuation call: a new back end of
    the same size, or a joint record replaced by one with the same type,
    parent and child. *)
Definition acted (fe fe' : FeatherstoneEntity) : Prop :=
  (exists b, fe' = set_multiBody fe b /\ same_size b (multiBody fe)) \/
  (exists index j j', joint_at fe index = Ok j /\ fe' = set_joint fe index j' /\
     type j' = type j /\ parent j' = parent j /\ child j' = child j /\
     joint_ok (links_size fe) j').

End Tree.

(** The invariant can be checked on a tree. *)
#[export] Instance tree_ok_dec `{MS : MultiBodyState} fe : Decision (tree_ok fe).
Proof. unfold tree_ok, dyn_wf. apply _. Defined.

(** * A reference back end with dynamic state *)

Record DynMultiBody : Type := mkDynMultiBody {
  dmb_numLinks : Z;
  dmb_fixedBase : bool;
  dmb_dyn : DynState
}.

#[export] Instance dyn_multibody : MultiBody := {|
  btMultiBody := DynMultiBody;
  mb_new n base fixed :=
    mkDynMultiBody n fixed (mkDynState (replicate (Z.to_nat n) rest_link) vzero vzero);
  mb_getNumLinks := dmb_numLinks;
  mb_hasFixedBase := dmb_fixedBase;
  mb_setupJoint _ _ _ _ _ _ b := b
|}.

(** The torque the motors of link [i] command in the state [l]. *)
Definition motors_torque (cs : list JointConstraint) (i : nat) (l : LinkDyn)
  : Scalar :=
  foldr Qplus 0%Q
    (omap (fun c => if decide (jc_link c = Z.of_nat i)
                    then (fun m => motor_command m l) <$> jc_motor c
                    else None) cs).

(** A position kept within the limits of link [i]. *)
Definition limited (cs : list JointConstraint) (i : nat) (q : Scalar) : Scalar :=
  foldr (fun lim q => btClamp q (limit_lower lim) (limit_upper lim)) q
    (omap (fun c => if decide (jc_link c = Z.of_nat i) then jc_limit c else None)
          cs).

(** The step of the reference back end: explicit Euler on each joint with
    unit inertia, driven by what was applied and by the motors and stopped
    by the limits; then the applied forces are cleared. *)
Definition euler_link (dt : Scalar) (cs : list JointConstraint)
    (i : nat) (l : LinkDyn) : LinkDyn :=
  mkLinkDyn (limited cs i (jointPos l + dt * jointVel l))%Q
    (jointVel l + dt * (jointTorque l + jointForce l + motors_torque cs i l))%Q
    0%Q 0%Q vzero vzero.

Definition euler_step (dt : Scalar) (cs : list JointConstraint)
    (ls : list LinkDyn) : list LinkDyn :=
  imap (euler_link dt cs) ls.

#[export] Instance dyn_multibody_state : MultiBodyState dyn_multibody := {|
  mb_dyn := dmb_dyn;
  mb_set_dyn d b := mkDynMultiBody (dmb_numLinks b) (dmb_fixedBase b) d;
  mb_stepSimulation dt cs b :=
    mkDynMultiBody (dmb_numLinks b) (dmb_fixedBase b)
      (mkDynState (euler_step dt cs (dyn_links (dmb_dyn b))) vzero vzero)
|}.

(** ** Concrete trees *)

(** A pendulum: a fixed base and one link on a revolute joint about z, with
    a motor and damping, built call by call. *)
Definition pendulum_links : FeatherstoneEntity :=
  Eval vm_compute in
    result_get (Create 2 (demo_solid "base") true)
      (AddLink (demo_solid "bob") identity_transform
         (Create 2 (demo_solid "base") true)).

Definition pendulum_jointed : FeatherstoneEntity :=
  Eval vm_compute in
    (result_get (0, pendulum_links)
       (AddRevoluteJoint 0 1 vzero (mkVector3 0 0 1) false pendulum_links)).2.

Definition pendulum_motor : FeatherstoneEntity :=
  Eval vm_compute in result_get pendulum_jointed (AddJointMotor 0 pendulum_jointed).

Definition pendulum_built : FeatherstoneEntity :=
  Eval vm_compute in
    result_get pendulum_motor (setJointDamping 0 (1 # 10) (1 # 5) pendulum_motor).

(** The pendulum released at position 1/2 with velocity 2. *)
Definition pendulum : FeatherstoneEntity :=
  Eval vm_compute in result_get pendulum_built (setJointIC 0 (1 # 2) 2 pendulum_built).

Definition pendulum_joint : FeatherstoneJoint :=
  Eval vm_compute in
    result_get (FeatherstoneJoint_ctor eRevolute 0 1) (joint_at pendulum 0).

Definition pendulum_link : LinkDyn :=
  Eval vm_compute in result_get rest_link (joint_dyn pendulum 0).

(** * Theorems *)

Section BackEndLemmas.
Context `{MS : MultiBodyState} {MSL : MultiBodyStateLaws M MS}.
Implicit Types (b : btMultiBody) (l : LinkDyn).

Lemma mb_link_Ok i b l :
  mb_link i b = Ok l <-> 0 <= i /\ dyn_links (mb_dyn b) !! Z.to_nat i = Some l.
Proof.
  unfold mb_link. case_decide; [rewrite vec_get_Ok|]; crush_iff.
Qed.

Lemma mb_link_in_range i b :
  0 <= i < Z.of_nat (length (dyn_links (mb_dyn b))) ->
  exists l, mb_link i b = Ok l.
Proof.
  intros Hi. destruct (lookup_lt_is_Some_2 (dyn_links (mb_dyn b)) (Z.to_nat i))
    as [l Hl]; [lia|]. exists l. apply mb_link_Ok. split; [lia|done].
Qed.

Lemma mb_link_out_of_range i b :
  ~ (0 <= i < Z.of_nat (length (dyn_links (mb_dyn b)))) ->
  mb_link i b = Err UndefinedBehaviour.
Proof.
  intros Hi. unfold mb_link. case_decide; [|done].
  apply vec_get_out_of_range. lia.
Qed.

Lemma mb_update_link_Ok f i b b' :
  mb_update_link f i b = Ok b' <->
  exists l, mb_link i b = Ok l /\
    b' = mb_set_dyn (set_dyn_links (mb_dyn b)
                       (<[Z.to_nat i := f l]> (dyn_links (mb_dyn b)))) b.
Proof.
  unfold mb_update_link. rewrite bind_Ok_inv. split.
  - intros (l & Hl & (ls & [_ ->]%vec_set_Ok & [= <-])%bind_Ok_inv). eauto.
  - intros (l & Hl & ->). exists l. split; [done|].
    apply mb_link_Ok in Hl as [_ Hl%lookup_lt_Some].
    by rewrite vec_set_in_range.
Qed.

Lemma mb_update_link_total f i b l :
  mb_link i b = Ok l -> exists b', mb_update_link f i b = Ok b'.
Proof. intros Hl. eexists. apply mb_update_link_Ok. eauto. Qed.

(** The updated link, and the others. *)
Lemma mb_link_update f i k b b' :
  mb_update_link f i b = Ok b' ->
  mb_link k b' = if decide (k = i) then f <$> mb_link i b else mb_link k b.
Proof.
  intros (l & Hl & ->)%mb_update_link_Ok. pose proof Hl as Hl0.
  apply mb_link_Ok in Hl as [Hi Hl]. destruct (decide (k = i)) as [->|Hk].
  - rewrite Hl0. simpl. apply mb_link_Ok. rewrite mb_dyn_set. simpl.
    split; [done|]. apply list_lookup_insert_eq. by eapply lookup_lt_Some.
  - unfold mb_link. rewrite mb_dyn_set. simpl. case_decide; [|done].
    unfold vec_get. by rewrite list_lookup_insert_ne by lia.
Qed.

Lemma mb_update_link_numLinks f i b b' :
  mb_update_link f i b = Ok b' -> mb_getNumLinks b' = mb_getNumLinks b.
Proof. intros (l & _ & ->)%mb_update_link_Ok. apply mb_set_dyn_numLinks. Qed.

Lemma mb_update_link_length f i b b' :
  mb_update_link f i b = Ok b' ->
  length (dyn_links (mb_dyn b')) = length (dyn_links (mb_dyn b)).
Proof.
  intros (l & _ & ->)%mb_update_link_Ok. rewrite mb_dyn_set. simpl.
  apply length_insert.
Qed.

End BackEndLemmas.

Section TreeLemmas.
Context `{MS : MultiBodyState} {ML : MultiBodyLaws M} {MSL : MultiBodyStateLaws M MS}.
Implicit Types (fe : FeatherstoneEntity) (j : FeatherstoneJoint) (l : LinkDyn).

(** ** Joints and their links *)

Lemma joint_at_ok fe index j :
  tree_wf fe -> joint_at fe index = Ok j -> joint_ok (links_size fe) j.
Proof.
  intros Hwf [_ Hj]%joint_at_Ok.
  exact (Forall_lookup_1 _ _ _ _ (twf_joints _ Hwf) Hj).
Qed.

(** In a well-formed tree the subtraction does not wrap. *)
Lemma joint_link_exact fe index j :
  tree_wf fe -> joint_at fe index = Ok j -> joint_link j = child j - 1.
Proof.
  intros Hwf Hj. destruct (joint_at_ok _ _ _ Hwf Hj) as [_ Hc _ _].
  pose proof (twf_declared _ Hwf). pose proof (twf_width _ Hwf).
  apply usub_exact. u32_unfold. lia.
Qed.

Lemma joint_link_in_range fe index j :
  tree_ok fe -> joint_at fe index = Ok j ->
  0 <= joint_link j < Z.of_nat (length (dyn_links (mb_dyn (multiBody fe)))).
Proof.
  intros [Hwf Hdyn] Hj. rewrite (joint_link_exact _ _ _ Hwf Hj).
  destruct (joint_at_ok _ _ _ Hwf Hj) as [_ Hc _ _].
  pose proof (twf_declared _ Hwf). unfold dyn_wf in Hdyn. lia.
Qed.

(** Two joints move two links. *)
Lemma joint_link_inj fe i k j j' :
  tree_wf fe -> joint_at fe i = Ok j -> joint_at fe k = Ok j' ->
  joint_link j = joint_link j' -> i = k.
Proof.
  intros Hwf Hj Hj' Heq.
  rewrite (joint_link_exact _ _ _ Hwf Hj), (joint_link_exact _ _ _ Hwf Hj') in Heq.
  apply joint_at_Ok in Hj as [Hi Hj], Hj' as [Hk Hj'].
  assert (Z.to_nat i = Z.to_nat k); [|lia].
  apply (NoDup_lookup _ _ _ (child j) (twf_children _ Hwf));
    unfold children; rewrite list_lookup_fmap.
  - by rewrite Hj.
  - rewrite Hj'. simpl. f_equal. lia.
Qed.

Lemma joint_dyn_total fe index j :
  tree_ok fe -> joint_at fe index = Ok j ->
  exists l, mb_link (joint_link j) (multiBody fe) = Ok l.
Proof. intros Hok Hj. eapply mb_link_in_range, joint_link_in_range; eauto. Qed.

Lemma joint_at_set_multiBody fe b index :
  joint_at (set_multiBody fe b) index = joint_at fe index.
Proof. done. Qed.

(** ** The invariant is kept *)

Lemma tree_ok_set_multiBody fe b :
  tree_ok fe ->
  mb_getNumLinks b = mb_getNumLinks (multiBody fe) ->
  length (dyn_links (mb_dyn b)) = length (dyn_links (mb_dyn (multiBody fe))) ->
  tree_ok (set_multiBody fe b).
Proof.
  intros [[Hb Hd Hw Hj Hc] Hdyn] Hn Hl. split; [split; try done|].
  - simpl. by rewrite Hn.
  - simpl. by rewrite Hn.
  - unfold dyn_wf in *. simpl. by rewrite Hn, Hl.
Qed.

#[local] Hint Resolve mb_update_link_numLinks mb_update_link_length : sf.

Lemma tree_ok_update_link f i fe b :
  tree_ok fe -> mb_update_link f i (multiBody fe) = Ok b ->
  tree_ok (set_multiBody fe b).
Proof.
  intros Hok Hb. apply tree_ok_set_multiBody; eauto with sf.
Qed.

Lemma tree_ok_set_joint fe index j j' :
  tree_ok fe -> joint_at fe index = Ok j ->
  child j' = child j -> joint_ok (links_size fe) j' ->
  tree_ok (set_joint fe index j').
Proof.
  intros [Hwf Hdyn] [_ Hj]%joint_at_Ok Hc Hok. split; [|done].
  by apply (set_joint_wf fe index j).
Qed.

(** ** Updating the link of a joint *)

Lemma update_joint_link_Ok f index fe fe' :
  update_joint_link f index fe = Ok fe' <->
  exists j b, joint_at fe index = Ok j /\
    mb_update_link f (joint_link j) (multiBody fe) = Ok b /\
    fe' = set_multiBody fe b.
Proof.
  unfold update_joint_link. rewrite bind_Ok_inv. split.
  - intros (j & Hj & (b & Hb & [= <-])%bind_Ok_inv). eauto.
  - intros (j & b & Hj & Hb & ->). exists j. by rewrite Hb.
Qed.

Lemma update_joint_link_total f index fe :
  tree_ok fe -> 0 <= index < joints_size fe ->
  exists fe', update_joint_link f index fe = Ok fe'.
Proof.
  intros Hok [j Hj]%joint_at_total.
  destruct (joint_dyn_total _ _ _ Hok Hj) as [l Hl].
  destruct (mb_update_link_total f _ _ _ Hl) as [b Hb].
  eexists. apply update_joint_link_Ok. eauto.
Qed.

Lemma update_joint_link_Err f index fe e :
  tree_ok fe -> update_joint_link f index fe = Err e ->
  e = IndexOutOfRange /\ ~ (0 <= index < joints_size fe).
Proof.
  intros Hok He. destruct (decide (0 <= index < joints_size fe)) as [Hi|Hi].
  - destruct (update_joint_link_total f _ _ Hok Hi) as [fe' Hfe']. congruence.
  - unfold update_joint_link in He.
    apply bind_Err_inv in He as [He%joint_at_Err | (j & Hj%joint_at_Ok & _)];
      [tauto|].
    destruct Hj as [? Hj%lookup_lt_Some]. unfold joints_size in Hi. lia.
Qed.

#[local] Hint Resolve tree_ok_update_link : sf.

Lemma update_joint_link_ok f index fe fe' :
  tree_ok fe -> update_joint_link f index fe = Ok fe' -> tree_ok fe'.
Proof.
  intros Hok (j & b & _ & Hb & ->)%update_joint_link_Ok.
  eauto with sf.
Qed.

(** The joint's record is updated, the other joints' records are not. *)
Lemma joint_dyn_update f index fe fe' k :
  tree_ok fe -> update_joint_link f index fe = Ok fe' ->
  joint_dyn fe' k =
  if decide (k = index) then f <$> joint_dyn fe index else joint_dyn fe k.
Proof.
  intros [Hwf _] (j & b & Hj & Hb & ->)%update_joint_link_Ok.
  unfold joint_dyn. rewrite joint_at_set_multiBody. simpl.
  destruct (decide (k = index)) as [->|Hk].
  - rewrite Hj. simpl. rewrite (mb_link_update _ _ _ _ _ Hb).
    by rewrite decide_True.
  - destruct (joint_at fe k) as [j'|] eqn:Hj'; [simpl|done].
    rewrite (mb_link_update _ _ _ _ _ Hb). rewrite decide_False; [done|].
    intros Heq. apply Hk. by apply (joint_link_inj fe k index j' j).
Qed.

(** ** The operations as updates and views *)

Lemma DriveJoint_update index forceTorque fe :
  DriveJoint index forceTorque fe =
  update_joint_link (add_jointTorque forceTorque) index fe.
Proof. done. Qed.

Lemma setJointIC_update index position velocity fe :
  setJointIC index position velocity fe =
  update_joint_link (with_jointPos position) index fe ≫=
  update_joint_link (with_jointVel velocity) index.
Proof.
  unfold setJointIC, update_joint_link, mb_setJointPos, mb_setJointVel.
  destruct (joint_at fe index) as [j|] eqn:Hj; [simpl|done].
  destruct (mb_update_link _ _ (multiBody fe)) as [b|]; [simpl|done].
  rewrite joint_at_set_multiBody, Hj. simpl.
  by destruct (mb_update_link _ _ b).
Qed.

Lemma getJointTorque_dyn index fe :
  getJointTorque index fe = jointTorque <$> joint_dyn fe index.
Proof.
  unfold getJointTorque, joint_dyn, mb_getJointTorque.
  by destruct (joint_at fe index).
Qed.

Lemma getJointPosition_dyn index fe j :
  joint_at fe index = Ok j ->
  getJointPosition index fe =
  (fun l => (jointPos l, type j)) <$> joint_dyn fe index.
Proof.
  intros Hj. unfold getJointPosition, joint_dyn, mb_getJointPos.
  rewrite Hj. simpl. by destruct (mb_link _ _).
Qed.

Lemma getJointVelocity_dyn index fe j :
  joint_at fe index = Ok j ->
  getJointVelocity index fe =
  (fun l => (jointVel l, type j)) <$> joint_dyn fe index.
Proof.
  intros Hj. unfold getJointVelocity, joint_dyn, mb_getJointVel.
  rewrite Hj. simpl. by destruct (mb_link _ _).
Qed.

Lemma joint_dyn_total' fe index :
  tree_ok fe -> 0 <= index < joints_size fe ->
  exists j l, joint_at fe index = Ok j /\ joint_dyn fe index = Ok l.
Proof.
  intros Hok [j Hj]%joint_at_total.
  destruct (joint_dyn_total _ _ _ Hok Hj) as [l Hl].
  exists j, l. split; [done|]. unfold joint_dyn. by rewrite Hj.
Qed.

(** C25. Round trip of the initial conditions: on a well-formed tree,
    [setJointIC] on a joint index in range returns normally, and
    [getJointPosition] and [getJointVelocity] then return exactly the
    position and the velocity that were set, with the joint's type; the
    torque applied to the joint and the records of the other joints are
    unchanged. *)
Theorem setJointIC_roundtrip index position velocity fe :
  tree_ok fe -> 0 <= index < joints_size fe ->
  exists fe' j,
    setJointIC index position velocity fe = Ok fe' /\
    joint_at fe index = Ok j /\
    getJointPosition index fe' = Ok (position, type j) /\
    getJointVelocity index fe' = Ok (velocity, type j) /\
    getJointTorque index fe' = getJointTorque index fe /\
    forall k, k <> index -> joint_dyn fe' k = joint_dyn fe k.
Proof.
  intros Hok Hi. destruct (joint_dyn_total' _ _ Hok Hi) as (j & l & Hj & Hl).
  destruct (update_joint_link_total (with_jointPos position) _ _ Hok Hi)
    as [fe1 H1].
  pose proof (update_joint_link_ok _ _ _ _ Hok H1) as Hok1.
  assert (joints_size fe1 = joints_size fe) as Hn.
  { by apply update_joint_link_Ok in H1 as (? & ? & _ & _ & ->). }
  destruct (update_joint_link_total (with_jointVel velocity) index fe1 Hok1)
    as [fe2 H2]; [lia|].
  assert (joint_at fe2 index = Ok j) as Hj2.
  { apply update_joint_link_Ok in H1 as (? & ? & _ & _ & ->).
    by apply update_joint_link_Ok in H2 as (? & ? & _ & _ & ->). }
  exists fe2, j. rewrite setJointIC_update, H1. simpl.
  rewrite (getJointPosition_dyn _ _ _ Hj2), (getJointVelocity_dyn _ _ _ Hj2),
    !getJointTorque_dyn.
  rewrite !(joint_dyn_update _ _ _ _ _ Hok1 H2), !(joint_dyn_update _ _ _ _ _ Hok H1).
  rewrite !decide_True by done. rewrite Hl. simpl. do 5 (split; [done|]).
  intros k Hk. rewrite (joint_dyn_update _ _ _ _ _ Hok1 H2), decide_False by done.
  by rewrite (joint_dyn_update _ _ _ _ _ Hok H1), decide_False by done.
Qed.

(** ** Injected torques *)

Lemma joints_size_update f index fe fe' :
  update_joint_link f index fe = Ok fe' -> joints_size fe' = joints_size fe.
Proof. by intros (? & ? & _ & _ & ->)%update_joint_link_Ok. Qed.

(** [DriveJoint] on a well-formed tree and a joint index in range
    returns normally and adds the given value to the torque applied to that
    joint; position and velocity of the joint, the records of the other
    joints and the invariant are kept. *)
Theorem DriveJoint_accumulates index forceTorque fe :
  tree_ok fe -> 0 <= index < joints_size fe ->
  exists fe' l,
    DriveJoint index forceTorque fe = Ok fe' /\
    joint_dyn fe index = Ok l /\
    joint_dyn fe' index = Ok (add_jointTorque forceTorque l) /\
    (forall k, k <> index -> joint_dyn fe' k = joint_dyn fe k) /\
    tree_ok fe'.
Proof.
  intros Hok Hi. destruct (joint_dyn_total' _ _ Hok Hi) as (j & l & Hj & Hl).
  destruct (update_joint_link_total (add_jointTorque forceTorque) _ _ Hok Hi)
    as [fe' Hfe'].
  exists fe', l. rewrite DriveJoint_update. do 2 (split; [done|]).
  split; [|split; [|by eapply update_joint_link_ok]].
  - by rewrite (joint_dyn_update _ _ _ _ _ Hok Hfe'), decide_True, Hl by done.
  - intros k Hk. by rewrite (joint_dyn_update _ _ _ _ _ Hok Hfe'), decide_False by done.
Qed.

Lemma DriveJoints_torque index taus fe l :
  tree_ok fe -> 0 <= index < joints_size fe -> joint_dyn fe index = Ok l ->
  exists fe', DriveJoints index taus fe = Ok fe' /\
    getJointTorque index fe' = Ok (foldl Qplus (jointTorque l) taus).
Proof.
  revert fe l. induction taus as [|tau taus IH]; intros fe l Hok Hi Hl; simpl.
  - exists fe. by rewrite getJointTorque_dyn, Hl.
  - destruct (update_joint_link_total (add_jointTorque tau) _ _ Hok Hi)
      as [fe1 H1].
    rewrite DriveJoint_update, H1. simpl.
    apply (IH fe1 (add_jointTorque tau l)).
    + by eapply update_joint_link_ok.
    + by rewrite (joints_size_update _ _ _ _ H1).
    + by rewrite (joint_dyn_update _ _ _ _ _ Hok H1), decide_True, Hl by done.
Qed.

(** ** The step *)

Lemma StepSimulation_ok dt fe : tree_ok fe -> tree_ok (StepSimulation dt fe).
Proof.
  intros Hok. apply tree_ok_set_multiBody;
    [done | apply mb_step_numLinks | apply mb_step_length].
Qed.

Lemma StepSimulation_unloaded dt fe index l :
  joint_dyn (StepSimulation dt fe) index = Ok l -> unloaded l.
Proof.
  unfold joint_dyn. intros (j & _ & [_ Hl]%mb_link_Ok)%bind_Ok_inv.
  destruct (mb_step_consumes dt (constraints fe) (multiBody fe)) as [Hall _].
  exact (Forall_lookup_1 _ _ _ _ Hall Hl).
Qed.

(** [getJointTorque] is the ledger of the step's [DriveJoint] calls:
    after a step of the simulation and any sequence of [DriveJoint] calls
    on a joint, all of which succeed, it returns the sum of the values they
    injected (what was applied before the step has been consumed). *)
Theorem getJointTorque_ledger dt index taus fe :
  tree_ok fe -> 0 <= index < joints_size fe ->
  exists fe', DriveJoints index taus (StepSimulation dt fe) = Ok fe' /\
    getJointTorque index fe' = Ok (foldl Qplus 0%Q taus).
Proof.
  intros Hok Hi. pose proof (StepSimulation_ok dt _ Hok) as Hok'.
  destruct (joint_dyn_total' (StepSimulation dt fe) index Hok' Hi)
    as (j & l & _ & Hl).
  destruct (StepSimulation_unloaded _ _ _ _ Hl) as [<- _].
  by apply DriveJoints_torque.
Qed.

(** ** Damping *)

Lemma apply_joint_damping_update fe (k : nat) j b :
  joints fe !! k = Some j ->
  apply_joint_damping fe k b = mb_update_link (damped j) (joint_link j) b.
Proof.
  intros Hj. unfold apply_joint_damping, mb_getJointVel, mb_addJointForce,
    mb_update_link. rewrite (vec_get_nat _ _ _ Hj). simpl.
  by destruct (mb_link (joint_link j) b).
Qed.

Lemma damping_upto_step fe k b :
  tree_ok fe -> (k < length (joints fe))%nat ->
  damping_upto fe (multiBody fe) k b ->
  exists b', apply_joint_damping fe k b = Ok b' /\
    damping_upto fe (multiBody fe) (S k) b'.
Proof.
  intros Hok Hk (Hn & Hl & Hdyn).
  destruct (lookup_lt_is_Some_2 _ _ Hk) as [jk Hjk].
  assert (joint_at fe (Z.of_nat k) = Ok jk) as Hat.
  { apply joint_at_Ok. rewrite Nat2Z.id. split; [lia|done]. }
  destruct (joint_dyn_total _ _ _ Hok Hat) as [l0 Hl0].
  pose proof (Hdyn _ _ Hat) as Hlk. rewrite decide_False, Hl0 in Hlk by lia.
  destruct (mb_update_link_total (damped jk) _ _ _ Hlk) as [b' Hb'].
  exists b'. rewrite (apply_joint_damping_update _ _ _ _ Hjk). split; [done|].
  split; [by rewrite (mb_update_link_numLinks _ _ _ _ Hb')|].
  split; [by rewrite (mb_update_link_length _ _ _ _ Hb')|].
  intros index j Hj. rewrite (mb_link_update _ _ _ _ _ Hb').
  destruct (decide (index = Z.of_nat k)) as [->|Hne].
  - assert (j = jk) as -> by congruence.
    rewrite !decide_True by (done || lia). by rewrite Hlk, Hl0.
  - rewrite decide_False.
    + rewrite (Hdyn _ _ Hj). repeat case_decide; done || lia.
    + intros Heq. apply Hne.
      by apply (joint_link_inj fe _ _ j jk (proj1 Hok)).
Qed.

Lemma damping_loop fe :
  tree_ok fe ->
  exists b, for_range 0 (length (joints fe)) (apply_joint_damping fe)
              (multiBody fe) = Ok b /\
    damping_upto fe (multiBody fe) (length (joints fe)) b.
Proof.
  intros Hok.
  apply (for_range_inv (damping_upto fe (multiBody fe)) 0 (length (joints fe))).
  - split_and!; try done. intros index j [Hi _]%joint_at_Ok.
    by rewrite decide_False by lia.
  - intros k b Hk Hinv. apply damping_upto_step; [done | lia | done].
Qed.

(** The run of [ApplyDamping]. *)
Lemma ApplyDamping_run fe :
  tree_ok fe ->
  exists b, ApplyDamping fe = Ok (set_multiBody fe b) /\
    same_size b (multiBody fe) /\
    forall index j l, joint_at fe index = Ok j -> joint_dyn fe index = Ok l ->
      joint_dyn (set_multiBody fe b) index = Ok (damped j l).
Proof.
  intros Hok. destruct (damping_loop fe Hok) as (b & Hb & Hn & Hl & Hdyn).
  exists b. unfold ApplyDamping. rewrite Hb. do 2 (split; [done|]).
  intros index j l Hj Hjl. unfold joint_dyn in *. rewrite joint_at_set_multiBody.
  rewrite Hj in *. simpl in *. rewrite (Hdyn _ _ Hj), Hjl.
  apply joint_at_Ok in Hj as [_ Hj%lookup_lt_Some]. by rewrite decide_True by lia.
Qed.

(** [ApplyDamping] on a well-formed tree returns normally; it adds to
    the generalized force of every joint the damping force
    [- sign(v) * sigDamping - v * velDamping] of that joint's velocity [v],
    once, and changes neither positions, velocities, manually applied
    torques, link forces, the joint table nor the links. *)
Theorem ApplyDamping_correct fe :
  tree_ok fe ->
  exists fe', ApplyDamping fe = Ok fe' /\ tree_ok fe' /\
    links fe' = links fe /\ joints fe' = joints fe /\
    forall index j l, joint_at fe index = Ok j -> joint_dyn fe index = Ok l ->
      joint_dyn fe' index =
      Ok (add_jointForce
            (damping_force (sigDamping j) (velDamping j) (jointVel l)) l).
Proof.
  intros Hok. destruct (ApplyDamping_run fe Hok) as (b & Hb & [Hn Hl] & Hdyn).
  exists (set_multiBody fe b). split; [done|].
  split; [by apply tree_ok_set_multiBody|]. by do 2 (split; [done|]).
Qed.

(** Damping does not show in [getJointTorque]: the query returns after
    [ApplyDamping] what it returned before, error included. *)
Lemma getJointTorque_ApplyDamping index fe fe' :
  tree_ok fe -> ApplyDamping fe = Ok fe' ->
  getJointTorque index fe' = getJointTorque index fe.
Proof.
  intros Hok Hfe'. destruct (ApplyDamping_run fe Hok) as (b & Hb & _ & Hdyn).
  assert (fe' = set_multiBody fe b) as -> by congruence.
  rewrite !getJointTorque_dyn.
  destruct (joint_at fe index) as [j|e] eqn:Hj;
    [|unfold joint_dyn; by rewrite joint_at_set_multiBody, Hj].
  destruct (joint_dyn_total _ _ _ Hok Hj) as [l Hl].
  assert (joint_dyn fe index = Ok l) as Hjl by (unfold joint_dyn; by rewrite Hj).
  by rewrite (Hdyn _ _ _ Hj Hjl), Hjl.
Qed.

(** Damping dissipates: with non-negative coefficients the damping
    force never acts along the velocity, and it vanishes at rest. *)
Theorem damping_force_opposes static viscous v :
  (0 <= static)%Q -> (0 <= viscous)%Q ->
  (damping_force static viscous v * v <= 0)%Q /\
  (v == 0 -> damping_force static viscous v == 0)%Q.
Proof.
  intros Hs Hv. unfold damping_force, Qsgn. repeat case_decide; split; intros; nra.
Qed.

(** ** Gravity *)

Lemma mb_link_addBaseForce F i b : mb_link i (mb_addBaseForce F b) = mb_link i b.
Proof. unfold mb_link, mb_addBaseForce. by rewrite mb_dyn_set. Qed.

Lemma mb_link_addBaseTorque tau i b : mb_link i (mb_addBaseTorque tau b) = mb_link i b.
Proof. unfold mb_link, mb_addBaseTorque. by rewrite mb_dyn_set. Qed.

Lemma mb_update_link_base f i b b' :
  mb_update_link f i b = Ok b' ->
  baseForce (mb_dyn b') = baseForce (mb_dyn b) /\
  baseTorque (mb_dyn b') = baseTorque (mb_dyn b).
Proof. intros (l & _ & ->)%mb_update_link_Ok. by rewrite mb_dyn_set. Qed.

Lemma tree_links_dyn fe :
  tree_ok fe ->
  (length (links fe) - 1 <= length (dyn_links (mb_dyn (multiBody fe))))%nat /\
  (0 < length (links fe))%nat.
Proof.
  intros [Hwf Hdyn]. pose proof (twf_declared _ Hwf). pose proof (twf_base _ Hwf).
  unfold dyn_wf, links_size in *. lia.
Qed.

Lemma gravity_upto_step g fe b0 k b :
  (S k < length (links fe))%nat ->
  (length (links fe) - 1 <= length (dyn_links (mb_dyn b0)))%nat ->
  gravity_upto g fe b0 k b ->
  exists b', apply_link_gravity g fe k b = Ok b' /\ gravity_upto g fe b0 (S k) b'.
Proof.
  intros Hk Hlen (Hn & Hl & HbF & HbT & Hdyn).
  destruct (lookup_lt_is_Some_2 _ _ Hk) as [lk Hlk].
  destruct (mb_link_in_range (Z.of_nat k) b0) as [l0 Hl0]; [lia|].
  pose proof (Hdyn _ _ Hlk) as Hcur. rewrite decide_False, Hl0 in Hcur by lia.
  destruct (mb_update_link_total
              (add_linkForce (vscale g (solid_mass (solid lk)))) _ _ _ Hcur)
    as [b' Hb'].
  exists b'. unfold apply_link_gravity, mb_addLinkForce.
  replace (Z.of_nat k + 1) with (Z.of_nat (S k)) by lia.
  rewrite (vec_get_nat _ _ _ Hlk). simpl. split; [done|].
  destruct (mb_update_link_base _ _ _ _ Hb') as [HF HT].
  split; [by rewrite (mb_update_link_numLinks _ _ _ _ Hb')|].
  split; [by rewrite (mb_update_link_length _ _ _ _ Hb')|].
  split; [congruence|]. split; [congruence|].
  intros i li Hli. rewrite (mb_link_update _ _ _ _ _ Hb').
  destruct (decide (i = k)) as [->|Hne].
  - assert (li = lk) as -> by congruence.
    rewrite !decide_True by (done || lia). by rewrite Hcur, Hl0.
  - rewrite decide_False by lia. rewrite (Hdyn _ _ Hli).
    repeat case_decide; done || lia.
Qed.

Lemma gravity_loop g fe b0 :
  (0 < length (links fe))%nat ->
  (length (links fe) - 1 <= length (dyn_links (mb_dyn b0)))%nat ->
  exists b, for_range 0 (length (links fe) - 1) (apply_link_gravity g fe) b0 = Ok b /\
    gravity_upto g fe b0 (length (links fe) - 1) b.
Proof.
  intros Hpos Hlen.
  apply (for_range_inv (gravity_upto g fe b0) 0 (length (links fe) - 1)).
  - by split_and!.
  - intros k b Hk Hinv. apply gravity_upto_step; [lia | done | done].
Qed.

Lemma mb_addBaseForce_dyn F b :
  mb_getNumLinks (mb_addBaseForce F b) = mb_getNumLinks b /\
  dyn_links (mb_dyn (mb_addBaseForce F b)) = dyn_links (mb_dyn b) /\
  baseForce (mb_dyn (mb_addBaseForce F b)) = vadd (baseForce (mb_dyn b)) F /\
  baseTorque (mb_dyn (mb_addBaseForce F b)) = baseTorque (mb_dyn b).
Proof. unfold mb_addBaseForce. by rewrite mb_set_dyn_numLinks, mb_dyn_set. Qed.

Lemma mb_addBaseTorque_dyn tau b :
  mb_getNumLinks (mb_addBaseTorque tau b) = mb_getNumLinks b /\
  dyn_links (mb_dyn (mb_addBaseTorque tau b)) = dyn_links (mb_dyn b) /\
  baseForce (mb_dyn (mb_addBaseTorque tau b)) = baseForce (mb_dyn b) /\
  baseTorque (mb_dyn (mb_addBaseTorque tau b)) = vadd (baseTorque (mb_dyn b)) tau.
Proof. unfold mb_addBaseTorque. by rewrite mb_set_dyn_numLinks, mb_dyn_set. Qed.

(** The run of [ApplyGravity]: the weight of the base, then the loop. *)
Lemma ApplyGravity_run g fe :
  tree_ok fe ->
  exists base b,
    links fe !! 0%nat = Some base /\
    ApplyGravity g fe = Ok (set_multiBody fe b) /\
    gravity_upto g fe
      (mb_addBaseForce (vscale g (solid_mass (solid base))) (multiBody fe))
      (length (links fe) - 1) b.
Proof.
  intros Hok. destruct (tree_links_dyn fe Hok) as [Hlen Hpos].
  destruct (lookup_lt_is_Some_2 (links fe) 0 Hpos) as [base Hbase].
  set (b0 := mb_addBaseForce (vscale g (solid_mass (solid base))) (multiBody fe)).
  destruct (gravity_loop g fe b0 Hpos) as (b & Hb & Hup).
  { unfold b0. by rewrite (proj1 (proj2 (mb_addBaseForce_dyn _ _))). }
  exists base, b. split; [done|]. split; [|done]. unfold ApplyGravity.
  rewrite (proj2 (vec_get_Ok _ 0 base) Hbase). simpl. fold b0. by rewrite Hb.
Qed.

(** [ApplyGravity] on a well-formed tree returns normally; it adds the
    weight [g * mass] of the base to the force on the base and the weight of
    every other link to the force on that link, once, and changes nothing
    else. *)
Theorem ApplyGravity_correct g fe :
  tree_ok fe ->
  exists fe' base,
    ApplyGravity g fe = Ok fe' /\ tree_ok fe' /\
    links fe' = links fe /\ joints fe' = joints fe /\
    links fe !! 0%nat = Some base /\
    baseForce (mb_dyn (multiBody fe')) =
      vadd (baseForce (mb_dyn (multiBody fe))) (vscale g (solid_mass (solid base))) /\
    forall (i : nat) lk l,
      links fe !! S i = Some lk -> mb_link (Z.of_nat i) (multiBody fe) = Ok l ->
      mb_link (Z.of_nat i) (multiBody fe') =
      Ok (add_linkForce (vscale g (solid_mass (solid lk))) l).
Proof.
  intros Hok.
  destruct (ApplyGravity_run g fe Hok) as (base & b & Hbase & Hrun & Hup).
  destruct Hup as (Hn & Hl & HF & _ & Hdyn).
  destruct (mb_addBaseForce_dyn (vscale g (solid_mass (solid base))) (multiBody fe))
    as (Hn0 & Hl0 & HF0 & _).
  exists (set_multiBody fe b), base. split; [done|].
  split; [apply tree_ok_set_multiBody; congruence|].
  do 3 (split; [done|]). split; [simpl; congruence|].
  intros i lk l Hlk Hlink. simpl. rewrite (Hdyn _ _ Hlk), mb_link_addBaseForce, Hlink.
  apply lookup_lt_Some in Hlk. by rewrite decide_True by lia.
Qed.

(** ** Motors *)

Lemma set_servo_Ok index law fe fe' :
  set_servo index law fe = Ok fe' <->
  exists j m, joint_at fe index = Ok j /\ motor j = Some m /\
    fe' = set_joint fe index (with_motor j (Some (mkJointMotor law))).
Proof.
  unfold set_servo. rewrite bind_Ok_inv. split.
  - intros (j & Hj & Hm). destruct (motor j) as [m|] eqn:E; [|done].
    exists j, m. by simplify_eq.
  - intros (j & m & Hj & Hm & ->). exists j. by rewrite Hm.
Qed.

Lemma set_servo_ok index law fe fe' :
  tree_ok fe -> set_servo index law fe = Ok fe' -> tree_ok fe'.
Proof.
  intros Hok (j & m & Hj & Hm & ->)%set_servo_Ok.
  apply (tree_ok_set_joint fe index j); [done..|].
  destruct (joint_at_ok _ _ _ (proj1 Hok) Hj) as [Hp Hc Hf Hl].
  split; try done. simpl. intros Ht. destruct (Hf Ht). congruence.
Qed.

Lemma getMotorCommand_set_servo index law fe j m l :
  joint_at fe index = Ok j -> motor j = Some m -> joint_dyn fe index = Ok l ->
  exists fe', set_servo index law fe = Ok fe' /\ multiBody fe' = multiBody fe /\
    getMotorCommand index fe' = Ok (motor_command (mkJointMotor law) l).
Proof.
  intros Hj Hm Hl. eexists. split; [apply set_servo_Ok; eauto|]. split; [done|].
  unfold getMotorCommand, joint_dyn, joint_link in *.
  rewrite (joint_at_set_joint _ _ _ _ Hj). rewrite Hj in Hl. simpl in *.
  by rewrite Hl.
Qed.

(** The set points install the control law: on a joint with a motor,
    [MotorPositionSetpoint] succeeds and the motor then commands
    [kp * (pos - position)], and [MotorVelocitySetpoint] succeeds and the
    motor then commands [kd * (vel - velocity)], for the joint's current
    position and velocity; the back end is not touched. *)
Theorem MotorSetpoint_law index target gain fe j m l :
  joint_at fe index = Ok j -> motor j = Some m -> joint_dyn fe index = Ok l ->
  (exists fe', MotorPositionSetpoint index target gain fe = Ok fe' /\
     multiBody fe' = multiBody fe /\
     getMotorCommand index fe' = Ok (gain * (target - jointPos l))%Q) /\
  (exists fe', MotorVelocitySetpoint index target gain fe = Ok fe' /\
     multiBody fe' = multiBody fe /\
     getMotorCommand index fe' = Ok (gain * (target - jointVel l))%Q).
Proof.
  intros Hj Hm Hl. split.
  - exact (getMotorCommand_set_servo index (PositionServo target gain) fe j m l
             Hj Hm Hl).
  - exact (getMotorCommand_set_servo index (VelocityServo target gain) fe j m l
             Hj Hm Hl).
Qed.

(** A set point needs a motor: on a joint without one the call is a
    topology violation, and on an index that names no joint an out-of-range
    error; neither changes the tree. *)
Theorem MotorSetpoint_errors index target gain fe :
  (~ (0 <= index < joints_size fe) ->
     MotorPositionSetpoint index target gain fe = Err IndexOutOfRange /\
     MotorVelocitySetpoint index target gain fe = Err IndexOutOfRange) /\
  (forall j, joint_at fe index = Ok j -> motor j = None ->
     MotorPositionSetpoint index target gain fe = Err TopologyViolation /\
     MotorVelocitySetpoint index target gain fe = Err TopologyViolation).
Proof.
  unfold MotorPositionSetpoint, MotorVelocitySetpoint, set_servo. split.
  - intros Hi. by rewrite (proj2 (joint_at_Err fe index IndexOutOfRange)).
  - intros j Hj Hm. rewrite Hj. simpl. by rewrite Hm.
Qed.

(** ** Indices are checked *)

Lemma joint_at_out_of_range fe index :
  ~ (0 <= index < joints_size fe) -> joint_at fe index = Err IndexOutOfRange.
Proof. intros Hi. by apply joint_at_Err. Qed.

(** Every operation that takes a joint index reports an out-of-range
    error for an index that names no joint, the joint count itself
    included; none returns a default value. *)
Theorem joint_index_checked index fe (x y : Scalar) :
  ~ (0 <= index < joints_size fe) ->
  getJointTorque index fe = Err IndexOutOfRange /\
  getJointPosition index fe = Err IndexOutOfRange /\
  getJointVelocity index fe = Err IndexOutOfRange /\
  getMotorCommand index fe = Err IndexOutOfRange /\
  DriveJoint index x fe = Err IndexOutOfRange /\
  setJointIC index x y fe = Err IndexOutOfRange /\
  setJointDamping index x y fe = Err IndexOutOfRange.
Proof.
  intros Hi%joint_at_out_of_range.
  unfold getJointTorque, getJointPosition, getJointVelocity, getMotorCommand,
    DriveJoint, setJointIC, setJointDamping.
  by rewrite Hi.
Qed.

(** ** Every actuation call keeps the shape of the tree *)

Lemma same_size_update f i b b' : mb_update_link f i b = Ok b' -> same_size b' b.
Proof.
  intros Hb. split; eauto with sf.
Qed.

Lemma same_size_trans b1 b2 b3 : same_size b1 b2 -> same_size b2 b3 -> same_size b1 b3.
Proof. intros [] []. split; congruence. Qed.

#[local] Hint Resolve same_size_update same_size_trans : sf.

Lemma acted_update f index fe fe' :
  update_joint_link f index fe = Ok fe' -> acted fe fe'.
Proof.
  intros (j & b & _ & Hb & ->)%update_joint_link_Ok. left.
  eauto with sf.
Qed.

Lemma acted_link f (index : Z) fe (base : FeatherstoneEntity) r :
  (if decide (0 <= index < links_size fe) then
     if decide (index = 0) then Ok base
     else b ← mb_update_link f (index - 1) (multiBody fe); Ok (set_multiBody fe b)
   else Err IndexOutOfRange) = Ok r ->
  acted fe base -> acted fe r.
Proof.
  intros Hr Hbase. repeat case_decide; simplify_eq; [done|].
  apply bind_Ok_inv in Hr as (b & Hb & [= <-]). left.
  eauto with sf.
Qed.

Lemma acted_servo index law fe fe' :
  tree_ok fe -> set_servo index law fe = Ok fe' -> acted fe fe'.
Proof.
  intros Hok (j & m & Hj & Hm & ->)%set_servo_Ok. right.
  exists index, j, (with_motor j (Some (mkJointMotor law))).
  split_and!; try done.
  destruct (joint_at_ok _ _ _ (proj1 Hok) Hj) as [Hp Hc Hf Hl].
  split; try done. simpl. intros Ht. destruct (Hf Ht). congruence.
Qed.

Lemma acted_setJointIC index position velocity fe fe' :
  setJointIC index position velocity fe = Ok fe' -> acted fe fe'.
Proof.
  rewrite setJointIC_update.
  intros (fe1 & (j & b & _ & Hb & ->)%update_joint_link_Ok
              & (j' & b' & _ & Hb' & ->)%update_joint_link_Ok)%bind_Ok_inv.
  left. exists b'. split; [done|].
  eauto with sf.
Qed.

Lemma acted_setJointDamping index c v fe fe' :
  tree_ok fe -> setJointDamping index c v fe = Ok fe' -> acted fe fe'.
Proof.
  intros Hok (j & Hj & Hr)%bind_Ok_inv. case_decide; simplify_eq.
  right. exists index, j, (with_damping j c v). split_and!; try done.
  by destruct (joint_at_ok _ _ _ (proj1 Hok) Hj).
Qed.

#[local] Hint Resolve acted_update acted_servo acted_setJointIC
  acted_setJointDamping : sf.

Lemma act_step_acted fe fe' : tree_ok fe -> act_step fe fe' -> acted fe fe'.
Proof.
  intros Hok Hstep.
  destruct Hstep as
    [index tau fe fe' H | fe fe' H | g fe fe' H | index F fe fe' H
    | index tau fe fe' H | index pos kp fe fe' H | index vel kd fe fe' H
    | index p v fe fe' H | index c v fe fe' H];
    eauto with sf.
  - destruct (ApplyDamping_run fe Hok) as (b & Hb & Hsize & _).
    rewrite Hb in H. simplify_eq. left. by exists b.
  - destruct (ApplyGravity_run g fe Hok) as (base & b & _ & Hrun & Hn & Hl & _).
    rewrite Hrun in H. simplify_eq. left. exists b. split; [done|].
    destruct (mb_addBaseForce_dyn (vscale g (solid_mass (solid base))) (multiBody fe))
      as (Hn0 & Hl0 & _). split; congruence.
  - apply (acted_link _ _ _ _ _ H). left. eexists. split; [done|].
    destruct (mb_addBaseForce_dyn F (multiBody fe)) as (Hn0 & Hl0 & _).
    split; congruence.
  - apply (acted_link _ _ _ _ _ H). left. eexists. split; [done|].
    destruct (mb_addBaseTorque_dyn tau (multiBody fe)) as (Hn0 & Hl0 & _).
    split; congruence.
Qed.

Lemma acted_ok fe fe' : tree_ok fe -> acted fe fe' -> tree_ok fe'.
Proof.
  intros Hok [(b & -> & Hn & Hl) | (index & j & j' & Hj & -> & _ & _ & Hc & Hjok)].
  - by apply tree_ok_set_multiBody.
  - by apply (tree_ok_set_joint fe index j).
Qed.

Lemma topology_set_joint fe index j j' :
  joint_at fe index = Ok j ->
  type j' = type j -> parent j' = parent j -> child j' = child j ->
  topology (set_joint fe index j') = topology fe.
Proof.
  intros [_ Hj]%joint_at_Ok Ht Hp Hc. unfold topology. simpl. f_equal.
  rewrite list_fmap_insert, Ht, Hp, Hc. apply list_insert_id.
  by rewrite list_lookup_fmap, Hj.
Qed.

Lemma acted_topology fe fe' : acted fe fe' -> topology fe' = topology fe.
Proof.
  intros [(b & -> & _) | (index & j & j' & Hj & -> & Ht & Hp & Hc & _)];
    [done | by apply (topology_set_joint fe index j)].
Qed.

(** ** Construction keeps the dynamic state *)

Lemma build_step_dyn fe fe' :
  build_step fe fe' -> mb_dyn (multiBody fe') = mb_dyn (multiBody fe).
Proof.
  intros Hstep. destruct Hstep as
    [s t fe fe' [_ ->]%AddLink_Ok
    | p c pivot axis coll k fe fe' (_ & _ & _ & ->)%add_joint_Ok
    | p c axis coll k fe fe' (_ & _ & _ & ->)%add_joint_Ok
    | p c k fe fe' (_ & _ & _ & ->)%add_joint_Ok
    | index fe fe' (j & _ & _ & _ & ->)%AddJointMotor_Ok
    | index lower upper fe fe' (j & _ & _ & _ & ->)%AddJointLimit_Ok
    | ]; simpl; by rewrite ?mb_dyn_setupJoint.
Qed.

Lemma Create_ok total base fixed : tree_ok (Create total base fixed).
Proof.
  split; [by apply Create_wf|]. unfold dyn_wf. simpl.
  rewrite mb_dyn_new, mb_new_numLinks. simpl. rewrite length_replicate.
  pose proof (u32_range (total - 1)). fold (usub total 1) in *. u32_unfold. lia.
Qed.

Lemma build_step_ok fe fe' : tree_ok fe -> build_step fe fe' -> tree_ok fe'.
Proof.
  intros [Hwf Hdyn] Hstep. split; [by eapply build_step_wf|].
  unfold dyn_wf in *.
  by rewrite (build_step_dyn _ _ Hstep), (build_step_numLinks _ _ Hstep).
Qed.

#[local] Hint Resolve build_step_ok acted_ok act_step_acted StepSimulation_ok
  acted_topology : sf.

(** ** No undefined behaviour *)

Lemma defined_joint_at {A} fe index (k : FeatherstoneJoint -> result A) :
  (forall j, joint_at fe index = Ok j -> defined (k j)) ->
  defined (joint_at fe index ≫= k).
Proof.
  intros Hk. destruct (joint_at fe index) as [j|e] eqn:Hj; simpl; [by apply Hk|].
  apply joint_at_Err in Hj as [-> _]. done.
Qed.

Lemma defined_update f index fe :
  tree_ok fe -> defined (update_joint_link f index fe).
Proof.
  intros Hok He. by destruct (update_joint_link_Err _ _ _ _ Hok He) as [? _].
Qed.

Lemma defined_link_call f index fe base :
  tree_ok fe ->
  defined (A := FeatherstoneEntity)
    (if decide (0 <= index < links_size fe) then
       if decide (index = 0) then Ok base
       else b ← mb_update_link f (index - 1) (multiBody fe);
            Ok (set_multiBody fe b)
     else Err IndexOutOfRange).
Proof.
  intros Hok. repeat case_decide; try done.
  destruct (tree_links_dyn fe Hok) as [Hlen _]. unfold links_size in *.
  destruct (mb_link_in_range (index - 1) (multiBody fe)) as [l Hl]; [lia|].
  destruct (mb_update_link_total f _ _ _ Hl) as [b ->]. done.
Qed.

(** C14. No undefined behaviour: on a well-formed tree, whatever the
    arguments, no actuation or query operation reaches the back end with an
    index out of its range; each returns its result or one of the
    documented errors. *)
Theorem actuation_defined fe index (x y : Scalar) (F : Vector3) :
  tree_ok fe ->
  defined (DriveJoint index x fe) /\ defined (ApplyDamping fe) /\
  defined (ApplyGravity F fe) /\ defined (AddLinkForce index F fe) /\
  defined (AddLinkTorque index F fe) /\ defined (setJointIC index x y fe) /\
  defined (setJointDamping index x y fe) /\
  defined (MotorPositionSetpoint index x y fe) /\
  defined (MotorVelocitySetpoint index x y fe) /\
  defined (getJointPosition index fe) /\ defined (getJointVelocity index fe) /\
  defined (getJointTorque index fe) /\ defined (getMotorCommand index fe).
Proof.
  intros Hok. split_and!.
  - by apply defined_update.
  - by destruct (ApplyDamping_run fe Hok) as (? & -> & _).
  - by destruct (ApplyGravity_run F fe Hok) as (? & ? & _ & -> & _).
  - by apply defined_link_call.
  - by apply defined_link_call.
  - rewrite setJointIC_update.
    destruct (update_joint_link _ index fe) as [fe1|e] eqn:H1; simpl.
    + eapply defined_update, update_joint_link_ok; eauto.
    + by rewrite <- H1; apply defined_update.
  - apply defined_joint_at. intros j _. by case_decide.
  - apply defined_joint_at. intros j _. by destruct (motor j).
  - apply defined_joint_at. intros j _. by destruct (motor j).
  - apply defined_joint_at. intros j Hj. unfold mb_getJointPos.
    by destruct (joint_dyn_total _ _ _ Hok Hj) as [l ->].
  - apply defined_joint_at. intros j Hj. unfold mb_getJointVel.
    by destruct (joint_dyn_total _ _ _ Hok Hj) as [l ->].
  - apply defined_joint_at. intros j Hj. unfold mb_getJointTorque.
    by destruct (joint_dyn_total _ _ _ Hok Hj) as [l ->].
  - apply defined_joint_at. intros j Hj.
    by destruct (joint_dyn_total _ _ _ Hok Hj) as [l ->].
Qed.

End TreeLemmas.

(** * The reference back end satisfies the interface *)

#[export] Instance dyn_multibody_laws : MultiBodyLaws dyn_multibody.
Proof. by split. Qed.

Lemma length_euler_step dt cs ls : length (euler_step dt cs ls) = length ls.
Proof. apply length_imap. Qed.

Lemma euler_step_unloaded dt cs ls : Forall unloaded (euler_step dt cs ls).
Proof.
  apply Forall_lookup. intros i l. unfold euler_step.
  rewrite list_lookup_imap. by intros (l0 & _ & ->)%fmap_Some.
Qed.

#[export] Instance dyn_multibody_state_laws :
  MultiBodyStateLaws dyn_multibody dyn_multibody_state.
Proof.
  split; try done.
  - intros dt cs b. apply length_euler_step.
  - intros dt cs b. split; [apply euler_step_unloaded | done].
Qed.

Lemma pendulum_ok : tree_ok pendulum.
Proof. by apply (bool_decide_unpack _). Qed.

(** * Witnesses *)

Lemma setJointIC_roundtrip_witness :
  exists fe' j,
    setJointIC 0 (1 # 3) 5 pendulum = Ok fe' /\
    joint_at pendulum 0 = Ok j /\
    getJointPosition 0 fe' = Ok ((1 # 3)%Q, type j) /\
    getJointVelocity 0 fe' = Ok (5%Q, type j) /\
    getJointTorque 0 fe' = getJointTorque 0 pendulum /\
    forall k, k <> 0 -> joint_dyn fe' k = joint_dyn pendulum k.
Proof.
  apply (setJointIC_roundtrip 0 (1 # 3) 5 pendulum); [apply pendulum_ok | done].
Defined.

Lemma DriveJoint_accumulates_witness :
  exists fe' l,
    DriveJoint 0 3 pendulum = Ok fe' /\
    joint_dyn pendulum 0 = Ok l /\
    joint_dyn fe' 0 = Ok (add_jointTorque 3 l) /\
    (forall k, k <> 0 -> joint_dyn fe' k = joint_dyn pendulum k) /\
    tree_ok fe'.
Proof.
  apply (DriveJoint_accumulates 0 3 pendulum); [apply pendulum_ok | done].
Defined.

Lemma getJointTorque_ledger_witness :
  exists fe',
    DriveJoints 0 [1; 2; - (1 # 2)]%Q (StepSimulation (1 # 100) pendulum) = Ok fe' /\
    getJointTorque 0 fe' = Ok (foldl Qplus 0 [1; 2; - (1 # 2)])%Q.
Proof.
  apply (getJointTorque_ledger (1 # 100) 0 [1; 2; - (1 # 2)]%Q pendulum);
    [apply pendulum_ok | done].
Defined.

Lemma ApplyDamping_correct_witness :
  exists fe', ApplyDamping pendulum = Ok fe' /\ tree_ok fe' /\
    links fe' = links pendulum /\ joints fe' = joints pendulum /\
    forall index j l,
      joint_at pendulum index = Ok j -> joint_dyn pendulum index = Ok l ->
      joint_dyn fe' index =
      Ok (add_jointForce
            (damping_force (sigDamping j) (velDamping j) (jointVel l)) l).
Proof. apply (ApplyDamping_correct pendulum), pendulum_ok. Defined.


Lemma damping_force_opposes_witness :
  (damping_force (1 # 10) (1 # 5) 2 * 2 <= 0)%Q /\
  (2 == 0 -> damping_force (1 # 10) (1 # 5) 2 == 0)%Q.
Proof. apply (damping_force_opposes (1 # 10) (1 # 5) 2); done. Defined.

Lemma ApplyGravity_correct_witness :
  exists fe' base,
    ApplyGravity (mkVector3 0 0 (-10)) pendulum = Ok fe' /\ tree_ok fe' /\
    links fe' = links pendulum /\ joints fe' = joints pendulum /\
    links pendulum !! 0%nat = Some base /\
    baseForce (mb_dyn (multiBody fe')) =
      vadd (baseForce (mb_dyn (multiBody pendulum)))
        (vscale (mkVector3 0 0 (-10)) (solid_mass (solid base))) /\
    forall (i : nat) lk l,
      links pendulum !! S i = Some lk ->
      mb_link (Z.of_nat i) (multiBody pendulum) = Ok l ->
      mb_link (Z.of_nat i) (multiBody fe') =
      Ok (add_linkForce (vscale (mkVector3 0 0 (-10)) (solid_mass (solid lk))) l).
Proof. apply (ApplyGravity_correct (mkVector3 0 0 (-10)) pendulum), pendulum_ok. Defined.

Lemma MotorSetpoint_law_witness :
  (exists fe', MotorPositionSetpoint 0 1 10 pendulum = Ok fe' /\
     multiBody fe' = multiBody pendulum /\
     getMotorCommand 0 fe' = Ok (10 * (1 - jointPos pendulum_link))%Q) /\
  (exists fe', MotorVelocitySetpoint 0 1 10 pendulum = Ok fe' /\
     multiBody fe' = multiBody pendulum /\
     getMotorCommand 0 fe' = Ok (10 * (1 - jointVel pendulum_link))%Q).
Proof.
  apply (MotorSetpoint_law 0 1 10 pendulum pendulum_joint (mkJointMotor NoServo)
           pendulum_link); done.
Defined.

Lemma joint_index_checked_witness :
  getJointTorque 1 pendulum = Err IndexOutOfRange /\
  getJointPosition 1 pendulum = Err IndexOutOfRange /\
  getJointVelocity 1 pendulum = Err IndexOutOfRange /\
  getMotorCommand 1 pendulum = Err IndexOutOfRange /\
  DriveJoint 1 3 pendulum = Err IndexOutOfRange /\
  setJointIC 1 3 4 pendulum = Err IndexOutOfRange /\
  setJointDamping 1 3 4 pendulum = Err IndexOutOfRange.
Proof. apply (joint_index_checked 1 pendulum 3 4). by intros [_ ?]. Defined.

Lemma actuation_defined_witness :
  defined (DriveJoint 0 1 pendulum) /\ defined (ApplyDamping pendulum) /\
  defined (ApplyGravity vzero pendulum) /\ defined (AddLinkForce 0 vzero pendulum) /\
  defined (AddLinkTorque 0 vzero pendulum) /\ defined (setJointIC 0 1 2 pendulum) /\
  defined (setJointDamping 0 1 2 pendulum) /\
  defined (MotorPositionSetpoint 0 1 2 pendulum) /\
  defined (MotorVelocitySetpoint 0 1 2 pendulum) /\
  defined (getJointPosition 0 pendulum) /\ defined (getJointVelocity 0 pendulum) /\
  defined (getJointTorque 0 pendulum) /\ defined (getMotorCommand 0 pendulum).
Proof. apply (actuation_defined pendulum 0 1 2 vzero), pendulum_ok. Defined.
