(* ===== verification/Configuration.v ===== *)
(** * Configuration: what moves the tree

    The back end's joint positions and velocities are the state of the tree
    (section 3 of the specification); forces are injected for one step and
    integrated by the solve. This file shows the other half of that
    contract for the operations of [Actuation]: no force injection and no
    parameter setting ([DriveJoint], [ApplyDamping], [ApplyGravity],
    [AddLinkForce], [AddLinkTorque], the motor set points,
    [setJointDamping]) changes a joint position or velocity, so between two
    solves [getJointPosition] and [getJointVelocity] answer the same,
    whatever was applied (the idempotence of section 8). Only [setJointIC]
    and the solve move the tree. *)

From Stdlib Require Import ZArith QArith Lia String.
From stdpp Require Import base tactics option list relations.
From S2P Require Import Prelude Linalg Featherstone Actuation.
Local Open Scope Z_scope.

Section Config.
Context `{MS : MultiBodyState}.
Implicit Types (fe : FeatherstoneEntity) (b : btMultiBody).

(** What the back end holds of every link, seen through [p]. *)
Definition reading {A} (p : LinkDyn -> A) b : list A :=
  map p (dyn_links (mb_dyn b)).

(** The coordinate of a link: position and velocity. *)
Definition coordinate (l : LinkDyn) : Scalar * Scalar := (jointPos l, jointVel l).

(** The configuration of the tree: the position and the velocity of every
    joint coordinate the back end holds. *)
Definition configuration b : list (Scalar * Scalar) := reading coordinate b.

(** A successful call that injects a force or sets a parameter: every
    actuation call but [setJointIC]. *)
Inductive force_step : FeatherstoneEntity -> FeatherstoneEntity -> Prop :=
| force_DriveJoint index forceTorque fe fe' :
    DriveJoint index forceTorque fe = Ok fe' -> force_step fe fe'
| force_ApplyDamping fe fe' :
    ApplyDamping fe = Ok fe' -> force_step fe fe'
| force_ApplyGravity g fe fe' :
    ApplyGravity g fe = Ok fe' -> force_step fe fe'
| force_AddLinkForce index F fe fe' :
    AddLinkForce index F fe = Ok fe' -> force_step fe fe'
| force_AddLinkTorque index tau fe fe' :
    AddLinkTorque index tau fe = Ok fe' -> force_step fe fe'
| force_MotorPositionSetpoint index pos kp fe fe' :
    MotorPositionSetpoint index pos kp fe = Ok fe' -> force_step fe fe'
| force_MotorVelocitySetpoint index vel kd fe fe' :
    MotorVelocitySetpoint index vel kd fe = Ok fe' -> force_step fe fe'
| force_setJointDamping index constantFactor viscousFactor fe fe' :
    setJointDamping index constantFactor viscousFactor fe = Ok fe' ->
    force_step fe fe'.

(** An update of a link record that leaves what [p] shows of it. *)
Definition keeps {A} (p : LinkDyn -> A) (f : LinkDyn -> LinkDyn) : Prop :=
  forall l, p (f l) = p l.

(** What a joint query reads of the joint table: the type of the joint and
    the back end's link. *)
Definition joint_key fe (index : Z) : result (eFeatherstoneJointType * Z) :=
  j ← joint_at fe index; Ok (type j, joint_link j).

End Config.

(** * A concrete run *)

(** The pendulum of [Actuation] after a torque of 5 on its joint, its
    damping and gravity. *)
Definition pendulum_driven : FeatherstoneEntity :=
  Eval vm_compute in
    result_get pendulum
      (fe ← DriveJoint 0 5 pendulum; fe' ← ApplyDamping fe;
       ApplyGravity (mkVector3 0 (-10) 0) fe').

(** * Theorems *)

Section ConfigResults.
Context `{MS : MultiBodyState} {ML : MultiBodyLaws M} {MSL : MultiBodyStateLaws M MS}.
Implicit Types (fe : FeatherstoneEntity) (b : btMultiBody).

Lemma force_step_act fe fe' : force_step fe fe' -> act_step fe fe'.
Proof. destruct 1; eauto using act_step. Qed.

Lemma keeps_add_jointTorque tau : keeps coordinate (add_jointTorque tau).
Proof. done. Qed.

Lemma keeps_add_jointForce f : keeps coordinate (add_jointForce f).
Proof. done. Qed.

Lemma keeps_add_linkForce F : keeps coordinate (add_linkForce F).
Proof. done. Qed.

Lemma keeps_add_linkTorque tau : keeps coordinate (add_linkTorque tau).
Proof. done. Qed.

#[local] Hint Resolve keeps_add_jointTorque keeps_add_jointForce
  keeps_add_linkForce keeps_add_linkTorque : sf.

Section Reading.
Context {A : Type} (p : LinkDyn -> A).

(** Updating a link record by a function that keeps what [p] shows keeps
    the reading of the back end. *)
Lemma update_still f i b b' :
  keeps p f -> mb_update_link f i b = Ok b' -> reading p b' = reading p b.
Proof.
  intros Hf (l & [_ Hl]%mb_link_Ok & ->)%mb_update_link_Ok.
  unfold reading. rewrite mb_dyn_set. cbn. rewrite list_fmap_insert.
  apply list_insert_id. rewrite list_lookup_fmap, Hl. cbn. by rewrite Hf.
Qed.

Lemma addBaseForce_still F b : reading p (mb_addBaseForce F b) = reading p b.
Proof. unfold reading, mb_addBaseForce. by rewrite mb_dyn_set. Qed.

Lemma addBaseTorque_still tau b : reading p (mb_addBaseTorque tau b) = reading p b.
Proof. unfold reading, mb_addBaseTorque. by rewrite mb_dyn_set. Qed.

(** A loop whose body keeps the reading keeps it. *)
Lemma for_range_still (body : nat -> btMultiBody -> result btMultiBody) start count b b' :
  (forall k b1 b2, body k b1 = Ok b2 -> reading p b2 = reading p b1) ->
  for_range start count body b = Ok b' -> reading p b' = reading p b.
Proof.
  intros Hbody Hrun.
  apply (for_range_Ok_inv (fun _ b1 => reading p b1 = reading p b)
           _ _ _ _ _ Hrun); [done|].
  intros k b1 b2 _ <- Hb. by eapply Hbody.
Qed.

Lemma apply_link_gravity_still g fe k b b' :
  (forall F, keeps p (add_linkForce F)) ->
  apply_link_gravity g fe k b = Ok b' -> reading p b' = reading p b.
Proof.
  intros Hp. unfold apply_link_gravity, mb_addLinkForce. intros H.
  simplify_result. eauto using update_still.
Qed.

(** The three calls that load a link keep every reading that does not show
    the loads. *)
Lemma ApplyGravity_still g fe fe' :
  (forall F, keeps p (add_linkForce F)) ->
  ApplyGravity g fe = Ok fe' ->
  reading p (multiBody fe') = reading p (multiBody fe).
Proof.
  intros Hp H. unfold ApplyGravity in H. simplify_result. cbn.
  etrans; [|apply addBaseForce_still].
  eapply for_range_still; [|done]. eauto using apply_link_gravity_still.
Qed.

Lemma AddLinkForce_still index F fe fe' :
  (forall F, keeps p (add_linkForce F)) ->
  AddLinkForce index F fe = Ok fe' ->
  reading p (multiBody fe') = reading p (multiBody fe).
Proof.
  intros Hp H. unfold AddLinkForce, mb_addLinkForce in H.
  repeat case_decide; simplify_result; cbn;
    eauto using update_still, addBaseForce_still.
Qed.

Lemma AddLinkTorque_still index tau fe fe' :
  (forall tau, keeps p (add_linkTorque tau)) ->
  AddLinkTorque index tau fe = Ok fe' ->
  reading p (multiBody fe') = reading p (multiBody fe).
Proof.
  intros Hp H. unfold AddLinkTorque, mb_addLinkTorque in H.
  repeat case_decide; simplify_result; cbn;
    eauto using update_still, addBaseTorque_still.
Qed.

(** What [p] shows of a link is read from the reading. *)
Lemma mb_link_reading i b b' :
  reading p b' = reading p b -> p <$> mb_link i b' = p <$> mb_link i b.
Proof.
  intros Hc%(f_equal (.!! Z.to_nat i)). unfold reading in Hc.
  rewrite !list_lookup_fmap in Hc. unfold mb_link, vec_get. case_decide; [|done].
  destruct (dyn_links (mb_dyn b') !! _), (dyn_links (mb_dyn b) !! _);
    cbn in *; try done. by injection Hc as ->.
Qed.

End Reading.

Lemma apply_joint_damping_still fe k b b' :
  apply_joint_damping fe k b = Ok b' -> configuration b' = configuration b.
Proof.
  unfold apply_joint_damping, mb_addJointForce. intros H. simplify_result.
  eauto using update_still with sf.
Qed.

(** Force injection and parameter setting keep the configuration. *)
Lemma force_step_still fe fe' :
  force_step fe fe' ->
  configuration (multiBody fe') = configuration (multiBody fe).
Proof.
  intros Hstep. destruct Hstep as
    [index tau fe fe' H | fe fe' H | g fe fe' H | index F fe fe' H
    | index tau fe fe' H | index pos kp fe fe' (j & m & _ & _ & ->)%set_servo_Ok
    | index vel kd fe fe' (j & m & _ & _ & ->)%set_servo_Ok
    | index c v fe fe' H]; try done;
    eauto using ApplyGravity_still, AddLinkForce_still, AddLinkTorque_still with sf.
  - unfold DriveJoint, mb_addJointTorque in H. simplify_result.
    eauto using update_still with sf.
  - unfold ApplyDamping in H. simplify_result.
    eauto using for_range_still, apply_joint_damping_still.
  - unfold setJointDamping in H. simplify_result. by case_decide; simplify_result.
Qed.

(** The coordinate of a link is read from the configuration. *)
Lemma mb_getJoint_configuration i b b' :
  configuration b' = configuration b ->
  mb_getJointPos i b' = mb_getJointPos i b /\
  mb_getJointVel i b' = mb_getJointVel i b.
Proof.
  intros Hc%(mb_link_reading coordinate i). unfold mb_getJointPos, mb_getJointVel.
  unfold coordinate in Hc.
  destruct (mb_link i b'), (mb_link i b); cbn in *; try done.
  - injection Hc as Hp Hv. by rewrite Hp, Hv.
  - by injection Hc as ->.
Qed.

Lemma getJointPosition_key index fe :
  getJointPosition index fe =
  k ← joint_key fe index;
  (fun p => (p, k.1)) <$> mb_getJointPos k.2 (multiBody fe).
Proof.
  unfold getJointPosition, joint_key. destruct (joint_at fe index); cbn; [|done].
  by destruct (mb_getJointPos _ _).
Qed.

Lemma getJointVelocity_key index fe :
  getJointVelocity index fe =
  k ← joint_key fe index;
  (fun v => (v, k.1)) <$> mb_getJointVel k.2 (multiBody fe).
Proof.
  unfold getJointVelocity, joint_key. destruct (joint_at fe index); cbn; [|done].
  by destruct (mb_getJointVel _ _).
Qed.

Lemma joint_at_set_joint_ne fe index k j' :
  0 <= k -> index <> k -> joint_at (set_joint fe k j') index = joint_at fe index.
Proof.
  intros Hk Hne. unfold joint_at, joints_size. cbn. rewrite length_insert.
  case_decide; [|done]. by rewrite list_lookup_insert_ne by lia.
Qed.

(** An actuation call keeps the keys of the joints. *)
Lemma acted_joint_key fe fe' index :
  acted fe fe' -> joint_key fe' index = joint_key fe index.
Proof.
  intros [(b & -> & _) | (k & j & j' & Hj & -> & Ht & _ & Hc & _)]; [done|].
  unfold joint_key. destruct (decide (index = k)) as [->|Hne].
  - rewrite (joint_at_set_joint _ _ _ _ Hj), Hj. cbn. unfold joint_link.
    by rewrite Ht, Hc.
  - apply joint_at_Ok in Hj as [Hk _]. by rewrite joint_at_set_joint_ne by lia.
Qed.

(** One injection or setting leaves the answers of the joint queries. *)
Lemma force_step_queries fe fe' index :
  tree_ok fe -> force_step fe fe' ->
  getJointPosition index fe' = getJointPosition index fe /\
  getJointVelocity index fe' = getJointVelocity index fe.
Proof.
  intros Hok Hstep. rewrite !getJointPosition_key, !getJointVelocity_key.
  rewrite (acted_joint_key fe fe') by eauto using act_step_acted, force_step_act.
  destruct (joint_key fe index) as [k|e]; cbn; [|done].
  by destruct (mb_getJoint_configuration k.2 _ _ (force_step_still _ _ Hstep))
    as [-> ->].
Qed.

Lemma force_run_ok fe fe' : tree_ok fe -> rtc force_step fe fe' -> tree_ok fe'.
Proof.
  induction 2; eauto using acted_ok, act_step_acted, force_step_act.
Qed.

(** C26. Forces do not move the tree: after any sequence of successful
    force injections and parameter settings ([DriveJoint], [ApplyDamping],
    [ApplyGravity], [AddLinkForce], [AddLinkTorque], the motor set points,
    [setJointDamping]) on a well-formed tree, [getJointPosition] and
    [getJointVelocity] return for every index what they returned before,
    errors included; the tree moves only in a solve or by [setJointIC]. *)
Theorem forces_do_not_move fe fe' index :
  tree_ok fe -> rtc force_step fe fe' ->
  getJointPosition index fe' = getJointPosition index fe /\
  getJointVelocity index fe' = getJointVelocity index fe.
Proof.
  intros Hok Hrun. induction Hrun as [|fe1 fe2 fe3 Hstep Hrun IH]; [done|].
  destruct (force_step_queries fe1 fe2 index Hok Hstep) as [<- <-].
  apply IH. eauto using acted_ok, act_step_acted, force_step_act.
Qed.

End ConfigResults.

(** * The pendulum under load *)

Lemma pendulum_forces : rtc force_step pendulum pendulum_driven.
Proof.
  eapply rtc_l; [by apply (force_DriveJoint 0 5)|].
  eapply rtc_l; [by apply force_ApplyDamping|].
  by apply rtc_once, (force_ApplyGravity (mkVector3 0 (-10) 0)).
Qed.

Lemma forces_do_not_move_witness :
  getJointPosition 0 pendulum_driven = getJointPosition 0 pendulum /\
  getJointVelocity 0 pendulum_driven = getJointVelocity 0 pendulum.
Proof. exact (forces_do_not_move pendulum pendulum_driven 0 pendulum_ok pendulum_forces). Defined.

