(* ===== verification/JointSpace.v ===== *)
(** * JointSpace: the tree as its callers see it

    The actuation and query interface of the tree is keyed by joint index
    (sections 4.2 and 4.3 of the specification), while the state it acts on
    lives in the back end, keyed by link: joint [k] moves the link
    [child - 1] of the back end. This file states what the interface
    promises without that indirection: the tree is a sequence of joint
    records ([JointView]: type, coordinate, velocity, manually applied
    torque, the rest of the step's generalized force, damping coefficients,
    control law), one per joint, and every call reads or updates the record
    of its joint. The theorems show that the
    operations of [Actuation] implement this specification on every
    well-formed tree, errors included ([joint_space] is the abstraction
    function), which rests on the tree invariant that no link has two parent
    joints. *)

From Stdlib Require Import ZArith QArith Lia String.
From stdpp Require Import base tactics option list.
From S2P Require Import Prelude Linalg Featherstone Actuation Configuration.
Local Open Scope Z_scope.

(** * The specification *)

(** A joint as the interface shows it. *)
Record JointView : Type := mkJointView {
  view_type : eFeatherstoneJointType;
  view_position : Scalar;
  view_velocity : Scalar;
  view_applied : Scalar;
  view_force : Scalar;
  view_sigDamping : Scalar;
  view_velDamping : Scalar;
  view_servo : option ServoLaw
}.

Definition js_applied (tau : Scalar) (x : JointView) : JointView :=
  mkJointView (view_type x) (view_position x) (view_velocity x)
    (view_applied x + tau)%Q (view_force x)
    (view_sigDamping x) (view_velDamping x) (view_servo x).

Definition js_forced (f : Scalar) (x : JointView) : JointView :=
  mkJointView (view_type x) (view_position x) (view_velocity x)
    (view_applied x) (view_force x + f)%Q
    (view_sigDamping x) (view_velDamping x) (view_servo x).

Definition js_placed (position velocity : Scalar) (x : JointView) : JointView :=
  mkJointView (view_type x) position velocity (view_applied x) (view_force x)
    (view_sigDamping x) (view_velDamping x) (view_servo x).

Definition js_with_damping (static viscous : Scalar) (x : JointView) : JointView :=
  mkJointView (view_type x) (view_position x) (view_velocity x)
    (view_applied x) (view_force x) static viscous (view_servo x).

Definition js_with_servo (law : ServoLaw) (x : JointView) : JointView :=
  mkJointView (view_type x) (view_position x) (view_velocity x)
    (view_applied x) (view_force x)
    (view_sigDamping x) (view_velDamping x) (Some law).

(** Damping goes to the generalized force of the step, not to the manually
    applied torque. *)
Definition js_damped (x : JointView) : JointView :=
  js_forced (damping_force (view_sigDamping x) (view_velDamping x)
               (view_velocity x)) x.

(** The torque the control law of a joint commands. *)
Definition js_command (x : JointView) : Scalar :=
  match view_servo x with
  | Some (PositionServo targetPos kp) => (kp * (targetPos - view_position x))%Q
  | Some (VelocityServo targetVel kd) => (kd * (targetVel - view_velocity x))%Q
  | _ => 0%Q
  end.

Section Spec.
Implicit Types (v : list JointView) (x : JointView).

(** The record of joint [index], checked. *)
Definition js_at (index : Z) v : result JointView :=
  if decide (0 <= index < Z.of_nat (length v))
  then from_option_err IndexOutOfRange (v !! Z.to_nat index)
  else Err IndexOutOfRange.

Definition js_update (f : JointView -> JointView) (index : Z) v
  : result (list JointView) :=
  x ← js_at index v; Ok (<[Z.to_nat index := f x]> v).

Definition js_DriveJoint (index : Z) (forceTorque : Scalar) v :=
  js_update (js_applied forceTorque) index v.

Definition js_ApplyDamping v : result (list JointView) := Ok (js_damped <$> v).

Definition js_setJointIC (index : Z) (position velocity : Scalar) v :=
  js_update (js_placed position velocity) index v.

Definition js_setJointDamping (index : Z) (constantFactor viscousFactor : Scalar) v
  : result (list JointView) :=
  x ← js_at index v;
  if decide (constantFactor < 0 \/ viscousFactor < 0)%Q then Err InvalidParameter
  else Ok (<[Z.to_nat index := js_with_damping constantFactor viscousFactor x]> v).

Definition js_set_servo (index : Z) (law : ServoLaw) v : result (list JointView) :=
  x ← js_at index v;
  match view_servo x with
  | Some _ => Ok (<[Z.to_nat index := js_with_servo law x]> v)
  | None => Err TopologyViolation
  end.

Definition js_getJointPosition (index : Z) v
  : result (Scalar * eFeatherstoneJointType) :=
  (fun x => (view_position x, view_type x)) <$> js_at index v.

Definition js_getJointVelocity (index : Z) v
  : result (Scalar * eFeatherstoneJointType) :=
  (fun x => (view_velocity x, view_type x)) <$> js_at index v.

Definition js_getJointTorque (index : Z) v : result Scalar :=
  view_applied <$> js_at index v.

Definition js_getMotorCommand (index : Z) v : result Scalar :=
  js_command <$> js_at index v.

End Spec.

(** The calls of the interface that change a joint. *)
Variant JointCall : Type :=
| CallDriveJoint (index : Z) (forceTorque : Scalar)
| CallApplyDamping
| CallSetJointIC (index : Z) (position velocity : Scalar)
| CallSetJointDamping (index : Z) (constantFactor viscousFactor : Scalar)
| CallMotorPositionSetpoint (index : Z) (pos kp : Scalar)
| CallMotorVelocitySetpoint (index : Z) (vel kd : Scalar).

(** What a call does to the joint records. *)
Definition js_call (c : JointCall) (v : list JointView) : result (list JointView) :=
  match c with
  | CallDriveJoint index forceTorque => js_DriveJoint index forceTorque v
  | CallApplyDamping => js_ApplyDamping v
  | CallSetJointIC index position velocity => js_setJointIC index position velocity v
  | CallSetJointDamping index c k => js_setJointDamping index c k v
  | CallMotorPositionSetpoint index pos kp => js_set_servo index (PositionServo pos kp) v
  | CallMotorVelocitySetpoint index vel kd => js_set_servo index (VelocityServo vel kd) v
  end.

(** A sequence of calls, stopping at the first that fails. *)
Fixpoint js_calls (cs : list JointCall) (v : list JointView)
  : result (list JointView) :=
  match cs with
  | [] => Ok v
  | c :: cs' => v' ← js_call c v; js_calls cs' v'
  end.

(** A solve: the applied forces are consumed; where the joints are
    afterwards is the back end's. *)
Definition js_stepped (x x' : JointView) : Prop :=
  view_type x' = view_type x /\ view_applied x' = 0%Q /\ view_force x' = 0%Q /\
  view_sigDamping x' = view_sigDamping x /\
  view_velDamping x' = view_velDamping x /\ view_servo x' = view_servo x.

(** * The abstraction *)

(** The record of a joint, from its descriptor and the dynamic record of its
    link. *)
Definition view_of (j : FeatherstoneJoint) (l : LinkDyn) : JointView :=
  {| view_type := type j;
     view_position := jointPos l;
     view_velocity := jointVel l;
     view_applied := jointTorque l;
     view_force := jointForce l;
     view_sigDamping := sigDamping j;
     view_velDamping := velDamping j;
     view_servo := servo <$> motor j |}.

Section Abstraction.
Context `{MS : MultiBodyState}.
Implicit Types (fe : FeatherstoneEntity).

Definition joint_view fe (index : Z) : result JointView :=
  j ← joint_at fe index; view_of j <$> mb_link (joint_link j) (multiBody fe).

Definition result_to_option {A} (r : result A) : option A :=
  match r with Ok a => Some a | Err _ => None end.

(** The abstraction function: the records of the joints, in index order. *)
Definition joint_space fe : list JointView :=
  omap (fun k => result_to_option (joint_view fe (Z.of_nat k)))
       (seq 0 (length (joints fe))).

(** The implementation of a call. *)
Definition call (c : JointCall) fe : result FeatherstoneEntity :=
  match c with
  | CallDriveJoint index forceTorque => DriveJoint index forceTorque fe
  | CallApplyDamping => ApplyDamping fe
  | CallSetJointIC index position velocity => setJointIC index position velocity fe
  | CallSetJointDamping index c k => setJointDamping index c k fe
  | CallMotorPositionSetpoint index pos kp => MotorPositionSetpoint index pos kp fe
  | CallMotorVelocitySetpoint index vel kd => MotorVelocitySetpoint index vel kd fe
  end.

(** The tree after a call that replaced the record of joint [index] by [g]
    of it. *)
Definition updated (g : JointView -> JointView) (index : Z) fe fe' : Prop :=
  tree_ok fe' /\
  forall k, joint_view fe' k =
    if decide (k = index) then g <$> joint_view fe index else joint_view fe k.

Fixpoint calls (cs : list JointCall) fe : result FeatherstoneEntity :=
  match cs with
  | [] => Ok fe
  | c :: cs' => fe' ← call c fe; calls cs' fe'
  end.

End Abstraction.

(** What the records show of the dynamic record of a link. *)
Definition joint_reading (l : LinkDyn) : Scalar * Scalar * Scalar * Scalar :=
  (jointPos l, jointVel l, jointTorque l, jointForce l).

(** * Concrete inputs *)

(** An arm of three links on the reference back end of [Actuation]: a
    revolute shoulder with a motor and damping and a prismatic wrist, the
    shoulder at position 1/2 with velocity 2. *)
Definition arm2 : FeatherstoneEntity :=
  Eval vm_compute in
    result_get pendulum
      (fe ← AddLink (demo_solid "upper") identity_transform
              (Create 3 (demo_solid "base") true);
       fe ← AddLink (demo_solid "hand") identity_transform fe;
       '(_, fe) ← AddRevoluteJoint 0 1 vzero (mkVector3 0 0 1) false fe;
       '(_, fe) ← AddPrismaticJoint 1 2 (mkVector3 1 0 0) false fe;
       fe ← AddJointMotor 0 fe;
       fe ← setJointDamping 0 (1 # 10) (1 # 5) fe;
       setJointIC 0 (1 # 2) 2 fe).

(** A torque on the shoulder, damping, a force on the wrist, a set point
    for the shoulder, and a call on a joint that does not exist. *)
Definition arm2_calls : list JointCall :=
  [CallDriveJoint 0 5; CallApplyDamping; CallDriveJoint 1 (-3);
   CallMotorPositionSetpoint 0 1 10; CallSetJointIC 2 0 0].

(** * Theorems *)

Section SpecLemmas.
Implicit Types (v : list JointView) (x : JointView).

Lemma js_at_Ok index v x :
  js_at index v = Ok x <-> 0 <= index /\ v !! Z.to_nat index = Some x.
Proof.
  unfold js_at. case_decide as Hi.
  - destruct (v !! Z.to_nat index) eqn:E; cbn; split; try intros [? ?];
      try congruence; split; try congruence; lia.
  - split; [done|]. intros [? Hl%lookup_lt_Some]. lia.
Qed.

Lemma js_at_Err index v e :
  js_at index v = Err e <->
  e = IndexOutOfRange /\ ~ (0 <= index < Z.of_nat (length v)).
Proof.
  unfold js_at. case_decide as Hi.
  - destruct (lookup_lt_is_Some_2 v (Z.to_nat index)) as [x Hx]; [lia|].
    rewrite Hx. cbn. split; [done | tauto].
  - split; [by intros [= <-] | by intros [-> _]].
Qed.

Lemma js_at_insert index k v x :
  0 <= k ->
  js_at index (<[Z.to_nat k := x]> v) =
  if decide (index = k) then (fun _ => x) <$> js_at k v else js_at index v.
Proof.
  intros Hk. unfold js_at. rewrite length_insert.
  destruct (decide (index = k)) as [->|Hne].
  - case_decide as Hi; [|done].
    rewrite list_lookup_insert_eq by lia.
    by destruct (lookup_lt_is_Some_2 v (Z.to_nat k)) as [y ->]; [lia|].
  - case_decide; [|done]. by rewrite list_lookup_insert_ne by lia.
Qed.

Lemma js_at_fmap (f : JointView -> JointView) index v :
  js_at index (f <$> v) = f <$> js_at index v.
Proof.
  unfold js_at. rewrite length_fmap. case_decide; [|done].
  rewrite list_lookup_fmap. by destruct (v !! Z.to_nat index).
Qed.

(** Two sequences with the same records are equal. *)
Lemma js_ext v v' : (forall index, js_at index v = js_at index v') -> v = v'.
Proof.
  intros H. apply list_eq. intros k. specialize (H (Z.of_nat k)).
  destruct (v !! k) as [x|] eqn:Hx.
  - assert (js_at (Z.of_nat k) v = Ok x) as Hk
      by (apply js_at_Ok; rewrite Nat2Z.id; split; [lia | done]).
    rewrite H in Hk. apply js_at_Ok in Hk as [_ Hk]. by rewrite Nat2Z.id in Hk.
  - destruct (v' !! k) as [x'|] eqn:Hx'; [|done].
    assert (js_at (Z.of_nat k) v' = Ok x') as Hk
      by (apply js_at_Ok; rewrite Nat2Z.id; split; [lia | done]).
    rewrite <- H in Hk. apply js_at_Ok in Hk as [_ Hk]. rewrite Nat2Z.id in Hk.
    congruence.
Qed.

End SpecLemmas.

Section Refinement.
Context `{MS : MultiBodyState} {ML : MultiBodyLaws M} {MSL : MultiBodyStateLaws M MS}.
Implicit Types (fe : FeatherstoneEntity) (v : list JointView) (x : JointView).

(** ** The abstraction function *)

Lemma joint_view_dyn fe index j :
  joint_at fe index = Ok j -> joint_view fe index = view_of j <$> joint_dyn fe index.
Proof. intros Hj. unfold joint_view, joint_dyn. by rewrite Hj. Qed.

Lemma joint_view_total fe index :
  tree_ok fe -> 0 <= index < joints_size fe ->
  exists j l, joint_at fe index = Ok j /\ joint_dyn fe index = Ok l /\
    joint_view fe index = Ok (view_of j l).
Proof.
  intros Hok Hi. destruct (joint_dyn_total' fe index Hok Hi) as (j & l & Hj & Hl).
  exists j, l. by rewrite (joint_view_dyn _ _ _ Hj), Hl.
Qed.

Lemma joint_view_out_of_range fe index :
  ~ (0 <= index < joints_size fe) -> joint_view fe index = Err IndexOutOfRange.
Proof. intros Hi. unfold joint_view. by rewrite joint_at_out_of_range. Qed.

Lemma joint_space_length fe :
  tree_ok fe -> length (joint_space fe) = length (joints fe).
Proof.
  intros Hok. apply omap_seq_length. intros k Hk.
  destruct (joint_view_total fe (Z.of_nat k) Hok) as (j & l & _ & _ & ->);
    [unfold joints_size; lia | done].
Qed.

(** The records of the abstraction are those of the joints. *)
Lemma js_at_joint_space fe index :
  tree_ok fe -> js_at index (joint_space fe) = joint_view fe index.
Proof.
  intros Hok. unfold js_at. rewrite joint_space_length by done.
  case_decide as Hi; [|by rewrite joint_view_out_of_range by done].
  unfold joint_space. rewrite omap_seq_lookup; [| |lia].
  - cbn. rewrite Z2Nat.id by lia.
    by destruct (joint_view_total fe index Hok Hi) as (j & l & _ & _ & ->).
  - intros k Hk.
    destruct (joint_view_total fe (Z.of_nat k) Hok) as (j & l & _ & _ & ->);
      [unfold joints_size; lia | done].
Qed.

Lemma joint_space_eq fe v :
  tree_ok fe -> (forall index, js_at index v = joint_view fe index) ->
  joint_space fe = v.
Proof.
  intros Hok H. apply js_ext. intros index. by rewrite js_at_joint_space.
Qed.

(** ** Updates of one joint *)

Lemma updated_joint_space g index fe fe' :
  tree_ok fe -> updated g index fe fe' ->
  js_update g index (joint_space fe) = Ok (joint_space fe') \/
  (~ (0 <= index < joints_size fe) /\ joint_space fe' = joint_space fe).
Proof.
  intros Hok [Hok' Hview].
  destruct (decide (0 <= index < joints_size fe)) as [Hi|Hi].
  - left. destruct (joint_view_total fe index Hok Hi) as (j & l & _ & _ & Hx).
    unfold js_update. rewrite js_at_joint_space, Hx by done. cbn. f_equal.
    symmetry. apply joint_space_eq; [done|]. intros k.
    rewrite js_at_insert, !js_at_joint_space, Hview, Hx by (done || lia).
    by case_decide.
  - right. split; [done|]. apply joint_space_eq; [done|]. intros k.
    rewrite js_at_joint_space, Hview by done. case_decide as Hk; [|done].
    subst k. by rewrite joint_view_out_of_range.
Qed.

Lemma update_joint_link_updated f g index fe fe' :
  tree_ok fe -> (forall j l, view_of j (f l) = g (view_of j l)) ->
  update_joint_link f index fe = Ok fe' -> updated g index fe fe'.
Proof.
  intros Hok Hfg Hup. split; [by eapply update_joint_link_ok|]. intros k.
  pose proof (joint_dyn_update f index fe fe' k Hok Hup) as Hdyn.
  pose proof Hup as (j & b & Hj & _ & ->)%update_joint_link_Ok.
  unfold joint_view at 1. rewrite joint_at_set_multiBody.
  destruct (joint_at fe k) as [jk|e] eqn:Hjk.
  - cbn. change (mb_link (joint_link jk) b) with
      (jk' ← Ok jk; mb_link (joint_link jk') (multiBody (set_multiBody fe b))).
    rewrite <- Hjk, <- (joint_at_set_multiBody fe b k). fold (joint_dyn (set_multiBody fe b) k).
    rewrite Hdyn. case_decide as Hk.
    + subst k. rewrite (joint_view_dyn _ _ _ Hj). rewrite Hj in Hjk. simplify_eq.
      destruct (joint_dyn fe index); cbn; [by rewrite Hfg | done].
    + by rewrite (joint_view_dyn _ _ _ Hjk).
  - cbn. case_decide as Hk; [subst k|]; unfold joint_view; by rewrite Hjk.
Qed.

(** A successful call is a step of the actuation interface, so it keeps
    the tree well formed. *)
Lemma act_step_ok fe fe' : tree_ok fe -> act_step fe fe' -> tree_ok fe'.
Proof. eauto using acted_ok, act_step_acted. Qed.

Lemma set_joint_updated g index fe j j' :
  tree_ok (set_joint fe index j') -> joint_at fe index = Ok j ->
  child j' = child j -> (forall l, view_of j' l = g (view_of j l)) ->
  updated g index fe (set_joint fe index j').
Proof.
  intros Hok' Hj Hc Hg. split; [done|]. intros k. case_decide as Hk.
  - subst k. unfold joint_view. rewrite (joint_at_set_joint _ _ _ _ Hj), Hj. cbn.
    unfold joint_link. rewrite Hc.
    destruct (mb_link _ _); cbn; [by rewrite Hg | done].
  - apply joint_at_Ok in Hj as [Hi _]. unfold joint_view.
    by rewrite joint_at_set_joint_ne by done.
Qed.

(** ** The calls *)

Lemma update_refines f g index fe :
  tree_ok fe -> (forall j l, view_of j (f l) = g (view_of j l)) ->
  joint_space <$> update_joint_link f index fe
  = js_update g index (joint_space fe).
Proof.
  intros Hok Hfg. destruct (update_joint_link f index fe) as [fe'|e] eqn:Hup; cbn.
  - destruct (updated_joint_space g index fe fe' Hok) as [->|[Hi _]];
      [by eapply update_joint_link_updated | done |].
    apply update_joint_link_Ok in Hup as (j & _ & [? ?%lookup_lt_Some]%joint_at_Ok & _).
    unfold joints_size in Hi. lia.
  - apply update_joint_link_Err in Hup as [-> Hi]; [|done].
    unfold js_update. by rewrite js_at_joint_space, joint_view_out_of_range.
Qed.

Lemma js_update_twice g1 g2 index v :
  js_update g1 index v ≫= js_update g2 index
  = js_update (fun x => g2 (g1 x)) index v.
Proof.
  unfold js_update. destruct (js_at index v) as [x|e] eqn:Hx; cbn; [|done].
  pose proof Hx as [Hi _]%js_at_Ok.
  rewrite js_at_insert, decide_True, Hx by done. cbn.
  by rewrite list_insert_insert_eq.
Qed.

Lemma DriveJoint_refines index forceTorque fe :
  tree_ok fe ->
  joint_space <$> DriveJoint index forceTorque fe
  = js_DriveJoint index forceTorque (joint_space fe).
Proof. intros Hok. by apply update_refines. Qed.

Lemma setJointIC_refines index position velocity fe :
  tree_ok fe ->
  joint_space <$> setJointIC index position velocity fe
  = js_setJointIC index position velocity (joint_space fe).
Proof.
  intros Hok. rewrite setJointIC_update. unfold js_setJointIC.
  trans (js_update (fun x => js_placed position (view_velocity x) x) index
           (joint_space fe)
         ≫= js_update (fun x => js_placed (view_position x) velocity x) index);
    [|by rewrite js_update_twice].
  rewrite <- (update_refines (with_jointPos position)) by done.
  destruct (update_joint_link _ index fe) as [fe1|e] eqn:H1; cbn; [|done].
  apply update_refines; [by eapply update_joint_link_ok | done].
Qed.

(** A call that replaces the descriptor of a joint: what it does to the
    records when the joint exists. *)
Lemma set_joint_refines g index fe j j' :
  tree_ok fe -> tree_ok (set_joint fe index j') -> joint_at fe index = Ok j ->
  child j' = child j -> (forall l, view_of j' l = g (view_of j l)) ->
  exists x, js_at index (joint_space fe) = Ok x /\
    view_servo x = servo <$> motor j /\
    joint_space (set_joint fe index j') = <[Z.to_nat index := g x]> (joint_space fe).
Proof.
  intros Hok Hok' Hj Hc Hg.
  pose proof Hj as [Hi Hl%lookup_lt_Some]%joint_at_Ok.
  destruct (joint_view_total fe index Hok) as (j0 & l & Hj0 & _ & Hx);
    [unfold joints_size; lia|]. rewrite Hj in Hj0. simplify_eq.
  exists (view_of j0 l). rewrite js_at_joint_space by done. do 2 (split; [done|]).
  destruct (updated_joint_space g index fe _ Hok
              (set_joint_updated g index fe j0 j' Hok' Hj Hc Hg)) as [Hup|[Hn _]];
    [|unfold joints_size in Hn; lia].
  unfold js_update in Hup. rewrite js_at_joint_space, Hx in Hup by done.
  by injection Hup as <-.
Qed.

Lemma setJointDamping_refines index constantFactor viscousFactor fe :
  tree_ok fe ->
  joint_space <$> setJointDamping index constantFactor viscousFactor fe
  = js_setJointDamping index constantFactor viscousFactor (joint_space fe).
Proof.
  intros Hok. unfold js_setJointDamping.
  destruct (setJointDamping _ _ _ fe) as [fe'|e] eqn:Hset.
  - pose proof (act_step_ok _ _ Hok (act_setJointDamping _ _ _ _ _ Hset)) as Hok'.
    unfold setJointDamping in Hset. simplify_result.
    case_decide; simplify_result.
    destruct (set_joint_refines (js_with_damping constantFactor viscousFactor)
                index fe a _ Hok Hok' Ha) as (x & Hx & _ & Hup); [done..|].
    rewrite Hx. cbn [mbind result_bind fmap result_fmap]. by rewrite Hup.
  - rewrite js_at_joint_space by done. unfold setJointDamping, joint_view in *.
    destruct (joint_at fe index) as [j|e0] eqn:Hj; cbn in *; [|by simplify_eq].
    destruct (joint_dyn_total _ _ _ Hok Hj) as [l ->]. cbn.
    by case_decide; simplify_eq.
Qed.

Lemma set_servo_refines index law fe :
  tree_ok fe ->
  joint_space <$> set_servo index law fe = js_set_servo index law (joint_space fe).
Proof.
  intros Hok. unfold js_set_servo.
  destruct (set_servo index law fe) as [fe'|e] eqn:Hset.
  - pose proof (set_servo_ok _ _ _ _ Hok Hset) as Hok'.
    apply set_servo_Ok in Hset as (j & m & Hj & Hm & ->).
    destruct (set_joint_refines (js_with_servo law) index fe j _ Hok Hok' Hj)
      as (x & Hx & Hs & Hup); [done..|].
    rewrite Hx. cbn [mbind result_bind fmap result_fmap]. by rewrite Hs, Hm, Hup.
  - rewrite js_at_joint_space by done. unfold set_servo, joint_view in *.
    destruct (joint_at fe index) as [j|e0] eqn:Hj; cbn in *; [|by simplify_eq].
    destruct (joint_dyn_total _ _ _ Hok Hj) as [l ->]. cbn.
    by destruct (motor j); simplify_eq.
Qed.

Lemma ApplyDamping_refines fe :
  tree_ok fe ->
  joint_space <$> ApplyDamping fe = js_ApplyDamping (joint_space fe).
Proof.
  intros Hok. destruct (ApplyDamping_run fe Hok) as (b & -> & [Hn Hl] & Hdyn).
  cbn [fmap result_fmap]. unfold js_ApplyDamping. f_equal.
  pose proof (tree_ok_set_multiBody fe b Hok Hn Hl) as Hok'.
  apply (joint_space_eq (set_multiBody fe b)); [done|]. intros index.
  rewrite js_at_fmap, js_at_joint_space by done.
  destruct (decide (0 <= index < joints_size fe)) as [Hi|Hi].
  - destruct (joint_view_total fe index Hok Hi) as (j & l & Hj & Hjl & ->).
    rewrite (joint_view_dyn (set_multiBody fe b) index j) by done.
    by rewrite (Hdyn index j l).
  - by rewrite !joint_view_out_of_range.
Qed.

Lemma call_refines (c : JointCall) fe :
  tree_ok fe -> joint_space <$> call c fe = js_call c (joint_space fe).
Proof.
  intros Hok. destruct c;
    [ by apply DriveJoint_refines | by apply ApplyDamping_refines
    | by apply setJointIC_refines | by apply setJointDamping_refines
    | by apply set_servo_refines | by apply set_servo_refines ].
Qed.

Lemma call_act_step c fe fe' : call c fe = Ok fe' -> act_step fe fe'.
Proof. destruct c; cbn; eauto using act_step. Qed.

(** C12. The joint interface implements its specification: on a well-formed
    tree every sequence of calls that change a joint ([DriveJoint],
    [ApplyDamping], [setJointIC], [setJointDamping], the two motor set
    points) fails exactly when the specification fails, at the same call
    and with the same error, and otherwise leaves a tree whose joint
    records are those the specification computes from the records before:
    each call updates the record of the joint it names, and no other. *)
Theorem joint_space_refines (cs : list JointCall) fe :
  tree_ok fe -> joint_space <$> calls cs fe = js_calls cs (joint_space fe).
Proof.
  revert fe. induction cs as [|c cs IH]; intros fe Hok; [done|]. cbn.
  rewrite <- (call_refines c fe Hok).
  destruct (call c fe) as [fe'|e] eqn:Hc; cbn; [|done].
  apply IH. eauto using act_step_ok, call_act_step.
Qed.

(** The queries, on the record of the joint. *)
Lemma queries_view index fe :
  getJointPosition index fe
    = (fun x => (view_position x, view_type x)) <$> joint_view fe index /\
  getJointVelocity index fe
    = (fun x => (view_velocity x, view_type x)) <$> joint_view fe index /\
  getJointTorque index fe = view_applied <$> joint_view fe index /\
  getMotorCommand index fe = js_command <$> joint_view fe index.
Proof.
  unfold getJointPosition, getJointVelocity, getJointTorque, getMotorCommand,
    joint_view, mb_getJointPos, mb_getJointVel, mb_getJointTorque.
  destruct (joint_at fe index) as [j|e]; cbn; [|done].
  destruct (mb_link _ _) as [l|e]; cbn; [|done]. split_and!; try done.
  unfold js_command. cbn. by destruct (motor j) as [[[]]|].
Qed.

(** The queries read the records: on a well-formed tree
    [getJointPosition], [getJointVelocity], [getJointTorque] and the motor
    command of a joint are what the specification reads in the record of
    that joint, and the same error for an index that names no joint. *)
Theorem joint_queries_refine index fe :
  tree_ok fe ->
  getJointPosition index fe = js_getJointPosition index (joint_space fe) /\
  getJointVelocity index fe = js_getJointVelocity index (joint_space fe) /\
  getJointTorque index fe = js_getJointTorque index (joint_space fe) /\
  getMotorCommand index fe = js_getMotorCommand index (joint_space fe).
Proof.
  intros Hok.
  unfold js_getJointPosition, js_getJointVelocity, js_getJointTorque,
    js_getMotorCommand. rewrite js_at_joint_space by done. apply queries_view.
Qed.

(** A torque on one joint does not show on another: the indirection
    through the links keeps the joints apart. *)
Corollary DriveJoint_other_joint index k forceTorque fe fe' :
  tree_ok fe -> DriveJoint index forceTorque fe = Ok fe' -> k <> index ->
  getJointTorque k fe' = getJointTorque k fe.
Proof.
  intros Hok Hd Hk.
  destruct (update_joint_link_updated (add_jointTorque forceTorque)
              (js_applied forceTorque) index fe fe' Hok)
    as [_ Hview]; [done | done |].
  destruct (queries_view k fe') as (_ & _ & -> & _).
  destruct (queries_view k fe) as (_ & _ & -> & _).
  by rewrite Hview, decide_False.
Qed.

(** ** Calls that do not show in the records *)

Lemma joint_view_reading fe fe' index :
  joints fe' = joints fe ->
  reading joint_reading (multiBody fe') = reading joint_reading (multiBody fe) ->
  joint_view fe' index = joint_view fe index.
Proof.
  intros Hj Hr. unfold joint_view, joint_at, joints_size. rewrite Hj.
  case_decide; [|done]. destruct (joints fe !! _) as [j|]; cbn; [|done].
  pose proof (mb_link_reading joint_reading (joint_link j) _ _ Hr) as Hl.
  unfold joint_reading, view_of in *.
  destruct (mb_link _ (multiBody fe')) as [l'|], (mb_link _ (multiBody fe)) as [l|];
    cbn in *; congruence.
Qed.

Lemma joint_space_reading fe fe' :
  joints fe' = joints fe ->
  reading joint_reading (multiBody fe') = reading joint_reading (multiBody fe) ->
  joint_space fe' = joint_space fe.
Proof.
  intros Hj Hr. unfold joint_space. rewrite Hj.
  apply list_omap_ext, Forall2_same_length_lookup. split; [done|].
  intros k a b Ha Hb. rewrite Ha in Hb. simplify_eq.
  by rewrite (joint_view_reading fe fe').
Qed.

Lemma keeps_joint_force F : keeps joint_reading (add_linkForce F).
Proof. done. Qed.

Lemma keeps_joint_torque tau : keeps joint_reading (add_linkTorque tau).
Proof. done. Qed.

Lemma ApplyGravity_joints g fe fe' : ApplyGravity g fe = Ok fe' -> joints fe' = joints fe.
Proof. unfold ApplyGravity. intros H. by simplify_result. Qed.

Lemma AddLinkForce_joints index F fe fe' :
  AddLinkForce index F fe = Ok fe' -> joints fe' = joints fe.
Proof. unfold AddLinkForce. intros H. by repeat case_decide; simplify_result. Qed.

Lemma AddLinkTorque_joints index tau fe fe' :
  AddLinkTorque index tau fe = Ok fe' -> joints fe' = joints fe.
Proof. unfold AddLinkTorque. intros H. by repeat case_decide; simplify_result. Qed.

Lemma ApplyGravity_joint_space g fe fe' :
  ApplyGravity g fe = Ok fe' -> joint_space fe' = joint_space fe.
Proof.
  intros H. apply joint_space_reading;
    eauto using ApplyGravity_joints, ApplyGravity_still, keeps_joint_force.
Qed.

Lemma AddLinkForce_joint_space index F fe fe' :
  AddLinkForce index F fe = Ok fe' -> joint_space fe' = joint_space fe.
Proof.
  intros H. apply joint_space_reading;
    eauto using AddLinkForce_joints, AddLinkForce_still, keeps_joint_force.
Qed.

Lemma AddLinkTorque_joint_space index tau fe fe' :
  AddLinkTorque index tau fe = Ok fe' -> joint_space fe' = joint_space fe.
Proof.
  intros H. apply joint_space_reading;
    eauto using AddLinkTorque_joints, AddLinkTorque_still, keeps_joint_torque.
Qed.

(** Loads on links do not show in the joint records: a successful
    [ApplyGravity], [AddLinkForce] or [AddLinkTorque] leaves every record,
    the applied generalized force included, so [getJointTorque] never
    counts them. *)
Theorem link_loads_keep_joints g index F tau fe fe' :
  ApplyGravity g fe = Ok fe' \/ AddLinkForce index F fe = Ok fe' \/
  AddLinkTorque index tau fe = Ok fe' ->
  joint_space fe' = joint_space fe.
Proof.
  intros [H|[H|H]];
    eauto using ApplyGravity_joint_space, AddLinkForce_joint_space,
      AddLinkTorque_joint_space.
Qed.

(** A solve consumes what was applied: after a step of the simulation
    every joint record has the type, the damping coefficients and the
    control law it had, and no applied force; the positions and velocities
    are the back end's. *)
Theorem solve_consumes dt fe :
  tree_ok fe ->
  Forall2 js_stepped (joint_space fe) (joint_space (StepSimulation dt fe)).
Proof.
  intros Hok. pose proof (StepSimulation_ok dt fe Hok) as Hok'.
  apply Forall2_same_length_lookup. split; [by rewrite !joint_space_length|].
  intros k x x' Hx Hx'.
  assert (0 <= Z.of_nat k < joints_size fe) as Hk.
  { apply lookup_lt_Some in Hx. rewrite joint_space_length in Hx by done.
    unfold joints_size. lia. }
  assert (js_at (Z.of_nat k) (joint_space fe) = Ok x) as Hv
    by (apply js_at_Ok; rewrite Nat2Z.id; split; [lia | done]).
  assert (js_at (Z.of_nat k) (joint_space (StepSimulation dt fe)) = Ok x') as Hv'
    by (apply js_at_Ok; rewrite Nat2Z.id; split; [lia | done]).
  rewrite js_at_joint_space in Hv, Hv' by done.
  destruct (joint_view_total fe _ Hok Hk) as (j & l & Hj & _ & Hjv).
  destruct (joint_view_total (StepSimulation dt fe) (Z.of_nat k) Hok' Hk)
    as (j' & l' & Hj' & Hl' & Hjv').
  assert (j' = j) as -> by (unfold StepSimulation in Hj';
    rewrite joint_at_set_multiBody in Hj'; congruence).
  destruct (StepSimulation_unloaded _ _ _ _ Hl') as (Ht & Hf & _).
  rewrite Hjv in Hv. rewrite Hjv' in Hv'. simplify_eq. by split_and!.
Qed.

End Refinement.

(** * The arm *)

Lemma arm2_ok : tree_ok arm2.
Proof. by apply (bool_decide_unpack _). Qed.

(** The records of the arm, evaluated. *)
Lemma arm2_records :
  joint_space arm2 =
  [ mkJointView eRevolute (1 # 2) 2 0 0 (1 # 10) (1 # 5) (Some NoServo);
    mkJointView ePrismatic 0 0 0 0 0 0 None ].
Proof. by vm_compute. Qed.

(** The specification on the arm, evaluated: the calls stop at the call on
    the missing joint; the first four leave a manually applied torque of 5
    on the shoulder, with its damping force of -1/2 (as the fraction the
    additions built) beside it, and -3 on the wrist. *)
Lemma arm2_calls_fail :
  js_calls arm2_calls (joint_space arm2) = Err IndexOutOfRange /\
  js_calls (take 4 arm2_calls) (joint_space arm2) =
  Ok [ mkJointView eRevolute (1 # 2) 2 5 (-25 # 50) (1 # 10) (1 # 5)
         (Some (PositionServo 1 10));
       mkJointView ePrismatic 0 0 (-3) 0 0 0 None ].
Proof. by vm_compute. Qed.

Lemma joint_space_refines_witness :
  joint_space <$> calls arm2_calls arm2 = js_calls arm2_calls (joint_space arm2).
Proof. exact (joint_space_refines arm2_calls arm2 arm2_ok). Defined.

Lemma joint_queries_refine_witness :
  getJointPosition 1 arm2 = js_getJointPosition 1 (joint_space arm2) /\
  getJointVelocity 1 arm2 = js_getJointVelocity 1 (joint_space arm2) /\
  getJointTorque 1 arm2 = js_getJointTorque 1 (joint_space arm2) /\
  getMotorCommand 1 arm2 = js_getMotorCommand 1 (joint_space arm2).
Proof. exact (joint_queries_refine 1 arm2 arm2_ok). Defined.

Lemma link_loads_keep_joints_witness :
  joint_space (result_get arm2 (ApplyGravity (mkVector3 0 0 (-10)) arm2))
  = joint_space arm2.
Proof.
  apply (link_loads_keep_joints (mkVector3 0 0 (-10)) 0 vzero vzero arm2).
  left. by vm_compute.
Defined.

Lemma solve_consumes_witness :
  Forall2 js_stepped (joint_space arm2) (joint_space (StepSimulation 1 arm2)).
Proof. exact (solve_consumes 1 arm2 arm2_ok). Defined.
