(* ===== verification/Lifecycle.v ===== *)
(** * Lifecycle: Unattached, Attached, Stepping

    The state machine of section 4.3 of the specification: a tree is built
    while it is unattached, [AddToDynamicsWorld] (declared in
    [src/unnamed/part_000]) registers it with the dynamics world once, and
    from then on the simulation steps it. [World] is a tree with its phase,
    [life_step] one successful call of the construction interface
    ([Featherstone]), of the actuation interface ([Actuation]), the
    attachment or a solve, and [life_run] a sequence of them.

    The class has no field for the phase, so no operation of it can check
    it: [Phase] is the specification's account of what the caller has done,
    kept beside the tree, never inside it. The specification leaves a
    second attachment, a construction call after the attachment and a
    solve before it undefined; [life_step] has no step for them, and the
    interpreter [exec] reports them as [UndefinedBehaviour] instead of
    choosing a behaviour the code does not promise.

    The same life as a program: [Command] is a call as data, [exec] runs one
    command and [execs] a list of them, up to the first that fails. The runs
    of [life_run] are the programs that succeed ([execs_run]), so a run is
    found by evaluation.

    Theorems: the invariant [tree_ok] holds in every world a run reaches
    from the constructor; whatever a program loads on the links, the joint
    records of [JointSpace] follow the specification of its joint calls
    ([acts_joint_space]); and after any program of an attached tree
    [getJointTorque] returns the torques that [DriveJoint] applied since
    the last solve and nothing else ([manual_torque_ledger], with [ledger]
    the sum read off the program). *)

From Stdlib Require Import ZArith QArith Lia String.
From stdpp Require Import base tactics option list.
From S2P Require Import Prelude Linalg Featherstone Actuation JointSpace.

Local Open Scope Z_scope.

Section Life.
Context `{MS : MultiBodyState}.
Implicit Types (fe : FeatherstoneEntity).

(** The phases of a tree's life (section 4.3 of the specification; not a
    field of the class). *)
Variant Phase : Type := Unattached | Attached | Stepping.

Record World : Type := mkWorld { tree : FeatherstoneEntity; phase : Phase }.

(** [AddToDynamicsWorld]: registers the tree once. The tree is not
    changed; a second registration is undefined. *)
Definition AddToDynamicsWorld (w : World) : result World :=
  match phase w with
  | Unattached => Ok (mkWorld (tree w) Attached)
  | _ => Err UndefinedBehaviour
  end.

(** The life of a tree: construction while unattached, one attachment,
    then steps of the simulation; forces and parameters at any time. *)
Inductive life_step : World -> World -> Prop :=
| life_build fe fe' :
    build_step fe fe' -> life_step (mkWorld fe Unattached) (mkWorld fe' Unattached)
| life_attach w w' :
    AddToDynamicsWorld w = Ok w' -> life_step w w'
| life_act fe fe' ph :
    act_step fe fe' -> life_step (mkWorld fe ph) (mkWorld fe' ph)
| life_solve dt fe ph :
    ph <> Unattached ->
    life_step (mkWorld fe ph) (mkWorld (StepSimulation dt fe) Stepping).

Inductive life_run : World -> World -> Prop :=
| life_refl w : life_run w w
| life_next w w' w'' : life_run w w' -> life_step w' w'' -> life_run w w''.

End Life.

(** * Programs *)

Section Script.
Context `{MS : MultiBodyState}.
Implicit Types (fe : FeatherstoneEntity) (w : World).

(** A call of the construction interface, as data. *)
Variant BuildCall : Type :=
| CallAddLink (solid : SolidEntity) (transform : Transform)
| CallAddRevoluteJoint (parent child : Z) (pivot axis : Vector3)
    (collisionBetweenJointLinks : bool)
| CallAddPrismaticJoint (parent child : Z) (axis : Vector3)
    (collisionBetweenJointLinks : bool)
| CallAddFixedJoint (parent child : Z)
| CallAddJointMotor (index : Z)
| CallAddJointLimit (index : Z) (lower upper : Scalar)
| CallSetBaseRenderable (render : bool).

(** A call of the actuation interface: one that changes a joint
    ([JointSpace.JointCall]) or a load on a link. *)
Variant ActCall : Type :=
| CallJoint (c : JointCall)
| CallApplyGravity (g : Vector3)
| CallAddLinkForce (index : Z) (F : Vector3)
| CallAddLinkTorque (index : Z) (tau : Vector3).

(** What a program does to a tree: one call at a time. *)
Variant Command : Type :=
| CmdBuild (c : BuildCall)
| CmdAttach
| CmdAct (c : ActCall)
| CmdSolve (dt : Scalar).

Definition build_call (c : BuildCall) fe : result FeatherstoneEntity :=
  match c with
  | CallAddLink s t => AddLink s t fe
  | CallAddRevoluteJoint p c pivot axis coll =>
      snd <$> AddRevoluteJoint p c pivot axis coll fe
  | CallAddPrismaticJoint p c axis coll => snd <$> AddPrismaticJoint p c axis coll fe
  | CallAddFixedJoint p c => snd <$> AddFixedJoint p c fe
  | CallAddJointMotor index => AddJointMotor index fe
  | CallAddJointLimit index lower upper => AddJointLimit index lower upper fe
  | CallSetBaseRenderable render => Ok (setBaseRenderable render fe)
  end.

Definition act_call (c : ActCall) fe : result FeatherstoneEntity :=
  match c with
  | CallJoint c => call c fe
  | CallApplyGravity g => ApplyGravity g fe
  | CallAddLinkForce index F => AddLinkForce index F fe
  | CallAddLinkTorque index tau => AddLinkTorque index tau fe
  end.

(** What an actuation call does to the joint records of [JointSpace]: a
    load on a link does not show in them. *)
Definition js_act (c : ActCall) (v : list JointView) : result (list JointView) :=
  match c with
  | CallJoint c => js_call c v
  | _ => Ok v
  end.

Fixpoint js_acts (cs : list ActCall) (v : list JointView)
  : result (list JointView) :=
  match cs with
  | [] => Ok v
  | c :: cs => v' ← js_act c v; js_acts cs v'
  end.

(** One command in a world. A construction call on a tree that is attached
    and a solve of a tree that is not are programming errors. *)
Definition exec (c : Command) w : result World :=
  match c, phase w with
  | CmdBuild c, Unattached => fe ← build_call c (tree w); Ok (mkWorld fe Unattached)
  | CmdBuild _, _ => Err UndefinedBehaviour
  | CmdAttach, _ => AddToDynamicsWorld w
  | CmdAct c, ph => fe ← act_call c (tree w); Ok (mkWorld fe ph)
  | CmdSolve _, Unattached => Err UndefinedBehaviour
  | CmdSolve dt, _ => Ok (mkWorld (StepSimulation dt (tree w)) Stepping)
  end.

(** A program: the commands in order, up to the first that fails. *)
Fixpoint execs (cs : list Command) w : result World :=
  match cs with
  | [] => Ok w
  | c :: cs => w' ← exec c w; execs cs w'
  end.

(** The manually applied torque of joint [index] as a command leaves it
    (section 4.3 of the specification): a [DriveJoint] on the joint adds
    its argument, a solve consumes the sum, and nothing else counts. *)
Definition ledger_step (index : Z) (c : Command) (t : Scalar) : Scalar :=
  match c with
  | CmdAct (CallJoint (CallDriveJoint k tau)) =>
      if decide (k = index) then (t + tau)%Q else t
  | CmdSolve _ => 0%Q
  | _ => t
  end.

Definition ledger (index : Z) (cs : list Command) (t : Scalar) : Scalar :=
  foldl (fun t c => ledger_step index c t) t cs.

End Script.

(** The program that builds the pendulum of [Actuation] and attaches it. *)
Definition pendulum_script : list Command :=
  [CmdBuild (CallAddLink (demo_solid "bob") identity_transform);
   CmdBuild (CallAddRevoluteJoint 0 1 vzero (mkVector3 0 0 1) false);
   CmdBuild (CallAddJointMotor 0);
   CmdAct (CallJoint (CallSetJointDamping 0 (1 # 10) (1 # 5)));
   CmdAct (CallJoint (CallSetJointIC 0 (1 # 2) 2));
   CmdAttach].

(** Two steps of a simulation of the pendulum: gravity, a torque of 3 and
    damping, a solve; then torques of 1 and 2 with damping and a set point
    in between. *)
Definition pendulum_steps : list Command :=
  [CmdAct (CallApplyGravity (mkVector3 0 (-10) 0));
   CmdAct (CallJoint (CallDriveJoint 0 3));
   CmdAct (CallJoint CallApplyDamping);
   CmdSolve (1 # 100);
   CmdAct (CallJoint (CallDriveJoint 0 1));
   CmdAct (CallJoint CallApplyDamping);
   CmdAct (CallJoint (CallMotorPositionSetpoint 0 1 10));
   CmdAct (CallJoint (CallDriveJoint 0 2))].

Definition pendulum_stepped : World :=
  Eval vm_compute in
    result_get (mkWorld pendulum Attached)
      (execs pendulum_steps (mkWorld pendulum Attached)).

(** * Theorems *)

Section LifeLemmas.
Context `{MS : MultiBodyState} {ML : MultiBodyLaws M} {MSL : MultiBodyStateLaws M MS}.
Implicit Types (fe : FeatherstoneEntity).

Lemma AddToDynamicsWorld_Ok w w' :
  AddToDynamicsWorld w = Ok w' <->
  phase w = Unattached /\ w' = mkWorld (tree w) Attached.
Proof. unfold AddToDynamicsWorld. destruct (phase w); crush_iff. Qed.

#[local] Hint Resolve build_step_ok acted_ok act_step_acted StepSimulation_ok
  acted_topology : sf.

Lemma life_step_ok w w' : tree_ok (tree w) -> life_step w w' -> tree_ok (tree w').
Proof.
  intros Hok Hstep.
  destruct Hstep as [fe fe' H | w w' [_ ->]%AddToDynamicsWorld_Ok
                    | fe fe' ph H | dt fe ph H]; simpl in *;
    eauto with sf.
Qed.

#[local] Hint Resolve life_step_ok : sf.

Lemma life_run_invariant (P : World -> Prop) w :
  P w -> (forall w1 w2, life_run w w1 -> P w1 -> life_step w1 w2 -> P w2) ->
  forall w', life_run w w' -> P w'.
Proof. intros H0 Hs w' Hrun. induction Hrun; eauto. Qed.

Lemma life_run_ok w w' : tree_ok (tree w) -> life_run w w' -> tree_ok (tree w').
Proof.
  intros Hok. apply (life_run_invariant (fun w => tree_ok (tree w))); [done|].
  eauto with sf.
Qed.

(** Once attached, a step keeps the topology and stays attached. *)
Lemma life_step_frozen w w' :
  tree_ok (tree w) -> phase w <> Unattached -> life_step w w' ->
  phase w' <> Unattached /\ topology (tree w') = topology (tree w).
Proof.
  intros Hok Hph Hstep.
  destruct Hstep as [fe fe' H | w w' [Hu ->]%AddToDynamicsWorld_Ok
                    | fe fe' ph H | dt fe ph H]; simpl in *; try done.
  split; [done|]. eauto with sf.
Qed.

(** C13. The invariant of the whole life: in every world reached from the
    constructor (with [totalNumOfLinks >= 1]) by construction calls,
    attachment, actuation calls and simulation steps, the tree is well
    formed and the back end holds one dynamic record per declared link. *)
Theorem life_invariant total base fixed w :
  1 <= total ->
  life_run (mkWorld (Create total base fixed) Unattached) w ->
  tree_ok (tree w).
Proof. intros Ht. apply life_run_ok. by apply Create_ok. Qed.

(** The runs of an attached tree: none returns to [Unattached], and none
    changes the links or the type, parent and child of any joint ([life_step]
    has no construction call after the attachment). *)
Lemma attached_run_frozen w w' :
  tree_ok (tree w) -> phase w <> Unattached -> life_run w w' ->
  phase w' <> Unattached /\ topology (tree w') = topology (tree w).
Proof.
  intros Hok Hph Hrun. induction Hrun as [|w w1 w2 Hrun IH Hstep]; [done|].
  destruct (IH Hok Hph) as [Hph1 Htop1].
  destruct (life_step_frozen w1 w2) as [Hph2 Htop2];
    eauto using life_run_ok. split; [done | congruence].
Qed.

End LifeLemmas.

(** ** Programs and runs *)

Section ScriptLemmas.
Context `{MS : MultiBodyState}.
Implicit Types (fe : FeatherstoneEntity) (w : World).

Lemma build_call_step fe fe' :
  build_step fe fe' <-> exists c, build_call c fe = Ok fe'.
Proof.
  split.
  - intros [s t ? ? H|p c pivot axis coll k ? ? H|p c axis coll k ? ? H|p c k ? ? H
           |index ? ? H|index lower upper ? ? H|render ?];
      [exists (CallAddLink s t) | exists (CallAddRevoluteJoint p c pivot axis coll)
      | exists (CallAddPrismaticJoint p c axis coll) | exists (CallAddFixedJoint p c)
      | exists (CallAddJointMotor index) | exists (CallAddJointLimit index lower upper)
      | exists (CallSetBaseRenderable render)]; cbn; by rewrite ?H.
  - intros [[] H]; cbn in H; simplify_result; try destruct a; simplify_eq/=;
      eauto using build_step.
Qed.

Lemma act_call_step fe fe' :
  act_step fe fe' <-> exists c, act_call c fe = Ok fe'.
Proof.
  split.
  - intros [i x ? ? H|? ? H|g ? ? H|i F ? ? H|i tau ? ? H|i x y ? ? H|i x y ? ? H
           |i x y ? ? H|i x y ? ? H];
      [exists (CallJoint (CallDriveJoint i x)) | exists (CallJoint CallApplyDamping)
      | exists (CallApplyGravity g) | exists (CallAddLinkForce i F)
      | exists (CallAddLinkTorque i tau)
      | exists (CallJoint (CallMotorPositionSetpoint i x y))
      | exists (CallJoint (CallMotorVelocitySetpoint i x y))
      | exists (CallJoint (CallSetJointIC i x y))
      | exists (CallJoint (CallSetJointDamping i x y))]; done.
  - intros [[] H]; cbn in H; eauto using act_step, call_act_step.
Qed.

(** The steps of a life are the commands that succeed. *)
Lemma exec_step w w' : life_step w w' <-> exists c, exec c w = Ok w'.
Proof.
  split.
  - intros [fe fe' [c H]%build_call_step|? ? H|fe fe' ph [c H]%act_call_step|dt fe ph H].
    + exists (CmdBuild c). cbn. by rewrite H.
    + by exists CmdAttach.
    + exists (CmdAct c). cbn. rewrite H. by destruct ph.
    + exists (CmdSolve dt). by destruct ph.
  - intros [[c| |c|dt] H]; destruct w as [fe ph]; unfold exec in H; cbn in H.
    + destruct ph; [|done..]. simplify_result.
      apply life_build, build_call_step. eauto.
    + by apply life_attach.
    + assert (exists fe', act_call c fe = Ok fe' /\ w' = mkWorld fe' ph) as (fe' & Hc & ->).
      { destruct ph; simplify_result; eauto. }
      apply life_act, act_call_step. eauto.
    + destruct ph; [done|..]; simplify_result; by apply life_solve.
Qed.

Lemma execs_app cs cs' w : execs (cs ++ cs') w = execs cs w ≫= execs cs'.
Proof.
  revert w. induction cs as [|c cs IH]; intros w; [done|].
  cbn [app execs]. destruct (exec c w); [apply IH | done].
Qed.

(** The runs of a life are the programs that succeed: a run can be found,
    and refuted, by evaluation. *)
Lemma execs_run w w' : life_run w w' <-> exists cs, execs cs w = Ok w'.
Proof.
  split.
  - induction 1 as [|w w1 w2 _ [cs Hcs] [c Hc]%exec_step]; [by exists []|].
    exists (cs ++ [c]). rewrite execs_app, Hcs. cbn. by rewrite Hc.
  - intros [cs Hcs]. revert w' Hcs.
    induction cs as [|c cs IH] using rev_ind; intros w' Hcs.
    + cbn in Hcs. simplify_result. apply life_refl.
    + rewrite execs_app in Hcs. simplify_result. cbn in Hcs. simplify_result.
      eapply life_next; [by apply IH|]. apply exec_step. eauto.
Qed.

End ScriptLemmas.

Section ScriptJoints.
Context `{MS : MultiBodyState} {ML : MultiBodyLaws M} {MSL : MultiBodyStateLaws M MS}.
Implicit Types (fe : FeatherstoneEntity) (w : World).

(** Forces and parameters, as the joint records show them: whatever a
    program loads on the links in between, the records follow the
    specification of the joint calls. *)
Lemma act_call_joint_space c fe fe' :
  tree_ok fe -> act_call c fe = Ok fe' ->
  js_act c (joint_space fe) = Ok (joint_space fe').
Proof.
  intros Hok H. destruct c as [c|g|index F|index tau]; cbn in *.
  - by rewrite <- call_refines, H.
  - f_equal. symmetry. by eapply ApplyGravity_joint_space.
  - f_equal. symmetry. by eapply AddLinkForce_joint_space.
  - f_equal. symmetry. by eapply AddLinkTorque_joint_space.
Qed.

Lemma exec_act c w w' :
  exec (CmdAct c) w = Ok w' <->
  exists fe', act_call c (tree w) = Ok fe' /\ w' = mkWorld fe' (phase w).
Proof.
  unfold exec. destruct (phase w), (act_call c (tree w)); cbn;
    (split; [intros [= <-]; eauto | intros (? & [= <-] & ->); done]) ||
    (split; [done | by intros (? & ? & _)]).
Qed.

Lemma acts_joint_space cs w w' :
  tree_ok (tree w) -> execs (CmdAct <$> cs) w = Ok w' ->
  phase w' = phase w /\
  js_acts cs (joint_space (tree w)) = Ok (joint_space (tree w')).
Proof.
  revert w. induction cs as [|c cs IH]; intros w Hok Hrun.
  - cbn in Hrun. by simplify_result.
  - rewrite fmap_cons in Hrun. cbn [execs] in Hrun. simplify_result.
    apply exec_act in Ha as (fe' & Hc & ->).
    assert (act_step (tree w) fe') as Hstep by (apply act_call_step; eauto).
    destruct (IH (mkWorld fe' (phase w))) as [Hph Hjs];
      [by apply (act_step_ok (tree w)) | done |].
    split; [done|]. cbn [js_acts]. by rewrite (act_call_joint_space c _ fe').
Qed.

End ScriptJoints.

(** ** The manually applied torque *)

Section SpecLedger.
Implicit Types (v : list JointView) (x : JointView).

Lemma js_getJointTorque_insert index k v x y :
  js_at k v = Ok x ->
  js_getJointTorque index (<[Z.to_nat k := y]> v) =
  if decide (index = k) then Ok (view_applied y) else js_getJointTorque index v.
Proof.
  intros Hx. pose proof Hx as [Hk _]%js_at_Ok. unfold js_getJointTorque.
  rewrite js_at_insert by done. case_decide; [|done]. by rewrite Hx.
Qed.

(** Replacing the record of a joint by one with the same manually applied
    torque leaves what [js_getJointTorque] returns. *)
Lemma js_getJointTorque_quiet index k v x y :
  js_at k v = Ok x -> view_applied y = view_applied x ->
  js_getJointTorque index (<[Z.to_nat k := y]> v) =
  (fun t => t) <$> js_getJointTorque index v.
Proof.
  intros Hx Hy. rewrite (js_getJointTorque_insert _ _ _ _ _ Hx).
  unfold js_getJointTorque. case_decide as Hi; [subst; by rewrite Hx, Hy|].
  by destruct (js_at index v).
Qed.

(** The specification of the joint calls keeps the ledger. *)
Lemma js_call_torque index c v v' :
  js_call c v = Ok v' ->
  js_getJointTorque index v' =
  ledger_step index (CmdAct (CallJoint c)) <$> js_getJointTorque index v.
Proof.
  destruct c as [k tau| |k p q|k s u|k p kp|k p kd]; cbn;
    unfold js_DriveJoint, js_ApplyDamping, js_setJointIC, js_setJointDamping,
      js_set_servo, js_update; intros H; simplify_result.
  - rewrite (js_getJointTorque_insert _ _ _ _ _ Ha).
    unfold js_getJointTorque, ledger_step.
    destruct (decide (index = k)) as [->|Hne].
    + rewrite Ha. cbn. by rewrite decide_True.
    + destruct (js_at index v); cbn; [|done]. by rewrite decide_False.
  - unfold js_getJointTorque. rewrite js_at_fmap. by destruct (js_at index v).
  - eauto using js_getJointTorque_quiet.
  - case_decide; simplify_result. eauto using js_getJointTorque_quiet.
  - destruct (view_servo a); simplify_result. eauto using js_getJointTorque_quiet.
  - destruct (view_servo a); simplify_result. eauto using js_getJointTorque_quiet.
Qed.

End SpecLedger.

Section Ledger.
Context `{MS : MultiBodyState} {ML : MultiBodyLaws M} {MSL : MultiBodyStateLaws M MS}.
Implicit Types (fe : FeatherstoneEntity) (w : World).

Lemma getJointTorque_view index fe :
  tree_ok fe -> getJointTorque index fe = js_getJointTorque index (joint_space fe).
Proof.
  intros Hok. by destruct (joint_queries_refine index fe Hok) as (_ & _ & -> & _).
Qed.

(** An actuation call: through the joint records for a joint call, and
    not at all for a load on a link. *)
Lemma act_call_torque index c fe fe' :
  tree_ok fe -> act_call c fe = Ok fe' ->
  getJointTorque index fe' = ledger_step index (CmdAct c) <$> getJointTorque index fe.
Proof.
  intros Hok Hc.
  assert (tree_ok fe') as Hok'
    by (eapply act_step_ok; [done|]; apply act_call_step; eauto).
  rewrite !getJointTorque_view by done.
  pose proof (act_call_joint_space c fe fe' Hok Hc) as Hjs.
  destruct c as [c|g|k F|k tau]; cbn in Hjs; [by apply js_call_torque|..];
    injection Hjs as <-; cbn; by destruct (js_getJointTorque _ _).
Qed.

(** A solve leaves no manually applied torque. *)
Lemma StepSimulation_torque index dt fe :
  tree_ok fe ->
  getJointTorque index (StepSimulation dt fe) =
  (fun _ => 0%Q) <$> getJointTorque index fe.
Proof.
  intros Hok. pose proof (StepSimulation_ok dt fe Hok) as Hok'.
  rewrite !getJointTorque_dyn.
  destruct (decide (0 <= index < joints_size fe)) as [Hi|Hi].
  - destruct (joint_dyn_total' fe index Hok Hi) as (j & l & _ & ->).
    destruct (joint_dyn_total' (StepSimulation dt fe) index Hok' Hi)
      as (j' & l' & _ & Hl').
    rewrite Hl'. cbn. by destruct (StepSimulation_unloaded _ _ _ _ Hl') as [-> _].
  - unfold joint_dyn, StepSimulation. rewrite joint_at_set_multiBody.
    by rewrite (joint_at_out_of_range _ _ Hi).
Qed.

(** One command on an attached tree. *)
Lemma exec_torque index c w w' :
  tree_ok (tree w) -> phase w <> Unattached -> exec c w = Ok w' ->
  tree_ok (tree w') /\ phase w' <> Unattached /\
  getJointTorque index (tree w') =
    (ledger_step index c <$> getJointTorque index (tree w)).
Proof.
  intros Hok Hph Hc.
  assert (life_step w w') as Hstep by (apply exec_step; eauto).
  split; [by eapply life_step_ok|].
  destruct w as [fe ph], c as [c| |c|dt]; unfold exec in Hc; cbn in *;
    destruct ph; try done; simplify_result; cbn;
    (split; [done|]); eauto using act_call_torque, StepSimulation_torque.
Qed.

(** C15. [getJointTorque] shows the manually applied torques and nothing
    else (sections 4.3 and 9 of the specification): whatever program an
    attached, well-formed tree runs (forces on joints and links, gravity,
    damping, set points, parameters, initial conditions, solves), the
    query then returns the sum of the torques that [DriveJoint] applied to
    that joint since the last solve, added to what it returned before the
    program when no solve was made; for an index that names no joint it
    returns the out-of-range error as before. *)
Theorem manual_torque_ledger index cs w w' :
  tree_ok (tree w) -> phase w <> Unattached -> execs cs w = Ok w' ->
  getJointTorque index (tree w') = ledger index cs <$> getJointTorque index (tree w).
Proof.
  revert w. induction cs as [|c cs IH]; intros w Hok Hph Hrun; cbn in Hrun.
  - simplify_result. by destruct (getJointTorque _ _).
  - apply bind_Ok_inv in Hrun as (w1 & Hc & Hrun).
    destruct (exec_torque index c w w1 Hok Hph Hc) as (Hok1 & Hph1 & Ht).
    rewrite (IH w1 Hok1 Hph1 Hrun), Ht. unfold ledger.
    destruct (getJointTorque index (tree w)); by cbn.
Qed.

End Ledger.

(** * The life of the pendulum *)

(** The life of the pendulum up to its attachment. *)
Lemma pendulum_run :
  life_run (mkWorld (Create 2 (demo_solid "base") true) Unattached)
    (mkWorld pendulum Attached).
Proof. apply execs_run. by exists pendulum_script. Qed.

Lemma life_invariant_witness : tree_ok pendulum.
Proof.
  apply (life_invariant 2 (demo_solid "base") true (mkWorld pendulum Attached));
    [lia | apply pendulum_run].
Defined.

Lemma manual_torque_ledger_witness :
  getJointTorque 0 (tree pendulum_stepped) =
  ledger 0 pendulum_steps <$> getJointTorque 0 pendulum.
Proof.
  apply (manual_torque_ledger 0 pendulum_steps (mkWorld pendulum Attached));
    [apply pendulum_ok | done | by vm_compute].
Defined.

(** The ledger of the two steps, evaluated: the 3 of the first step was
    consumed by the solve, and the damping of the second does not show. *)
Lemma pendulum_stepped_torque :
  getJointTorque 0 (tree pendulum_stepped) = Ok (0 + 1 + 2)%Q.
Proof. by vm_compute. Qed.

