(* ===== verification/Kinematics.v ===== *)
(** * Kinematics: link queries, the base pose, drawing and joint feedback

    The operations of [FeatherstoneEntity] that read or place the tree in
    space ([src/unnamed/part_000], sections "Links" and "Common" of the
    class, and [getJointFeedback]): [getLink], [getLinkTransform],
    [getLinkLinearVelocity], [getLinkAngularVelocity], [setBaseTransform],
    [setSelfCollision], [getJointFeedback], [Render] and the second
    [AddToDynamicsWorld]. Their bodies are not among the sources: they are
    modelled from the header's signatures and comments and from sections
    4.1, 4.3, 6 and 7 of the specification (every index is checked against
    the current count; the drawables are one per link, at the link's world
    transform).

    What Bullet's [btMultiBody] knows of the pose of the tree is reached
    through the interface [MultiBodyKinematics]: a view of the base and of
    one record per link (world transform, velocities, the reaction of the
    last solve, the lever arm of the joint and its axis), the placement of
    the base, and the self-collision flag. The torque [getJointFeedback]
    reports is the moment of the reaction force less its component along
    that axis (sections 4.3 and 8 of the specification). The solver that computes these values is
    Bullet's; the theorems are about which record each query reads, about
    indices, and about what the setters change.

    [world_step] is one step of a simulation with a tree (a step of
    [Lifecycle.life_step] or a pose operation); [world_exec] and
    [world_execs] run the same steps given as data, and the runs are the
    programs that succeed ([world_execs_run]). *)

From Stdlib Require Import ZArith QArith Lia String.
From stdpp Require Import base tactics option list relations.
From S2P Require Import Prelude Linalg Featherstone Actuation JointSpace Lifecycle.

Local Open Scope Z_scope.

(** * The back end's kinematic state *)

(** What [btMultiBody] holds for link [i] (the tree's link [i + 1]). *)
Record LinkKin : Type := mkLinkKin {
  cachedWorldTransform : Transform;
  linkVel : Vector3;
  linkOmega : Vector3;
  reactionForces : Vector3;
  cogToPivot : Vector3;
  jointAxis : Vector3
}.

Record KinState : Type := mkKinState {
  baseWorldTransform : Transform;
  baseVel : Vector3;
  baseOmega : Vector3;
  kin_links : list LinkKin
}.

Definition rest_kin : LinkKin :=
  mkLinkKin identity_transform vzero vzero vzero vzero vzero.

Class MultiBodyKinematics (M : MultiBody) : Type := {
  mb_kin : btMultiBody -> KinState;
  mb_setBaseWorldTransform : Transform -> btMultiBody -> btMultiBody;
  mb_hasSelfCollision : btMultiBody -> bool;
  mb_setHasSelfCollision : bool -> btMultiBody -> btMultiBody
}.

(** The back end keeps one record per link it was sized for; placing the
    base changes the base's transform only; the flag is a flag. *)
Class MultiBodyKinematicsLaws (M : MultiBody) (K : MultiBodyKinematics M) : Prop := {
  mb_kin_length : forall b,
    length (kin_links (mb_kin b)) = Z.to_nat (mb_getNumLinks b);
  mb_setBase_kin : forall t b,
    mb_kin (mb_setBaseWorldTransform t b) =
    mkKinState t (baseVel (mb_kin b)) (baseOmega (mb_kin b))
      (kin_links (mb_kin b));
  mb_setBase_numLinks : forall t b,
    mb_getNumLinks (mb_setBaseWorldTransform t b) = mb_getNumLinks b;
  mb_setSelfCollision_get : forall e b,
    mb_hasSelfCollision (mb_setHasSelfCollision e b) = e;
  mb_setSelfCollision_kin : forall e b,
    mb_kin (mb_setHasSelfCollision e b) = mb_kin b;
  mb_setSelfCollision_numLinks : forall e b,
    mb_getNumLinks (mb_setHasSelfCollision e b) = mb_getNumLinks b
}.

(** What the tree hands to the renderer for one link: the body and where it
    is. *)
Record Drawable : Type := mkDrawable {
  drawable_solid : SolidEntity;
  drawable_model : Transform
}.

(** * The tree's operations *)

Section Tree.
Context `{MK : MultiBodyKinematics}.
Implicit Types (fe : FeatherstoneEntity) (j : FeatherstoneJoint).

(** [getLink(i)]: the back end's record of link [i]. The index is an [int];
    a negative one or one past the end is undefined behaviour. *)
Definition mb_kinLink (i : Z) (b : btMultiBody) : result LinkKin :=
  if decide (0 <= i) then vec_get (kin_links (mb_kin b)) i
  else Err UndefinedBehaviour.

(** [links[index]], checked. *)
Definition getLink (index : Z) fe : result FeatherstoneLink :=
  if decide (0 <= index < links_size fe)
  then from_option_err IndexOutOfRange (links fe !! Z.to_nat index)
  else Err IndexOutOfRange.

(** What the three link queries share: the index is checked against the
    link count; link 0 is the base, link [index] the back end's link
    [index - 1]. *)
Definition link_query {A} (ofBase : KinState -> A) (ofLink : LinkKin -> A)
    (index : Z) fe : result A :=
  if decide (0 <= index < links_size fe) then
    if decide (index = 0) then Ok (ofBase (mb_kin (multiBody fe)))
    else ofLink <$> mb_kinLink (index - 1) (multiBody fe)
  else Err IndexOutOfRange.

Definition getLinkTransform (index : Z) fe : result Transform :=
  link_query baseWorldTransform cachedWorldTransform index fe.

Definition getLinkLinearVelocity (index : Z) fe : result Vector3 :=
  link_query baseVel linkVel index fe.

Definition getLinkAngularVelocity (index : Z) fe : result Vector3 :=
  link_query baseOmega linkOmega index fe.

Definition setBaseTransform (trans : Transform) fe : FeatherstoneEntity :=
  set_multiBody fe (mb_setBaseWorldTransform trans (multiBody fe)).

Definition setSelfCollision (enabled : bool) fe : FeatherstoneEntity :=
  set_multiBody fe (mb_setHasSelfCollision enabled (multiBody fe)).

(** [getJointFeedback] (section 4.3 of the specification): the reaction
    force transmitted through the joint, and the torque derived from it
    ([feedback_torque]). The index is checked as section 4.1 requires of
    every operation that takes one. The joint's feedback slot is a handle
    onto the back end's accumulator (section 3: the back end's state is the
    authoritative one), so the reaction is read from the back end's record
    of the joint's child link, with the lever arm and the axis the joint
    was set up with. *)
Definition getJointFeedback (index : Z) fe : result (Vector3 * Vector3) :=
  j ← joint_at fe index;
  k ← mb_kinLink (joint_link j) (multiBody fe);
  Ok (reactionForces k,
      feedback_torque (cogToPivot k) (reactionForces k) (jointAxis k)).

(** The drawable of link [i], appended. *)
Definition render_link fe (i : nat) (items : list Drawable)
  : result (list Drawable) :=
  l ← getLink (Z.of_nat i) fe;
  t ← getLinkTransform (Z.of_nat i) fe;
  Ok (items ++ [mkDrawable (solid l) t]).

(** [FeatherstoneEntity::Render]: the base when it is renderable, then every
    other link. *)
Definition FeatherstoneEntity_Render fe : result (list Drawable) :=
  items ← (if baseRenderable fe then render_link fe 0 [] else Ok []);
  for_range 1 (length (links fe) - 1) (render_link fe) items.

(** [AddToDynamicsWorld(world, worldTransform)]: the base is placed, then
    the tree is registered. *)
Definition AddToDynamicsWorld_at (worldTransform : Transform) (w : World)
  : result World :=
  AddToDynamicsWorld (mkWorld (setBaseTransform worldTransform (tree w)) (phase w)).

(** * Specifications *)

(** The drawable of link [i] of a tree. *)
Definition drawable_of fe (i : nat) : option Drawable :=
  l ← links fe !! i;
  t ← (match i with
       | O => Some (baseWorldTransform (mb_kin (multiBody fe)))
       | S k => cachedWorldTransform <$> kin_links (mb_kin (multiBody fe)) !! k
       end);
  Some (mkDrawable (solid l) t).

(** What [Render] returns: the drawables of the links in index order, the
    base left out when it is not renderable. *)
Definition tree_drawables fe : list Drawable :=
  omap (drawable_of fe)
    (seq (if baseRenderable fe then 0 else 1)
         (length (links fe) - (if baseRenderable fe then 0 else 1))).

(** Two trees that differ in the back end's pose only. *)
Definition same_structure fe fe' : Prop :=
  links fe' = links fe /\ joints fe' = joints fe /\
  baseRenderable fe' = baseRenderable fe /\
  mb_getNumLinks (multiBody fe') = mb_getNumLinks (multiBody fe).

End Tree.

(** * The tree in use *)

(** Placing the base and setting the flag leave the dynamic state. *)
Class MultiBodyPoseLaws (M : MultiBody) (S : MultiBodyState M)
    (K : MultiBodyKinematics M) : Prop := {
  mb_setBase_dyn : forall t b,
    mb_dyn (mb_setBaseWorldTransform t b) = mb_dyn b;
  mb_setSelfCollision_dyn : forall e b,
    mb_dyn (mb_setHasSelfCollision e b) = mb_dyn b
}.

Section World.
Context `{MS : MultiBodyState} {MK : MultiBodyKinematics M}.

(** What a simulation does with a tree: the steps of its life
    ([Lifecycle.life_step]: construction, attachment, forces, solves), and
    at any time the placement of the base and the self-collision flag;
    attachment may place the base. *)
Inductive world_step : World -> World -> Prop :=
| world_life w w' :
    life_step w w' -> world_step w w'
| world_setBaseTransform trans fe ph :
    world_step (mkWorld fe ph) (mkWorld (setBaseTransform trans fe) ph)
| world_setSelfCollision enabled fe ph :
    world_step (mkWorld fe ph) (mkWorld (setSelfCollision enabled fe) ph)
| world_attach_at worldTransform w w' :
    AddToDynamicsWorld_at worldTransform w = Ok w' -> world_step w w'.

(** The same steps as data: a command of [Lifecycle] or a pose operation. *)
Variant WorldCommand : Type :=
| CmdLife (c : Command)
| CmdSetBaseTransform (trans : Transform)
| CmdSetSelfCollision (enabled : bool)
| CmdAttachAt (worldTransform : Transform).

Definition world_exec (c : WorldCommand) (w : World) : result World :=
  match c with
  | CmdLife c => exec c w
  | CmdSetBaseTransform trans =>
      Ok (mkWorld (setBaseTransform trans (tree w)) (phase w))
  | CmdSetSelfCollision enabled =>
      Ok (mkWorld (setSelfCollision enabled (tree w)) (phase w))
  | CmdAttachAt worldTransform => AddToDynamicsWorld_at worldTransform w
  end.

(** A program: the commands in order, up to the first that fails. *)
Fixpoint world_execs (cs : list WorldCommand) (w : World) : result World :=
  match cs with
  | [] => Ok w
  | c :: cs => w' ← world_exec c w; world_execs cs w'
  end.

End World.

(** * A reference back end with a pose *)

(** The least [btMultiBody] the queries need. Setting up a joint places the
    child link at the pivot, with the pivot as lever arm. *)
Record KinMultiBody : Type := mkKinMultiBody {
  kmb_numLinks : Z;
  kmb_fixedBase : bool;
  kmb_base : Transform;
  kmb_baseVel : Vector3;
  kmb_baseOmega : Vector3;
  kmb_links : list LinkKin;
  kmb_selfCollision : bool;
  kmb_dyn : DynState
}.

Definition kmb_place (pivot axis : Vector3) (k : LinkKin) : LinkKin :=
  mkLinkKin (mkTransform identity_basis pivot) (linkVel k) (linkOmega k)
    (reactionForces k) pivot axis.

#[export] Instance kin_multibody : MultiBody := {|
  btMultiBody := KinMultiBody;
  mb_new n base fixed :=
    mkKinMultiBody n fixed identity_transform vzero vzero
      (replicate (Z.to_nat n) rest_kin) false
      (mkDynState (replicate (Z.to_nat n) rest_link) vzero vzero);
  mb_getNumLinks := kmb_numLinks;
  mb_hasFixedBase := kmb_fixedBase;
  mb_setupJoint _ c _ pivot axis coll b :=
    mkKinMultiBody (kmb_numLinks b) (kmb_fixedBase b) (kmb_base b) (kmb_baseVel b)
      (kmb_baseOmega b) (alter (kmb_place pivot axis) (Z.to_nat c) (kmb_links b))
      (kmb_selfCollision b) (kmb_dyn b)
|}.

(** The view has one record per link, whatever the list holds. *)
#[export] Instance kin_multibody_kinematics : MultiBodyKinematics kin_multibody := {|
  mb_kin b :=
    mkKinState (kmb_base b) (kmb_baseVel b) (kmb_baseOmega b)
      (resize (Z.to_nat (kmb_numLinks b)) rest_kin (kmb_links b));
  mb_setBaseWorldTransform t b :=
    mkKinMultiBody (kmb_numLinks b) (kmb_fixedBase b) t (kmb_baseVel b)
      (kmb_baseOmega b) (kmb_links b) (kmb_selfCollision b) (kmb_dyn b);
  mb_hasSelfCollision := kmb_selfCollision;
  mb_setHasSelfCollision e b :=
    mkKinMultiBody (kmb_numLinks b) (kmb_fixedBase b) (kmb_base b) (kmb_baseVel b)
      (kmb_baseOmega b) (kmb_links b) e (kmb_dyn b)
|}.

(** Its dynamic state is that of [Actuation]'s reference back end; a step
    integrates the joints and leaves the pose. *)
#[export] Instance kin_multibody_state : MultiBodyState kin_multibody := {|
  mb_dyn := kmb_dyn;
  mb_set_dyn d b :=
    mkKinMultiBody (kmb_numLinks b) (kmb_fixedBase b) (kmb_base b) (kmb_baseVel b)
      (kmb_baseOmega b) (kmb_links b) (kmb_selfCollision b) d;
  mb_stepSimulation dt cs b :=
    mkKinMultiBody (kmb_numLinks b) (kmb_fixedBase b) (kmb_base b) (kmb_baseVel b)
      (kmb_baseOmega b) (kmb_links b) (kmb_selfCollision b)
      (mkDynState (euler_step dt cs (dyn_links (kmb_dyn b))) vzero vzero)
|}.

(** A crane: a fixed base, a column turning about z at (0, 0, 1), and a jib
    sliding along x from (2, 0, 1). *)
Definition crane_links : FeatherstoneEntity :=
  Eval vm_compute in
    result_get (Create 3 (demo_solid "base") true)
      (fe ← AddLink (demo_solid "column") identity_transform
              (Create 3 (demo_solid "base") true);
       AddLink (demo_solid "jib") identity_transform fe).

Definition crane : FeatherstoneEntity :=
  Eval vm_compute in
    result_get crane_links
      (r ← AddRevoluteJoint 0 1 (mkVector3 0 0 1) (mkVector3 0 0 1) false crane_links;
       r' ← AddPrismaticJoint 1 2 (mkVector3 1 0 0) false r.2;
       Ok r'.2).

(** The program of a simulation with the crane: the two links, the two
    joints, a motor on the column, attachment at (5, 0, 0), then gravity, a
    torque on the column and a solve. *)
Definition crane_program : list WorldCommand :=
  [CmdLife (CmdBuild (CallAddLink (demo_solid "column") identity_transform));
   CmdLife (CmdBuild (CallAddLink (demo_solid "jib") identity_transform));
   CmdLife (CmdBuild (CallAddRevoluteJoint 0 1 (mkVector3 0 0 1) (mkVector3 0 0 1) false));
   CmdLife (CmdBuild (CallAddPrismaticJoint 1 2 (mkVector3 1 0 0) false));
   CmdLife (CmdBuild (CallAddJointMotor 0));
   CmdAttachAt (mkTransform identity_basis (mkVector3 5 0 0));
   CmdLife (CmdAct (CallApplyGravity (mkVector3 0 0 (-10))));
   CmdLife (CmdAct (CallJoint (CallDriveJoint 0 3)));
   CmdLife (CmdSolve (1 # 100))].

(** The world that program leaves. *)
Definition crane_world : World :=
  Eval vm_compute in
    result_get (mkWorld crane Unattached)
      (world_execs crane_program
         (mkWorld (Create 3 (demo_solid "base") true) Unattached)).

(** The crane after a solve that left a reaction of 10 along -y on the
    column, which turns about z and has the lever arm (1, 0, 1): the moment
    of the reaction is (10, 0, -10), of which -10 is about the axis. *)
Definition crane_loaded : FeatherstoneEntity :=
  Eval vm_compute in
    set_multiBody crane
      (mkKinMultiBody 2 true identity_transform vzero vzero
         [mkLinkKin (mkTransform identity_basis (mkVector3 0 0 1)) vzero vzero
            (mkVector3 0 (-10) 0) (mkVector3 1 0 1) (mkVector3 0 0 1);
          rest_kin] false (mkDynState [rest_link; rest_link] vzero vzero)).

(** * Theorems *)

Section Results.
Context `{MK : MultiBodyKinematics} {MBL : MultiBodyLaws M}
  {MKL : MultiBodyKinematicsLaws M MK}.
Implicit Types (fe : FeatherstoneEntity) (j : FeatherstoneJoint).

(** ** The back end's records *)

Lemma mb_kinLink_Ok i b k :
  mb_kinLink i b = Ok k <-> 0 <= i /\ kin_links (mb_kin b) !! Z.to_nat i = Some k.
Proof.
  unfold mb_kinLink. case_decide; [|crush_iff].
  rewrite vec_get_Ok. crush_iff.
Qed.

(** A link of the back end has its record. *)
Lemma mb_kinLink_in_range i b :
  0 <= i < mb_getNumLinks b -> exists k, mb_kinLink i b = Ok k.
Proof.
  intros Hi. destruct (lookup_lt_is_Some_2 (kin_links (mb_kin b)) (Z.to_nat i)) as [k Hk].
  { rewrite mb_kin_length. lia. }
  exists k. apply mb_kinLink_Ok. split; [lia | done].
Qed.

Lemma getLink_Ok index fe l :
  getLink index fe = Ok l <->
  0 <= index < links_size fe /\ links fe !! Z.to_nat index = Some l.
Proof.
  unfold getLink. case_decide; [|crush_iff].
  destruct (links fe !! Z.to_nat index) eqn:E; cbn; crush_iff.
Qed.

Lemma getLink_total index fe :
  0 <= index < links_size fe -> exists l, getLink index fe = Ok l.
Proof.
  intros Hi. destruct (lookup_lt_is_Some_2 (links fe) (Z.to_nat index)) as [l Hl].
  { unfold links_size in Hi. lia. }
  exists l. by apply getLink_Ok.
Qed.

(** ** Link queries *)

Lemma link_query_base {A} (ofBase : KinState -> A) ofLink fe :
  tree_wf fe -> link_query ofBase ofLink 0 fe = Ok (ofBase (mb_kin (multiBody fe))).
Proof.
  intros Hwf. pose proof (twf_base _ Hwf). unfold link_query.
  rewrite decide_True by lia. by rewrite decide_True.
Qed.

Lemma link_query_link {A} (ofBase : KinState -> A) ofLink index fe :
  tree_wf fe -> 0 < index < links_size fe ->
  exists k, kin_links (mb_kin (multiBody fe)) !! Z.to_nat (index - 1) = Some k /\
    link_query ofBase ofLink index fe = Ok (ofLink k).
Proof.
  intros Hwf Hi. pose proof (twf_declared _ Hwf).
  destruct (mb_kinLink_in_range (index - 1) (multiBody fe)) as [k Hk]; [lia|].
  exists k. split; [by apply mb_kinLink_Ok in Hk as [_ ?]|].
  unfold link_query. rewrite decide_True, decide_False by lia. by rewrite Hk.
Qed.

Lemma link_query_Err {A} (ofBase : KinState -> A) ofLink index fe :
  ~ 0 <= index < links_size fe ->
  link_query ofBase ofLink index fe = Err IndexOutOfRange.
Proof. intros Hi. unfold link_query. by rewrite decide_False. Qed.

(** A query of a well-formed tree answers for every link and for nothing
    else. *)
Lemma link_query_checked {A} (ofBase : KinState -> A) ofLink index fe :
  tree_wf fe ->
  if decide (0 <= index < links_size fe)
  then exists a, link_query ofBase ofLink index fe = Ok a
  else link_query ofBase ofLink index fe = Err IndexOutOfRange.
Proof.
  intros Hwf. case_decide as Hi; [|by apply link_query_Err].
  destruct (decide (index = 0)) as [->|].
  - eexists. by apply link_query_base.
  - destruct (link_query_link ofBase ofLink index fe Hwf) as (k & _ & ->); [lia|eauto].
Qed.

(** The link queries are checked: on a well-formed tree [getLink],
    [getLinkTransform], [getLinkLinearVelocity] and [getLinkAngularVelocity]
    succeed for every index below the link count, reading the back end
    inside its range, and report an out-of-range error for every other
    index. *)
Theorem link_queries_checked index fe :
  tree_wf fe ->
  (0 <= index < links_size fe ->
     is_Ok (getLink index fe) = true /\
     is_Ok (getLinkTransform index fe) = true /\
     is_Ok (getLinkLinearVelocity index fe) = true /\
     is_Ok (getLinkAngularVelocity index fe) = true) /\
  (~ 0 <= index < links_size fe ->
     getLink index fe = Err IndexOutOfRange /\
     getLinkTransform index fe = Err IndexOutOfRange /\
     getLinkLinearVelocity index fe = Err IndexOutOfRange /\
     getLinkAngularVelocity index fe = Err IndexOutOfRange).
Proof.
  intros Hwf. split; intros Hi.
  - destruct (getLink_total index fe Hi) as [l ->].
    unfold getLinkTransform, getLinkLinearVelocity, getLinkAngularVelocity.
    pose proof (link_query_checked baseWorldTransform cachedWorldTransform index fe Hwf) as H1.
    pose proof (link_query_checked baseVel linkVel index fe Hwf) as H2.
    pose proof (link_query_checked baseOmega linkOmega index fe Hwf) as H3.
    rewrite decide_True in H1, H2, H3 by done.
    destruct H1 as [? ->], H2 as [? ->], H3 as [? ->]. done.
  - unfold getLinkTransform, getLinkLinearVelocity, getLinkAngularVelocity.
    rewrite !link_query_Err by done. unfold getLink. by rewrite decide_False.
Qed.


(** ** The base pose *)

Lemma setBaseTransform_structure t fe : same_structure fe (setBaseTransform t fe).
Proof. unfold same_structure. cbn. by rewrite mb_setBase_numLinks. Qed.

Lemma setSelfCollision_structure e fe : same_structure fe (setSelfCollision e fe).
Proof. unfold same_structure. cbn. by rewrite mb_setSelfCollision_numLinks. Qed.

Lemma same_structure_wf fe fe' : same_structure fe fe' -> tree_wf fe -> tree_wf fe'.
Proof.
  intros (Hl & Hj & _ & Hn) [Hb Hd Hw Hjs Hc].
  split; unfold links_size, children in *; rewrite ?Hl, ?Hj, ?Hn; done.
Qed.

(** [setBaseTransform] followed by [getLinkTransform(0)] returns the
    transform that was set; the transforms of the other links, all
    velocities, and the links, joints and declared size of the tree are as
    before. *)
Theorem setBaseTransform_roundtrip t fe :
  tree_wf fe ->
  getLinkTransform 0 (setBaseTransform t fe) = Ok t /\
  (forall index, index <> 0 ->
     getLinkTransform index (setBaseTransform t fe) = getLinkTransform index fe) /\
  (forall index,
     getLinkLinearVelocity index (setBaseTransform t fe) = getLinkLinearVelocity index fe /\
     getLinkAngularVelocity index (setBaseTransform t fe) = getLinkAngularVelocity index fe) /\
  same_structure fe (setBaseTransform t fe).
Proof.
  intros Hwf. pose proof (twf_base _ Hwf).
  unfold getLinkTransform, getLinkLinearVelocity, getLinkAngularVelocity,
    link_query, mb_kinLink, links_size in *. cbn. rewrite mb_setBase_kin. cbn.
  split_and!; [|intros index Hi|intros index; split|apply setBaseTransform_structure];
    repeat case_decide; done || lia.
Qed.

(** ** Joint feedback *)

(** On a joint of a well-formed tree the feedback is read from the record
    of the child link. *)
Lemma getJointFeedback_run index fe :
  tree_wf fe -> 0 <= index < joints_size fe ->
  exists j k, joint_at fe index = Ok j /\
    kin_links (mb_kin (multiBody fe)) !! Z.to_nat (child j - 1) = Some k /\
    getJointFeedback index fe =
      Ok (reactionForces k,
          feedback_torque (cogToPivot k) (reactionForces k) (jointAxis k)).
Proof.
  intros Hwf Hi. destruct (joint_at_total fe index Hi) as [j Hj].
  pose proof (joint_link_exact _ _ _ Hwf Hj) as Hlink.
  destruct (joint_at_ok _ _ _ Hwf Hj) as [_ Hc _ _].
  pose proof (twf_declared _ Hwf).
  destruct (mb_kinLink_in_range (joint_link j) (multiBody fe)) as [k Hk]; [lia|].
  exists j, k. unfold getJointFeedback. rewrite Hj. cbn. rewrite Hk.
  rewrite <- Hlink. by apply mb_kinLink_Ok in Hk as [_ Hk].
Qed.


(** ** Drawing *)

Lemma drawable_of_total fe (i : nat) :
  tree_wf fe -> (i < length (links fe))%nat ->
  exists l t, links fe !! i = Some l /\
    getLinkTransform (Z.of_nat i) fe = Ok t /\
    drawable_of fe i = Some (mkDrawable (solid l) t).
Proof.
  intros Hwf Hi. destruct (lookup_lt_is_Some_2 _ _ Hi) as [l Hl].
  unfold drawable_of, getLinkTransform. rewrite Hl. cbn. destruct i as [|i].
  - rewrite link_query_base by done. eauto.
  - destruct (link_query_link baseWorldTransform cachedWorldTransform (Z.of_nat (S i)) fe Hwf)
      as (k & Hk & ->); [unfold links_size; lia|].
    replace (Z.to_nat (Z.of_nat (S i) - 1)) with i in Hk by lia.
    rewrite Hk. cbn. eauto.
Qed.

Lemma render_link_run fe (i : nat) :
  tree_wf fe -> (i < length (links fe))%nat ->
  exists d, drawable_of fe i = Some d /\
    forall items, render_link fe i items = Ok (items ++ [d]).
Proof.
  intros Hwf Hi. destruct (drawable_of_total fe i Hwf Hi) as (l & t & Hl & Ht & Hd).
  eexists. split; [done|]. intros items. unfold render_link.
  rewrite (proj2 (getLink_Ok _ _ l)), Ht; [done|].
  rewrite Nat2Z.id. unfold links_size. split; [lia | done].
Qed.

Lemma FeatherstoneEntity_Render_run fe :
  tree_wf fe -> FeatherstoneEntity_Render fe = Ok (tree_drawables fe).
Proof.
  intros Hwf. pose proof (twf_base _ Hwf) as Hb. unfold links_size in Hb.
  unfold FeatherstoneEntity_Render, tree_drawables.
  assert (forall i, (1 <= i < 1 + (length (links fe) - 1))%nat ->
    exists d, drawable_of fe i = Some d /\
      forall acc, render_link fe i acc = Ok (acc ++ [d])) as Hloop.
  { intros i Hi. apply render_link_run; [done | lia]. }
  destruct (baseRenderable fe).
  - destruct (render_link_run fe 0 Hwf) as (d & Hd & ->); [lia|]. cbn.
    rewrite (for_range_omap (drawable_of fe)) by done.
    rewrite Nat.sub_0_r. destruct (length (links fe)) as [|n]; [lia|].
    cbn. rewrite Hd. by rewrite Nat.sub_0_r.
  - cbn. by rewrite (for_range_omap (drawable_of fe)).
Qed.

(** [Render] of a well-formed tree returns one drawable per link, in
    index order, each with the link's body and its current world transform;
    the base is left out exactly when it is not renderable. *)
Theorem FeatherstoneEntity_Render_correct fe :
  tree_wf fe ->
  exists items, FeatherstoneEntity_Render fe = Ok items /\
    Z.of_nat (length items) =
      links_size fe - (if baseRenderable fe then 0 else 1) /\
    forall (i : nat) l, links fe !! i = Some l ->
      (i = 0%nat -> baseRenderable fe = true) ->
      exists t, getLinkTransform (Z.of_nat i) fe = Ok t /\
        items !! (i - (if baseRenderable fe then 0 else 1))%nat
          = Some (mkDrawable (solid l) t).
Proof.
  intros Hwf. pose proof (twf_base _ Hwf) as Hb. unfold links_size in *.
  exists (tree_drawables fe). split; [by apply FeatherstoneEntity_Render_run|].
  assert (forall a n i, (a <= i < a + n)%nat -> (a + n <= length (links fe))%nat ->
    is_Some (drawable_of fe i)) as Hsome.
  { intros a n i Hi Hn. destruct (drawable_of_total fe i Hwf) as (l & t & _ & _ & ->); [lia|done]. }
  unfold tree_drawables. split.
  - rewrite omap_seq_length; [destruct (baseRenderable fe); lia|].
    intros i Hi. eapply Hsome; [done|]. destruct (baseRenderable fe); lia.
  - intros i l Hl Hbase. pose proof (lookup_lt_Some _ _ _ Hl) as Hi.
    destruct (drawable_of_total fe i Hwf Hi) as (l' & t & Hl' & Ht & Hd).
    exists t. split; [done|]. rewrite Hl in Hl'. inv Hl'.
    rewrite omap_seq_lookup.
    + rewrite <- Hd. f_equal. destruct (baseRenderable fe); [lia|].
      destruct i; [by specialize (Hbase eq_refl) | lia].
    + intros k Hk. eapply Hsome; [done|]. destruct (baseRenderable fe); lia.
    + destruct (baseRenderable fe); [lia|].
      destruct i; [by specialize (Hbase eq_refl) | lia].
Qed.

(** ** Attachment at a pose *)

(** [AddToDynamicsWorld(world, worldTransform)] on an unattached tree
    attaches it with its base at [worldTransform] and its structure
    unchanged; on a tree that is attached already it is refused. *)
Theorem AddToDynamicsWorld_at_correct t (w : World) :
  tree_wf (tree w) ->
  (phase w = Unattached ->
     exists w', AddToDynamicsWorld_at t w = Ok w' /\ phase w' = Attached /\
       getLinkTransform 0 (tree w') = Ok t /\
       same_structure (tree w) (tree w') /\ tree_wf (tree w')) /\
  (phase w <> Unattached -> AddToDynamicsWorld_at t w = Err UndefinedBehaviour).
Proof.
  intros Hwf. unfold AddToDynamicsWorld_at, AddToDynamicsWorld. cbn.
  destruct (phase w); split; try done. intros _. eexists. split; [done|]. cbn.
  pose proof (setBaseTransform_structure t (tree w)) as Hs.
  split_and!; [done | | done | by eapply same_structure_wf].
  unfold getLinkTransform. rewrite link_query_base by (by eapply same_structure_wf).
  cbn. by rewrite mb_setBase_kin.
Qed.

End Results.


Section WorldResults.
Context `{MS : MultiBodyState} {MK : MultiBodyKinematics M}
  {MBL : MultiBodyLaws M} {MSL : MultiBodyStateLaws M MS}
  {MKL : MultiBodyKinematicsLaws M MK} {MPL : MultiBodyPoseLaws M MS MK}.
Implicit Types (fe : FeatherstoneEntity) (w : World).

(** ** The invariant along the life of a tree *)

Lemma setBaseTransform_ok t fe : tree_ok fe -> tree_ok (setBaseTransform t fe).
Proof.
  intros Hok. apply tree_ok_set_multiBody; [done | apply mb_setBase_numLinks |].
  by rewrite mb_setBase_dyn.
Qed.

Lemma setSelfCollision_ok e fe : tree_ok fe -> tree_ok (setSelfCollision e fe).
Proof.
  intros Hok. apply tree_ok_set_multiBody; [done | apply mb_setSelfCollision_numLinks |].
  by rewrite mb_setSelfCollision_dyn.
Qed.

Lemma AddToDynamicsWorld_at_Ok t w w' :
  AddToDynamicsWorld_at t w = Ok w' <->
  phase w = Unattached /\ w' = mkWorld (setBaseTransform t (tree w)) Attached.
Proof. unfold AddToDynamicsWorld_at. by rewrite AddToDynamicsWorld_Ok. Qed.

Lemma world_step_ok w w' : tree_ok (tree w) -> world_step w w' -> tree_ok (tree w').
Proof.
  intros Hok Hstep.
  destruct Hstep as [w w' H | t fe ph | e fe ph | t w w' [_ ->]%AddToDynamicsWorld_at_Ok];
    simpl in *; eauto using life_step_ok, setBaseTransform_ok, setSelfCollision_ok.
Qed.

Lemma world_run_ok w w' : tree_ok (tree w) -> rtc world_step w w' -> tree_ok (tree w').
Proof. induction 2; eauto using world_step_ok. Qed.

(** ** Programs and runs *)

(** The steps of a world are the commands that succeed. *)
Lemma world_exec_step w w' : world_step w w' <-> exists c, world_exec c w = Ok w'.
Proof.
  split.
  - intros [? ? [c Hc]%exec_step | t fe ph | e fe ph | t ? ? H].
    + by exists (CmdLife c).
    + by exists (CmdSetBaseTransform t).
    + by exists (CmdSetSelfCollision e).
    + by exists (CmdAttachAt t).
  - intros [[c|t|e|t] H]; cbn in H.
    + apply world_life, exec_step. eauto.
    + destruct w. simplify_result. apply world_setBaseTransform.
    + destruct w. simplify_result. apply world_setSelfCollision.
    + by apply (world_attach_at t).
Qed.

(** The runs of a world are the programs that succeed. *)
Lemma world_execs_run w w' :
  rtc world_step w w' <-> exists cs, world_execs cs w = Ok w'.
Proof.
  split.
  - induction 1 as [|w w1 w2 [c Hc]%world_exec_step _ [cs Hcs]]; [by exists []|].
    exists (c :: cs). cbn. by rewrite Hc.
  - intros [cs Hcs]. revert w Hcs. induction cs as [|c cs IH]; intros w Hcs; cbn in Hcs.
    + by simplify_result.
    + simplify_result. eapply rtc_l; [apply world_exec_step; eauto | by apply IH].
Qed.

(** The queries of a well-formed tree run into no undefined behaviour. *)
Lemma queries_defined fe index :
  tree_wf fe ->
  defined (getLink index fe) /\ defined (getLinkTransform index fe) /\
  defined (getLinkLinearVelocity index fe) /\
  defined (getLinkAngularVelocity index fe) /\
  defined (getJointFeedback index fe) /\
  defined (FeatherstoneEntity_Render fe).
Proof.
  intros Hwf. unfold defined.
  pose proof (link_query_checked baseWorldTransform cachedWorldTransform index fe Hwf) as H1.
  pose proof (link_query_checked baseVel linkVel index fe Hwf) as H2.
  pose proof (link_query_checked baseOmega linkOmega index fe Hwf) as H3.
  unfold getLinkTransform, getLinkLinearVelocity, getLinkAngularVelocity.
  split_and!.
  - unfold getLink. case_decide; [|done]. by destruct (links fe !! _).
  - case_decide; [by destruct H1 as [? ->] | by rewrite H1].
  - case_decide; [by destruct H2 as [? ->] | by rewrite H2].
  - case_decide; [by destruct H3 as [? ->] | by rewrite H3].
  - destruct (decide (0 <= index < joints_size fe)) as [Hi|Hi].
    + by destruct (getJointFeedback_run index fe Hwf Hi) as (j & k & _ & _ & ->).
    + unfold getJointFeedback, joint_at. by rewrite decide_False.
  - by rewrite FeatherstoneEntity_Render_run.
Qed.

(** C18. In every world reached from the constructor (with
    [totalNumOfLinks >= 1]) by construction calls, attachment with or
    without a pose, forces, solves, placements of the base and changes of
    the self-collision flag, the tree is well formed, no link query and no
    joint feedback query reaches the back end out of its range, and
    [Render] returns the drawables of the links. *)
Theorem world_queries_defined total base fixed w index :
  1 <= total ->
  rtc world_step (mkWorld (Create total base fixed) Unattached) w ->
  tree_ok (tree w) /\
  defined (getLink index (tree w)) /\
  defined (getLinkTransform index (tree w)) /\
  defined (getLinkLinearVelocity index (tree w)) /\
  defined (getLinkAngularVelocity index (tree w)) /\
  defined (getJointFeedback index (tree w)) /\
  FeatherstoneEntity_Render (tree w) = Ok (tree_drawables (tree w)).
Proof.
  intros Ht Hrun.
  assert (tree_ok (tree w)) as Hok by (eapply world_run_ok; [|done]; by apply Create_ok).
  destruct (queries_defined (tree w) index (proj1 Hok)) as (? & ? & ? & ? & ? & _).
  split_and!; try done. by apply FeatherstoneEntity_Render_run, Hok.
Qed.

(** ** Joint types *)

(** A construction call keeps the type, parent and child of the joints
    there are, and may add one. *)
Lemma build_step_shapes fe fe' :
  build_step fe fe' -> (topology fe).2 `prefix_of` (topology fe').2.
Proof.
  intros Hstep. destruct Hstep as
    [s t fe fe' [_ ->]%AddLink_Ok
    | p c pivot axis coll k fe fe' (_ & _ & _ & ->)%add_joint_Ok
    | p c axis coll k fe fe' (_ & _ & _ & ->)%add_joint_Ok
    | p c k fe fe' (_ & _ & _ & ->)%add_joint_Ok
    | index fe fe' (j & Hj & _ & _ & ->)%AddJointMotor_Ok
    | index lower upper fe fe' (j & Hj & _ & _ & ->)%AddJointLimit_Ok
    | ]; try done;
    try (cbn; rewrite fmap_app; by apply prefix_app_r);
    by rewrite (topology_set_joint fe index j).
Qed.

Lemma world_step_shapes w w' :
  tree_ok (tree w) -> world_step w w' ->
  (topology (tree w)).2 `prefix_of` (topology (tree w')).2.
Proof.
  intros Hok Hstep.
  destruct Hstep as [w w' [fe fe' H | w1 w2 [_ ->]%AddToDynamicsWorld_Ok
                            | fe fe' ph H | dt fe ph H]
                    | t fe ph | e fe ph | t w w' [_ ->]%AddToDynamicsWorld_at_Ok];
    cbn [tree] in *; try done.
  - by apply build_step_shapes.
  - by rewrite (acted_topology fe fe') by (by apply act_step_acted).
Qed.

Lemma world_run_shapes w w' :
  tree_ok (tree w) -> rtc world_step w w' ->
  (topology (tree w)).2 `prefix_of` (topology (tree w')).2.
Proof.
  intros Hok Hrun. induction Hrun as [|w1 w2 w3 Hstep _ IH]; [done|].
  etrans; [by apply world_step_shapes|]. eauto using world_step_ok.
Qed.

(** C22. The type of a joint is fixed when it is created: whatever calls
    and solves follow, the joint keeps its index, its type, its parent and
    its child, and [getJointPosition] and [getJointVelocity] answer with
    that type tag, so a caller reads an angle of a revolute joint and a
    length of a prismatic one for ever. *)
Theorem joint_type_stable w w' index j :
  tree_ok (tree w) -> joint_at (tree w) index = Ok j -> rtc world_step w w' ->
  exists j' q v, joint_at (tree w') index = Ok j' /\
    (type j', parent j', child j') = (type j, parent j, child j) /\
    getJointPosition index (tree w') = Ok (q, type j) /\
    getJointVelocity index (tree w') = Ok (v, type j).
Proof.
  intros Hok Hj Hrun. pose proof (world_run_ok _ _ Hok Hrun) as Hok'.
  pose proof Hj as [Hi Hin]%joint_at_Ok.
  assert ((topology (tree w')).2 !! Z.to_nat index = Some (type j, parent j, child j))
    as Hshape.
  { eapply prefix_lookup_Some; [|exact (world_run_shapes w w' Hok Hrun)].
    cbn. by rewrite list_lookup_fmap, Hin. }
  cbn in Hshape. rewrite list_lookup_fmap in Hshape.
  destruct (joints (tree w') !! Z.to_nat index) as [j'|] eqn:Hj'; [|done].
  injection Hshape as Ht Hp Hc.
  assert (joint_at (tree w') index = Ok j') as Hat.
  { apply joint_at_Ok. split; [|done]. apply lookup_lt_Some in Hj'.
    unfold joints_size. lia. }
  destruct (joint_dyn_total _ _ _ Hok' Hat) as [l Hl].
  exists j', (jointPos l), (jointVel l).
  unfold getJointPosition, getJointVelocity, mb_getJointPos, mb_getJointVel.
  rewrite Hat. cbn. rewrite Hl. cbn. rewrite Ht, Hp, Hc. done.
Qed.

End WorldResults.

(** * The reference back end and the crane *)

#[export] Instance kin_multibody_laws : MultiBodyLaws kin_multibody.
Proof. by split. Qed.

#[export] Instance kin_multibody_kinematics_laws :
  MultiBodyKinematicsLaws kin_multibody kin_multibody_kinematics.
Proof. split; try done. intros b. cbn. by rewrite length_resize. Qed.

#[export] Instance kin_multibody_state_laws :
  MultiBodyStateLaws kin_multibody kin_multibody_state.
Proof.
  split; try done.
  - intros dt cs b. apply length_euler_step.
  - intros dt cs b. split; [apply euler_step_unloaded | done].
Qed.

#[export] Instance kin_multibody_pose_laws :
  MultiBodyPoseLaws kin_multibody kin_multibody_state kin_multibody_kinematics.
Proof. by split. Qed.

Lemma crane_wf : tree_wf crane.
Proof. by apply (bool_decide_unpack _). Qed.

Lemma crane_ok : tree_ok crane.
Proof. by apply (bool_decide_unpack _). Qed.


Lemma link_queries_checked_witness :
  (0 <= 2 < links_size crane ->
     is_Ok (getLink 2 crane) = true /\
     is_Ok (getLinkTransform 2 crane) = true /\
     is_Ok (getLinkLinearVelocity 2 crane) = true /\
     is_Ok (getLinkAngularVelocity 2 crane) = true) /\
  (~ 0 <= 2 < links_size crane ->
     getLink 2 crane = Err IndexOutOfRange /\
     getLinkTransform 2 crane = Err IndexOutOfRange /\
     getLinkLinearVelocity 2 crane = Err IndexOutOfRange /\
     getLinkAngularVelocity 2 crane = Err IndexOutOfRange).
Proof. exact (link_queries_checked 2 crane crane_wf). Defined.

Lemma setBaseTransform_roundtrip_witness :
  getLinkTransform 0
    (setBaseTransform (mkTransform identity_basis (mkVector3 5 0 0)) crane)
  = Ok (mkTransform identity_basis (mkVector3 5 0 0)).
Proof.
  exact (proj1 (setBaseTransform_roundtrip
                  (mkTransform identity_basis (mkVector3 5 0 0)) crane crane_wf)).
Defined.


(** The feedback of the loaded crane, evaluated: the part of the moment
    about the axis is left out. *)
Lemma crane_loaded_feedback :
  exists tau, getJointFeedback 0 crane_loaded = Ok (mkVector3 0 (-10) 0, tau) /\
    veq tau (mkVector3 10 0 0) /\
    veq (cross (mkVector3 1 0 1) (mkVector3 0 (-10) 0)) (mkVector3 10 0 (-10)).
Proof. eexists. split; [reflexivity|]. by vm_compute. Qed.

Lemma FeatherstoneEntity_Render_correct_witness :
  exists items, FeatherstoneEntity_Render crane = Ok items /\
    Z.of_nat (length items) =
      links_size crane - (if baseRenderable crane then 0 else 1) /\
    forall (i : nat) l, links crane !! i = Some l ->
      (i = 0%nat -> baseRenderable crane = true) ->
      exists t, getLinkTransform (Z.of_nat i) crane = Ok t /\
        items !! (i - (if baseRenderable crane then 0 else 1))%nat
          = Some (mkDrawable (solid l) t).
Proof. exact (FeatherstoneEntity_Render_correct crane crane_wf). Defined.

Lemma AddToDynamicsWorld_at_correct_witness :
  exists w', AddToDynamicsWorld_at identity_transform (mkWorld crane Unattached) = Ok w' /\
    phase w' = Attached /\
    getLinkTransform 0 (tree w') = Ok identity_transform /\
    same_structure crane (tree w') /\ tree_wf (tree w').
Proof.
  apply (proj1 (AddToDynamicsWorld_at_correct identity_transform
                  (mkWorld crane Unattached) crane_wf)). done.
Defined.

Lemma world_queries_defined_witness :
  tree_ok (tree crane_world) /\
  defined (getLink 1 (tree crane_world)) /\
  defined (getLinkTransform 1 (tree crane_world)) /\
  defined (getLinkLinearVelocity 1 (tree crane_world)) /\
  defined (getLinkAngularVelocity 1 (tree crane_world)) /\
  defined (getJointFeedback 1 (tree crane_world)) /\
  FeatherstoneEntity_Render (tree crane_world)
    = Ok (tree_drawables (tree crane_world)).
Proof.
  apply (world_queries_defined 3 (demo_solid "base") true crane_world 1); [lia|].
  apply world_execs_run. exists crane_program. by vm_compute.
Defined.

Lemma joint_type_stable_witness :
  exists j' q v, joint_at (StepSimulation 1 crane) 0 = Ok j' /\
    (type j', parent j', child j') = (eRevolute, 0, 1) /\
    getJointPosition 0 (StepSimulation 1 crane) = Ok (q, eRevolute) /\
    getJointVelocity 0 (StepSimulation 1 crane) = Ok (v, eRevolute).
Proof.
  apply (joint_type_stable (mkWorld crane Unattached)
           (mkWorld (StepSimulation 1 crane) Stepping) 0
           (FeatherstoneJoint_ctor eRevolute 0 1) crane_ok); [done|].
  eapply rtc_l; [by apply world_life, life_attach|].
  by apply rtc_once, world_life, (life_solve 1 crane Attached).
Defined.
