(* ===== verification/Devices.v ===== *)
(** * Devices: the data of the components that are declared only

    Three headers of the repository declare classes whose member functions
    are defined elsewhere: the motor actuator
    ([src/Library/include/actuators/Motor.h]) and the rendering pipeline and
    sky ([src/unnamed/part_001]: OpenGLPipeline.h, OpenGLSky.h). This file
    holds what these headers define, and nothing else: the fields of
    [Motor], the flags of [OpenGLPipeline], the static fields of
    [OpenGLSky], the enumeration [SkyCubemap] with the values C gives its
    constants, and the colour macros. No member function of these classes
    is modelled: their bodies are in no source, and the specification puts
    rendering out of scope and does not describe the motor class. *)

From Stdlib Require Import ZArith QArith Lia.
From stdpp Require Import base tactics list finite.
From S2P Require Import Prelude Linalg.

Local Open Scope Z_scope.

(** * The motor actuator *)

(** The protected fields of [class Motor]: the torque and its limits. *)
Record Motor : Type := mkMotor {
  torque : Scalar;
  limits : Scalar * Scalar
}.

(** * The rendering pipeline *)

(** The private flags of [class OpenGLPipeline]. *)
Record OpenGLPipeline : Type := mkOpenGLPipeline {
  renderSky : bool;
  renderShadows : bool;
  renderFluid : bool;
  renderSAO : bool;
  showCoordSys : bool;
  showJoints : bool;
  showActuators : bool;
  showSensors : bool;
  showStickers : bool
}.

(** An RGBA colour, as the arguments of [glColor4f]. *)
Record Color : Type := mkColor { red : Scalar; green : Scalar; blue : Scalar; alpha : Scalar }.

Definition glDummyColor : Color := mkColor 1 (4 # 10) (1 # 10) 1.
Definition glXAxisColor : Color := mkColor 1 0 0 1.
Definition glYAxisColor : Color := mkColor 0 1 0 1.
Definition glZAxisColor : Color := mkColor 0 0 1 1.
Definition glContactColor : Color := mkColor 1 0 0 1.

(** * The sky *)

Variant SkyCubemap : Type :=
| SKY
| DOWNSAMPLE2
| DOWNSAMPLE4
| DOWNSAMPLE8
| CONVOLUTION_DIFFUSE
| CONVOLUTION_REFLECT.

(** The value of each constant: C numbers them from 0 in order. *)
Definition SkyCubemap_value (c : SkyCubemap) : Z :=
  match c with
  | SKY => 0
  | DOWNSAMPLE2 => 1
  | DOWNSAMPLE4 => 2
  | DOWNSAMPLE8 => 3
  | CONVOLUTION_DIFFUSE => 4
  | CONVOLUTION_REFLECT => 5
  end.

(** The constant of a value, if any. *)
Definition SkyCubemap_of_value (v : Z) : option SkyCubemap :=
  match v with
  | 0 => Some SKY
  | 1 => Some DOWNSAMPLE2
  | 2 => Some DOWNSAMPLE4
  | 3 => Some DOWNSAMPLE8
  | 4 => Some CONVOLUTION_DIFFUSE
  | 5 => Some CONVOLUTION_REFLECT
  | _ => None
  end.

(** OpenGL's object names and sizes, and a shader as its program name, if
    it was created. *)
Definition GLuint : Type := Z.
Definition GLsizei : Type := Z.
Definition GLSLShader : Type := Z.

(** The static fields of [class OpenGLSky]. *)
Record OpenGLSky : Type := mkOpenGLSky {
  skyCubeFBO : GLuint;
  skyCubeSize : GLsizei;
  skyCubemap : GLuint;
  skyCubeShader : option GLSLShader;
  ds2FBO : GLuint;
  ds4FBO : GLuint;
  ds8FBO : GLuint;
  ds2Cubemap : GLuint;
  ds4Cubemap : GLuint;
  ds8Cubemap : GLuint;
  dsShader : option GLSLShader;
  convolveFBO : GLuint;
  convolveDiffuseCubemap : GLuint;
  convolveReflectionCubemap : GLuint;
  convolveShader : option GLSLShader;
  skyDrawShader : option GLSLShader;
  debugAngle : Scalar
}.

(** * Facts *)

#[export] Instance SkyCubemap_eq_dec : EqDecision SkyCubemap.
Proof. solve_decision. Defined.

#[export] Instance SkyCubemap_finite : Finite SkyCubemap.
Proof.
  refine {| enum := [SKY; DOWNSAMPLE2; DOWNSAMPLE4; DOWNSAMPLE8;
                     CONVOLUTION_DIFFUSE; CONVOLUTION_REFLECT] |}.
  - by apply (bool_decide_unpack _).
  - intros []; by apply (bool_decide_unpack _).
Defined.

Lemma SkyCubemap_roundtrip c : SkyCubemap_of_value (SkyCubemap_value c) = Some c.
Proof. by destruct c. Qed.

Lemma SkyCubemap_value_range c : 0 <= SkyCubemap_value c < 6.
Proof. destruct c; simpl; lia. Qed.

Lemma SkyCubemap_of_value_Some v c :
  SkyCubemap_of_value v = Some c <-> v = SkyCubemap_value c.
Proof.
  split; [|intros ->; apply SkyCubemap_roundtrip].
  destruct v as [|[[[]|[]|]|[[]|[]|]|]|]; simpl; intros [= <-]; done.
Qed.

#[export] Instance SkyCubemap_value_inj : Inj (=) (=) SkyCubemap_value.
Proof.
  intros c1 c2 Heq. pose proof (SkyCubemap_roundtrip c1) as H1.
  rewrite Heq, SkyCubemap_roundtrip in H1. congruence.
Qed.
